(** * Recall portfolio rebalancing: a shallow embedding and its properties

    The development follows the TypeScript sources of the rebalancing
    workflow: the trade splitter and the single-trade executor ([utils.ts]),
    the allocation analyzer ([analyze-allocation-step.ts]), the iterative
    rebalancing step, the price-fetching step and the two trading tools
    ([trading-tools.ts]) with the token registry they resolve symbols in;
    then the chain analysis and consolidation steps, the report, the price
    tools ([price-tools.ts]) and the workflow that chains the six steps.

    Modelling conventions.
    - A JavaScript [number] is an exact rational ([Q]).  Rounding, [NaN] and
      the infinities are outside that model; [x || d] and [!x] test [x == 0].
      Where the result depends on rounding, in the number of sub-trades the
      splitter pushes, the function is given a second time over binary64
      floats (module [Binary64]).
    - Dividing by zero does not raise in JavaScript.  So that its absence can
      be stated, every division goes through [jsdiv], which reports a zero
      divisor as the failure [DivisionByZero].
    - A plain object used as a dictionary ([Record<string, number>]) is an
      association list in insertion order, which is the order in which
      [Object.entries] enumerates keys that are not array indices.
    - External collaborators (the HTTP API behind the tools, the price tool)
      are an environment [Env] answering as a function of the history of
      events; effectful code runs in the monad [M], which threads that
      history and carries thrown errors. *)

From Stdlib Require Import QArith Qround Qabs Qminmax ZArith List String Ascii Bool Lia
  Permutation Sorted DecimalString Lqa.
From Stdlib Require Floats Uint63.
Import ListNotations.
Local Open Scope string_scope.
Local Open Scope list_scope.
Local Open Scope Q_scope.

(** * Part I: the model *)

(** ** JavaScript numbers as rationals *)

Module JS.

(** [!x] for a number. *)
Definition falsy (x : Q) : bool := Qeq_bool x 0.

(** [x <= y], [x < y], [x >= y], [x > y]. *)
Definition leb (x y : Q) : bool := Qle_bool x y.
Definition ltb (x y : Q) : bool := negb (Qle_bool y x).
Definition geb (x y : Q) : bool := Qle_bool y x.
Definition gtb (x y : Q) : bool := negb (Qle_bool x y).

(** [o || d] where [o] is a possibly missing dictionary entry. *)
Definition orElse (o : option Q) (d : Q) : Q :=
  match o with
  | Some v => if falsy v then d else v
  | None => d
  end.

(** [!s] for an optional string: [undefined] and the empty string. *)
Definition truthyString (o : option string) : bool :=
  match o with
  | Some EmptyString => false
  | Some _ => true
  | None => false
  end.

(** [a === b] on optional strings. *)
Definition optStringEqb (a b : option string) : bool :=
  match a, b with
  | Some x, Some y => String.eqb x y
  | None, None => true
  | _, _ => false
  end.

(** [o || d] on strings. *)
Definition orString (o : option string) (d : string) : string :=
  match o with
  | Some EmptyString => d
  | Some s => s
  | None => d
  end.

(** [String.prototype.toLowerCase] on ASCII text. *)
Definition lowerAscii (c : ascii) : ascii :=
  let n := nat_of_ascii c in
  if (Nat.leb 65 n && Nat.leb n 90)%bool then ascii_of_nat (n + 32) else c.

Fixpoint toLowerCase (s : string) : string :=
  match s with
  | EmptyString => EmptyString
  | String c r => String (lowerAscii c) (toLowerCase r)
  end.

(** [s.replace(c, empty)]: the first occurrence of the character is dropped. *)
Fixpoint removeFirst (c : ascii) (s : string) : string :=
  match s with
  | EmptyString => EmptyString
  | String d r => if Ascii.eqb d c then r else String d (removeFirst c r)
  end.

(** [list.includes(s)] *)
Definition includes (l : list string) (s : string) : bool :=
  existsb (String.eqb s) l.

(** [list.reduce((max, cur) => pick max cur)] without initial value, on a
    list given as head and tail. *)
Definition reduce1 {A} (pick : A -> A -> A) (h : A) (t : list A) : A :=
  fold_left pick t h.

End JS.

(** ** Failures *)

Inductive Failure : Type :=
| DivisionByZero
| TypeError (msg : string)
| ThrownError (msg : string)
| HttpError (status : option Z)
| OutOfFuel.

Inductive Result (A : Type) : Type :=
| Ok (a : A)
| Err (e : Failure).
Arguments Ok {A} a.
Arguments Err {A} e.

Definition rbind {A B} (r : Result A) (k : A -> Result B) : Result B :=
  match r with
  | Ok a => k a
  | Err e => Err e
  end.

Fixpoint rfold {A B} (f : A -> B -> Result A) (l : list B) (a : A) : Result A :=
  match l with
  | [] => Ok a
  | b :: r => rbind (f a b) (rfold f r)
  end.

Definition jsdiv (a b : Q) : Result Q :=
  if Qeq_bool b 0 then Err DivisionByZero else Ok (a / b).

(** ** Dictionaries in insertion order *)

Definition Dict (V : Type) : Type := list (string * V).

Fixpoint dget {V} (k : string) (d : Dict V) : option V :=
  match d with
  | [] => None
  | (k', v) :: r => if String.eqb k' k then Some v else dget k r
  end.

(** [d[k] = v]: an existing key keeps its position, a new key goes last. *)
Fixpoint dset {V} (k : string) (v : V) (d : Dict V) : Dict V :=
  match d with
  | [] => [(k, v)]
  | (k', v') :: r =>
      if String.eqb k' k then (k', v) :: r else (k', v') :: dset k v r
  end.

Definition keys {V} (d : Dict V) : list string := map fst d.

(** ** Planned trades ([types.ts]) *)

Inductive Action : Type := buy | sell.

Definition Action_eqb (a b : Action) : bool :=
  match a, b with
  | buy, buy | sell, sell => true
  | _, _ => false
  end.

Record TradeParams : Type := {
  action : Action;
  symbol : string;
  currentAmount : Q;
  targetAmount : Q;
  differenceAmount : Q;
  differenceValueUSD : Q;
  priority : Q;
  preferredChain : string
}.

(** [SubTradeParams extends TradeParams]. *)
Record SubTradeParams : Type := {
  base : TradeParams;
  subTradeIndex : Z;
  totalSubTrades : Z
}.

(** [{...trade, differenceAmount: a, differenceValueUSD: v}] *)
Definition withDifference (t : TradeParams) (a v : Q) : TradeParams :=
  {| action := action t;
     symbol := symbol t;
     currentAmount := currentAmount t;
     targetAmount := targetAmount t;
     differenceAmount := a;
     differenceValueUSD := v;
     priority := priority t;
     preferredChain := preferredChain t |}.

(** [{...trade, subTradeIndex: 1, totalSubTrades: 1}] *)
Definition singleTrade (t : TradeParams) : SubTradeParams :=
  {| base := t; subTradeIndex := 1; totalSubTrades := 1 |}.

(** ** Constants ([constants.ts] of the workflow) *)

Definition DEFAULT_TARGET_ALLOCATION : Dict Q :=
  [("USDC", 0); ("WETH", 0); ("USDT", 1); ("SOL", 0)].

Definition DEFAULT_REBALANCE_THRESHOLD : Q := 1 # 1000.
Definition DEFAULT_MIN_TRADE_VALUE_USD : Q := 1 # 100.
Definition MAX_TRADE_SIZE_PERCENT : Q := 25 # 100.
Definition SUB_TRADE_DELAY_MS : Z := 3000.

(** Each preference list is given as its first chain and the rest. *)
Definition CHAIN_PREFERENCES : Dict (string * list string) :=
  [("USDC", ("eth", ["arbitrum"; "polygon"; "base"; "optimism"; "svm"]));
   ("WETH", ("eth", ["arbitrum"; "optimism"; "polygon"; "base"]));
   ("USDT", ("eth", ["arbitrum"; "polygon"; "optimism"; "base"; "svm"]));
   ("SOL", ("svm", []))].

Module REBALANCING_CONFIG.
Definition maxIterations : Z := 10.
Definition convergenceThreshold : Q := 5 # 1000.
Definition maxTradesPerIteration : nat := 3.
End REBALANCING_CONFIG.

(** ** The trade splitter ([utils.ts], splitTradeIntoSubTrades) *)

(** The [for] loop that pushes [numberOfSubTrades] equal sub-trades. *)
Definition subTradesLoop (t : TradeParams) (numberOfSubTrades : Z)
    (subTradeAmount subTradeValueUSD : Q) : list SubTradeParams :=
  map (fun i : nat =>
         {| base := withDifference t subTradeAmount subTradeValueUSD;
            subTradeIndex := Z.of_nat i + 1;
            totalSubTrades := numberOfSubTrades |})
      (seq 0 (Z.to_nat numberOfSubTrades)).

Definition splitTradeIntoSubTrades (t : TradeParams)
    (totalPortfolioValueUSD maxTradePercent : Q) : Result (list SubTradeParams) :=
  if JS.falsy totalPortfolioValueUSD
     || JS.leb totalPortfolioValueUSD 0
     || JS.falsy maxTradePercent
     || JS.leb maxTradePercent 0
  then Ok [singleTrade t]
  else
    let maxTradeValueUSD := totalPortfolioValueUSD * maxTradePercent in
    if JS.falsy maxTradeValueUSD
       || JS.leb maxTradeValueUSD 0
       || JS.falsy (differenceValueUSD t)
       || JS.leb (differenceValueUSD t) 0
    then Ok [singleTrade t]
    else if JS.leb (differenceValueUSD t) maxTradeValueUSD
    then Ok [singleTrade t]
    else
      rbind (jsdiv (differenceValueUSD t) maxTradeValueUSD) (fun ratio =>
      let numberOfSubTrades := Z.max 1 (Qceiling ratio) in
      rbind (jsdiv (differenceValueUSD t) (inject_Z numberOfSubTrades)) (fun subTradeValueUSD =>
      rbind (jsdiv (differenceAmount t) (inject_Z numberOfSubTrades)) (fun subTradeAmount =>
      Ok (subTradesLoop t numberOfSubTrades subTradeAmount subTradeValueUSD)))).

(** ** The trade splitter in double precision

    A JavaScript [number] is a binary64 float.  The splitter is given a
    second time over the primitive floats, with the operations the engine
    performs (IEEE 754 product, quotient and comparisons, [Math.ceil],
    [Math.max]), to state what the exact model above cannot: how many
    sub-trades the code pushes when the quotient is rounded. *)

Module Binary64.
Import PrimFloat.
#[local] Set Warnings "-inexact-float".

Record TradeParams : Type := {
  action : Action;
  symbol : string;
  currentAmount : float;
  targetAmount : float;
  differenceAmount : float;
  differenceValueUSD : float;
  priority : float;
  preferredChain : string
}.

(** [subTradeIndex] counts the passes of the loop; [totalSubTrades] is the
    number [numberOfSubTrades] itself. *)
Record SubTradeParams : Type := {
  base : TradeParams;
  subTradeIndex : Z;
  totalSubTrades : float
}.

(** [{...trade, differenceAmount: a, differenceValueUSD: v}] *)
Definition withDifference (t : TradeParams) (a v : float) : TradeParams :=
  {| action := action t;
     symbol := symbol t;
     currentAmount := currentAmount t;
     targetAmount := targetAmount t;
     differenceAmount := a;
     differenceValueUSD := v;
     priority := priority t;
     preferredChain := preferredChain t |}.

(** [!x]: true of [0], [-0] and [NaN]. *)
Definition falsy (x : float) : bool := eqb x zero || is_nan x.

(** [Math.ceil(x)]: a finite [x] is [m * 2^e] up to its sign; with [e >= 0]
    it is an integer already, otherwise the integer is below [2^53] and
    converts exactly.  Zeros, infinities and [NaN] are returned as they are;
    a number in (-1, 0) gives [-0]. *)
Definition Math_ceil (x : float) : float :=
  match FloatOps.Prim2SF x with
  | SpecFloat.S754_finite s m e =>
      if (0 <=? e)%Z then x
      else
        let q := Z.shiftr (Zpos m) (- e) in
        let exact := Z.eqb (Z.shiftl q (- e)) (Zpos m) in
        if s then opp (of_uint63 (Uint63.of_Z q))
        else of_uint63 (Uint63.of_Z (if exact then q else q + 1))
  | _ => x
  end.

(** [Math.max(a, b)] for [a] other than a zero: [NaN] if either is [NaN]. *)
Definition Math_max (a b : float) : float :=
  if is_nan a || is_nan b then nan
  else if ltb a b then b else a.

(** An array holds at most [2^32 - 1] elements. *)
Definition maxArrayLength : Z := 4294967295.

(** The number of passes of [for (let i = 0; i < n; i++) subTrades.push(..)]:
    none when [n] is [NaN], a zero or negative; [ceil n] for a positive
    finite [n].  [None] when the loop cannot end with an array: [n] is
    [Infinity] or exceeds the greatest array length. *)
Definition forLoopCount (n : float) : option nat :=
  match FloatOps.Prim2SF n with
  | SpecFloat.S754_finite false m e =>
      let passes :=
        if (0 <=? e)%Z then (Zpos m * 2 ^ e)%Z
        else
          let q := Z.shiftr (Zpos m) (- e) in
          if Z.eqb (Z.shiftl q (- e)) (Zpos m) then q else (q + 1)%Z in
      if (passes <=? maxArrayLength)%Z then Some (Z.to_nat passes) else None
  | SpecFloat.S754_infinity false => None
  | _ => Some 0%nat
  end.

(** [{...trade, subTradeIndex: 1, totalSubTrades: 1}] *)
Definition singleTrade (t : TradeParams) : SubTradeParams :=
  {| base := t; subTradeIndex := 1; totalSubTrades := one |}.

(** The [for] loop, given the number of its passes. *)
Definition subTradesLoop (t : TradeParams) (passes : nat) (numberOfSubTrades : float)
    (subTradeAmount subTradeValueUSD : float) : list SubTradeParams :=
  map (fun i : nat =>
         {| base := withDifference t subTradeAmount subTradeValueUSD;
            subTradeIndex := Z.of_nat i + 1;
            totalSubTrades := numberOfSubTrades |})
      (seq 0 passes).

Definition splitTradeIntoSubTrades (t : TradeParams)
    (totalPortfolioValueUSD maxTradePercent : float) : Result (list SubTradeParams) :=
  if falsy totalPortfolioValueUSD
     || leb totalPortfolioValueUSD zero
     || falsy maxTradePercent
     || leb maxTradePercent zero
  then Ok [singleTrade t]
  else
    let maxTradeValueUSD := mul totalPortfolioValueUSD maxTradePercent in
    if falsy maxTradeValueUSD
       || leb maxTradeValueUSD zero
       || falsy (differenceValueUSD t)
       || leb (differenceValueUSD t) zero
    then Ok [singleTrade t]
    else if leb (differenceValueUSD t) maxTradeValueUSD
    then Ok [singleTrade t]
    else
      let numberOfSubTrades :=
        Math_max one (Math_ceil (div (differenceValueUSD t) maxTradeValueUSD)) in
      let subTradeValueUSD := div (differenceValueUSD t) numberOfSubTrades in
      let subTradeAmount := div (differenceAmount t) numberOfSubTrades in
      match forLoopCount numberOfSubTrades with
      | Some passes =>
          Ok (subTradesLoop t passes numberOfSubTrades subTradeAmount subTradeValueUSD)
      | None => Err (ThrownError "Invalid array length")
      end.

(** *** Notions used to state its properties *)

(** The function's validation guards, or a value within the limit: the
    cases in which the trade is returned alone. *)
Definition returnedAlone (t : TradeParams) (total fraction : float) : bool :=
  falsy total || leb total zero || falsy fraction || leb fraction zero
  || falsy (mul total fraction) || leb (mul total fraction) zero
  || falsy (differenceValueUSD t) || leb (differenceValueUSD t) zero
  || leb (differenceValueUSD t) (mul total fraction).

(** The rational number a finite double is. *)
Definition exactValue (x : float) : option Q :=
  match FloatOps.Prim2SF x with
  | SpecFloat.S754_zero _ => Some 0%Q
  | SpecFloat.S754_finite s m e =>
      let v := if (0 <=? e)%Z then inject_Z (Zpos m * 2 ^ e)
               else (Zpos m # Z.to_pos (2 ^ (- e)))%Q in
      Some (if s then (- v)%Q else v)
  | _ => None
  end.

(** A trade of the given amount and value. *)
Definition sampleTrade (amount value : float) : TradeParams :=
  {| action := sell; symbol := "WETH"; currentAmount := amount; targetAmount := zero;
     differenceAmount := amount; differenceValueUSD := value; priority := 50%float;
     preferredChain := "eth" |}.

(** The scenario of the specification, and two inputs at the edge of
    rounding and of the number range. *)
Definition scenarioTotal : float := 100000%float.
Definition scenarioValue : float := 40000%float.
Definition scenarioShare : float := 20000%float.
Definition quarter : float := 0.25%float.
Definition roundedTotal : float := 72154.28%float.
Definition roundedValue : float := 90192.85%float.
Definition tinyTotal : float := 1e-300%float.
Definition hugeValue : float := 1e300%float.

End Binary64.

(** ** Portfolio, prices and configuration ([types.ts]) *)

Module Balance.
Record t : Type := {
  tokenAddress : string;
  amount : Q;
  specificChain : string;
  symbol : string;
  chain : string
}.
End Balance.

Record PortfolioDataType : Type := {
  portfolioSuccess : bool;
  balances : list Balance.t
}.

Record PriceDataType : Type := {
  priceSuccess : bool;
  prices : Dict Q
}.

Record ConfigType : Type := {
  targetAllocation : Dict Q;
  consolidateToChain : option string;
  rebalanceThreshold : Q;
  minTradeValueUSD : Q;
  maxSlippage : string;
  forceRebalance : bool;
  skipConsolidation : bool
}.

(** [config.forceRebalance = false] *)
Definition clearForceRebalance (c : ConfigType) : ConfigType :=
  {| targetAllocation := targetAllocation c;
     consolidateToChain := consolidateToChain c;
     rebalanceThreshold := rebalanceThreshold c;
     minTradeValueUSD := minTradeValueUSD c;
     maxSlippage := maxSlippage c;
     forceRebalance := false;
     skipConsolidation := skipConsolidation c |}.

Record AllocationAnalysis : Type := {
  totalValueUSD : Q;
  currentAllocation : Dict Q;
  analysisTargetAllocation : Dict Q;
  allocationDrift : Dict Q;
  needsRebalancing : bool;
  rebalancingPlan : list TradeParams
}.

(** ** Allocation arithmetic shared by the analyzer and the rebalancing loop *)

(** [balance.symbol === "USDbC" ? "USDC" : balance.symbol] *)
Definition normalizeSymbol (s : string) : string :=
  if String.eqb s "USDbC" then "USDC" else s.

(** The loop grouping balances by normalized symbol. *)
Definition groupBySymbol (bs : list Balance.t) : Dict Q :=
  fold_left
    (fun symbolTotals b =>
       let normalizedSymbol := normalizeSymbol (Balance.symbol b) in
       dset normalizedSymbol
            (JS.orElse (dget normalizedSymbol symbolTotals) 0 + Balance.amount b)
            symbolTotals)
    bs [].

(** [prices.prices[symbol] || 0] *)
Definition priceOf (p : PriceDataType) (s : string) : Q :=
  JS.orElse (dget s (prices p)) 0.

(** The analyzer's loop over [Object.entries(symbolTotals)]: it accumulates
    the portfolio value and copies the amounts into [currentAllocation]. *)
Definition valueLoop (p : PriceDataType) (symbolTotals : Dict Q) : Q * Dict Q :=
  fold_left
    (fun (acc : Q * Dict Q) (e : string * Q) =>
       let valueUSD := snd e * priceOf p (fst e) in
       (fst acc + valueUSD, dset (fst e) (snd e) (snd acc)))
    symbolTotals (0, []).

(** [totalValueUSD > 0 ? valueUSD / totalValueUSD : 0] for every target key. *)
Definition percentLoop (p : PriceDataType) (target amounts : Dict Q) (total : Q)
    : Result (Dict Q) :=
  rfold
    (fun currentAllocationPercent (e : string * Q) =>
       let amount := JS.orElse (dget (fst e) amounts) 0 in
       let price := priceOf p (fst e) in
       let valueUSD := amount * price in
       rbind (if JS.gtb total 0 then jsdiv valueUSD total else Ok 0) (fun pct =>
       Ok (dset (fst e) pct currentAllocationPercent)))
    target [].

(** The drift loop: [allocationDrift] and [maxDrift]. *)
Definition driftLoop (target currentAllocationPercent : Dict Q) : Dict Q * Q :=
  fold_left
    (fun (acc : Dict Q * Q) (e : string * Q) =>
       let currentPercent := JS.orElse (dget (fst e) currentAllocationPercent) 0 in
       let drift := Qabs (currentPercent - snd e) in
       (dset (fst e) drift (fst acc), Qmax (snd acc) drift))
    target ([], 0).

(** [allocationDrift[symbol]], read after the drift loop has written every
    target key. *)
Definition driftOf (allocationDrift : Dict Q) (s : string) : Q :=
  match dget s allocationDrift with
  | Some d => d
  | None => 0
  end.

(** One pass of the loop over target symbols: the entry pushed for
    [(symbol, targetPercent)], if any.  [chainFor] is the expression giving
    [preferredChain], evaluated only when the entry is pushed. *)
Definition targetEntry (p : PriceDataType) (cfg : ConfigType) (amounts allocationDrift : Dict Q)
    (total : Q) (chainFor : string -> Result string) (e : string * Q)
    : Result (list TradeParams) :=
  let currentAmount := JS.orElse (dget (fst e) amounts) 0 in
  let price := priceOf p (fst e) in
  let targetValueUSD := total * snd e in
  rbind (if JS.gtb price 0 then jsdiv targetValueUSD price else Ok 0) (fun targetAmount =>
  let differenceAmount := targetAmount - currentAmount in
  let differenceValueUSD := Qabs (differenceAmount * price) in
  if JS.geb differenceValueUSD (minTradeValueUSD cfg) then
    rbind (chainFor (fst e)) (fun preferredChain =>
    Ok [ {| action := if JS.gtb differenceAmount 0 then buy else sell;
            symbol := fst e;
            currentAmount := currentAmount;
            targetAmount := targetAmount;
            differenceAmount := Qabs differenceAmount;
            differenceValueUSD := differenceValueUSD;
            priority := driftOf allocationDrift (fst e) * 100;
            preferredChain := preferredChain |} ])
  else Ok []).

Definition targetLoop (p : PriceDataType) (cfg : ConfigType) (amounts allocationDrift : Dict Q)
    (total : Q) (chainFor : string -> Result string) : Result (list TradeParams) :=
  rfold
    (fun plan e =>
       rbind (targetEntry p cfg amounts allocationDrift total chainFor e) (fun pushed =>
       Ok (plan ++ pushed)))
    (targetAllocation cfg) [].

(** One pass of the loop over held symbols: the forced sell pushed for
    [(symbol, amount)], if any.  [extra] is the additional conjunct of the
    rebalancing loop's copy ([amount > 0]); the analyzer has none. *)
Definition liquidationEntry (p : PriceDataType) (cfg : ConfigType) (extra : Q -> bool)
    (e : string * Q) : list TradeParams :=
  let targetPercent := JS.orElse (dget (fst e) (targetAllocation cfg)) 0 in
  let price := priceOf p (fst e) in
  let currentValueUSD := snd e * price in
  if Qeq_bool targetPercent 0
     && JS.geb currentValueUSD (minTradeValueUSD cfg)
     && extra (snd e)
  then [ {| action := sell;
            symbol := fst e;
            currentAmount := snd e;
            targetAmount := 0;
            differenceAmount := snd e;
            differenceValueUSD := currentValueUSD;
            priority := 50;
            preferredChain := JS.orString (consolidateToChain cfg) "eth" |} ]
  else [].

Definition liquidationLoop (p : PriceDataType) (cfg : ConfigType) (extra : Q -> bool)
    (symbolTotals : Dict Q) : list TradeParams :=
  flat_map (liquidationEntry p cfg extra) symbolTotals.

(** [list.sort((a, b) => key(b) - key(a))]: the sort is stable, so an
    element goes in front of the first element whose key is not greater. *)
Fixpoint insertDesc {A} (key : A -> Q) (x : A) (l : list A) : list A :=
  match l with
  | [] => [x]
  | h :: r =>
      if JS.gtb (key h) (key x) then h :: insertDesc key x r
      else x :: l
  end.

Definition sortDesc {A} (key : A -> Q) (l : list A) : list A :=
  fold_right (insertDesc key) [] l.

(** ** The allocation analyzer ([analyze-allocation-step.ts]) *)

(** [config.consolidateToChain || CHAIN_PREFERENCES[symbol][0]]: indexing the
    missing preference list of an unknown symbol throws. *)
Definition analyzerChainFor (cfg : ConfigType) (s : string) : Result string :=
  match consolidateToChain cfg with
  | Some (String c r) => Ok (String c r)
  | _ =>
      match dget s CHAIN_PREFERENCES with
      | Some pref => Ok (fst pref)
      | None => Err (TypeError "Cannot read properties of undefined")
      end
  end.

Definition analyzeAllocation (updatedPortfolio : PortfolioDataType)
    (p : PriceDataType) (cfg : ConfigType) : Result AllocationAnalysis :=
  let symbolTotals := groupBySymbol (balances updatedPortfolio) in
  let vl := valueLoop p symbolTotals in
  let totalValueUSD := fst vl in
  let currentAllocation := snd vl in
  rbind (percentLoop p (targetAllocation cfg) currentAllocation totalValueUSD)
    (fun currentAllocationPercent =>
  let dl := driftLoop (targetAllocation cfg) currentAllocationPercent in
  let allocationDrift := fst dl in
  let maxDrift := snd dl in
  let needsRebalancing :=
    forceRebalance cfg || JS.gtb maxDrift (rebalanceThreshold cfg) in
  rbind
    (if needsRebalancing then
       rbind (targetLoop p cfg currentAllocation allocationDrift totalValueUSD
                (analyzerChainFor cfg)) (fun fromTargets =>
       Ok (sortDesc priority
             (fromTargets ++ liquidationLoop p cfg (fun _ => true) symbolTotals)))
     else Ok [])
    (fun rebalancingPlan =>
  Ok {| totalValueUSD := totalValueUSD;
        currentAllocation := currentAllocationPercent;
        analysisTargetAllocation := targetAllocation cfg;
        allocationDrift := allocationDrift;
        needsRebalancing := needsRebalancing;
        rebalancingPlan := rebalancingPlan |})).

(** ** The token registry ([constants.ts] of the package, [utils.ts] of the tools) *)

Definition SPESIFIC_CHAIN_TOKENS : Dict (Dict string) :=
  [("eth",
    [("eth", "0xC02aaA39b223FE8D0A0e5C4F27eAD9083C756Cc2");
     ("usdc", "0xA0b86991c6218b36c1d19D4a2e9Eb0cE3606eB48");
     ("usdt", "0xdAC17F958D2ee523a2206206994597C13D831ec7")]);
   ("polygon",
    [("eth", "0x7ceB23fD6bC0adD59E62ac25578270cFf1b9f619");
     ("usdc", "0x2791Bca1f2de4661ED88A30C99A7a9449Aa84174");
     ("usdt", "0xc2132D05D31c914a87C6611C10748AEb04B58e8F")]);
   ("base",
    [("eth", "0x4200000000000000000000000000000000000006");
     ("usdc", "0xd9aAEc86B65D86f6A7B5B1b0c42FFA531710b6CA");
     ("usdt", "0x50c5725949A6F0c72E6C4a641F24049A917DB0Cb")]);
   ("svm",
    [("sol", "So11111111111111111111111111111111111111112");
     ("usdc", "EPjFWdd5AufqSSqeM2qN1xzybapC8G4wEGGkZwyTDt1v");
     ("usdt", "Es9vMFrzaCERmJfrF4H2FYD4KCoNkY11McCe8BenwNYB")]);
   ("arbitrum",
    [("eth", "0x82af49447d8a07e3bd95bd0d56f35241523fbab1");
     ("usdc", "0xaf88d065e77c8cc2239327c5edb3a432268e5831");
     ("usdt", "0xfd086bc7cd5c481dcc9c85ebe478a1c0b69fcbb9")]);
   ("optimism",
    [("eth", "0x4200000000000000000000000000000000000006");
     ("usdc", "0x7f5c764cbc14f9669b88837ca1490cca17c31607");
     ("usdt", "0x94b008aa00579c1307b0ef2c499ad98a8ce58e58")])].

Definition CHAIN_TYPE_MAP : Dict string :=
  [("eth", "evm"); ("polygon", "evm"); ("base", "evm"); ("arbitrum", "evm");
   ("optimism", "evm"); ("svm", "svm")].

Definition DEFAULT_CHAIN_FOR_SYMBOL : Dict string :=
  [("WETH", "eth"); ("USDC", "eth"); ("USDT", "eth"); ("SOL", "svm")].

Definition SUPPORTED_TOKENS : list string := ["USDC"; "WETH"; "USDT"; "SOL"].

Definition SUPPORTED_CHAINS : list string :=
  ["eth"; "polygon"; "base"; "arbitrum"; "optimism"; "svm"].

Definition SYMBOL_VARIANTS : Dict string :=
  [("USDC", "USDC"); ("USDbC", "USDC"); ("WETH", "WETH"); ("ETH", "WETH");
   ("USDT", "USDT"); ("SOL", "SOL")].

Module TokenInfo.
Record t : Type := {
  address : string;
  chain : option string;
  specificChain : string;
  symbol : string
}.
End TokenInfo.

(** [SPESIFIC_CHAIN_TOKENS.svm.sol] *)
Definition SOL_ADDRESS : string := "So11111111111111111111111111111111111111112".

Definition getTokenInfo (symbol : string) (specificChain : option string)
    : Result TokenInfo.t :=
  if String.eqb symbol "SOL" then
    Ok {| TokenInfo.address := SOL_ADDRESS;
          TokenInfo.chain := Some "svm";
          TokenInfo.specificChain := JS.orString specificChain "svm";
          TokenInfo.symbol := "SOL" |}
  else
    let defaultChain := JS.orString (dget symbol DEFAULT_CHAIN_FOR_SYMBOL) "eth" in
    let targetChain := JS.orString specificChain defaultChain in
    let tokenKey := JS.removeFirst "w"%char (JS.toLowerCase symbol) in
    match dget targetChain SPESIFIC_CHAIN_TOKENS with
    | None => Err (ThrownError "Chain not supported")
    | Some chainTokens =>
        rbind
          (if String.eqb targetChain "svm" then
             if String.eqb tokenKey "usdc" || String.eqb tokenKey "usdt"
             then Ok (dget tokenKey chainTokens)
             else Err (ThrownError "Token not supported on SVM chain")
           else
             if String.eqb tokenKey "eth" || String.eqb tokenKey "usdc"
                || String.eqb tokenKey "usdt"
             then Ok (dget tokenKey chainTokens)
             else Err (ThrownError "Token not supported on chain"))
          (fun address =>
             match address with
             | Some (String c r) =>
                 Ok {| TokenInfo.address := String c r;
                       TokenInfo.chain := dget targetChain CHAIN_TYPE_MAP;
                       TokenInfo.specificChain := targetChain;
                       TokenInfo.symbol := symbol |}
             | _ => Err (ThrownError "Token address not found for chain")
             end)
    end.

Definition findBalanceForToken (bs : list Balance.t) (tokenInfo : TokenInfo.t)
    : option Balance.t :=
  let exactMatch :=
    find (fun b =>
            String.eqb (JS.toLowerCase (Balance.tokenAddress b))
                       (JS.toLowerCase (TokenInfo.address tokenInfo))
            && String.eqb (Balance.specificChain b) (TokenInfo.specificChain tokenInfo))
         bs in
  match exactMatch with
  | Some b => Some b
  | None =>
      find (fun b =>
              let normalizedSymbol :=
                JS.orString (dget (Balance.symbol b) SYMBOL_VARIANTS) (Balance.symbol b) in
              String.eqb normalizedSymbol (TokenInfo.symbol tokenInfo)
              && String.eqb (Balance.specificChain b) (TokenInfo.specificChain tokenInfo))
           bs
  end.

(** ** External calls, their history and the monad of effectful code *)

Record TradePayload : Type := {
  fromToken : string;
  toToken : string;
  payloadAmount : Q;
  payloadReason : string;
  payloadSlippageTolerance : string;
  fromChain : option string;
  fromSpecificChain : string;
  toChain : option string;
  toSpecificChain : string
}.

Inductive Event : Type :=
| HttpGetBalances
| HttpGetTokenInfo (token : string) (chain : string) (specificChain : string)
| HttpPostTrade (payload : TradePayload)
| CallGetPrice (symbols : list string) (specificChain : string)
| Delay (ms : Z).

Definition Trace : Type := list Event.

Inductive HttpReply (A : Type) : Type :=
| Replied (data : A)
| Failed (status : option Z).
Arguments Replied {A} data.
Arguments Failed {A} status.

(** The body of the exchange's answer, spread over the tool's result. *)
Record TradeData : Type := {
  dataTxHash : option string;
  dataSuccess : option bool;
  dataStatus : option string
}.

Record Env : Type := {
  balancesReply : Trace -> HttpReply (list Balance.t);
  tradeReply : Trace -> TradePayload -> HttpReply TradeData;
  priceToolReply : Trace -> PriceDataType
}.

Definition M (A : Type) : Type := Trace -> Result A * Trace.

Definition ret {A} (a : A) : M A := fun tr => (Ok a, tr).

Definition bind {A B} (m : M A) (k : A -> M B) : M B :=
  fun tr =>
    match m tr with
    | (Ok a, tr') => k a tr'
    | (Err e, tr') => (Err e, tr')
    end.

Definition throw {A} (e : Failure) : M A := fun tr => (Err e, tr).

Definition liftR {A} (r : Result A) : M A := fun tr => (r, tr).

(** [try { m } catch (e) { h e }] *)
Definition tryCatch {A} (m : M A) (h : Failure -> M A) : M A :=
  fun tr =>
    match m tr with
    | (Ok a, tr') => (Ok a, tr')
    | (Err e, tr') => h e tr'
    end.

Definition emit (e : Event) : M unit := fun tr => (Ok tt, tr ++ [e]).

Declare Scope m_scope.
Delimit Scope m_scope with M.
Notation "x <- m ;; k" := (bind m (fun x => k))
  (at level 100, m at next level, right associativity) : m_scope.
Notation "m ;;; k" := (bind m (fun _ => k))
  (at level 100, right associativity) : m_scope.

Fixpoint forEach {A} (f : A -> M unit) (l : list A) : M unit :=
  match l with
  | [] => ret tt
  | a :: r => bind (f a) (fun _ => forEach f r)
  end.

Fixpoint foldM {A B} (f : A -> B -> M A) (l : list B) (a : A) : M A :=
  match l with
  | [] => ret a
  | b :: r => bind (f a b) (foldM f r)
  end.

(** [http.get(".../api/agent/balances")] *)
Definition httpGetBalances (env : Env) : M (list Balance.t) :=
  fun tr =>
    match balancesReply env tr with
    | Replied bs => (Ok bs, tr ++ [HttpGetBalances])
    | Failed st => (Err (HttpError st), tr ++ [HttpGetBalances])
    end.

(** [http.post(".../api/trade/execute", payload)] *)
Definition httpPostTrade (env : Env) (payload : TradePayload) : M TradeData :=
  fun tr =>
    match tradeReply env tr payload with
    | Replied d => (Ok d, tr ++ [HttpPostTrade payload])
    | Failed st => (Err (HttpError st), tr ++ [HttpPostTrade payload])
    end.

(** [setTimeout]-based pauses. *)
Definition createTradeDelay (ms : Z) : M unit := emit (Delay ms).

(** ** The trading tools ([trading-tools.ts]) *)

Module ToolResult.
Record t : Type := {
  success : bool;
  status : string;
  txHash : option string
}.
End ToolResult.

(** [createErrorResponse(status, message, { success: false })] *)
Definition createErrorResponse (status : string) : ToolResult.t :=
  {| ToolResult.success := false; ToolResult.status := status; ToolResult.txHash := None |}.

(** The [catch] clause shared by the two tools. *)
Definition toolCatch (e : Failure) : M ToolResult.t :=
  ret (match e with
       | HttpError (Some 400%Z) => createErrorResponse "bad_request"
       | HttpError (Some 429%Z) => createErrorResponse "rate_limited"
       | HttpError (Some 401%Z) => createErrorResponse "unauthorized"
       | _ => createErrorResponse "execution_error"
       end).

(** [{ success: true, status: "executed", txHash: data.txHash, ...data }] *)
Definition executedResponse (d : TradeData) : ToolResult.t :=
  {| ToolResult.success := match dataSuccess d with Some b => b | None => true end;
     ToolResult.status := match dataStatus d with Some s => s | None => "executed" end;
     ToolResult.txHash := dataTxHash d |}.

Definition insufficientBalance : ToolResult.t :=
  {| ToolResult.success := false;
     ToolResult.status := "insufficient_balance";
     ToolResult.txHash := None |}.

Module AddressTrade.
Record t : Type := {
  fromTokenAddress : string;
  toTokenAddress : string;
  amount : Q;
  reason : string;
  slippageTolerance : string;
  fromChain : option string;
  fromSpecificChain : string;
  toChain : option string;
  toSpecificChain : string
}.
End AddressTrade.

Local Open Scope m_scope.

Definition executeTradeByAddress (env : Env) (context : AddressTrade.t) : M ToolResult.t :=
  tryCatch
    (if String.eqb (JS.toLowerCase (AddressTrade.fromTokenAddress context))
                   (JS.toLowerCase (AddressTrade.toTokenAddress context))
        && String.eqb (AddressTrade.fromSpecificChain context)
                      (AddressTrade.toSpecificChain context)
     then ret (createErrorResponse "invalid_trade")
     else
       bs <- httpGetBalances env ;;
       let selectedBalance :=
         find (fun b =>
                 String.eqb (JS.toLowerCase (Balance.tokenAddress b))
                            (JS.toLowerCase (AddressTrade.fromTokenAddress context))
                 && String.eqb (Balance.specificChain b)
                               (AddressTrade.fromSpecificChain context))
              bs in
       let availableBalance :=
         match selectedBalance with Some b => Balance.amount b | None => 0 end in
       let sufficientBalance := JS.geb availableBalance (AddressTrade.amount context) in
       if negb sufficientBalance then ret insufficientBalance
       else
         let tradePayload :=
           {| fromToken := AddressTrade.fromTokenAddress context;
              toToken := AddressTrade.toTokenAddress context;
              payloadAmount := AddressTrade.amount context;
              payloadReason := AddressTrade.reason context;
              payloadSlippageTolerance := AddressTrade.slippageTolerance context;
              fromChain := AddressTrade.fromChain context;
              fromSpecificChain := AddressTrade.fromSpecificChain context;
              toChain := AddressTrade.toChain context;
              toSpecificChain := AddressTrade.toSpecificChain context |} in
         d <- httpPostTrade env tradePayload ;;
         ret (executedResponse d))
    toolCatch.

Module SymbolTrade.
Record t : Type := {
  fromSymbol : string;
  toSymbol : string;
  amount : Q;
  reason : string;
  slippageTolerance : string;
  fromSpecificChain : option string;
  toSpecificChain : option string
}.
End SymbolTrade.

Definition executeTrade (env : Env) (context : SymbolTrade.t) : M ToolResult.t :=
  tryCatch
    (if String.eqb (SymbolTrade.fromSymbol context) (SymbolTrade.toSymbol context)
        && JS.optStringEqb (SymbolTrade.fromSpecificChain context)
                           (SymbolTrade.toSpecificChain context)
     then ret (createErrorResponse "invalid_trade")
     else
       fromTokenInfo <- liftR (getTokenInfo (SymbolTrade.fromSymbol context)
                                            (SymbolTrade.fromSpecificChain context)) ;;
       toTokenInfo <- liftR (getTokenInfo (SymbolTrade.toSymbol context)
                                          (SymbolTrade.toSpecificChain context)) ;;
       bs <- httpGetBalances env ;;
       let selectedBalance := findBalanceForToken bs fromTokenInfo in
       let availableBalance :=
         match selectedBalance with Some b => Balance.amount b | None => 0 end in
       let sufficientBalance := JS.geb availableBalance (SymbolTrade.amount context) in
       if negb sufficientBalance then ret insufficientBalance
       else
         let tradePayload :=
           {| fromToken := TokenInfo.address fromTokenInfo;
              toToken := TokenInfo.address toTokenInfo;
              payloadAmount := SymbolTrade.amount context;
              payloadReason := SymbolTrade.reason context;
              payloadSlippageTolerance := SymbolTrade.slippageTolerance context;
              fromChain := TokenInfo.chain fromTokenInfo;
              fromSpecificChain := TokenInfo.specificChain fromTokenInfo;
              toChain := TokenInfo.chain toTokenInfo;
              toSpecificChain := TokenInfo.specificChain toTokenInfo |} in
         d <- httpPostTrade env tradePayload ;;
         ret (executedResponse d))
    toolCatch.

(** [getPortfolio] as the workflow calls it: no chain filter, zero balances
    dropped, one price lookup per remaining balance (its answer only
    decorates the balance with fields the workflow never reads). *)
Definition getPortfolio (env : Env) : M PortfolioDataType :=
  tryCatch
    (bs <- httpGetBalances env ;;
     let filteredBalances := filter (fun b => JS.gtb (Balance.amount b) 0) bs in
     forEach (fun b => emit (HttpGetTokenInfo (Balance.tokenAddress b) (Balance.chain b)
                                              (Balance.specificChain b)))
             filteredBalances ;;;
     ret {| portfolioSuccess := true; balances := filteredBalances |})
    (fun _ => ret {| portfolioSuccess := false; balances := [] |}).

(** ** Executing one sub-trade ([utils.ts], executeSingleTrade) *)

Module TradeExecutionResult.
Record t : Type := {
  result : option ToolResult.t;
  success : bool
}.
End TradeExecutionResult.

(** [{ result: null, success: false }] *)
Definition notExecuted : TradeExecutionResult.t :=
  {| TradeExecutionResult.result := None; TradeExecutionResult.success := false |}.

(** [{ result, success: result.success }] *)
Definition executed (r : ToolResult.t) : TradeExecutionResult.t :=
  {| TradeExecutionResult.result := Some r;
     TradeExecutionResult.success := ToolResult.success r |}.

Definition showZ (z : Z) : string := NilZero.string_of_int (Z.to_int z).

Definition subTradeInfo (t : SubTradeParams) : string :=
  if (1 <? totalSubTrades t)%Z
  then String.append " [Sub-trade "
         (String.append (showZ (subTradeIndex t))
            (String.append "/" (String.append (showZ (totalSubTrades t)) "]")))
  else EmptyString.

Definition STABLECOINS : list string := ["USDC"; "USDbC"; "DAI"; "USDT"].

(** [(max, current) => current.amount > max.amount ? current : max] *)
Definition largerAmount (max current : Balance.t) : Balance.t :=
  if JS.gtb (Balance.amount current) (Balance.amount max) then current else max.

(** [Object.entries(targetAllocation).filter(([_, percent]) => percent > 0)
      .sort(([_, a], [__, b]) => b - a)[0]] *)
Definition primaryTargetToken (target : Dict Q) : option (string * Q) :=
  hd_error (sortDesc snd (filter (fun e => JS.gtb (snd e) 0) target)).

(** The destination of a sale: [None] is the skipped USDC-to-USDC case. *)
Definition sellDestination (primary : option (string * Q)) (sym : string) : option string :=
  match primary with
  | Some p =>
      if String.eqb sym "USDC" then Some (fst p)
      else if negb (String.eqb sym "USDC") then Some "USDC"
      else None
  | None =>
      if negb (String.eqb sym "USDC") then Some "USDC"
      else None
  end.

Definition sellSingleTrade (env : Env) (trade : SubTradeParams)
    (portfolio : PortfolioDataType) (config : ConfigType) : M TradeExecutionResult.t :=
  let tokenBalances :=
    filter (fun b =>
              String.eqb (Balance.symbol b) (symbol (base trade))
              || (String.eqb (Balance.symbol b) "USDbC"
                  && String.eqb (symbol (base trade)) "USDC"))
           (balances portfolio) in
  match tokenBalances with
  | [] => ret notExecuted
  | first :: others =>
      let largest := JS.reduce1 largerAmount first others in
      let bestBalance :=
        match consolidateToChain config with
        | Some (String c r) =>
            match find (fun b => String.eqb (Balance.specificChain b) (String c r))
                       tokenBalances with
            | Some b => b
            | None => largest
            end
        | _ => largest
        end in
      let tradeAmount := Qmin (differenceAmount (base trade)) (Balance.amount bestBalance) in
      match sellDestination (primaryTargetToken (targetAllocation config))
                            (symbol (base trade)) with
      | None => ret notExecuted
      | Some toSymbol =>
          r <- executeTrade env
                 {| SymbolTrade.fromSymbol := symbol (base trade);
                    SymbolTrade.toSymbol := toSymbol;
                    SymbolTrade.amount := tradeAmount;
                    SymbolTrade.reason :=
                      String.append "Smart rebalancing: reducing "
                        (String.append (symbol (base trade))
                           (String.append " allocation" (subTradeInfo trade)));
                    SymbolTrade.slippageTolerance := maxSlippage config;
                    SymbolTrade.fromSpecificChain := Some (Balance.specificChain bestBalance);
                    SymbolTrade.toSpecificChain := Some (preferredChain (base trade)) |} ;;
          ret (executed r)
      end
  end.

(** [amount * (prices?.prices[symbol === "USDbC" ? "USDC" : symbol] || 1)] *)
Definition stableValue (p : option PriceDataType) (b : Balance.t) : Q :=
  Balance.amount b *
  JS.orElse (match p with
             | Some pd => dget (normalizeSymbol (Balance.symbol b)) (prices pd)
             | None => None
             end) 1.

Definition buySingleTrade (env : Env) (trade : SubTradeParams)
    (portfolio : PortfolioDataType) (config : ConfigType) (p : option PriceDataType)
    : M TradeExecutionResult.t :=
  let stablecoinBalances :=
    filter (fun b => JS.includes STABLECOINS (Balance.symbol b)
                     && JS.gtb (Balance.amount b) 0)
           (balances portfolio) in
  match sortDesc (stableValue p) stablecoinBalances with
  | [] => ret notExecuted
  | largest :: others =>
      let bestStablecoinBalance :=
        match find (fun b => JS.geb (stableValue p b) (differenceValueUSD (base trade)))
                   (largest :: others) with
        | Some b => b
        | None => largest
        end in
      let availableValueUSD := stableValue p bestStablecoinBalance in
      let actualTradeAmount := Qmin (differenceValueUSD (base trade)) availableValueUSD in
      targetTokenInfo <- liftR (getTokenInfo (symbol (base trade))
                                             (Some (preferredChain (base trade)))) ;;
      let isStandardToken :=
        JS.includes ["USDC"; "WETH"; "USDT"; "SOL"] (Balance.symbol bestStablecoinBalance) in
      let reason :=
        String.append "Smart rebalancing: increasing "
          (String.append (symbol (base trade))
             (String.append " allocation" (subTradeInfo trade))) in
      r <- (if isStandardToken
               && negb (String.eqb (Balance.symbol bestStablecoinBalance) "USDbC")
            then executeTrade env
                   {| SymbolTrade.fromSymbol := Balance.symbol bestStablecoinBalance;
                      SymbolTrade.toSymbol := symbol (base trade);
                      SymbolTrade.amount := actualTradeAmount;
                      SymbolTrade.reason := reason;
                      SymbolTrade.slippageTolerance := maxSlippage config;
                      SymbolTrade.fromSpecificChain :=
                        Some (Balance.specificChain bestStablecoinBalance);
                      SymbolTrade.toSpecificChain := Some (preferredChain (base trade)) |}
            else executeTradeByAddress env
                   {| AddressTrade.fromTokenAddress :=
                        Balance.tokenAddress bestStablecoinBalance;
                      AddressTrade.toTokenAddress := TokenInfo.address targetTokenInfo;
                      AddressTrade.amount := actualTradeAmount;
                      AddressTrade.reason := reason;
                      AddressTrade.slippageTolerance := maxSlippage config;
                      AddressTrade.fromChain := Some (Balance.chain bestStablecoinBalance);
                      AddressTrade.fromSpecificChain :=
                        Balance.specificChain bestStablecoinBalance;
                      AddressTrade.toChain := TokenInfo.chain targetTokenInfo;
                      AddressTrade.toSpecificChain := preferredChain (base trade) |}) ;;
      ret (executed r)
  end.

(** [config.targetAllocation || analysis.targetAllocation] is
    [config.targetAllocation], an object being truthy; [analysis] is not read
    otherwise. *)
Definition executeSingleTrade (env : Env) (trade : SubTradeParams) (tradeType : Action)
    (portfolio : PortfolioDataType) (config : ConfigType) (analysis : AllocationAnalysis)
    (p : option PriceDataType) : M TradeExecutionResult.t :=
  tryCatch
    (match tradeType with
     | sell => sellSingleTrade env trade portfolio config
     | buy => buySingleTrade env trade portfolio config p
     end)
    (fun _ => ret notExecuted).

(** ** The rebalancing step (executeRebalancingStep) *)

Record LoopState : Type := {
  config : ConfigType;
  allRebalancingResults : list ToolResult.t;
  totalVolumeUSD : Q;
  iterationsCompleted : Z
}.

Definition withResults (st : LoopState) (rs : list ToolResult.t) (v : Q) : LoopState :=
  {| config := config st;
     allRebalancingResults := rs;
     totalVolumeUSD := v;
     iterationsCompleted := iterationsCompleted st |}.

Definition withConfig (st : LoopState) (c : ConfigType) : LoopState :=
  {| config := c;
     allRebalancingResults := allRebalancingResults st;
     totalVolumeUSD := totalVolumeUSD st;
     iterationsCompleted := iterationsCompleted st |}.

(** [iterationsCompleted++] *)
Definition countIteration (st : LoopState) : LoopState :=
  {| config := config st;
     allRebalancingResults := allRebalancingResults st;
     totalVolumeUSD := totalVolumeUSD st;
     iterationsCompleted := iterationsCompleted st + 1 |}.

(** How one pass through the body of the [while] loop ends. *)
Inductive Control : Type :=
| Break
| Continue
| EndOfBody.

(** The loop's own value loop, over all held symbols. *)
Definition totalLoop (p : PriceDataType) (symbolTotals : Dict Q) : Q :=
  fold_left
    (fun totalValueUSD (e : string * Q) => totalValueUSD + snd e * priceOf p (fst e))
    symbolTotals 0.

(** The plan of one iteration, before sorting. *)
Definition iterationPlan (p : PriceDataType) (cfg : ConfigType) (symbolTotals allocationDrift : Dict Q)
    (total : Q) : Result (list TradeParams) :=
  rbind (targetLoop p cfg symbolTotals allocationDrift total
           (fun _ => Ok (JS.orString (consolidateToChain cfg) "eth"))) (fun fromTargets =>
  Ok (fromTargets ++ liquidationLoop p cfg (fun amount => JS.gtb amount 0) symbolTotals)).

Definition isBuy (t : TradeParams) : bool := Action_eqb (action t) buy.
Definition isSell (t : TradeParams) : bool := Action_eqb (action t) sell.

(** [currentPortfolio.balances.filter(b => STABLECOINS.includes(b.symbol) && b.amount > 0)] *)
Definition currentStablecoins (portfolio : PortfolioDataType) : list Balance.t :=
  filter (fun b => JS.includes STABLECOINS (Balance.symbol b)
                   && JS.gtb (Balance.amount b) 0)
         (balances portfolio).

Definition nonTargetTokens (cfg : ConfigType) (portfolio : PortfolioDataType) : list Balance.t :=
  filter (fun b =>
            let normalizedSymbol := normalizeSymbol (Balance.symbol b) in
            let targetPercent := JS.orElse (dget normalizedSymbol (targetAllocation cfg)) 0 in
            Qeq_bool targetPercent 0
            && JS.gtb (Balance.amount b) 0
            && negb (JS.includes STABLECOINS (Balance.symbol b)))
         (balances portfolio).

(** [(max, current) => max.amount * maxPrice > current.amount * currentPrice
      ? max : current] *)
Definition moreValuable (p : PriceDataType) (max current : Balance.t) : Balance.t :=
  let maxPrice := priceOf p (normalizeSymbol (Balance.symbol max)) in
  let currentPrice := priceOf p (normalizeSymbol (Balance.symbol current)) in
  if JS.gtb (Balance.amount max * maxPrice) (Balance.amount current * currentPrice)
  then max else current.

(** The sale of the bootstrap guard, up to its [continue]. *)
Definition bootstrapSell (env : Env) (p : PriceDataType) (st : LoopState)
    (tokenToSell : Balance.t) : M (Control * LoopState) :=
  sellResult <- executeTrade env
    {| SymbolTrade.fromSymbol := Balance.symbol tokenToSell;
       SymbolTrade.toSymbol := "USDC";
       SymbolTrade.amount := Balance.amount tokenToSell;
       SymbolTrade.reason :=
         String.append "Converting non-target "
           (String.append (Balance.symbol tokenToSell) " to USDC for rebalancing");
       SymbolTrade.slippageTolerance := maxSlippage (config st);
       SymbolTrade.fromSpecificChain := Some (Balance.specificChain tokenToSell);
       SymbolTrade.toSpecificChain := Some (Balance.specificChain tokenToSell) |} ;;
  let st' :=
    if ToolResult.success sellResult
    then withResults st (allRebalancingResults st ++ [sellResult])
           (totalVolumeUSD st
            + Balance.amount tokenToSell * priceOf p (Balance.symbol tokenToSell))
    else st in
  createTradeDelay 3000 ;;;
  ret (Continue, st').

(** The bookkeeping after one executed sub-trade. *)
Definition recordResult (st : LoopState) (trade : SubTradeParams)
    (r : TradeExecutionResult.t) : LoopState :=
  match TradeExecutionResult.result r with
  | Some res =>
      withResults st (allRebalancingResults st ++ [res])
        (if ToolResult.success res
         then totalVolumeUSD st + differenceValueUSD (base trade)
         else totalVolumeUSD st)
  | None => st
  end.

Definition splitAll (trades : list TradeParams) (total : Q) : Result (list SubTradeParams) :=
  rfold (fun acc t =>
           rbind (splitTradeIntoSubTrades t total MAX_TRADE_SIZE_PERCENT) (fun subs =>
           Ok (acc ++ subs)))
        trades [].

(** The full trade pass of an iteration: sort, cap, split, sells before
    buys, then clear the force flag. *)
Definition tradePass (env : Env) (p : PriceDataType) (analysis : AllocationAnalysis)
    (currentPortfolio : PortfolioDataType) (total : Q) (plan : list TradeParams)
    (st : LoopState) : M (Control * LoopState) :=
  let sorted := sortDesc priority plan in
  let tradesToExecute := firstn REBALANCING_CONFIG.maxTradesPerIteration sorted in
  let sellTrades := filter isSell tradesToExecute in
  let buyTrades := filter isBuy tradesToExecute in
  splitSellTrades <- liftR (splitAll sellTrades total) ;;
  splitBuyTrades <- liftR (splitAll buyTrades total) ;;
  st1 <- foldM (fun s trade =>
                  r <- executeSingleTrade env trade sell currentPortfolio (config s)
                         analysis (Some p) ;;
                  createTradeDelay SUB_TRADE_DELAY_MS ;;;
                  ret (recordResult s trade r))
               splitSellTrades st ;;
  st2 <- foldM (fun s trade =>
                  refreshedPortfolio <- getPortfolio env ;;
                  r <- executeSingleTrade env trade buy refreshedPortfolio (config s)
                         analysis (Some p) ;;
                  createTradeDelay SUB_TRADE_DELAY_MS ;;;
                  ret (recordResult s trade r))
               splitBuyTrades st1 ;;
  createTradeDelay 2000 ;;;
  ret (EndOfBody, withConfig st2 (clearForceRebalance (config st2))).

(** The body of the [while] loop from the recalculation of the allocation
    on, given the refreshed portfolio. *)
Definition iterationAfterRefresh (env : Env) (p : PriceDataType) (analysis : AllocationAnalysis)
    (st : LoopState) (currentPortfolio : PortfolioDataType) : M (Control * LoopState) :=
  let cfg := config st in
  let symbolTotals := groupBySymbol (balances currentPortfolio) in
  let total := totalLoop p symbolTotals in
  currentAllocationPercent <-
    liftR (percentLoop p (targetAllocation cfg) symbolTotals total) ;;
  let dl := driftLoop (targetAllocation cfg) currentAllocationPercent in
  let allocationDrift := fst dl in
  let maxDrift := snd dl in
  if negb (forceRebalance cfg) && JS.leb maxDrift REBALANCING_CONFIG.convergenceThreshold
  then ret (Break, st)
  else
    iterationRebalancingPlan <-
      liftR (iterationPlan p cfg symbolTotals allocationDrift total) ;;
    match iterationRebalancingPlan with
    | [] => ret (Break, st)
    | _ :: _ =>
        let iterationBuyTrades := filter isBuy iterationRebalancingPlan in
        let iterationSellTrades := filter isSell iterationRebalancingPlan in
        let pass := tradePass env p analysis currentPortfolio total
                      iterationRebalancingPlan st in
        if Nat.ltb 0 (List.length iterationBuyTrades)
           && Nat.eqb (List.length iterationSellTrades) 0
        then
          match currentStablecoins currentPortfolio with
          | [] =>
              match nonTargetTokens cfg currentPortfolio with
              | first :: others =>
                  bootstrapSell env p st (JS.reduce1 (moreValuable p) first others)
              | [] => pass
              end
          | _ :: _ => pass
          end
        else pass
    end.

(** The body of the [while] loop, after [iterationsCompleted++]. *)
Definition iterationBody (env : Env) (p : PriceDataType) (analysis : AllocationAnalysis)
    (st : LoopState) : M (Control * LoopState) :=
  currentPortfolio <- getPortfolio env ;;
  iterationAfterRefresh env p analysis st currentPortfolio.

(** [while (iterationsCompleted < maxIterations) { ... }]; [fuel] bounds the
    number of passes and is never exhausted when it is at least the cap. *)
Fixpoint rebalancingLoop (env : Env) (p : PriceDataType) (analysis : AllocationAnalysis)
    (fuel : nat) (st : LoopState) : M LoopState :=
  if (iterationsCompleted st <? REBALANCING_CONFIG.maxIterations)%Z then
    match fuel with
    | O => throw OutOfFuel
    | S fuel' =>
        r <- iterationBody env p analysis (countIteration st) ;;
        match fst r with
        | Break => ret (snd r)
        | Continue | EndOfBody => rebalancingLoop env p analysis fuel' (snd r)
        end
    end
  else ret st.

Record RebalancingOutput : Type := {
  rebalancingResults : list ToolResult.t;
  totalRebalancingTrades : nat;
  totalRebalancingVolumeUSD : Q;
  finalAllocation : Dict Q;
  outputIterationsCompleted : Z
}.

(** The two closing loops over the target keys. *)
Definition finalAllocationOf (p : PriceDataType) (target finalSymbolTotals : Dict Q)
    : Result (Dict Q) :=
  let finalTotalValue :=
    fold_left
      (fun acc (e : string * Q) =>
         acc + JS.orElse (dget (fst e) finalSymbolTotals) 0 * priceOf p (fst e))
      target 0 in
  percentLoop p target finalSymbolTotals finalTotalValue.

Definition executeRebalancingStep (env : Env) (analysis : AllocationAnalysis)
    (p : PriceDataType) (cfg : ConfigType) : M RebalancingOutput :=
  if negb (needsRebalancing analysis) then
    ret {| rebalancingResults := [];
           totalRebalancingTrades := 0;
           totalRebalancingVolumeUSD := 0;
           finalAllocation := currentAllocation analysis;
           outputIterationsCompleted := 0 |}
  else
    st <- rebalancingLoop env p analysis (Z.to_nat REBALANCING_CONFIG.maxIterations)
            {| config := cfg;
               allRebalancingResults := [];
               totalVolumeUSD := 0;
               iterationsCompleted := 0 |} ;;
    finalPortfolio <- getPortfolio env ;;
    final <- liftR (finalAllocationOf p (targetAllocation (config st))
                      (groupBySymbol (balances finalPortfolio))) ;;
    ret {| rebalancingResults := allRebalancingResults st;
           totalRebalancingTrades :=
             List.length (filter ToolResult.success (allRebalancingResults st));
           totalRebalancingVolumeUSD := totalVolumeUSD st;
           finalAllocation := final;
           outputIterationsCompleted := iterationsCompleted st |}.

(** ** The price-fetching step (fetchPricesStep) *)

Record FetchPricesInput : Type := {
  usdcPercent : option Q;
  wethPercent : option Q;
  usdtPercent : option Q;
  solPercent : option Q;
  inputConsolidateToChain : option string;
  slippage : Q;
  inputForceRebalance : bool;
  inputSkipConsolidation : bool
}.

(** [if (x && x > 0) rawAllocation.KEY = x] *)
Definition addPercent (key : string) (x : option Q) (rawAllocation : Dict Q) : Dict Q :=
  match x with
  | Some v => if negb (JS.falsy v) && JS.gtb v 0 then dset key v rawAllocation
              else rawAllocation
  | None => rawAllocation
  end.

Definition rawAllocationOf (i : FetchPricesInput) : Dict Q :=
  addPercent "SOL" (solPercent i)
    (addPercent "USDT" (usdtPercent i)
       (addPercent "WETH" (wethPercent i)
          (addPercent "USDC" (usdcPercent i) []))).

(** [Object.values(rawAllocation).reduce((sum, value) => sum + value, 0)] *)
Definition totalPercentOf (rawAllocation : Dict Q) : Q :=
  fold_left (fun sum (e : string * Q) => sum + snd e) rawAllocation 0.

Definition normalizeAllocation (i : FetchPricesInput) : Result (Dict Q) :=
  let rawAllocation := rawAllocationOf i in
  match rawAllocation with
  | [] => Ok DEFAULT_TARGET_ALLOCATION
  | _ :: _ =>
      let totalPercent := totalPercentOf rawAllocation in
      if JS.leb totalPercent 0
      then Err (ThrownError "Allocation percentages must sum to a positive number")
      else rfold (fun normalizedTargetAllocation (e : string * Q) =>
                    rbind (jsdiv (snd e) totalPercent) (fun w =>
                    Ok (dset (fst e) w normalizedTargetAllocation)))
                 rawAllocation []
  end.

(** [numberToString] stands for [Number.prototype.toString]. *)
Definition fetchPricesStep (env : Env) (numberToString : Q -> string)
    (i : FetchPricesInput) : M (PriceDataType * ConfigType) :=
  normalizedTargetAllocation <- liftR (normalizeAllocation i) ;;
  let cfg :=
    {| targetAllocation := normalizedTargetAllocation;
       consolidateToChain := inputConsolidateToChain i;
       rebalanceThreshold := DEFAULT_REBALANCE_THRESHOLD;
       minTradeValueUSD := DEFAULT_MIN_TRADE_VALUE_USD;
       maxSlippage := numberToString (slippage i);
       forceRebalance := inputForceRebalance i;
       skipConsolidation := inputSkipConsolidation i |} in
  fun tr =>
    (Ok (priceToolReply env tr, cfg),
     tr ++ [CallGetPrice ["USDC"; "WETH"; "USDT"; "SOL"] "eth"]).

(** ** Notions used to state the properties *)

Definition sumQ (l : list Q) : Q := fold_right Qplus 0 l.

(** The entry of a dictionary, a missing entry counting as 0. *)
Definition valueOr0 (d : Dict Q) (k : string) : Q :=
  match dget k d with
  | Some v => v
  | None => 0
  end.

(** The amount held of a symbol: all balances whose normalized symbol it is. *)
Definition heldAmount (bs : list Balance.t) (s : string) : Q :=
  sumQ (map Balance.amount
            (filter (fun b => String.eqb (normalizeSymbol (Balance.symbol b)) s) bs)).

(** The value of a dictionary of amounts at the given prices. *)
Definition dictValue (p : PriceDataType) (d : Dict Q) : Q :=
  sumQ (map (fun e => snd e * valueOr0 (prices p) (fst e)) d).

(** The value of a list of balances at the given prices. *)
Definition balancesValue (p : PriceDataType) (bs : list Balance.t) : Q :=
  sumQ (map (fun b => Balance.amount b
                      * valueOr0 (prices p) (normalizeSymbol (Balance.symbol b))) bs).

Definition descending {A} (key : A -> Q) : list A -> Prop :=
  StronglySorted (fun x y => key y <= key x).

(** The target amount and the signed difference computed by one pass of the
    loop over target symbols. *)
Definition plannedTargetAmount (p : PriceDataType) (total : Q) (e : string * Q) : Q :=
  if JS.gtb (priceOf p (fst e)) 0 then total * snd e / priceOf p (fst e) else 0.

Definition plannedDifference (p : PriceDataType) (amounts : Dict Q) (total : Q)
    (e : string * Q) : Q :=
  plannedTargetAmount p total e - JS.orElse (dget (fst e) amounts) 0.

(** ** Sample data: a two-token portfolio under the default configuration *)

Definition sampleBalance (sym : string) (a : Q) (ch addr : string) : Balance.t :=
  {| Balance.tokenAddress := addr;
     Balance.amount := a;
     Balance.specificChain := ch;
     Balance.symbol := sym;
     Balance.chain := "evm" |}.

Definition samplePortfolio : PortfolioDataType :=
  {| portfolioSuccess := true;
     balances :=
       [sampleBalance "USDC" 1000 "eth" "0xA0b86991c6218b36c1d19D4a2e9Eb0cE3606eB48";
        sampleBalance "WETH" 1 "eth" "0xC02aaA39b223FE8D0A0e5C4F27eAD9083C756Cc2"] |}.

Definition samplePrices : PriceDataType :=
  {| priceSuccess := true;
     prices := [("USDC", 1); ("WETH", 2000); ("USDT", 1); ("SOL", 100)] |}.

Definition sampleConfig : ConfigType :=
  {| targetAllocation := DEFAULT_TARGET_ALLOCATION;
     consolidateToChain := None;
     rebalanceThreshold := DEFAULT_REBALANCE_THRESHOLD;
     minTradeValueUSD := DEFAULT_MIN_TRADE_VALUE_USD;
     maxSlippage := "2";
     forceRebalance := false;
     skipConsolidation := false |}.

(** ** Notions used to state the properties of the tools *)

(** The payload [executeTrade] posts for resolved tokens. *)
Definition symbolPayload (context : SymbolTrade.t) (fromTokenInfo toTokenInfo : TokenInfo.t)
    : TradePayload :=
  {| fromToken := TokenInfo.address fromTokenInfo;
     toToken := TokenInfo.address toTokenInfo;
     payloadAmount := SymbolTrade.amount context;
     payloadReason := SymbolTrade.reason context;
     payloadSlippageTolerance := SymbolTrade.slippageTolerance context;
     fromChain := TokenInfo.chain fromTokenInfo;
     fromSpecificChain := TokenInfo.specificChain fromTokenInfo;
     toChain := TokenInfo.chain toTokenInfo;
     toSpecificChain := TokenInfo.specificChain toTokenInfo |}.

(** The payload [executeTradeByAddress] posts. *)
Definition addressPayload (context : AddressTrade.t) : TradePayload :=
  {| fromToken := AddressTrade.fromTokenAddress context;
     toToken := AddressTrade.toTokenAddress context;
     payloadAmount := AddressTrade.amount context;
     payloadReason := AddressTrade.reason context;
     payloadSlippageTolerance := AddressTrade.slippageTolerance context;
     fromChain := AddressTrade.fromChain context;
     fromSpecificChain := AddressTrade.fromSpecificChain context;
     toChain := AddressTrade.toChain context;
     toSpecificChain := AddressTrade.toSpecificChain context |}.

(** A payload whose two sides are the same token on the same chain. *)
Definition selfTrade (payload : TradePayload) : Prop :=
  fromToken payload = toToken payload /\
  fromSpecificChain payload = toSpecificChain payload.

(** Every exchange call made between two histories trades distinct sides. *)
Definition noSelfTradeSince (before after : Trace) : Prop :=
  forall payload,
    In (HttpPostTrade payload) after ->
    In (HttpPostTrade payload) before \/ ~ selfTrade payload.

(** The balances a sale can draw on, and the call a sale makes. *)
Definition sellTokenBalances (trade : SubTradeParams) (portfolio : PortfolioDataType)
    : list Balance.t :=
  filter (fun b =>
            String.eqb (Balance.symbol b) (symbol (base trade))
            || (String.eqb (Balance.symbol b) "USDbC"
                && String.eqb (symbol (base trade)) "USDC"))
         (balances portfolio).

Definition sellContext (trade : SubTradeParams) (config : ConfigType)
    (bestBalance : Balance.t) (toSymbol : string) : SymbolTrade.t :=
  {| SymbolTrade.fromSymbol := symbol (base trade);
     SymbolTrade.toSymbol := toSymbol;
     SymbolTrade.amount :=
       Qmin (differenceAmount (base trade)) (Balance.amount bestBalance);
     SymbolTrade.reason :=
       String.append "Smart rebalancing: reducing "
         (String.append (symbol (base trade))
            (String.append " allocation" (subTradeInfo trade)));
     SymbolTrade.slippageTolerance := maxSlippage config;
     SymbolTrade.fromSpecificChain := Some (Balance.specificChain bestBalance);
     SymbolTrade.toSpecificChain := Some (preferredChain (base trade)) |}.

(** The call of the bootstrap guard. *)
Definition bootstrapContext (cfg : ConfigType) (tokenToSell : Balance.t) : SymbolTrade.t :=
  {| SymbolTrade.fromSymbol := Balance.symbol tokenToSell;
     SymbolTrade.toSymbol := "USDC";
     SymbolTrade.amount := Balance.amount tokenToSell;
     SymbolTrade.reason :=
       String.append "Converting non-target "
         (String.append (Balance.symbol tokenToSell) " to USDC for rebalancing");
     SymbolTrade.slippageTolerance := maxSlippage cfg;
     SymbolTrade.fromSpecificChain := Some (Balance.specificChain tokenToSell);
     SymbolTrade.toSpecificChain := Some (Balance.specificChain tokenToSell) |}.

(** The USD value the bootstrap guard compares holdings by. *)
Definition holdingValue (p : PriceDataType) (b : Balance.t) : Q :=
  Balance.amount b * priceOf p (normalizeSymbol (Balance.symbol b)).

(** The contract address a symbol resolves to on a chain, if any. *)
Definition addressOf (sym : string) (specificChain : option string) : option string :=
  match getTokenInfo sym specificChain with
  | Ok info => Some (TokenInfo.address info)
  | Err _ => None
  end.

(** ** Sample environment: the balances never change, every trade executes *)

Definition sampleEnv : Env :=
  {| balancesReply := fun _ => Replied (balances samplePortfolio);
     tradeReply := fun _ _ =>
       Replied {| dataTxHash := Some "0x01"; dataSuccess := None; dataStatus := None |};
     priceToolReply := fun _ => samplePrices |}.

Definition sampleAnalysis : AllocationAnalysis :=
  {| totalValueUSD := 3000;
     currentAllocation := [];
     analysisTargetAllocation := DEFAULT_TARGET_ALLOCATION;
     allocationDrift := [];
     needsRebalancing := true;
     rebalancingPlan := [] |}.

(** The forced sale of the whole WETH holding, unsplit. *)
Definition wethSale : SubTradeParams :=
  singleTrade {| action := sell; symbol := "WETH"; currentAmount := 1; targetAmount := 0;
                 differenceAmount := 1; differenceValueUSD := 2000; priority := 50;
                 preferredChain := "eth" |}.

(** ** Notions used to state the properties of the price-fetching step *)

Definition percentOr0 (x : option Q) : Q :=
  match x with
  | Some v => v
  | None => 0
  end.

(** The sum of the four input percentages, an absent one counting as 0. *)
Definition percentSum (i : FetchPricesInput) : Q :=
  percentOr0 (usdcPercent i) + percentOr0 (wethPercent i)
  + percentOr0 (usdtPercent i) + percentOr0 (solPercent i).

(** The input schema's lower bound: no percentage is negative. *)
Definition nonNegativePercents (i : FetchPricesInput) : Prop :=
  0 <= percentOr0 (usdcPercent i) /\ 0 <= percentOr0 (wethPercent i) /\
  0 <= percentOr0 (usdtPercent i) /\ 0 <= percentOr0 (solPercent i).

(** All four percentages given as 0. *)
Definition zeroPercentInput : FetchPricesInput :=
  {| usdcPercent := Some 0;
     wethPercent := Some 0;
     usdtPercent := Some 0;
     solPercent := Some 0;
     inputConsolidateToChain := None;
     slippage := 2;
     inputForceRebalance := false;
     inputSkipConsolidation := false |}.

(** No percentage given at all, as the scheduled runner starts the workflow. *)
Definition noPercentInput : FetchPricesInput :=
  {| usdcPercent := None;
     wethPercent := None;
     usdtPercent := None;
     solPercent := None;
     inputConsolidateToChain := None;
     slippage := 2;
     inputForceRebalance := false;
     inputSkipConsolidation := false |}.

(** A rendering of the slippage, which no property depends on. *)
Definition sampleNumberToString (q : Q) : string := showZ (Qfloor q).

(** ** Notions used to state the properties of the rebalancing loop *)

(** The maximum drift the loop computes for a refreshed portfolio. *)
Definition maxDriftOf (p : PriceDataType) (cfg : ConfigType) (pf : PortfolioDataType)
    : Result Q :=
  let symbolTotals := groupBySymbol (balances pf) in
  rbind (percentLoop p (targetAllocation cfg) symbolTotals (totalLoop p symbolTotals))
    (fun pct => Ok (snd (driftLoop (targetAllocation cfg) pct))).

(** The plan the loop builds for a refreshed portfolio. *)
Definition planOf (p : PriceDataType) (cfg : ConfigType) (pf : PortfolioDataType)
    : Result (list TradeParams) :=
  let symbolTotals := groupBySymbol (balances pf) in
  let total := totalLoop p symbolTotals in
  rbind (percentLoop p (targetAllocation cfg) symbolTotals total) (fun pct =>
  iterationPlan p cfg symbolTotals (fst (driftLoop (targetAllocation cfg) pct)) total).

(** The state a bootstrap sale leaves behind. *)
Definition afterBootstrap (p : PriceDataType) (st : LoopState) (tokenToSell : Balance.t)
    (sellResult : ToolResult.t) : LoopState :=
  if ToolResult.success sellResult
  then withResults st (allRebalancingResults st ++ [sellResult])
         (totalVolumeUSD st
          + Balance.amount tokenToSell * priceOf p (Balance.symbol tokenToSell))
  else st.

Definition isPost (e : Event) : bool :=
  match e with
  | HttpPostTrade _ => true
  | _ => false
  end.

Definition isDelay (ms : Z) (e : Event) : bool :=
  match e with
  | Delay d => Z.eqb d ms
  | _ => false
  end.

Definition countEvents (f : Event -> bool) (tr : Trace) : nat :=
  List.length (filter f tr).

(** ** Sample data: a portfolio of dust, nothing but 0.008 USD of WETH and
    0.009 USD of SOL, against the default target *)

Definition dustPortfolio : list Balance.t :=
  [sampleBalance "WETH" (4 # 1000000) "eth" "0xC02aaA39b223FE8D0A0e5C4F27eAD9083C756Cc2";
   {| Balance.tokenAddress := SOL_ADDRESS;
      Balance.amount := 9 # 100000;
      Balance.specificChain := "svm";
      Balance.symbol := "SOL";
      Balance.chain := "svm" |}].

(** A portfolio within the convergence threshold: 1000 USDT and 1 USD of WETH. *)
Definition nearTargetPortfolio : list Balance.t :=
  [sampleBalance "USDT" 1000 "eth" "0xdAC17F958D2ee523a2206206994597C13D831ec7";
   sampleBalance "WETH" (5 # 10000) "eth" "0xC02aaA39b223FE8D0A0e5C4F27eAD9083C756Cc2"].

Definition executedData : TradeData :=
  {| dataTxHash := Some "0x01"; dataSuccess := None; dataStatus := None |}.

(** The dust never moves, and the exchange rejects every trade. *)
Definition rejectingEnv : Env :=
  {| balancesReply := fun _ => Replied dustPortfolio;
     tradeReply := fun _ _ => Failed (Some 400%Z);
     priceToolReply := fun _ => samplePrices |}.

(** The dust never moves, and every trade executes. *)
Definition dustEnv : Env :=
  {| balancesReply := fun _ => Replied dustPortfolio;
     tradeReply := fun _ _ => Replied executedData;
     priceToolReply := fun _ => samplePrices |}.

(** Every trade executes; once the first trade has gone through, the
    account holds the near-target portfolio. *)
Definition depositEnv : Env :=
  {| balancesReply := fun tr =>
       if existsb isPost tr then Replied nearTargetPortfolio else Replied dustPortfolio;
     tradeReply := fun _ _ => Replied executedData;
     priceToolReply := fun _ => samplePrices |}.

Definition initialState (cfg : ConfigType) : LoopState :=
  {| config := cfg;
     allRebalancingResults := [];
     totalVolumeUSD := 0;
     iterationsCompleted := 0 |}.

(** The default configuration with [forceRebalance] set. *)
Definition forcedConfig : ConfigType :=
  {| targetAllocation := DEFAULT_TARGET_ALLOCATION;
     consolidateToChain := None;
     rebalanceThreshold := DEFAULT_REBALANCE_THRESHOLD;
     minTradeValueUSD := DEFAULT_MIN_TRADE_VALUE_USD;
     maxSlippage := "2";
     forceRebalance := true;
     skipConsolidation := false |}.

(** ** Notions used to state that a whole computation makes no self-trade *)

(** The account holds only supported tokens (USDbC counting as USDC), each
    on a named chain. *)
Definition supportedHoldings (bs : list Balance.t) : Prop :=
  forall b, In b bs ->
    In (normalizeSymbol (Balance.symbol b)) SUPPORTED_TOKENS /\
    Balance.specificChain b <> EmptyString.

Definition supportedAccount (env : Env) : Prop :=
  forall tr bs, balancesReply env tr = Replied bs -> supportedHoldings bs.

Definition supportedTargets (cfg : ConfigType) : Prop :=
  forall k, In k (keys (targetAllocation cfg)) -> In k SUPPORTED_TOKENS.

(** A computation that, from any history, adds no self-trade and whose
    result, when there is one, satisfies [post]. *)
Definition safeM {A} (m : M A) (post : A -> Prop) : Prop :=
  forall tr r tr', m tr = (r, tr') ->
    noSelfTradeSince tr tr' /\ forall a, r = Ok a -> post a.

(** A computation that, from any history, returns a result satisfying
    [post]: it neither fails nor exhausts its fuel. *)
Definition totalM {A} (m : M A) (post : A -> Prop) : Prop :=
  forall tr, exists a tr', m tr = (Ok a, tr') /\ post a.

(** * Part I, continued: the other steps of the workflow and the price tools *)

(** ** Choosing the consolidation chain ([utils.ts], determineOptimalConsolidationChain) *)

(** [list.findIndex(f)]; [None] stands for -1. *)
Fixpoint findIndex {A} (f : A -> bool) (l : list A) : option nat :=
  match l with
  | [] => None
  | a :: r => if f a then Some 0%nat else option_map S (findIndex f r)
  end.

(** [CHAIN_PREFERENCES[token]] as a plain list; [None] for an unknown token. *)
Definition preferencesOf (token : string) : option (list string) :=
  match dget token CHAIN_PREFERENCES with
  | Some preferences => Some (fst preferences :: snd preferences)
  | None => None
  end.

(** The score of one chain: its value plus, for every target token that
    lists the chain among its preferences, [1000 / (chainIndex + 1)]. *)
Definition chainScore (targetTokens : list string) (e : string * Q) : Result Q :=
  rfold
    (fun score token =>
       match preferencesOf token with
       | Some preferences =>
           match findIndex (fun preferredChain => String.eqb preferredChain (fst e))
                           preferences with
           | Some chainIndex =>
               rbind (jsdiv 1000 (inject_Z (Z.of_nat chainIndex + 1))) (fun bonus =>
               Ok (score + bonus))
           | None => Ok score
           end
       | None => Ok score
       end)
    targetTokens (snd e).

(** The loop keeping the chain of best score; a later chain replaces the
    current one only with a strictly greater score. *)
Definition bestChainLoop (targetTokens : list string) (chainsByValue : Dict Q)
    (start : string * Q) : Result (string * Q) :=
  rfold
    (fun (best : string * Q) (e : string * Q) =>
       rbind (chainScore targetTokens e) (fun score =>
       Ok (if JS.gtb score (snd best) then (fst e, score) else best)))
    chainsByValue start.

(** [tokenDistribution] is a parameter the function never reads. *)
Definition determineOptimalConsolidationChain (chainValues : Dict Q)
    (tokenDistribution : Dict (Dict Q)) (targetAllocation : Dict Q)
    : Result (option string) :=
  let totalChains :=
    List.length
      (filter (fun chain =>
                 match dget chain chainValues with
                 | Some value => JS.gtb value 0
                 | None => false
                 end)
              (keys chainValues)) in
  if Nat.leb totalChains 1 then Ok None
  else
    let chainsByValue :=
      sortDesc snd (filter (fun e => JS.gtb (snd e) 0) chainValues) in
    match chainsByValue with
    | [] => Ok None
    | (highestValueChain, _) :: _ =>
        let targetTokens :=
          map fst (filter (fun e => JS.gtb (snd e) 0) targetAllocation) in
        rbind (bestChainLoop targetTokens chainsByValue (highestValueChain, 0))
          (fun best => Ok (Some (fst best)))
    end.

(** ** Token information by address ([price-tools.ts], getTokenInfoByAddress) *)

Module TokenInfoResponse.
Record t : Type := {
  success : bool;
  price : Q;
  token : string;
  chain : string;
  specificChain : string;
  symbol : string
}.
End TokenInfoResponse.

(** The price service and the clock, answering as functions of the history. *)
Record MarketEnv : Type := {
  tokenInfoReply : Trace -> string -> string -> string -> HttpReply TokenInfoResponse.t;
  now : Trace -> Z
}.

(** [http.get(".../api/price/token-info", { params })]; a parameter left
    out of the request is recorded as the empty string. *)
Definition httpGetTokenInfo (menv : MarketEnv) (token chain specificChain : string)
    : M TokenInfoResponse.t :=
  fun tr =>
    match tokenInfoReply menv tr token chain specificChain with
    | Replied data => (Ok data, tr ++ [HttpGetTokenInfo token chain specificChain])
    | Failed st => (Err (HttpError st), tr ++ [HttpGetTokenInfo token chain specificChain])
    end.

(** The answer for a token the service does not know or cannot be asked about. *)
Definition unknownToken (tokenAddress : string) : TokenInfoResponse.t :=
  {| TokenInfoResponse.success := false;
     TokenInfoResponse.price := 0;
     TokenInfoResponse.token := tokenAddress;
     TokenInfoResponse.chain := "evm";
     TokenInfoResponse.specificChain := "unknown";
     TokenInfoResponse.symbol := "UNKNOWN" |}.

Definition getTokenInfoByAddress (menv : MarketEnv) (tokenAddress chain specificChain : string)
    : M TokenInfoResponse.t :=
  tryCatch
    (data <- httpGetTokenInfo menv tokenAddress chain specificChain ;;
     if negb (TokenInfoResponse.success data) then ret (unknownToken tokenAddress)
     else ret data)
    (fun _ => ret (unknownToken tokenAddress)).

(** ** Prices by symbol ([price-tools.ts], getPrice) *)

Inductive PriceError : Type :=
| InvalidPriceData (what : string)
| FailedToFetchPrice (what : string)
| GeneralError.

Record PriceTokenInfo : Type := {
  infoSymbol : string;
  infoChain : string;
  infoSpecificChain : string;
  infoAddress : string
}.

Record PriceToolResult : Type := {
  priceToolSuccess : bool;
  priceToolPrices : Dict Q;
  priceToolTokenInfo : option (Dict PriceTokenInfo);
  priceToolErrors : option (list PriceError)
}.

Record PriceState : Type := {
  statePrices : Dict Q;
  stateTokenInfo : Dict PriceTokenInfo;
  stateErrors : list PriceError
}.

(** [prices[key] = data.price; tokenInfo[key] = {...}] *)
Definition recordPrice (st : PriceState) (key : string) (data : TokenInfoResponse.t)
    : PriceState :=
  {| statePrices := dset key (TokenInfoResponse.price data) (statePrices st);
     stateTokenInfo :=
       dset key
         {| infoSymbol := TokenInfoResponse.symbol data;
            infoChain := TokenInfoResponse.chain data;
            infoSpecificChain := TokenInfoResponse.specificChain data;
            infoAddress := TokenInfoResponse.token data |}
         (stateTokenInfo st);
     stateErrors := stateErrors st |}.

(** [errors.push(e)] *)
Definition recordError (st : PriceState) (e : PriceError) : PriceState :=
  {| statePrices := statePrices st;
     stateTokenInfo := stateTokenInfo st;
     stateErrors := stateErrors st ++ [e] |}.

(** One pass of the loop over the requested symbols.  The price in an
    answer is a number, so [typeof data.price === "number"] holds. *)
Definition priceOfSymbol (menv : MarketEnv) (specificChain : option string)
    (st : PriceState) (sym : string) : M PriceState :=
  tryCatch
    (knownTokenInfo <- liftR (getTokenInfo sym specificChain) ;;
     data <- httpGetTokenInfo menv (TokenInfo.address knownTokenInfo)
               (JS.orString (TokenInfo.chain knownTokenInfo) EmptyString)
               (TokenInfo.specificChain knownTokenInfo) ;;
     if TokenInfoResponse.success data then ret (recordPrice st sym data)
     else ret (recordError st (InvalidPriceData sym)))
    (fun _ => ret (recordError st (FailedToFetchPrice sym))).

(** [address.slice(0, 8)] *)
Definition slice8 (s : string) : string := String.substring 0 8 s.

(** One pass of the loop over the given token addresses. *)
Definition priceOfAddress (menv : MarketEnv) (specificChain : option string)
    (st : PriceState) (address : string) : M PriceState :=
  tryCatch
    (data <- httpGetTokenInfo menv address EmptyString
               (JS.orString specificChain EmptyString) ;;
     if TokenInfoResponse.success data then
       let key :=
         match TokenInfoResponse.symbol data with
         | EmptyString => slice8 address
         | s => s
         end in
       ret (recordPrice st key data)
     else ret (recordError st (InvalidPriceData address)))
    (fun _ => ret (recordError st (FailedToFetchPrice address))).

Definition getPrice (menv : MarketEnv) (symbols : list string)
    (specificChain : option string) (tokenAddresses : option (list string))
    : M PriceToolResult :=
  tryCatch
    (st1 <- foldM (priceOfSymbol menv specificChain) symbols
              {| statePrices := []; stateTokenInfo := []; stateErrors := [] |} ;;
     st2 <- match tokenAddresses with
            | Some addresses => foldM (priceOfAddress menv specificChain) addresses st1
            | None => ret st1
            end ;;
     ret {| priceToolSuccess := Nat.eqb (List.length (stateErrors st2)) 0;
            priceToolPrices := statePrices st2;
            priceToolTokenInfo :=
              if Nat.ltb 0 (List.length (keys (stateTokenInfo st2)))
              then Some (stateTokenInfo st2) else None;
            priceToolErrors :=
              if Nat.ltb 0 (List.length (stateErrors st2))
              then Some (stateErrors st2) else None |})
    (fun _ =>
       ret {| priceToolSuccess := false;
              priceToolPrices := [];
              priceToolTokenInfo := None;
              priceToolErrors := Some [GeneralError] |}).

(** ** The chain distribution analysis ([analyze-chain-distribution-step.ts]) *)

Module Discovered.
Record t : Type := {
  symbol : string;
  price : Q;
  chain : string;
  specificChain : string;
  address : string;
  amount : Q;
  valueUSD : Q
}.
End Discovered.

(** One pass of the discovery loop: [discoveredTokens] is keyed by token
    address, so a later balance with the same address replaces the entry.
    ([tokenSummary] is only logged.) *)
Definition discoverToken (menv : MarketEnv) (discoveredTokens : Dict Discovered.t)
    (balance : Balance.t) : M (Dict Discovered.t) :=
  tryCatch
    (tokenInfo <- getTokenInfoByAddress menv (Balance.tokenAddress balance)
                    (Balance.chain balance) (Balance.specificChain balance) ;;
     if TokenInfoResponse.success tokenInfo && JS.gtb (TokenInfoResponse.price tokenInfo) 0
     then
       ret (dset (Balance.tokenAddress balance)
              {| Discovered.symbol := TokenInfoResponse.symbol tokenInfo;
                 Discovered.price := TokenInfoResponse.price tokenInfo;
                 Discovered.chain := TokenInfoResponse.chain tokenInfo;
                 Discovered.specificChain := TokenInfoResponse.specificChain tokenInfo;
                 Discovered.address := Balance.tokenAddress balance;
                 Discovered.amount := Balance.amount balance;
                 Discovered.valueUSD :=
                   Balance.amount balance * TokenInfoResponse.price tokenInfo |}
              discoveredTokens)
     else ret discoveredTokens)
    (fun _ => ret discoveredTokens).

(** A balance of the enhanced portfolio: [{...balance, price, valueUSD,
    discoveredSymbol}]. *)
Module Enhanced.
Record t : Type := {
  balance : Balance.t;
  price : Q;
  valueUSD : Q;
  discoveredSymbol : string
}.
End Enhanced.

Definition enhance (discoveredTokens : Dict Discovered.t) (balance : Balance.t)
    : Enhanced.t :=
  let tokenInfo := dget (Balance.tokenAddress balance) discoveredTokens in
  {| Enhanced.balance := balance;
     Enhanced.price := JS.orElse (option_map Discovered.price tokenInfo) 0;
     Enhanced.valueUSD := JS.orElse (option_map Discovered.valueUSD tokenInfo) 0;
     Enhanced.discoveredSymbol :=
       JS.orString (option_map Discovered.symbol tokenInfo) (Balance.symbol balance) |}.

Record EnhancedPortfolio : Type := {
  enhancedSuccess : bool;
  enhancedBalances : list Enhanced.t
}.

(** The later steps read an enhanced portfolio through the fields of
    [PortfolioDataSchema] it shares with a plain one. *)
Definition asPortfolio (ep : EnhancedPortfolio) : PortfolioDataType :=
  {| portfolioSuccess := enhancedSuccess ep;
     balances := map Enhanced.balance (enhancedBalances ep) |}.

Module Move.
Record t : Type := {
  fromChain : string;
  toChain : string;
  token : string;
  amount : Q;
  valueUSD : Q
}.
End Move.

Record ChainAnalysisType : Type := {
  availableTokens : Dict (list string);
  tokenDistribution : Dict (Dict Q);
  chainValues : Dict Q;
  consolidationPlan : option (list Move.t)
}.

Record ChainTables : Type := {
  tableAvailableTokens : Dict (list string);
  tableTokenDistribution : Dict (Dict Q);
  tableChainValues : Dict Q
}.

(** The tables after the loop that initializes them for the six chains. *)
Definition initialTables : ChainTables :=
  {| tableAvailableTokens :=
       map (fun chain => (chain, @nil string))
           ["eth"; "polygon"; "base"; "arbitrum"; "optimism"; "svm"];
     tableTokenDistribution := [];
     tableChainValues :=
       map (fun chain => (chain, 0))
           ["eth"; "polygon"; "base"; "arbitrum"; "optimism"; "svm"] |}.

(** One pass of the loop over the enhanced balances.  Reading
    [availableTokens[specificChain].includes] throws for a chain outside
    the six.  The two tables indexed by chain have the same keys, so
    [chainValues[specificChain]] is a number whenever that read succeeds. *)
Definition tableStep (p : PriceDataType) (tables : ChainTables) (b : Enhanced.t)
    : Result ChainTables :=
  let sym := Balance.symbol (Enhanced.balance b) in
  let specificChain := Balance.specificChain (Enhanced.balance b) in
  let amount := Balance.amount (Enhanced.balance b) in
  let normalizedSymbol := normalizeSymbol sym in
  match dget specificChain (tableAvailableTokens tables) with
  | None => Err (TypeError "Cannot read properties of undefined")
  | Some tokens =>
      let availableTokens :=
        if negb (JS.includes tokens normalizedSymbol)
        then dset specificChain (tokens ++ [normalizedSymbol]) (tableAvailableTokens tables)
        else tableAvailableTokens tables in
      let distribution :=
        match dget normalizedSymbol (tableTokenDistribution tables) with
        | Some d => d
        | None => []
        end in
      let tokenDistribution :=
        dset normalizedSymbol
          (dset specificChain (JS.orElse (dget specificChain distribution) 0 + amount)
                distribution)
          (tableTokenDistribution tables) in
      let price := JS.orElse (Some (Enhanced.price b)) (priceOf p normalizedSymbol) in
      let chainValues :=
        dset specificChain
          (JS.orElse (dget specificChain (tableChainValues tables)) 0 + amount * price)
          (tableChainValues tables) in
      Ok {| tableAvailableTokens := availableTokens;
            tableTokenDistribution := tokenDistribution;
            tableChainValues := chainValues |}
  end.

Definition chainTables (p : PriceDataType) (bs : list Enhanced.t) : Result ChainTables :=
  rfold (tableStep p) bs initialTables.

(** The moves planned for one token: one for every other chain holding a
    positive amount worth at least the minimum trade value. *)
Definition movesOf (p : PriceDataType) (cfg : ConfigType) (consolidateToChain : string)
    (e : string * Dict Q) : list Move.t :=
  flat_map
    (fun (c : string * Q) =>
       if negb (String.eqb (fst c) consolidateToChain) && JS.gtb (snd c) 0 then
         let price := priceOf p (fst e) in
         let valueUSD := snd c * price in
         if JS.geb valueUSD (minTradeValueUSD cfg)
         then [ {| Move.fromChain := fst c;
                   Move.toChain := consolidateToChain;
                   Move.token := fst e;
                   Move.amount := snd c;
                   Move.valueUSD := valueUSD |} ]
         else []
       else [])
    (snd e).

(** The consolidation plan: [None] is [undefined]. *)
Definition planConsolidation (p : PriceDataType) (cfg : ConfigType)
    (consolidateToChain : option string) (tokenDistribution : Dict (Dict Q))
    : option (list Move.t) :=
  let plan :=
    match consolidateToChain with
    | Some (String c r) =>
        if negb (skipConsolidation cfg)
        then sortDesc Move.valueUSD
               (flat_map (movesOf p cfg (String c r)) tokenDistribution)
        else []
    | _ => []
    end in
  match plan with
  | [] => None
  | _ :: _ => Some plan
  end.

(** [{...config, consolidateToChain}] *)
Definition withConsolidateToChain (c : ConfigType) (chain : option string) : ConfigType :=
  {| targetAllocation := targetAllocation c;
     consolidateToChain := chain;
     rebalanceThreshold := rebalanceThreshold c;
     minTradeValueUSD := minTradeValueUSD c;
     maxSlippage := maxSlippage c;
     forceRebalance := forceRebalance c;
     skipConsolidation := skipConsolidation c |}.

(** The part of the step that follows the discovery of the tokens. *)
Definition analyzeDistribution (p : PriceDataType) (cfg : ConfigType)
    (bs : list Enhanced.t) : Result (ChainAnalysisType * ConfigType) :=
  rbind (chainTables p bs) (fun tables =>
  rbind (if negb (skipConsolidation cfg) && negb (JS.truthyString (consolidateToChain cfg))
         then determineOptimalConsolidationChain (tableChainValues tables)
                (tableTokenDistribution tables) (targetAllocation cfg)
         else Ok (consolidateToChain cfg)) (fun chain =>
  Ok ({| availableTokens := tableAvailableTokens tables;
         tokenDistribution := tableTokenDistribution tables;
         chainValues := tableChainValues tables;
         consolidationPlan :=
           planConsolidation p cfg chain (tableTokenDistribution tables) |},
      withConsolidateToChain cfg chain))).

Record ChainDistributionOutput : Type := {
  distributionPortfolio : EnhancedPortfolio;
  distributionChainAnalysis : ChainAnalysisType;
  distributionPrices : PriceDataType;
  distributionConfig : ConfigType
}.

Definition analyzeChainDistributionStep (env : Env) (menv : MarketEnv)
    (p : PriceDataType) (cfg : ConfigType) : M ChainDistributionOutput :=
  portfolio <- getPortfolio env ;;
  discoveredTokens <- foldM (discoverToken menv) (balances portfolio) [] ;;
  let enhancedPortfolio :=
    {| enhancedSuccess := portfolioSuccess portfolio;
       enhancedBalances := map (enhance discoveredTokens) (balances portfolio) |} in
  analysis <- liftR (analyzeDistribution p cfg (enhancedBalances enhancedPortfolio)) ;;
  ret {| distributionPortfolio := enhancedPortfolio;
         distributionChainAnalysis := fst analysis;
         distributionPrices := p;
         distributionConfig := snd analysis |}.

(** ** The consolidation step ([execute-consolidation-step.ts]) *)

(** [Date.now()] *)
Definition dateNow (menv : MarketEnv) : M Z := fun tr => (Ok (now menv tr), tr).

Definition simulatedBridgeTransfer (stamp : Z) : ToolResult.t :=
  {| ToolResult.success := true;
     ToolResult.status := "simulated_bridge_transfer";
     ToolResult.txHash := Some (String.append "bridge_" (showZ stamp)) |}.

Definition consolidationFailed : ToolResult.t :=
  {| ToolResult.success := false; ToolResult.status := "error"; ToolResult.txHash := None |}.

(** [Object.values(chainAnalysis.chainValues).reduce((sum, val) => sum + val, 0)] *)
Definition totalChainValue (chainValues : Dict Q) : Q :=
  fold_left (fun sum (e : string * Q) => sum + snd e) chainValues 0.

(** [Math.ceil(move.valueUSD / effectiveMaxTrade)] *)
Definition tradesToExecuteOf (chainValues : Dict Q) (move : Move.t) : Result Z :=
  let maxTradeValue := Move.valueUSD move * (2 # 10) in
  let totalValue := totalChainValue chainValues in
  let portfolioLimit := totalValue * (25 # 100) in
  let effectiveMaxTrade := Qmin (Qmin maxTradeValue portfolioLimit) (Move.valueUSD move) in
  rbind (jsdiv (Move.valueUSD move) effectiveMaxTrade) (fun ratio =>
  Ok (Qceiling ratio)).

(** The amount of sub-trade [i]: the last one takes what remains. *)
Definition consolidationAmount (move : Move.t) (tradesToExecute : Z) (i : nat) : Result Q :=
  if Z.eqb (Z.of_nat i) (tradesToExecute - 1)
  then rbind (jsdiv (inject_Z (Z.of_nat i) * Move.amount move) (inject_Z tradesToExecute))
         (fun sold => Ok (Move.amount move - sold))
  else jsdiv (Move.amount move) (inject_Z tradesToExecute).

Definition consolidationContext (cfg : ConfigType) (move : Move.t) (tradesToExecute : Z)
    (i : nat) (tradeAmount : Q) : SymbolTrade.t :=
  {| SymbolTrade.fromSymbol := Move.token move;
     SymbolTrade.toSymbol := "USDC";
     SymbolTrade.amount := tradeAmount;
     SymbolTrade.reason :=
       String.append "Chain consolidation: selling "
         (String.append (Move.token move)
            (String.append " on "
               (String.append (Move.fromChain move)
                  (String.append " (trade "
                     (String.append (showZ (Z.of_nat i + 1))
                        (String.append "/"
                           (String.append (showZ tradesToExecute) ")")))))));
     SymbolTrade.slippageTolerance := maxSlippage cfg;
     SymbolTrade.fromSpecificChain := Some (Move.fromChain move);
     SymbolTrade.toSpecificChain := Some (Move.fromChain move) |}.

(** One pass of the loop over the sub-trades of a move: the result is
    pushed whether the sale succeeded or not, and the pause follows a
    success only. *)
Definition consolidationSell (env : Env) (cfg : ConfigType) (move : Move.t)
    (tradesToExecute : Z) (consolidationResults : list ToolResult.t) (i : nat)
    : M (list ToolResult.t) :=
  tradeAmount <- liftR (consolidationAmount move tradesToExecute i) ;;
  sellResult <- executeTrade env
                  (consolidationContext cfg move tradesToExecute i tradeAmount) ;;
  let pushed := consolidationResults ++ [sellResult] in
  if ToolResult.success sellResult
  then createTradeDelay 2000 ;;; ret pushed
  else ret pushed.

(** One pass of the loop over the moves.  A zero divisor is no exception
    in JavaScript, so the [catch] clause does not handle it; no other
    failure can arise in the body once a result has been pushed. *)
Definition consolidationMove (env : Env) (menv : MarketEnv) (cfg : ConfigType)
    (chainAnalysis : ChainAnalysisType) (consolidationResults : list ToolResult.t)
    (move : Move.t) : M (list ToolResult.t) :=
  tryCatch
    (pushed <-
       (if String.eqb (Move.token move) "USDC" then
          stamp <- dateNow menv ;;
          ret (consolidationResults ++ [simulatedBridgeTransfer stamp])
        else
          tradesToExecute <- liftR (tradesToExecuteOf (chainValues chainAnalysis) move) ;;
          foldM (consolidationSell env cfg move tradesToExecute)
                (seq 0 (Z.to_nat tradesToExecute)) consolidationResults) ;;
     createTradeDelay 2000 ;;;
     ret pushed)
    (fun e =>
       match e with
       | DivisionByZero => throw DivisionByZero
       | _ => ret (consolidationResults ++ [consolidationFailed])
       end).

Record ConsolidationOutput : Type := {
  consolidationResults : list ToolResult.t;
  updatedPortfolio : PortfolioDataType;
  consolidationChainAnalysis : ChainAnalysisType;
  consolidationPrices : PriceDataType;
  consolidationConfig : ConfigType
}.

Definition executeConsolidationStep (env : Env) (menv : MarketEnv)
    (portfolio : EnhancedPortfolio) (chainAnalysis : ChainAnalysisType)
    (p : PriceDataType) (cfg : ConfigType) : M ConsolidationOutput :=
  let skipped :=
    {| consolidationResults := [];
       updatedPortfolio := asPortfolio portfolio;
       consolidationChainAnalysis := chainAnalysis;
       consolidationPrices := p;
       consolidationConfig := cfg |} in
  match consolidationPlan chainAnalysis with
  | None => ret skipped
  | Some plan =>
      if skipConsolidation cfg then ret skipped
      else
        results <- foldM (consolidationMove env menv cfg chainAnalysis) plan [] ;;
        refreshed <- getPortfolio env ;;
        ret {| consolidationResults := results;
               updatedPortfolio := refreshed;
               consolidationChainAnalysis := chainAnalysis;
               consolidationPrices := p;
               consolidationConfig := cfg |}
  end.

(** ** The report ([generate-report-step.ts]) *)

(** The messages of the report, with the numbers they print. *)
Inductive Recommendation : Type :=
| ConsolidatedMoves (moves : nat)
| NoTradesExecuted
| DriftImproved (driftImprovement : option Q) (iterations : Z)
| StillDrifting (maxDriftAfter : Q)
| CloseToTarget.

(** [Math.max(...values)]; [None] stands for the value on no arguments,
    minus infinity. *)
Definition maxOfValues (values : list Q) : option Q :=
  match values with
  | [] => None
  | v :: r => Some (fold_left Qmax r v)
  end.

(** The loop computing [finalDrift] and [maxDriftAfter]. *)
Definition finalDriftLoop (target finalAllocation : Dict Q) : Dict Q * Q :=
  fold_left
    (fun (acc : Dict Q * Q) (e : string * Q) =>
       let finalPercent := JS.orElse (dget (fst e) finalAllocation) 0 in
       let drift := Qabs (finalPercent - snd e) in
       (dset (fst e) drift (fst acc), Qmax (snd acc) drift))
    target ([], 0).

(** [((maxDriftBefore - maxDriftAfter) / maxDriftBefore) * 100]; [None]
    when the quotient is not a finite number. *)
Definition driftImprovementOf (maxDriftBefore : option Q) (maxDriftAfter : Q) : option Q :=
  match maxDriftBefore with
  | Some before =>
      match jsdiv (before - maxDriftAfter) before with
      | Ok ratio => Some (ratio * 100)
      | Err _ => None
      end
  | None => None
  end.

Record ReportSummary : Type := {
  portfolioValueUSD : Q;
  consolidationExecuted : bool;
  consolidationTrades : nat;
  rebalancingRequired : bool;
  rebalancingTrades : nat;
  reportTotalVolumeUSD : Q;
  allocationBefore : Dict Q;
  allocationTarget : Dict Q;
  allocationFinal : Dict Q;
  maxDriftBefore : option Q;
  maxDriftAfter : Q;
  reportIterationsCompleted : Z;
  recommendations : list Recommendation
}.

Record Report : Type := {
  reportSuccess : bool;
  summary : ReportSummary;
  detailsFinalDrift : Dict Q
}.

(** The time stamp of the summary and the inputs copied into [details]
    are left out. *)
Definition generateReport (analysis : AllocationAnalysis)
    (rebalancingResults consolidationResults : list ToolResult.t)
    (finalAllocation : Dict Q) (iterationsCompleted : Z)
    (totalRebalancingVolumeUSD : Q) : Report :=
  let totalConsolidationTrades :=
    List.length (filter ToolResult.success consolidationResults) in
  let totalRebalancingTrades :=
    List.length (filter ToolResult.success rebalancingResults) in
  let maxDriftBefore := maxOfValues (map snd (allocationDrift analysis)) in
  let fd := finalDriftLoop (analysisTargetAllocation analysis) finalAllocation in
  let maxDriftAfter := snd fd in
  let recommendations :=
    (if Nat.ltb 0 totalConsolidationTrades
     then [ConsolidatedMoves totalConsolidationTrades] else [])
    ++ (if needsRebalancing analysis && Nat.eqb totalRebalancingTrades 0
        then [NoTradesExecuted] else [])
    ++ (if Nat.ltb 0 totalRebalancingTrades
        then [DriftImproved (driftImprovementOf maxDriftBefore maxDriftAfter)
                            iterationsCompleted]
        else [])
    ++ (if JS.gtb maxDriftAfter (1 # 100)
        then [StillDrifting maxDriftAfter] else [CloseToTarget]) in
  {| reportSuccess := true;
     summary :=
       {| portfolioValueUSD := totalValueUSD analysis;
          consolidationExecuted := Nat.ltb 0 totalConsolidationTrades;
          consolidationTrades := totalConsolidationTrades;
          rebalancingRequired := needsRebalancing analysis;
          rebalancingTrades := totalRebalancingTrades;
          reportTotalVolumeUSD := totalRebalancingVolumeUSD;
          allocationBefore := currentAllocation analysis;
          allocationTarget := analysisTargetAllocation analysis;
          allocationFinal := finalAllocation;
          maxDriftBefore := maxDriftBefore;
          maxDriftAfter := maxDriftAfter;
          reportIterationsCompleted := iterationsCompleted;
          recommendations := recommendations |};
     detailsFinalDrift := fst fd |}.

(** ** The workflow ([index.ts] of the workflow): the six steps in sequence,
    each fed the output of the one before. *)
Definition recallTradingWorkflow (env : Env) (menv : MarketEnv)
    (numberToString : Q -> string) (i : FetchPricesInput) : M Report :=
  fetched <- fetchPricesStep env numberToString i ;;
  distribution <- analyzeChainDistributionStep env menv (fst fetched) (snd fetched) ;;
  consolidated <- executeConsolidationStep env menv
                    (distributionPortfolio distribution)
                    (distributionChainAnalysis distribution)
                    (distributionPrices distribution)
                    (distributionConfig distribution) ;;
  analysis <- liftR (analyzeAllocation (updatedPortfolio consolidated)
                       (consolidationPrices consolidated)
                       (consolidationConfig consolidated)) ;;
  rebalanced <- executeRebalancingStep env analysis (consolidationPrices consolidated)
                  (consolidationConfig consolidated) ;;
  ret (generateReport analysis (rebalancingResults rebalanced)
         (consolidationResults consolidated) (finalAllocation rebalanced)
         (outputIterationsCompleted rebalanced) (totalRebalancingVolumeUSD rebalanced)).

(** ** Notions used to state the properties of the chain analysis *)

(** [balance.price || prices.prices[normalizedSymbol] || 0] and the value
    the chain analysis gives a balance. *)
Definition analysisPrice (p : PriceDataType) (b : Enhanced.t) : Q :=
  JS.orElse (Some (Enhanced.price b))
            (priceOf p (normalizeSymbol (Balance.symbol (Enhanced.balance b)))).

Definition analysisValue (p : PriceDataType) (b : Enhanced.t) : Q :=
  Balance.amount (Enhanced.balance b) * analysisPrice p b.

Definition onChain (chain : string) (b : Enhanced.t) : bool :=
  String.eqb (Balance.specificChain (Enhanced.balance b)) chain.

(** The amount of a symbol (after normalization) held on a chain. *)
Definition heldOnChain (bs : list Enhanced.t) (sym chain : string) : Q :=
  sumQ (map (fun b => Balance.amount (Enhanced.balance b))
            (filter (fun b =>
                       String.eqb (normalizeSymbol (Balance.symbol (Enhanced.balance b))) sym
                       && onChain chain b)
                    bs)).

(** [tokenDistribution[sym][chain]], a missing entry counting as 0. *)
Definition distributionAt (tokenDistribution : Dict (Dict Q)) (sym chain : string) : Q :=
  match dget sym tokenDistribution with
  | Some distribution => valueOr0 distribution chain
  | None => 0
  end.

Definition tablesWellKeyed (tables : ChainTables) : Prop :=
  keys (tableAvailableTokens tables) = SUPPORTED_CHAINS /\
  keys (tableChainValues tables) = SUPPORTED_CHAINS.

(** ** Notions used to state what a computation adds to the history *)

(** A computation that, from any history, only appends events satisfying
    [ok] and whose result, when there is one, satisfies [post]. *)
Definition addsOnly (ok : Event -> Prop) {A} (m : M A) (post : A -> Prop) : Prop :=
  forall tr r tr', m tr = (r, tr') ->
    (exists added, tr' = tr ++ added /\ Forall ok added) /\
    forall a, r = Ok a -> post a.

(** An event other than an exchange call. *)
Definition noPost (e : Event) : Prop := isPost e = false.

(** The number of results a consolidation move records: one simulated
    transfer for USDC, one result per sub-trade otherwise. *)
Definition moveResultCount (chainValues : Dict Q) (move : Move.t) : nat :=
  if String.eqb (Move.token move) "USDC" then 1%nat
  else match tradesToExecuteOf chainValues move with
       | Ok n => Z.to_nat n
       | Err _ => 0%nat
       end.

(** The stablecoin positions a purchase can be funded from, and the two
    calls a purchase makes. *)
Definition buyStablecoins (portfolio : PortfolioDataType) : list Balance.t :=
  filter (fun b => JS.includes STABLECOINS (Balance.symbol b)
                   && JS.gtb (Balance.amount b) 0)
         (balances portfolio).

Definition buyReason (trade : SubTradeParams) : string :=
  String.append "Smart rebalancing: increasing "
    (String.append (symbol (base trade))
       (String.append " allocation" (subTradeInfo trade))).

Definition buyContext (trade : SubTradeParams) (config : ConfigType)
    (p : option PriceDataType) (best : Balance.t) : SymbolTrade.t :=
  {| SymbolTrade.fromSymbol := Balance.symbol best;
     SymbolTrade.toSymbol := symbol (base trade);
     SymbolTrade.amount := Qmin (differenceValueUSD (base trade)) (stableValue p best);
     SymbolTrade.reason := buyReason trade;
     SymbolTrade.slippageTolerance := maxSlippage config;
     SymbolTrade.fromSpecificChain := Some (Balance.specificChain best);
     SymbolTrade.toSpecificChain := Some (preferredChain (base trade)) |}.

Definition buyAddressContext (trade : SubTradeParams) (config : ConfigType)
    (p : option PriceDataType) (best : Balance.t) (targetTokenInfo : TokenInfo.t)
    : AddressTrade.t :=
  {| AddressTrade.fromTokenAddress := Balance.tokenAddress best;
     AddressTrade.toTokenAddress := TokenInfo.address targetTokenInfo;
     AddressTrade.amount := Qmin (differenceValueUSD (base trade)) (stableValue p best);
     AddressTrade.reason := buyReason trade;
     AddressTrade.slippageTolerance := maxSlippage config;
     AddressTrade.fromChain := Some (Balance.chain best);
     AddressTrade.fromSpecificChain := Balance.specificChain best;
     AddressTrade.toChain := TokenInfo.chain targetTokenInfo;
     AddressTrade.toSpecificChain := preferredChain (base trade) |}.

(** A position on the configured consolidation chain. *)
Definition onConsolidationChain (config : ConfigType) (b : Balance.t) : Prop :=
  match consolidateToChain config with
  | Some chain => chain <> EmptyString /\ Balance.specificChain b = chain
  | None => False
  end.

(** The requests a run added to the history: none, one read of the
    balances, or one read followed by one posted trade. *)
Definition atMostOneTrade (before after : Trace) : Prop :=
  after = before \/
  after = before ++ [HttpGetBalances] \/
  exists payload, after = before ++ [HttpGetBalances; HttpPostTrade payload].

(** The share of an input percentage that counts: a percentage that is
    absent, zero or negative is left out of the allocation. *)
Definition countedPercent (x : option Q) : Q :=
  match x with
  | Some v => if JS.gtb v 0 then v else 0
  | None => 0
  end.

Definition countedPercentOf (i : FetchPricesInput) (k : string) : Q :=
  if String.eqb k "USDC" then countedPercent (usdcPercent i)
  else if String.eqb k "WETH" then countedPercent (wethPercent i)
  else if String.eqb k "USDT" then countedPercent (usdtPercent i)
  else if String.eqb k "SOL" then countedPercent (solPercent i)
  else 0.

Definition countedTotal (i : FetchPricesInput) : Q :=
  countedPercent (usdcPercent i) + countedPercent (wethPercent i)
  + countedPercent (usdtPercent i) + countedPercent (solPercent i).

(** Whether a balance counts under a symbol: a balance in the bridged
    variant USDbC counts under USDC, any other under its own symbol. *)
Definition countsAs (s : string) (b : Balance.t) : bool :=
  if String.eqb (Balance.symbol b) "USDbC" then String.eqb s "USDC"
  else String.eqb (Balance.symbol b) s.

(** A symbol is held when some balance counts under it. *)
Definition isHeld (bs : list Balance.t) (s : string) : Prop :=
  exists b, In b bs /\ countsAs s b = true.

(** The amount held of a symbol: the amounts of the balances counting
    under it, added up. *)
Definition amountHeld (bs : list Balance.t) (s : string) : Q :=
  sumQ (map Balance.amount (filter (countsAs s) bs)).

(** The value of the holdings, balance by balance, USDbC at the price of
    USDC and a missing price counting as 0. *)
Definition holdingsValue (p : PriceDataType) (bs : list Balance.t) : Q :=
  sumQ (map (fun b =>
               Balance.amount b
               * valueOr0 (prices p)
                   (if String.eqb (Balance.symbol b) "USDbC" then "USDC"
                    else Balance.symbol b)) bs).

(** The share of the portfolio value held in a symbol: 0 when the total is
    not positive. *)
Definition valueShare (p : PriceDataType) (bs : list Balance.t) (total : Q) (s : string) : Q :=
  if JS.gtb total 0 then amountHeld bs s * valueOr0 (prices p) s / total else 0.

(** The successful results among those recorded. *)
Definition successes (rs : list ToolResult.t) : nat :=
  List.length (filter ToolResult.success rs).

(** A computation that, from any history, returns a result after appending
    events to the history, result and events satisfying [post]. *)
Definition producesM {A} (m : M A) (post : A -> Trace -> Prop) : Prop :=
  forall tr, exists a added, m tr = (Ok a, tr ++ added) /\ post a added.

(** The books of the rebalancing loop between two of its states, [added]
    being the events in between: every success newly recorded has its
    posted trade, and the volume moves only with a success. *)
Definition accounted (st st' : LoopState) (added : Trace) : Prop :=
  (successes (allRebalancingResults st) <= successes (allRebalancingResults st')
   /\ successes (allRebalancingResults st')
      <= successes (allRebalancingResults st) + countEvents isPost added)%nat /\
  (successes (allRebalancingResults st') = successes (allRebalancingResults st) ->
   totalVolumeUSD st' = totalVolumeUSD st).

(** ** Sample data: holdings on three chains, and a consolidation of them *)

Definition sampleEnhanced : list Enhanced.t :=
  [ {| Enhanced.balance :=
         sampleBalance "USDC" 1000 "eth" "0xA0b86991c6218b36c1d19D4a2e9Eb0cE3606eB48";
       Enhanced.price := 1;
       Enhanced.valueUSD := 1000;
       Enhanced.discoveredSymbol := "USDC" |};
    {| Enhanced.balance :=
         sampleBalance "WETH" 1 "base" "0x4200000000000000000000000000000000000006";
       Enhanced.price := 2000;
       Enhanced.valueUSD := 2000;
       Enhanced.discoveredSymbol := "WETH" |};
    {| Enhanced.balance :=
         sampleBalance "USDT" 500 "arbitrum" "0xfd086bc7cd5c481dcc9c85ebe478a1c0b69fcbb9";
       Enhanced.price := 1;
       Enhanced.valueUSD := 500;
       Enhanced.discoveredSymbol := "USDT" |} ].

Definition sampleEnhancedPortfolio : EnhancedPortfolio :=
  {| enhancedSuccess := true; enhancedBalances := sampleEnhanced |}.

Definition sampleChainValues : Dict Q :=
  [("eth", 1000); ("polygon", 0); ("base", 2000); ("arbitrum", 500);
   ("optimism", 0); ("svm", 0)].

(** 500 USDT to be moved from Arbitrum to Base, and 1000 USDC from
    Ethereum to Base. *)
Definition usdtMove : Move.t :=
  {| Move.fromChain := "arbitrum"; Move.toChain := "base"; Move.token := "USDT";
     Move.amount := 500; Move.valueUSD := 500 |}.

Definition usdcMove : Move.t :=
  {| Move.fromChain := "eth"; Move.toChain := "base"; Move.token := "USDC";
     Move.amount := 1000; Move.valueUSD := 1000 |}.

Definition planOnly (plan : list Move.t) : ChainAnalysisType :=
  {| availableTokens := [];
     tokenDistribution := [];
     chainValues := sampleChainValues;
     consolidationPlan := Some plan |}.

(** A price service that answers no request. *)
Definition silentMarket : MarketEnv :=
  {| tokenInfoReply := fun _ _ _ _ => Failed None; now := fun _ => 0%Z |}.

(** 60% USDC and 40% WETH asked for, the other percentages left out. *)
Definition mixedPercentInput : FetchPricesInput :=
  {| usdcPercent := Some 60;
     wethPercent := Some 40;
     usdtPercent := None;
     solPercent := Some 0;
     inputConsolidateToChain := None;
     slippage := 2;
     inputForceRebalance := false;
     inputSkipConsolidation := false |}.

(** The USD value of the holdings of a target symbol, as the closing loops
    of the rebalancing step compute it. *)
Definition targetValue (p : PriceDataType) (finalSymbolTotals : Dict Q) (e : string * Q) : Q :=
  JS.orElse (dget (fst e) finalSymbolTotals) 0 * priceOf p (fst e).

(** ** Sample data: USDC held in both variants, and a symbol without price *)

Definition bridgedPortfolio : PortfolioDataType :=
  {| portfolioSuccess := true;
     balances :=
       [sampleBalance "USDC" 600 "eth" "0xA0b86991c6218b36c1d19D4a2e9Eb0cE3606eB48";
        sampleBalance "USDbC" 400 "base" "0xd9aAEc86B65D86f6A7B5B1b0c42FFA531710b6CA";
        sampleBalance "WETH" 1 "eth" "0xC02aaA39b223FE8D0A0e5C4F27eAD9083C756Cc2";
        sampleBalance "LINK" 5 "eth" "0x514910771AF9Ca656af840dff83E8264EcF986CA"] |}.

(** ** Sample data: trades of a token for itself *)






(** * Part II: properties *)

(** ** Facts about the number model *)

Module JSFacts.

Lemma leb_le x y : JS.leb x y = true <-> x <= y.
Proof. apply Qle_bool_iff. Qed.

Lemma leb_gt x y : JS.leb x y = false <-> y < x.
Proof.
  unfold JS.leb. split; intros H.
  - apply Qnot_le_lt. intros Hle. apply Qle_bool_iff in Hle. congruence.
  - destruct (Qle_bool x y) eqn:E; [|reflexivity].
    apply Qle_bool_iff in E. exfalso. exact (Qlt_not_le _ _ H E).
Qed.

Lemma geb_ge x y : JS.geb x y = true <-> y <= x.
Proof. apply Qle_bool_iff. Qed.

Lemma geb_lt x y : JS.geb x y = false <-> x < y.
Proof. apply (leb_gt y x). Qed.

Lemma gtb_gt x y : JS.gtb x y = true <-> y < x.
Proof.
  unfold JS.gtb. rewrite negb_true_iff. apply (leb_gt x y).
Qed.

Lemma gtb_le x y : JS.gtb x y = false <-> x <= y.
Proof.
  unfold JS.gtb. rewrite negb_false_iff. apply Qle_bool_iff.
Qed.

Lemma ltb_lt x y : JS.ltb x y = true <-> x < y.
Proof. apply (gtb_gt y x). Qed.

Lemma falsy_eq x : JS.falsy x = true <-> x == 0.
Proof. apply Qeq_bool_iff. Qed.

Lemma falsy_neq x : JS.falsy x = false <-> ~ x == 0.
Proof.
  unfold JS.falsy. split; intros H.
  - intros E. apply Qeq_bool_iff in E. congruence.
  - destruct (Qeq_bool x 0) eqn:E; [|reflexivity].
    apply Qeq_bool_iff in E. contradiction.
Qed.

(** [o || 0] has the value of the entry, a missing entry counting as 0. *)
Lemma orElse_zero o : JS.orElse o 0 == match o with Some v => v | None => 0 end.
Proof.
  destruct o as [v|]; simpl; [|reflexivity].
  destruct (JS.falsy v) eqn:E; [|reflexivity].
  apply falsy_eq in E. symmetry. exact E.
Qed.

Lemma orElse_none d : JS.orElse None d = d.
Proof. reflexivity. Qed.

End JSFacts.

(** Turn the boolean tests of the model into statements on rationals. *)
Ltac js_props :=
  repeat match goal with
  | H : _ || _ = false |- _ => apply orb_false_iff in H; destruct H
  | H : _ && _ = true |- _ => apply andb_true_iff in H; destruct H
  | H : negb _ = true |- _ => apply negb_true_iff in H
  | H : negb _ = false |- _ => apply negb_false_iff in H
  | H : JS.leb _ _ = true |- _ => apply JSFacts.leb_le in H
  | H : JS.leb _ _ = false |- _ => apply JSFacts.leb_gt in H
  | H : JS.geb _ _ = true |- _ => apply JSFacts.geb_ge in H
  | H : JS.geb _ _ = false |- _ => apply JSFacts.geb_lt in H
  | H : JS.gtb _ _ = true |- _ => apply JSFacts.gtb_gt in H
  | H : JS.gtb _ _ = false |- _ => apply JSFacts.gtb_le in H
  | H : JS.falsy _ = true |- _ => apply JSFacts.falsy_eq in H
  | H : JS.falsy _ = false |- _ => apply JSFacts.falsy_neq in H
  | H : Qeq_bool _ _ = true |- _ => apply Qeq_bool_iff in H
  end.

Lemma jsdiv_ok a b : ~ b == 0 -> jsdiv a b = Ok (a / b).
Proof.
  intros H. unfold jsdiv. destruct (Qeq_bool b 0) eqn:E; [|reflexivity].
  apply Qeq_bool_iff in E. contradiction.
Qed.

Lemma jsdiv_not_zero a b q : jsdiv a b = Ok q -> ~ b == 0 /\ q = a / b.
Proof.
  unfold jsdiv. destruct (Qeq_bool b 0) eqn:E; [discriminate|].
  intros H. inversion H. split; [|reflexivity].
  intros Hb. apply Qeq_bool_iff in Hb. congruence.
Qed.

(** ** The trade splitter *)

Lemma Qceiling_gt_one q : 1 < q -> (2 <= Qceiling q)%Z.
Proof.
  intros H.
  assert (Hc : 1 < inject_Z (Qceiling q)).
  { eapply Qlt_le_trans; [exact H | apply Qle_ceiling]. }
  change 1 with (inject_Z 1) in Hc. rewrite <- Zlt_Qlt in Hc.
  revert Hc. generalize (Qceiling q). intros c Hc. lia.
Qed.

Lemma inject_Z_pos_neq n : (1 <= n)%Z -> ~ inject_Z n == 0.
Proof.
  intros H E. change 0 with (inject_Z 0) in E.
  apply (proj1 (inject_Z_injective n 0)) in E. lia.
Qed.

(** The guards return the trade unsplit exactly when it is within limits. *)
Lemma split_single t total frac :
  total <= 0 \/ frac <= 0 \/ differenceValueUSD t <= total * frac ->
  splitTradeIntoSubTrades t total frac = Ok [singleTrade t].
Proof.
  intros H. unfold splitTradeIntoSubTrades.
  destruct (JS.falsy total || JS.leb total 0 || JS.falsy frac || JS.leb frac 0) eqn:G1;
    [reflexivity|].
  destruct (JS.falsy (total * frac) || JS.leb (total * frac) 0
            || JS.falsy (differenceValueUSD t) || JS.leb (differenceValueUSD t) 0) eqn:G2;
    [reflexivity|].
  destruct (JS.leb (differenceValueUSD t) (total * frac)) eqn:G3; [reflexivity|].
  js_props. exfalso.
  destruct H as [H | [H | H]]; lra.
Qed.

Lemma split_many t total frac :
  0 < total -> 0 < frac -> total * frac < differenceValueUSD t ->
  let n := Qceiling (differenceValueUSD t / (total * frac)) in
  (2 <= n)%Z /\
  splitTradeIntoSubTrades t total frac =
    Ok (subTradesLoop t n (differenceAmount t / inject_Z n)
                      (differenceValueUSD t / inject_Z n)).
Proof.
  intros Ht Hf Hv n.
  assert (Hm : 0 < total * frac) by (apply Qmult_lt_0_compat; assumption).
  assert (Hr : 1 < differenceValueUSD t / (total * frac)).
  { apply Qlt_shift_div_l; [exact Hm|]. rewrite Qmult_1_l. exact Hv. }
  assert (Hn : (2 <= n)%Z) by (apply Qceiling_gt_one; exact Hr).
  split; [exact Hn|].
  unfold splitTradeIntoSubTrades.
  assert (G1 : JS.falsy total || JS.leb total 0 || JS.falsy frac || JS.leb frac 0 = false).
  { repeat (apply orb_false_iff; split).
    - apply JSFacts.falsy_neq. intros E. rewrite E in Ht. exact (Qlt_irrefl _ Ht).
    - apply JSFacts.leb_gt. exact Ht.
    - apply JSFacts.falsy_neq. intros E. rewrite E in Hf. exact (Qlt_irrefl _ Hf).
    - apply JSFacts.leb_gt. exact Hf. }
  rewrite G1.
  assert (Hv0 : 0 < differenceValueUSD t) by (eapply Qlt_trans; eassumption).
  assert (G2 : JS.falsy (total * frac) || JS.leb (total * frac) 0
               || JS.falsy (differenceValueUSD t) || JS.leb (differenceValueUSD t) 0 = false).
  { repeat (apply orb_false_iff; split).
    - apply JSFacts.falsy_neq. intros E. rewrite E in Hm. exact (Qlt_irrefl _ Hm).
    - apply JSFacts.leb_gt. exact Hm.
    - apply JSFacts.falsy_neq. intros E. rewrite E in Hv0. exact (Qlt_irrefl _ Hv0).
    - apply JSFacts.leb_gt. exact Hv0. }
  rewrite G2.
  assert (G3 : JS.leb (differenceValueUSD t) (total * frac) = false)
    by (apply JSFacts.leb_gt; exact Hv).
  rewrite G3.
  rewrite jsdiv_ok by (intros E; rewrite E in Hm; exact (Qlt_irrefl _ Hm)).
  cbn [rbind]. fold n.
  replace (Z.max 1 n) with n by lia.
  rewrite !jsdiv_ok by (apply inject_Z_pos_neq; lia).
  reflexivity.
Qed.

(** Every input falls in one of the two cases. *)
Lemma split_cases t total frac :
  (total <= 0 \/ frac <= 0 \/ differenceValueUSD t <= total * frac) \/
  (0 < total /\ 0 < frac /\ total * frac < differenceValueUSD t).
Proof.
  destruct (Qlt_le_dec 0 total) as [Ht|Ht]; [|left; left; exact Ht].
  destruct (Qlt_le_dec 0 frac) as [Hf|Hf]; [|left; right; left; exact Hf].
  destruct (Qlt_le_dec (total * frac) (differenceValueUSD t)) as [Hv|Hv].
  - right. auto.
  - left. right. right. exact Hv.
Qed.

Lemma subTradesLoop_length t n a v :
  List.length (subTradesLoop t n a v) = Z.to_nat n.
Proof. unfold subTradesLoop. rewrite length_map, length_seq. reflexivity. Qed.

Lemma subTradesLoop_nth t n a v i s :
  nth_error (subTradesLoop t n a v) i = Some s ->
  s = {| base := withDifference t a v;
         subTradeIndex := Z.of_nat i + 1;
         totalSubTrades := n |}.
Proof.
  unfold subTradesLoop. intros H.
  rewrite nth_error_map in H.
  destruct (nth_error (seq 0 (Z.to_nat n)) i) as [j|] eqn:E; [|discriminate].
  assert (Hi : (i < List.length (seq 0 (Z.to_nat n)))%nat).
  { apply nth_error_Some. congruence. }
  rewrite length_seq in Hi.
  rewrite nth_error_nth' with (d := 0%nat) in E by (rewrite length_seq; exact Hi).
  rewrite seq_nth in E by exact Hi. simpl in E.
  inversion E; subst j. simpl in H. inversion H. reflexivity.
Qed.

Lemma subTradesLoop_in t n a v s :
  In s (subTradesLoop t n a v) -> base s = withDifference t a v.
Proof.
  unfold subTradesLoop. intros H. apply in_map_iff in H.
  destruct H as [i [E _]]. subst s. reflexivity.
Qed.

Lemma sumQ_const {A} (f : A -> Q) (c : Q) (l : list A) :
  (forall x, In x l -> f x = c) ->
  sumQ (map f l) == inject_Z (Z.of_nat (List.length l)) * c.
Proof.
  induction l as [|x l IH]; intros H.
  - simpl. ring.
  - cbn [map sumQ fold_right List.length]. fold (sumQ (map f l)).
    rewrite IH by (intros y Hy; apply H; right; exact Hy).
    rewrite (H x) by (left; reflexivity).
    rewrite Nat2Z.inj_succ. unfold Z.succ. rewrite inject_Z_plus. ring.
Qed.

(** ** The trade splitter in double precision *)

(** A positive finite bound lets the loop run at least once. *)
Lemma forLoopCount_positive n m e k :
  FloatOps.Prim2SF n = SpecFloat.S754_finite false m e ->
  Binary64.forLoopCount n = Some k -> (1 <= k)%nat.
Proof.
  unfold Binary64.forLoopCount. intros ->.
  set (passes := if (0 <=? e)%Z then _ else _).
  assert (Hp : (1 <= passes)%Z).
  { unfold passes. destruct (0 <=? e)%Z eqn:He.
    - apply Z.leb_le in He.
      assert (0 < 2 ^ e)%Z by (apply Z.pow_pos_nonneg; lia). nia.
    - apply Z.leb_gt in He.
      assert (Hq : (0 <= Z.shiftr (Z.pos m) (- e))%Z) by (apply Z.shiftr_nonneg; lia).
      destruct (Z.eqb_spec (Z.shiftl (Z.shiftr (Z.pos m) (- e)) (- e)) (Z.pos m)) as [E|_];
        [|lia].
      destruct (Z.eq_dec (Z.shiftr (Z.pos m) (- e)) 0) as [E0|]; [|lia].
      rewrite E0, Z.shiftl_0_l in E. discriminate. }
  destruct (passes <=? Binary64.maxArrayLength)%Z; [|discriminate].
  intros H. injection H as <-. lia.
Qed.

(** [Math.max(1, c)] that is a number bounds a loop of at least one pass. *)
Lemma forLoopCount_max_one c k :
  PrimFloat.is_nan (Binary64.Math_max PrimFloat.one c) = false ->
  Binary64.forLoopCount (Binary64.Math_max PrimFloat.one c) = Some k ->
  (1 <= k)%nat.
Proof.
  unfold Binary64.Math_max.
  replace (PrimFloat.is_nan PrimFloat.one) with false by reflexivity. cbn [orb].
  destruct (PrimFloat.is_nan c); [intros H; vm_compute in H; discriminate|].
  destruct (PrimFloat.ltb PrimFloat.one c) eqn:Hlt.
  - intros _ Hk. rewrite FloatAxioms.ltb_spec in Hlt.
    destruct (FloatOps.Prim2SF c) as [s|s| |s m e] eqn:Ec.
    + destruct s; vm_compute in Hlt; discriminate.
    + destruct s; [vm_compute in Hlt; discriminate|].
      unfold Binary64.forLoopCount in Hk. rewrite Ec in Hk. discriminate.
    + vm_compute in Hlt. discriminate.
    + destruct s; [vm_compute in Hlt; discriminate|].
      eapply forLoopCount_positive; eassumption.
  - intros _ Hk. vm_compute in Hk. injection Hk as <-. lia.
Qed.

Lemma binary64_loop_nth t passes n a v i s :
  nth_error (Binary64.subTradesLoop t passes n a v) i = Some s ->
  s = {| Binary64.base := Binary64.withDifference t a v;
         Binary64.subTradeIndex := Z.of_nat i + 1;
         Binary64.totalSubTrades := n |}.
Proof.
  unfold Binary64.subTradesLoop. intros H.
  rewrite nth_error_map in H.
  destruct (nth_error (seq 0 passes) i) as [j|] eqn:E; [|discriminate].
  assert (Hi : (i < List.length (seq 0 passes))%nat).
  { apply nth_error_Some. congruence. }
  rewrite length_seq in Hi.
  rewrite nth_error_nth' with (d := 0%nat) in E by (rewrite length_seq; exact Hi).
  rewrite seq_nth in E by exact Hi. injection E as <-. cbn in H. injection H as <-.
  reflexivity.
Qed.

Lemma binary64_alone t total fraction :
  Binary64.returnedAlone t total fraction = true ->
  Binary64.splitTradeIntoSubTrades t total fraction = Ok [Binary64.singleTrade t].
Proof.
  unfold Binary64.returnedAlone, Binary64.splitTradeIntoSubTrades. intros H.
  destruct (Binary64.falsy total || PrimFloat.leb total PrimFloat.zero
            || Binary64.falsy fraction || PrimFloat.leb fraction PrimFloat.zero);
    [reflexivity|].
  cbn [orb] in H. cbv zeta.
  destruct (Binary64.falsy (PrimFloat.mul total fraction)
            || PrimFloat.leb (PrimFloat.mul total fraction) PrimFloat.zero
            || Binary64.falsy (Binary64.differenceValueUSD t)
            || PrimFloat.leb (Binary64.differenceValueUSD t) PrimFloat.zero);
    [reflexivity|].
  cbn [orb] in H. rewrite H. reflexivity.
Qed.

Lemma binary64_split t total fraction :
  Binary64.returnedAlone t total fraction = false ->
  let n := Binary64.Math_max PrimFloat.one
             (Binary64.Math_ceil
                (PrimFloat.div (Binary64.differenceValueUSD t)
                               (PrimFloat.mul total fraction))) in
  Binary64.splitTradeIntoSubTrades t total fraction
  = match Binary64.forLoopCount n with
    | Some passes =>
        Ok (Binary64.subTradesLoop t passes n
              (PrimFloat.div (Binary64.differenceAmount t) n)
              (PrimFloat.div (Binary64.differenceValueUSD t) n))
    | None => Err (ThrownError "Invalid array length")
    end.
Proof.
  intros H n. unfold Binary64.returnedAlone in H.
  unfold Binary64.splitTradeIntoSubTrades.
  destruct (Binary64.falsy total || PrimFloat.leb total PrimFloat.zero
            || Binary64.falsy fraction || PrimFloat.leb fraction PrimFloat.zero);
    [discriminate|].
  cbn [orb] in H. cbv zeta.
  destruct (Binary64.falsy (PrimFloat.mul total fraction)
            || PrimFloat.leb (PrimFloat.mul total fraction) PrimFloat.zero
            || Binary64.falsy (Binary64.differenceValueUSD t)
            || PrimFloat.leb (Binary64.differenceValueUSD t) PrimFloat.zero);
    [discriminate|].
  cbn [orb] in H. rewrite H. fold n. reflexivity.
Qed.

(** C1.  In exact arithmetic the splitter never fails and returns a
    non-empty list: the trade alone, with [subTradeIndex] 1 and
    [totalSubTrades] 1, when the portfolio value or the fraction is not
    positive or the trade's value is at most [total * frac]; otherwise [n]
    sub-trades, [n] at least 2, each carrying amount / n and value / n and
    tagged with its index out of [n].  In double precision, as the engine
    computes: the trade is returned alone, tagged 1 of 1, exactly when one
    of the validation guards applies (a total, fraction, limit or value
    that is zero, negative or [NaN]) or the value is at most the limit
    [total * frac]; otherwise the number of sub-trades is
    [Math.max(1, Math.ceil(value / (total * frac)))] with the product and
    the quotient rounded, every sub-trade carries amount / n and value / n
    and is tagged with its index out of [n], there is at least one of them
    when [n] is a number, and the function fails when [n] is infinite or
    beyond the length an array can have.  A trade of 40000 against a
    portfolio of 100000 with fraction 0.25 gives exactly two sub-trades of
    20000. *)
Theorem splitTradeIntoSubTrades_contract :
  (forall (t : TradeParams) (total frac : Q),
     (total <= 0 \/ frac <= 0 \/ differenceValueUSD t <= total * frac ->
        splitTradeIntoSubTrades t total frac
        = Ok [ {| base := t; subTradeIndex := 1; totalSubTrades := 1 |} ]) /\
     (~ (total <= 0 \/ frac <= 0 \/ differenceValueUSD t <= total * frac) ->
        exists subs n,
          splitTradeIntoSubTrades t total frac = Ok subs /\
          Z.of_nat (List.length subs) = n /\ (2 <= n)%Z /\
          forall i s, nth_error subs i = Some s ->
            base s = withDifference t (differenceAmount t / inject_Z n)
                                      (differenceValueUSD t / inject_Z n) /\
            subTradeIndex s = (Z.of_nat i + 1)%Z /\
            totalSubTrades s = n) /\
     (exists subs, splitTradeIntoSubTrades t total frac = Ok subs /\ subs <> [])) /\
  (forall (t : Binary64.TradeParams) (total fraction : PrimFloat.float),
     let limit := PrimFloat.mul total fraction in
     let n := Binary64.Math_max PrimFloat.one
                (Binary64.Math_ceil (PrimFloat.div (Binary64.differenceValueUSD t) limit)) in
     (PrimFloat.leb total PrimFloat.zero = true \/
      PrimFloat.leb fraction PrimFloat.zero = true \/
      PrimFloat.leb (Binary64.differenceValueUSD t) limit = true ->
        Binary64.returnedAlone t total fraction = true) /\
     (Binary64.returnedAlone t total fraction = true ->
        Binary64.splitTradeIntoSubTrades t total fraction
        = Ok [ {| Binary64.base := t;
                  Binary64.subTradeIndex := 1;
                  Binary64.totalSubTrades := PrimFloat.one |} ]) /\
     (Binary64.returnedAlone t total fraction = false ->
        match Binary64.forLoopCount n with
        | Some passes =>
            exists subs,
              Binary64.splitTradeIntoSubTrades t total fraction = Ok subs /\
              List.length subs = passes /\
              (PrimFloat.is_nan n = false -> subs <> []) /\
              forall i s, nth_error subs i = Some s ->
                Binary64.base s
                = Binary64.withDifference t
                    (PrimFloat.div (Binary64.differenceAmount t) n)
                    (PrimFloat.div (Binary64.differenceValueUSD t) n) /\
                Binary64.subTradeIndex s = (Z.of_nat i + 1)%Z /\
                Binary64.totalSubTrades s = n
        | None =>
            Binary64.splitTradeIntoSubTrades t total fraction
            = Err (ThrownError "Invalid array length")
        end)) /\
  (forall t : Binary64.TradeParams,
     Binary64.differenceValueUSD t = Binary64.scenarioValue ->
     exists s1 s2,
       Binary64.splitTradeIntoSubTrades t Binary64.scenarioTotal Binary64.quarter
       = Ok [s1; s2] /\
       Binary64.differenceValueUSD (Binary64.base s1) = Binary64.scenarioShare /\
       Binary64.differenceValueUSD (Binary64.base s2) = Binary64.scenarioShare /\
       Binary64.subTradeIndex s1 = 1%Z /\ Binary64.subTradeIndex s2 = 2%Z /\
       Binary64.totalSubTrades s1 = PrimFloat.two /\
       Binary64.totalSubTrades s2 = PrimFloat.two).
Proof.
  split; [|split].
  - intros t total frac. split; [apply split_single|]. split.
    + intros Hno.
      destruct (split_cases t total frac) as [Hs | (Ht & Hf & Hv)]; [contradiction|].
      destruct (split_many t total frac Ht Hf Hv) as [Hn Hsplit].
      set (n := Qceiling (differenceValueUSD t / (total * frac))) in *.
      do 2 eexists. split; [exact Hsplit|]. split; [reflexivity|].
      rewrite subTradesLoop_length.
      replace (Z.of_nat (Z.to_nat n)) with n by lia. split; [exact Hn|].
      intros i s Hi. apply subTradesLoop_nth in Hi. subst s. simpl. auto.
    + destruct (split_cases t total frac) as [Hs | (Ht & Hf & Hv)].
      * exists [singleTrade t]. split; [apply split_single; exact Hs | discriminate].
      * destruct (split_many t total frac Ht Hf Hv) as [Hn Hsplit].
        eexists. split; [exact Hsplit|].
        intros E. apply (f_equal (@List.length _)) in E.
        rewrite subTradesLoop_length in E. simpl in E. lia.
  - intros t total fraction limit n. split; [|split].
    + unfold Binary64.returnedAlone. fold limit.
      intros [H|[H|H]]; rewrite H; rewrite ?orb_true_r; reflexivity.
    + apply binary64_alone.
    + intros Hsplit. rewrite (binary64_split t total fraction Hsplit).
      cbv zeta. fold limit. fold n.
      destruct (Binary64.forLoopCount n) as [passes|] eqn:Ek; [|reflexivity].
      eexists. split; [reflexivity|]. split; [|split].
      * unfold Binary64.subTradesLoop. rewrite length_map, length_seq. reflexivity.
      * intros Hnan E. apply (f_equal (@List.length _)) in E.
        unfold Binary64.subTradesLoop in E. rewrite length_map, length_seq in E.
        pose proof (forLoopCount_max_one _ _ Hnan Ek). simpl in E. lia.
      * intros i s Hi. apply binary64_loop_nth in Hi. subst s. simpl. auto.
  - intros t Hv. unfold Binary64.splitTradeIntoSubTrades. rewrite Hv.
    do 2 eexists. split; [vm_compute; reflexivity|].
    repeat split; vm_compute; reflexivity.
Qed.

(** C1, as stated, fails of the engine's arithmetic.  At a portfolio of
    72154.28, a trade of 90192.85 and fraction 0.25 the rounded quotient is
    exactly 5, so five sub-trades are pushed, while the ceiling of the
    quotient of these very numbers is 6, which is what exact arithmetic
    returns.  And a trade of 1e300 against a portfolio of 1e-300 makes the
    quotient infinite: the loop has no end and nothing is returned. *)
Lemma split_count_is_of_the_rounded_quotient :
  (exists subs,
     Binary64.splitTradeIntoSubTrades
       (Binary64.sampleTrade PrimFloat.one Binary64.roundedValue)
       Binary64.roundedTotal Binary64.quarter = Ok subs /\
     List.length subs = 5%nat) /\
  (exists value total fraction subs,
     Binary64.exactValue Binary64.roundedValue = Some value /\
     Binary64.exactValue Binary64.roundedTotal = Some total /\
     Binary64.exactValue Binary64.quarter = Some fraction /\
     Qceiling (value / (total * fraction)) = 6%Z /\
     splitTradeIntoSubTrades
       {| action := sell; symbol := "WETH"; currentAmount := 1; targetAmount := 0;
          differenceAmount := 1; differenceValueUSD := value; priority := 50;
          preferredChain := "eth" |} total fraction = Ok subs /\
     List.length subs = 6%nat) /\
  Binary64.splitTradeIntoSubTrades
    (Binary64.sampleTrade PrimFloat.one Binary64.hugeValue)
    Binary64.tinyTotal Binary64.quarter = Err (ThrownError "Invalid array length").
Proof.
  split; [|split].
  - eexists. split; vm_compute; reflexivity.
  - do 4 eexists. repeat split; vm_compute; reflexivity.
  - vm_compute. reflexivity.
Qed.

(** C2.  The amounts of the sub-trades add up to the trade's amount and
    their values to its value (exactly, numbers being rationals here); all
    sub-trades of one split carry the same amount and the same value; a
    trade at or under the threshold [total * frac] gives exactly one
    sub-trade. *)
Theorem split_conservation (t : TradeParams) (total frac : Q) :
  exists subs,
    splitTradeIntoSubTrades t total frac = Ok subs /\
    sumQ (map (fun s => differenceAmount (base s)) subs) == differenceAmount t /\
    sumQ (map (fun s => differenceValueUSD (base s)) subs) == differenceValueUSD t /\
    (forall s1 s2, In s1 subs -> In s2 subs ->
       differenceAmount (base s1) = differenceAmount (base s2) /\
       differenceValueUSD (base s1) = differenceValueUSD (base s2)) /\
    (differenceValueUSD t <= total * frac -> List.length subs = 1%nat).
Proof.
  destruct (split_cases t total frac) as [Hs | (Ht & Hf & Hv)].
  - exists [singleTrade t]. split; [apply split_single; exact Hs|].
    simpl. split; [ring|]. split; [ring|]. split; [|reflexivity].
    intros s1 s2 [E1|[]] [E2|[]]. subst. auto.
  - destruct (split_many t total frac Ht Hf Hv) as [Hn Hsplit].
    set (n := Qceiling (differenceValueUSD t / (total * frac))) in *.
    eexists. split; [exact Hsplit|].
    assert (Hz : ~ inject_Z n == 0) by (apply inject_Z_pos_neq; lia).
    assert (Hlen : inject_Z (Z.of_nat (List.length
              (subTradesLoop t n (differenceAmount t / inject_Z n)
                 (differenceValueUSD t / inject_Z n)))) = inject_Z n).
    { rewrite subTradesLoop_length. f_equal. lia. }
    split; [|split; [|split]].
    + rewrite sumQ_const with (c := differenceAmount t / inject_Z n).
      * rewrite Hlen. field. exact Hz.
      * intros s Hin. apply subTradesLoop_in in Hin. rewrite Hin. reflexivity.
    + rewrite sumQ_const with (c := differenceValueUSD t / inject_Z n).
      * rewrite Hlen. field. exact Hz.
      * intros s Hin. apply subTradesLoop_in in Hin. rewrite Hin. reflexivity.
    + intros s1 s2 H1 H2.
      apply subTradesLoop_in in H1. apply subTradesLoop_in in H2.
      rewrite H1, H2. auto.
    + intros Hle. exfalso. lra.
Qed.

(** ** Dictionaries *)

Section DictFacts.
Context {V : Type}.

Lemma dget_In (k : string) (d : Dict V) (v : V) : dget k d = Some v -> In (k, v) d.
Proof.
  induction d as [|[k' v'] d IH]; simpl; [discriminate|].
  destruct (String.eqb_spec k' k) as [->|Hne]; intros H.
  - inversion H. left. reflexivity.
  - right. apply IH. exact H.
Qed.

Lemma dget_None (k : string) (d : Dict V) : dget k d = None <-> ~ In k (keys d).
Proof.
  induction d as [|[k' v'] d IH]; simpl; [tauto|].
  destruct (String.eqb_spec k' k) as [->|Hne].
  - split; [discriminate|]. intros H. exfalso. apply H. left. reflexivity.
  - rewrite IH. split; intros H; [intros [E|Hin]; [contradiction|auto] | auto].
Qed.

Lemma In_dget_NoDup (k : string) (v : V) (d : Dict V) :
  NoDup (keys d) -> In (k, v) d -> dget k d = Some v.
Proof.
  induction d as [|[k' v'] d IH]; simpl; [tauto|].
  intros Hnd [E|Hin]; inversion Hnd as [|? ? Hnot Hnd']; subst.
  - inversion E. subst. rewrite String.eqb_refl. reflexivity.
  - destruct (String.eqb_spec k' k) as [->|Hne].
    + exfalso. apply Hnot. unfold keys. apply in_map_iff. exists (k, v). auto.
    + apply IH; assumption.
Qed.

Lemma dget_dset_same (k : string) (v : V) (d : Dict V) : dget k (dset k v d) = Some v.
Proof.
  induction d as [|[k' v'] d IH]; simpl.
  - rewrite String.eqb_refl. reflexivity.
  - destruct (String.eqb_spec k' k) as [->|Hne]; simpl.
    + rewrite String.eqb_refl. reflexivity.
    + destruct (String.eqb_spec k' k); [contradiction|]. exact IH.
Qed.

Lemma dget_dset_other (k k0 : string) (v : V) (d : Dict V) :
  k0 <> k -> dget k0 (dset k v d) = dget k0 d.
Proof.
  intros Hne.
  induction d as [|[k' v'] d IH]; simpl.
  - destruct (String.eqb_spec k k0); [congruence|reflexivity].
  - destruct (String.eqb_spec k' k) as [->|Hne']; simpl.
    + destruct (String.eqb_spec k k0); [congruence|reflexivity].
    + destruct (String.eqb_spec k' k0); [reflexivity|exact IH].
Qed.

Lemma dset_fresh (k : string) (v : V) (d : Dict V) :
  ~ In k (keys d) -> dset k v d = d ++ [(k, v)].
Proof.
  induction d as [|[k' v'] d IH]; simpl; intros H; [reflexivity|].
  destruct (String.eqb_spec k' k) as [->|Hne].
  - exfalso. apply H. left. reflexivity.
  - rewrite IH; [reflexivity|]. intros Hin. apply H. right. exact Hin.
Qed.

Lemma keys_dset (k : string) (v : V) (d : Dict V) :
  keys (dset k v d) = match dget k d with Some _ => keys d | None => keys d ++ [k] end.
Proof.
  induction d as [|[k' v'] d IH]; simpl; [reflexivity|].
  destruct (String.eqb_spec k' k) as [->|Hne]; simpl; [reflexivity|].
  rewrite IH. destruct (dget k d); reflexivity.
Qed.

Lemma NoDup_keys_dset (k : string) (v : V) (d : Dict V) :
  NoDup (keys d) -> NoDup (keys (dset k v d)).
Proof.
  intros H. rewrite keys_dset. destruct (dget k d) eqn:E; [exact H|].
  apply dget_None in E.
  apply NoDup_rev in H. rewrite <- (rev_involutive (keys d ++ [k])).
  apply NoDup_rev. rewrite rev_app_distr. simpl. constructor; [|exact H].
  rewrite <- in_rev. exact E.
Qed.

Lemma In_keys_dset (k k0 : string) (v : V) (d : Dict V) :
  In k0 (keys (dset k v d)) <-> k0 = k \/ In k0 (keys d).
Proof.
  rewrite keys_dset. destruct (dget k d) eqn:E.
  - split; [auto|]. intros [->|H]; [|exact H].
    apply dget_In in E. unfold keys. apply in_map_iff. exists (k, v0). auto.
  - rewrite in_app_iff. simpl. intuition.
Qed.

End DictFacts.

(** ** Folding in the result monad *)

Lemma rfold_inv {A B} (f : A -> B -> Result A) (P : A -> Prop) (E : Failure -> Prop)
    (l : list B) (a : A) :
  P a ->
  (forall a b, In b l -> P a ->
     match f a b with Ok a' => P a' | Err e => E e end) ->
  match rfold f l a with Ok a' => P a' | Err e => E e end.
Proof.
  revert a. induction l as [|b l IH]; intros a Ha Hstep; simpl; [exact Ha|].
  specialize (Hstep a b (or_introl eq_refl) Ha) as Hb.
  destruct (f a b) as [a'|e]; simpl; [|exact Hb].
  apply IH; [exact Hb|]. intros a0 b0 Hin. apply Hstep. right. exact Hin.
Qed.

(** A loop that appends what each pass pushes. *)
Lemma rfold_pushes {B C} (g : B -> Result (list C)) (l : list B) (acc r : list C) :
  rfold (fun plan e => rbind (g e) (fun pushed => Ok (plan ++ pushed))) l acc = Ok r ->
  exists pushed, Forall2 (fun e out => g e = Ok out) l pushed /\ r = acc ++ List.concat pushed.
Proof.
  revert acc. induction l as [|b l IH]; intros acc; simpl.
  - intros H. inversion H. exists []. split; [constructor|]. simpl.
    rewrite app_nil_r. reflexivity.
  - destruct (g b) as [out|e] eqn:Eg; simpl; [|discriminate].
    intros H. apply IH in H. destruct H as [pushed [HF Hr]].
    exists (out :: pushed). split; [constructor; assumption|].
    simpl. rewrite Hr, app_assoc. reflexivity.
Qed.

Lemma Forall2_pushed_in {B C} (g : B -> Result (list C)) l pushed x :
  Forall2 (fun e out => g e = Ok out) l pushed ->
  In x (List.concat pushed) -> exists e out, In e l /\ g e = Ok out /\ In x out.
Proof.
  induction 1 as [|e out l pushed Hg HF IH]; simpl; [tauto|].
  rewrite in_app_iff. intros [Hin|Hin].
  - exists e, out. auto.
  - destruct (IH Hin) as (e' & out' & H1 & H2 & H3). exists e', out'. auto.
Qed.


(** ** The stable descending sort *)

Section SortFacts.
Context {A : Type} (key : A -> Q).

Lemma insertDesc_perm (x : A) (l : list A) : Permutation (x :: l) (insertDesc key x l).
Proof.
  induction l as [|h r IH]; simpl; [apply Permutation_refl|].
  destruct (JS.gtb (key h) (key x)); [|apply Permutation_refl].
  eapply perm_trans; [apply perm_swap|]. apply perm_skip. exact IH.
Qed.

Lemma sortDesc_perm (l : list A) : Permutation l (sortDesc key l).
Proof.
  induction l as [|x l IH]; simpl; [constructor|].
  eapply perm_trans; [apply perm_skip; exact IH|]. apply insertDesc_perm.
Qed.

Lemma insertDesc_sorted (x : A) (l : list A) :
  descending key l -> descending key (insertDesc key x l).
Proof.
  unfold descending.
  induction l as [|h r IH]; simpl; intros Hs.
  - constructor; constructor.
  - inversion Hs as [|? ? Hr Hall]; subst.
    destruct (JS.gtb (key h) (key x)) eqn:E.
    + apply JSFacts.gtb_gt in E. constructor; [apply IH; exact Hr|].
      apply Forall_forall. intros y Hy.
      apply (Permutation_in _ (Permutation_sym (insertDesc_perm x r))) in Hy.
      destruct Hy as [<-|Hy]; [apply Qlt_le_weak; exact E|].
      rewrite Forall_forall in Hall. apply Hall. exact Hy.
    + apply JSFacts.gtb_le in E. constructor; [exact Hs|].
      constructor; [exact E|].
      rewrite Forall_forall in Hall |- *. intros y Hy.
      eapply Qle_trans; [apply Hall; exact Hy | exact E].
Qed.

Lemma sortDesc_sorted (l : list A) : descending key (sortDesc key l).
Proof.
  induction l as [|x l IH]; simpl; [constructor|].
  apply insertDesc_sorted. exact IH.
Qed.

Lemma sortDesc_In (x : A) (l : list A) : In x (sortDesc key l) <-> In x l.
Proof.
  split; intros H.
  - eapply Permutation_in; [apply Permutation_sym, sortDesc_perm | exact H].
  - eapply Permutation_in; [apply sortDesc_perm | exact H].
Qed.

End SortFacts.

(** ** Grouping balances and valuing the portfolio *)

Lemma valueOr0_orElse (d : Dict Q) (k : string) : JS.orElse (dget k d) 0 == valueOr0 d k.
Proof. unfold valueOr0. apply JSFacts.orElse_zero. Qed.

Lemma priceOf_valueOr0 (p : PriceDataType) (s : string) : priceOf p s == valueOr0 (prices p) s.
Proof. apply valueOr0_orElse. Qed.

Lemma valueOr0_dset_same d k v : valueOr0 (dset k v d) k = v.
Proof. unfold valueOr0. rewrite dget_dset_same. reflexivity. Qed.

Lemma valueOr0_dset_other d k k0 v : k0 <> k -> valueOr0 (dset k v d) k0 = valueOr0 d k0.
Proof. intros H. unfold valueOr0. rewrite dget_dset_other by exact H. reflexivity. Qed.

Lemma In_dset {V} (k k0 : string) (v v0 : V) (d : Dict V) :
  In (k0, v0) (dset k v d) -> (k0 = k /\ v0 = v) \/ In (k0, v0) d.
Proof.
  induction d as [|[k' v'] d IH]; simpl.
  - intros [E|[]]. inversion E. auto.
  - destruct (String.eqb_spec k' k) as [->|Hne]; simpl.
    + intros [E|H]; [inversion E; auto | auto].
    + intros [E|H]; [auto|]. destruct (IH H); auto.
Qed.

Lemma valueOr0_nil k : valueOr0 [] k = 0.
Proof. reflexivity. Qed.

Lemma valueOr0_cons_same k v d : valueOr0 ((k, v) :: d) k = v.
Proof. unfold valueOr0. simpl. rewrite String.eqb_refl. reflexivity. Qed.

Lemma valueOr0_cons_other k k' v d : k' <> k -> valueOr0 ((k', v) :: d) k = valueOr0 d k.
Proof.
  intros H. unfold valueOr0. simpl.
  destruct (String.eqb_spec k' k); [contradiction|reflexivity].
Qed.

Section Grouping.

Let groupStep (symbolTotals : Dict Q) (b : Balance.t) : Dict Q :=
  let normalizedSymbol := normalizeSymbol (Balance.symbol b) in
  dset normalizedSymbol
       (JS.orElse (dget normalizedSymbol symbolTotals) 0 + Balance.amount b)
       symbolTotals.

Lemma group_value (bs : list Balance.t) (acc : Dict Q) (s : string) :
  valueOr0 (fold_left groupStep bs acc) s == valueOr0 acc s + heldAmount bs s.
Proof.
  revert acc. induction bs as [|b bs IH]; intros acc; simpl.
  - unfold heldAmount, sumQ. simpl. ring.
  - rewrite IH. unfold heldAmount, sumQ. simpl. unfold groupStep at 1.
    destruct (String.eqb_spec (normalizeSymbol (Balance.symbol b)) s) as [->|Hne].
    + rewrite valueOr0_dset_same. rewrite valueOr0_orElse. simpl. ring.
    + rewrite valueOr0_dset_other by congruence. reflexivity.
Qed.

Lemma group_keys (bs : list Balance.t) (acc : Dict Q) (s : string) :
  In s (keys (fold_left groupStep bs acc)) <->
  In s (keys acc) \/ exists b, In b bs /\ normalizeSymbol (Balance.symbol b) = s.
Proof.
  revert acc. induction bs as [|b bs IH]; intros acc; simpl.
  - split; [auto|]. intros [H|[b [[] _]]]. exact H.
  - rewrite IH. unfold groupStep at 1. rewrite In_keys_dset. split.
    + intros [[->|H]|[b' [H1 H2]]]; eauto.
    + intros [H|[b' [[->|H1] H2]]]; eauto.
Qed.

Lemma group_NoDup (bs : list Balance.t) (acc : Dict Q) :
  NoDup (keys acc) -> NoDup (keys (fold_left groupStep bs acc)).
Proof.
  revert acc. induction bs as [|b bs IH]; intros acc H; simpl; [exact H|].
  apply IH. unfold groupStep. apply NoDup_keys_dset. exact H.
Qed.

Lemma dictValue_dset (p : PriceDataType) (d : Dict Q) (k : string) (v : Q) :
  dictValue p (dset k v d) == dictValue p d + (v - valueOr0 d k) * valueOr0 (prices p) k.
Proof.
  unfold dictValue, sumQ.
  induction d as [|[k' v'] d IH]; simpl.
  - rewrite valueOr0_nil. ring.
  - destruct (String.eqb_spec k' k) as [->|Hne]; simpl.
    + rewrite valueOr0_cons_same. ring.
    + rewrite IH, valueOr0_cons_other by exact Hne. ring.
Qed.

Lemma group_dictValue (p : PriceDataType) (bs : list Balance.t) (acc : Dict Q) :
  dictValue p (fold_left groupStep bs acc) == dictValue p acc + balancesValue p bs.
Proof.
  revert acc. induction bs as [|b bs IH]; intros acc; simpl.
  - unfold balancesValue, sumQ. simpl. ring.
  - rewrite IH. unfold groupStep at 1. rewrite dictValue_dset.
    rewrite valueOr0_orElse. unfold balancesValue, sumQ. simpl. ring.
Qed.

End Grouping.

Lemma groupBySymbol_NoDup (bs : list Balance.t) : NoDup (keys (groupBySymbol bs)).
Proof. apply group_NoDup. constructor. Qed.

(** A symbol is a key of the grouping exactly when some balance has it as
    normalized symbol, and its entry is the total amount held. *)
Lemma groupBySymbol_keys (bs : list Balance.t) (s : string) :
  In s (keys (groupBySymbol bs)) <->
  exists b, In b bs /\ normalizeSymbol (Balance.symbol b) = s.
Proof.
  unfold groupBySymbol. rewrite group_keys. simpl. intuition.
Qed.

Lemma groupBySymbol_amount (bs : list Balance.t) (s : string) (a : Q) :
  In (s, a) (groupBySymbol bs) -> a == heldAmount bs s.
Proof.
  intros H. apply In_dget_NoDup in H; [|apply groupBySymbol_NoDup].
  assert (Hv : valueOr0 (groupBySymbol bs) s == valueOr0 [] s + heldAmount bs s)
    by apply group_value.
  unfold valueOr0 in Hv. rewrite H in Hv. simpl in Hv. rewrite Hv. ring.
Qed.

Lemma groupBySymbol_value (p : PriceDataType) (bs : list Balance.t) :
  dictValue p (groupBySymbol bs) == balancesValue p bs.
Proof.
  unfold groupBySymbol. rewrite group_dictValue. unfold dictValue, sumQ. simpl. ring.
Qed.

Lemma valueLoop_from (p : PriceDataType) (d : Dict Q) (t : Q) (c : Dict Q) :
  let f := fun (acc : Q * Dict Q) (e : string * Q) =>
             (fst acc + snd e * priceOf p (fst e), dset (fst e) (snd e) (snd acc)) in
  fst (fold_left f d (t, c)) == t + dictValue p d /\
  (NoDup (keys (c ++ d)) -> snd (fold_left f d (t, c)) = c ++ d).
Proof.
  intros f. revert t c. induction d as [|[k v] d IH]; intros t c; simpl.
  - split; [unfold dictValue, sumQ; simpl; ring|]. intros _. rewrite app_nil_r. reflexivity.
  - destruct (IH (t + v * priceOf p k) (dset k v c)) as [H1 H2]. split.
    + eapply Qeq_trans; [exact H1|].
      unfold dictValue, sumQ. simpl. rewrite priceOf_valueOr0. ring.
    + intros Hnd.
      assert (Hfresh : ~ In k (keys c)).
      { unfold keys in Hnd. rewrite map_app in Hnd. simpl in Hnd.
        apply NoDup_remove_2 in Hnd. intros Hin. apply Hnd.
        apply in_or_app. left. exact Hin. }
      rewrite dset_fresh in H2 by exact Hfresh.
      rewrite <- app_assoc in H2. simpl in H2.
      rewrite <- (H2 Hnd).
      change (f (t, c) (k, v)) with (t + v * priceOf p k, dset k v c).
      rewrite (dset_fresh k v c Hfresh). reflexivity.
Qed.

Lemma valueLoop_total (p : PriceDataType) (d : Dict Q) :
  fst (valueLoop p d) == dictValue p d.
Proof.
  unfold valueLoop. destruct (valueLoop_from p d 0 []) as [H _].
  rewrite H. ring.
Qed.

Lemma valueLoop_amounts (p : PriceDataType) (d : Dict Q) :
  NoDup (keys d) -> snd (valueLoop p d) = d.
Proof.
  intros H. unfold valueLoop. destruct (valueLoop_from p d 0 []) as [_ H2].
  apply H2. exact H.
Qed.

Lemma totalLoop_total (p : PriceDataType) (d : Dict Q) : totalLoop p d == dictValue p d.
Proof.
  unfold totalLoop.
  assert (H : forall t, fold_left
            (fun totalValueUSD (e : string * Q) => totalValueUSD + snd e * priceOf p (fst e))
            d t == t + dictValue p d).
  { induction d as [|[k v] d IH]; intros t; simpl.
    - unfold dictValue, sumQ. simpl. ring.
    - rewrite IH. unfold dictValue, sumQ. simpl. rewrite priceOf_valueOr0. ring. }
  rewrite H. ring.
Qed.

(** ** The loops of the analyzer *)

(** The percentage loop divides only by a positive total: it never fails. *)
Lemma percentLoop_returns (p : PriceDataType) (target amounts : Dict Q) (total : Q) :
  exists pct, percentLoop p target amounts total = Ok pct.
Proof.
  unfold percentLoop.
  match goal with |- exists pct, rfold ?f ?l ?a = Ok pct =>
    pose proof (@rfold_inv _ _ f (fun _ => True) (fun _ => False) l a I) as H
  end.
  match type of H with ?P -> _ => assert (Hstep : P) end.
  { intros a b _ _. destruct (JS.gtb total 0) eqn:G.
    - apply JSFacts.gtb_gt in G. rewrite jsdiv_ok; [exact I|].
      intros E. rewrite E in G. exact (Qlt_irrefl _ G).
    - exact I. }
  specialize (H Hstep).
  match type of H with match ?r with _ => _ end => destruct r as [pct|e] end;
    [exists pct; reflexivity | contradiction].
Qed.

(** With nothing of value held, every allocation fraction is 0. *)
Lemma percentLoop_zero (p : PriceDataType) (target amounts : Dict Q) (total : Q) pct :
  total <= 0 ->
  percentLoop p target amounts total = Ok pct ->
  forall s v, In (s, v) pct -> v = 0.
Proof.
  intros Ht Hp. unfold percentLoop in Hp.
  match type of Hp with rfold ?f ?l ?a = _ =>
    pose proof (@rfold_inv _ _ f (fun d => forall s v, In (s, v) d -> v = 0)
                  (fun _ => True) l a) as H
  end.
  rewrite Hp in H. apply H.
  - intros s v [].
  - intros a b _ Ha.
    assert (G : JS.gtb total 0 = false) by (apply JSFacts.gtb_le; exact Ht).
    rewrite G. simpl. intros s v Hin. apply In_dset in Hin.
    destruct Hin as [[_ ->]|Hin]; [reflexivity|]. eapply Ha. exact Hin.
Qed.

(** The drift loop writes an entry for every target key. *)
Lemma driftLoop_keys (target pct : Dict Q) (s : string) :
  In s (keys target) -> In s (keys (fst (driftLoop target pct))).
Proof.
  unfold driftLoop.
  assert (H : forall acc,
             In s (keys (fst acc)) \/ In s (keys target) ->
             In s (keys (fst (fold_left
               (fun (acc : Dict Q * Q) (e : string * Q) =>
                  let currentPercent := JS.orElse (dget (fst e) pct) 0 in
                  let drift := Qabs (currentPercent - snd e) in
                  (dset (fst e) drift (fst acc), Qmax (snd acc) drift))
               target acc)))).
  { induction target as [|[k w] target IH]; intros acc; simpl.
    - intros [H|[]]. exact H.
    - intros H. apply IH. cbn [fst snd]. rewrite In_keys_dset.
      destruct H as [H|[->|H]]; auto. }
  intros Hin. apply H. right. exact Hin.
Qed.

(** What one pass of the target loop pushes. *)
Lemma targetEntry_out p cfg amounts drift total chainFor (e : string * Q) out :
  targetEntry p cfg amounts drift total chainFor e = Ok out ->
  let diff := plannedDifference p amounts total e in
  (out = [] /\ Qabs (diff * priceOf p (fst e)) < minTradeValueUSD cfg) \/
  (exists c, chainFor (fst e) = Ok c /\
     minTradeValueUSD cfg <= Qabs (diff * priceOf p (fst e)) /\
     out = [ {| action := if JS.gtb diff 0 then buy else sell;
                symbol := fst e;
                currentAmount := JS.orElse (dget (fst e) amounts) 0;
                targetAmount := plannedTargetAmount p total e;
                differenceAmount := Qabs diff;
                differenceValueUSD := Qabs (diff * priceOf p (fst e));
                priority := driftOf drift (fst e) * 100;
                preferredChain := c |} ]).
Proof.
  unfold targetEntry, plannedDifference, plannedTargetAmount.
  destruct (JS.gtb (priceOf p (fst e)) 0) eqn:G.
  - apply JSFacts.gtb_gt in G.
    rewrite jsdiv_ok by (intros E; rewrite E in G; exact (Qlt_irrefl _ G)).
    cbn [rbind].
    destruct (JS.geb _ (minTradeValueUSD cfg)) eqn:Gm.
    + destruct (chainFor (fst e)) as [c|err] eqn:Ec; cbn [rbind]; [|discriminate].
      intros H. inversion H. right. exists c. apply JSFacts.geb_ge in Gm. auto.
    + intros H. inversion H. left. apply JSFacts.geb_lt in Gm. auto.
  - cbn [rbind].
    destruct (JS.geb _ (minTradeValueUSD cfg)) eqn:Gm.
    + destruct (chainFor (fst e)) as [c|err] eqn:Ec; cbn [rbind]; [|discriminate].
      intros H. inversion H. right. exists c. apply JSFacts.geb_ge in Gm. auto.
    + intros H. inversion H. left. apply JSFacts.geb_lt in Gm. auto.
Qed.

(** A pass fails only if computing the preferred chain does. *)
Lemma targetEntry_err p cfg amounts drift total chainFor (e : string * Q) err :
  targetEntry p cfg amounts drift total chainFor e = Err err ->
  chainFor (fst e) = Err err.
Proof.
  unfold targetEntry.
  destruct (JS.gtb (priceOf p (fst e)) 0) eqn:G.
  - apply JSFacts.gtb_gt in G.
    rewrite jsdiv_ok by (intros E; rewrite E in G; exact (Qlt_irrefl _ G)).
    cbn [rbind].
    destruct (JS.geb _ (minTradeValueUSD cfg)); [|discriminate].
    destruct (chainFor (fst e)); cbn [rbind]; [discriminate|]. intros H; inversion H; reflexivity.
  - cbn [rbind].
    destruct (JS.geb _ (minTradeValueUSD cfg)); [|discriminate].
    destruct (chainFor (fst e)); cbn [rbind]; [discriminate|]. intros H; inversion H; reflexivity.
Qed.

Lemma targetLoop_err p cfg amounts drift total chainFor err :
  targetLoop p cfg amounts drift total chainFor = Err err ->
  exists s, chainFor s = Err err.
Proof.
  unfold targetLoop. intros H.
  match type of H with rfold ?f ?l ?a = _ =>
    pose proof (@rfold_inv _ _ f (fun _ => True)
                  (fun e0 => exists s, chainFor s = Err e0) l a I) as Hinv
  end.
  rewrite H in Hinv. apply Hinv.
  intros a b _ _.
  destruct (targetEntry p cfg amounts drift total chainFor b) as [out|e0] eqn:Et;
    cbn [rbind]; [exact I|].
  exists (fst b). eapply targetEntry_err. exact Et.
Qed.

Lemma targetLoop_returns p cfg amounts drift total chainFor :
  (forall e, In e (targetAllocation cfg) -> exists c, chainFor (fst e) = Ok c) ->
  exists plan, targetLoop p cfg amounts drift total chainFor = Ok plan.
Proof.
  intros Hc. unfold targetLoop.
  match goal with |- exists plan, rfold ?f ?l ?a = Ok plan =>
    pose proof (@rfold_inv _ _ f (fun _ => True) (fun _ => False) l a I) as H
  end.
  match type of H with ?P -> _ => assert (Hstep : P) end.
  { intros a b Hb _.
    destruct (targetEntry p cfg amounts drift total chainFor b) as [out|e0] eqn:Et;
      cbn [rbind]; [exact I|].
    apply targetEntry_err in Et. destruct (Hc b Hb) as [c Hok]. congruence. }
  specialize (H Hstep).
  match type of H with match ?r with _ => _ end => destruct r as [plan|e] end;
    [exists plan; reflexivity | contradiction].
Qed.

Lemma targetLoop_pushes p cfg amounts drift total chainFor plan :
  targetLoop p cfg amounts drift total chainFor = Ok plan ->
  exists pushed,
    Forall2 (fun e out => targetEntry p cfg amounts drift total chainFor e = Ok out)
            (targetAllocation cfg) pushed /\
    plan = List.concat pushed.
Proof.
  unfold targetLoop. intros H.
  apply rfold_pushes with (g := targetEntry p cfg amounts drift total chainFor) in H.
  exact H.
Qed.

(** What the liquidation loop pushes for a held symbol. *)
Lemma liquidationEntry_in p cfg extra (e : string * Q) t :
  In t (liquidationEntry p cfg extra e) ->
  t = {| action := sell; symbol := fst e; currentAmount := snd e; targetAmount := 0;
         differenceAmount := snd e; differenceValueUSD := snd e * priceOf p (fst e);
         priority := 50;
         preferredChain := JS.orString (consolidateToChain cfg) "eth" |} /\
  valueOr0 (targetAllocation cfg) (fst e) == 0 /\
  minTradeValueUSD cfg <= snd e * priceOf p (fst e) /\
  extra (snd e) = true.
Proof.
  unfold liquidationEntry.
  destruct (Qeq_bool _ 0 && JS.geb _ (minTradeValueUSD cfg) && extra (snd e)) eqn:G;
    [|intros []].
  intros [<-|[]]. js_props. split; [reflexivity|].
  rewrite <- valueOr0_orElse. auto.
Qed.

Lemma liquidationEntry_pushed p cfg extra (e : string * Q) :
  valueOr0 (targetAllocation cfg) (fst e) == 0 ->
  minTradeValueUSD cfg <= snd e * valueOr0 (prices p) (fst e) ->
  extra (snd e) = true ->
  liquidationEntry p cfg extra e =
    [ {| action := sell; symbol := fst e; currentAmount := snd e; targetAmount := 0;
         differenceAmount := snd e; differenceValueUSD := snd e * priceOf p (fst e);
         priority := 50;
         preferredChain := JS.orString (consolidateToChain cfg) "eth" |} ].
Proof.
  intros Hw Hv Hx. unfold liquidationEntry.
  assert (G1 : Qeq_bool (JS.orElse (dget (fst e) (targetAllocation cfg)) 0) 0 = true).
  { apply Qeq_bool_iff. rewrite valueOr0_orElse. exact Hw. }
  assert (G2 : JS.geb (snd e * priceOf p (fst e)) (minTradeValueUSD cfg) = true).
  { apply JSFacts.geb_ge. rewrite priceOf_valueOr0. exact Hv. }
  rewrite G1, G2, Hx. reflexivity.
Qed.

(** ** The price-fetching step *)

Lemma addPercent_in key x d e :
  In e (addPercent key x d) -> 0 < snd e \/ In e d.
Proof.
  unfold addPercent. destruct x as [v|]; [|auto].
  destruct (negb (JS.falsy v) && JS.gtb v 0) eqn:G; [|auto].
  destruct e as [k0 v0]. intros H. apply In_dset in H.
  destruct H as [[_ ->]|H]; [|auto].
  left. js_props. assumption.
Qed.

Lemma rawAllocation_positive i e : In e (rawAllocationOf i) -> 0 < snd e.
Proof.
  unfold rawAllocationOf. intros H.
  repeat (apply addPercent_in in H; destruct H as [H|H]; [exact H|]).
  destruct H.
Qed.

Lemma addPercent_nonpositive key x d : percentOr0 x <= 0 -> addPercent key x d = d.
Proof.
  unfold addPercent, percentOr0. destruct x as [v|]; [|reflexivity].
  intros H. assert (G : JS.gtb v 0 = false) by (apply JSFacts.gtb_le; exact H).
  rewrite G, andb_false_r. reflexivity.
Qed.

Lemma totalPercent_positive (d : Dict Q) :
  d <> [] -> (forall e, In e d -> 0 < snd e) -> 0 < totalPercentOf d.
Proof.
  unfold totalPercentOf.
  assert (H : forall acc, (forall e, In e d -> 0 < snd e) ->
            acc <= fold_left (fun sum (e : string * Q) => sum + snd e) d acc /\
            (d <> [] -> acc < fold_left (fun sum (e : string * Q) => sum + snd e) d acc)).
  { induction d as [|e d IH]; intros acc Hpos; simpl.
    - split; [apply Qle_refl | congruence].
    - assert (He : 0 < snd e) by (apply Hpos; left; reflexivity).
      destruct (IH (acc + snd e)) as [H1 _]; [intros e' He'; apply Hpos; right; exact He'|].
      split; [lra | intros _; lra]. }
  intros Hne Hpos. apply (H 0 Hpos). exact Hne.
Qed.

(** The allocation is always built: the positive-sum check cannot fire,
    only positive percentages being collected. *)
Lemma normalizeAllocation_returns i :
  exists target, normalizeAllocation i = Ok target /\
                 (rawAllocationOf i = [] -> target = DEFAULT_TARGET_ALLOCATION).
Proof.
  unfold normalizeAllocation.
  destruct (rawAllocationOf i) as [|e d] eqn:Eraw.
  { exists DEFAULT_TARGET_ALLOCATION. auto. }
  assert (Hpos : 0 < totalPercentOf (e :: d)).
  { apply totalPercent_positive; [discriminate|].
    intros e' He'. apply rawAllocation_positive with (i := i). rewrite Eraw. exact He'. }
  assert (G : JS.leb (totalPercentOf (e :: d)) 0 = false) by (apply JSFacts.leb_gt; exact Hpos).
  rewrite G.
  match goal with |- exists target, rfold ?f ?l ?a = Ok target /\ _ =>
    pose proof (@rfold_inv _ _ f (fun _ => True) (fun _ => False) l a I) as H
  end.
  match type of H with ?P -> _ => assert (Hstep : P) end.
  { intros a b _ _. rewrite jsdiv_ok; [exact I|].
    intros E. rewrite E in Hpos. exact (Qlt_irrefl _ Hpos). }
  specialize (H Hstep).
  match type of H with match ?r with _ => _ end => destruct r as [target|err] end;
    [|contradiction].
  exists target. split; [reflexivity | discriminate].
Qed.

Lemma addPercent_key key x d e :
  In e (addPercent key x d) -> fst e = key \/ In e d.
Proof.
  unfold addPercent. destruct x as [v|]; [|auto].
  destruct (negb (JS.falsy v) && JS.gtb v 0); [|auto].
  destruct e as [k0 v0]. intros H. apply In_dset in H.
  destruct H as [[-> _]|H]; auto.
Qed.

Lemma rawAllocation_keys i e : In e (rawAllocationOf i) -> In (fst e) SUPPORTED_TOKENS.
Proof.
  unfold rawAllocationOf. intros H.
  repeat (apply addPercent_key in H; destruct H as [H|H]; [rewrite H; simpl; tauto|]).
  destruct H.
Qed.

Lemma normalizeAllocation_keys i target k :
  normalizeAllocation i = Ok target -> In k (keys target) -> In k SUPPORTED_TOKENS.
Proof.
  unfold normalizeAllocation.
  destruct (rawAllocationOf i) as [|e d] eqn:Eraw.
  { intros H. inversion H. simpl. tauto. }
  destruct (JS.leb _ 0); [discriminate|].
  intros H.
  match type of H with rfold ?f ?l ?a = _ =>
    pose proof (@rfold_inv _ _ f
                  (fun t => forall k, In k (keys t) -> In k SUPPORTED_TOKENS)
                  (fun _ => True) l a) as Hinv
  end.
  rewrite H in Hinv. apply Hinv.
  - intros k0 [].
  - intros a b Hb Ha. destruct (jsdiv (snd b) _); cbn [rbind]; [|exact I].
    intros k0 Hk0. apply In_keys_dset in Hk0. destruct Hk0 as [->|Hk0]; [|auto].
    apply rawAllocation_keys with (i := i). rewrite Eraw. exact Hb.
Qed.

(** Every configuration the workflow builds has the default, positive
    minimum trade value and names only supported tokens as targets. *)
Lemma fetchPricesStep_config env numberToString i tr pr cfg tr' :
  fetchPricesStep env numberToString i tr = (Ok (pr, cfg), tr') ->
  minTradeValueUSD cfg = DEFAULT_MIN_TRADE_VALUE_USD /\
  0 < minTradeValueUSD cfg /\
  forall k, In k (keys (targetAllocation cfg)) -> In k SUPPORTED_TOKENS.
Proof.
  unfold fetchPricesStep, bind, liftR.
  destruct (normalizeAllocation i) as [target|e] eqn:Hn; [|discriminate].
  intros H. inversion H; subst; clear H. cbn [minTradeValueUSD targetAllocation].
  split; [reflexivity|]. split; [reflexivity|].
  intros k. apply normalizeAllocation_keys with (i := i). exact Hn.
Qed.

(** C9, as stated, fails: with all four percentages 0, or with none given,
    the sum is 0, yet the step does not fail; it takes the default
    allocation and fetches prices. *)
Lemma zero_percentages_fall_back_to_defaults :
  (percentSum zeroPercentInput <= 0 /\
   exists pr cfg,
     fetchPricesStep sampleEnv sampleNumberToString zeroPercentInput []
       = (Ok (pr, cfg), [CallGetPrice ["USDC"; "WETH"; "USDT"; "SOL"] "eth"]) /\
     targetAllocation cfg = DEFAULT_TARGET_ALLOCATION) /\
  (percentSum noPercentInput <= 0 /\
   exists pr cfg,
     fetchPricesStep sampleEnv sampleNumberToString noPercentInput []
       = (Ok (pr, cfg), [CallGetPrice ["USDC"; "WETH"; "USDT"; "SOL"] "eth"]) /\
     targetAllocation cfg = DEFAULT_TARGET_ALLOCATION).
Proof.
  split; (split; [discriminate|]);
    do 2 eexists; (split; [vm_compute; reflexivity | reflexivity]).
Qed.

(** C9, amended.  The step never fails on the allocation percentages: for
    every input it builds a configuration and issues the price fetch.  When
    no percentage is positive, in particular when the (non-negative)
    percentages sum to 0 or less, the target is the default allocation. *)
Theorem fetchPricesStep_never_rejects env numberToString i tr :
  exists pr cfg,
    fetchPricesStep env numberToString i tr
      = (Ok (pr, cfg), tr ++ [CallGetPrice ["USDC"; "WETH"; "USDT"; "SOL"] "eth"]) /\
    (rawAllocationOf i = [] -> targetAllocation cfg = DEFAULT_TARGET_ALLOCATION) /\
    (nonNegativePercents i -> percentSum i <= 0 ->
       targetAllocation cfg = DEFAULT_TARGET_ALLOCATION).
Proof.
  destruct (normalizeAllocation_returns i) as [target [Hn Hdef]].
  unfold fetchPricesStep, bind, liftR. rewrite Hn.
  do 2 eexists. split; [reflexivity|]. cbn [targetAllocation].
  split; [exact Hdef|].
  intros (H1 & H2 & H3 & H4) Hsum. apply Hdef.
  unfold percentSum in Hsum. unfold rawAllocationOf.
  rewrite !addPercent_nonpositive by lra. reflexivity.
Qed.

(** ** The allocation analyzer *)

(** What a successful analysis consists of. *)
Lemma analyzeAllocation_Ok pf p cfg a :
  analyzeAllocation pf p cfg = Ok a ->
  let symbolTotals := groupBySymbol (balances pf) in
  totalValueUSD a = fst (valueLoop p symbolTotals) /\
  percentLoop p (targetAllocation cfg) symbolTotals (totalValueUSD a)
    = Ok (currentAllocation a) /\
  allocationDrift a = fst (driftLoop (targetAllocation cfg) (currentAllocation a)) /\
  needsRebalancing a =
    forceRebalance cfg
    || JS.gtb (snd (driftLoop (targetAllocation cfg) (currentAllocation a)))
              (rebalanceThreshold cfg) /\
  (needsRebalancing a = false -> rebalancingPlan a = []) /\
  (needsRebalancing a = true ->
     exists fromTargets,
       targetLoop p cfg symbolTotals (allocationDrift a) (totalValueUSD a)
                  (analyzerChainFor cfg) = Ok fromTargets /\
       rebalancingPlan a =
         sortDesc priority
           (fromTargets ++ liquidationLoop p cfg (fun _ => true) symbolTotals)).
Proof.
  intros H symbolTotals. unfold analyzeAllocation in H.
  rewrite valueLoop_amounts in H by apply groupBySymbol_NoDup.
  fold symbolTotals in H.
  destruct (percentLoop p (targetAllocation cfg) symbolTotals
              (fst (valueLoop p symbolTotals))) as [pct|e] eqn:Hp;
    cbn [rbind] in H; [|discriminate].
  destruct (forceRebalance cfg
            || JS.gtb (snd (driftLoop (targetAllocation cfg) pct))
                      (rebalanceThreshold cfg)) eqn:Hn.
  - destruct (targetLoop p cfg symbolTotals (fst (driftLoop (targetAllocation cfg) pct))
                (fst (valueLoop p symbolTotals)) (analyzerChainFor cfg))
      as [ft|e] eqn:Ht; cbn [rbind] in H; [|discriminate].
    inversion H; subst a; clear H. simpl.
    repeat split; auto; [discriminate|].
    intros _. exists ft. split; [exact Ht | reflexivity].
  - cbn [rbind] in H. inversion H; subst a; clear H. simpl.
    repeat split; auto. discriminate.
Qed.

(** The analyzer can only fail where it indexes the preference list of a
    target symbol that has none. *)
Lemma analyzeAllocation_Err pf p cfg e :
  analyzeAllocation pf p cfg = Err e ->
  exists s, analyzerChainFor cfg s = Err e.
Proof.
  unfold analyzeAllocation.
  destruct (percentLoop_returns p (targetAllocation cfg)
              (snd (valueLoop p (groupBySymbol (balances pf))))
              (fst (valueLoop p (groupBySymbol (balances pf))))) as [pct Hp].
  rewrite Hp. cbn [rbind].
  destruct (forceRebalance cfg || _); cbn [rbind]; [|discriminate].
  match goal with |- context [targetLoop ?a ?b ?c ?d ?e0 ?f] =>
    destruct (targetLoop a b c d e0 f) as [ft|err] eqn:Ht end;
    cbn [rbind]; [discriminate|].
  intros H. inversion H; subst. eapply targetLoop_err. exact Ht.
Qed.

Lemma analyzerChainFor_Err cfg s e :
  analyzerChainFor cfg s = Err e ->
  e = TypeError "Cannot read properties of undefined" /\
  JS.truthyString (consolidateToChain cfg) = false /\
  dget s CHAIN_PREFERENCES = None.
Proof.
  unfold analyzerChainFor.
  destruct (consolidateToChain cfg) as [[|c r]|];
    destruct (dget s CHAIN_PREFERENCES) eqn:Ed; intros H; try discriminate;
    inversion H; repeat split; reflexivity.
Qed.

(** The analyzer returns an analysis whenever the preferred chain of every
    target symbol can be computed: a consolidation chain is configured, or
    all target symbols are supported tokens. *)
Lemma analyzeAllocation_returns pf p cfg :
  JS.truthyString (consolidateToChain cfg) = true \/
  (forall s, In s (keys (targetAllocation cfg)) -> In s SUPPORTED_TOKENS) ->
  exists a, analyzeAllocation pf p cfg = Ok a.
Proof.
  intros Hc.
  destruct (analyzeAllocation pf p cfg) as [a|e] eqn:Ha; [exists a; reflexivity|].
  exfalso.
  destruct (analyzeAllocation_Err _ _ _ _ Ha) as [s Hs].
  assert (Hsrc := Ha). unfold analyzeAllocation in Hsrc.
  destruct (percentLoop_returns p (targetAllocation cfg)
              (snd (valueLoop p (groupBySymbol (balances pf))))
              (fst (valueLoop p (groupBySymbol (balances pf))))) as [pct Hp].
  rewrite Hp in Hsrc. cbn [rbind] in Hsrc.
  destruct (forceRebalance cfg || _); cbn [rbind] in Hsrc; [|discriminate].
  match type of Hsrc with context [targetLoop ?a ?b ?c ?d ?e0 ?f] =>
    destruct (targetLoop_returns a b c d e0 f) as [plan Hplan] end.
  - intros t Ht. destruct Hc as [Hc|Hc].
    + unfold analyzerChainFor. destruct (consolidateToChain cfg) as [[|c r]|];
        try discriminate. eauto.
    + assert (Hin : In (fst t) SUPPORTED_TOKENS).
      { apply Hc. unfold keys. apply in_map. exact Ht. }
      unfold analyzerChainFor.
      destruct (consolidateToChain cfg) as [[|c r]|]; eauto;
        simpl in Hin; destruct Hin as [<-|[<-|[<-|[<-|[]]]]]; simpl; eauto.
  - rewrite Hplan in Hsrc. cbn [rbind] in Hsrc. discriminate.
Qed.

(** The analyzer returns an analysis under every such configuration. *)
Lemma analyzeAllocation_returns_in_workflow env numberToString i tr pr cfg tr' pf p :
  fetchPricesStep env numberToString i tr = (Ok (pr, cfg), tr') ->
  exists a, analyzeAllocation pf p cfg = Ok a.
Proof.
  intros H. apply analyzeAllocation_returns. right.
  exact (proj2 (proj2 (fetchPricesStep_config _ _ _ _ _ _ _ H))).
Qed.

Lemma plan_entry_origin pf p cfg a t :
  analyzeAllocation pf p cfg = Ok a ->
  In t (rebalancingPlan a) ->
  (exists e out,
     In e (targetAllocation cfg) /\
     targetEntry p cfg (groupBySymbol (balances pf)) (allocationDrift a)
       (totalValueUSD a) (analyzerChainFor cfg) e = Ok out /\ In t out) \/
  (exists e, In e (groupBySymbol (balances pf)) /\
             In t (liquidationEntry p cfg (fun _ => true) e)).
Proof.
  intros Ha Hin.
  destruct (analyzeAllocation_Ok _ _ _ _ Ha) as (_ & _ & _ & _ & Hno & Hyes).
  destruct (needsRebalancing a) eqn:Hn.
  - destruct (Hyes eq_refl) as [ft [Hft Hplan]].
    rewrite Hplan in Hin. apply sortDesc_In in Hin. apply in_app_or in Hin.
    destruct Hin as [Hin|Hin].
    + left. apply targetLoop_pushes in Hft. destruct Hft as [pushed [HF ->]].
      destruct (@Forall2_pushed_in _ _ _ _ _ t HF Hin) as (e & out & H1 & H2 & H3).
      exists e, out. auto.
    + right. unfold liquidationLoop in Hin. apply in_flat_map in Hin. exact Hin.
  - rewrite (Hno eq_refl) in Hin. destruct Hin.
Qed.

Lemma driftOf_defined target pct s :
  In s (keys target) -> In s (keys (fst (driftLoop target pct))).
Proof. apply driftLoop_keys. Qed.

Lemma targetLoop_entries p cfg amounts drift total chainFor plan t :
  targetLoop p cfg amounts drift total chainFor = Ok plan ->
  In t plan ->
  In (symbol t) (keys (targetAllocation cfg)) /\
  priority t = driftOf drift (symbol t) * 100.
Proof.
  intros Hl Hin. apply targetLoop_pushes in Hl. destruct Hl as [pushed [HF ->]].
  destruct (@Forall2_pushed_in _ _ _ _ _ t HF Hin) as (e & out & H1 & H2 & H3).
  apply targetEntry_out in H2. destruct H2 as [[-> _]|(c & _ & _ & ->)]; [destruct H3|].
  destruct H3 as [<-|[]]. simpl. split; [|reflexivity].
  unfold keys. apply in_map. exact H1.
Qed.

(** ** Holdings read off the balances, and the analyzer's grouping *)

Lemma countsAs_normalizeSymbol s b :
  countsAs s b = String.eqb (normalizeSymbol (Balance.symbol b)) s.
Proof.
  unfold countsAs, normalizeSymbol.
  destruct (String.eqb (Balance.symbol b) "USDbC"); [apply String.eqb_sym | reflexivity].
Qed.

Lemma amountHeld_heldAmount bs s : amountHeld bs s = heldAmount bs s.
Proof.
  unfold amountHeld, heldAmount. f_equal. f_equal.
  apply filter_ext. intros b. apply countsAs_normalizeSymbol.
Qed.

Lemma holdingsValue_balancesValue p bs : holdingsValue p bs = balancesValue p bs.
Proof. reflexivity. Qed.

Lemma isHeld_grouped bs s : isHeld bs s <-> In s (keys (groupBySymbol bs)).
Proof.
  rewrite groupBySymbol_keys. unfold isHeld.
  split; intros [b [Hb H]]; exists b; (split; [exact Hb|]).
  - rewrite countsAs_normalizeSymbol in H. apply String.eqb_eq. exact H.
  - rewrite countsAs_normalizeSymbol. apply String.eqb_eq. exact H.
Qed.

(** What the analyzer records for a held symbol is the amount held of it. *)
Lemma isHeld_entry bs s :
  isHeld bs s -> exists amount, In (s, amount) (groupBySymbol bs) /\ amount == amountHeld bs s.
Proof.
  intros H. apply isHeld_grouped in H. unfold keys in H. apply in_map_iff in H.
  destruct H as [[k amount] [E Hin]]. cbn [fst] in E. subst k.
  exists amount. split; [exact Hin|].
  rewrite amountHeld_heldAmount. apply groupBySymbol_amount. exact Hin.
Qed.

Lemma amountHeld_cons b bs s :
  amountHeld (b :: bs) s
  == (if countsAs s b then Balance.amount b else 0) + amountHeld bs s.
Proof.
  unfold amountHeld. cbn [filter].
  destruct (countsAs s b); unfold sumQ; cbn [map fold_right]; ring.
Qed.

Lemma sumQ_map_ext {A} (f g : A -> Q) (l : list A) :
  (forall x, f x == g x) -> sumQ (map f l) == sumQ (map g l).
Proof.
  intros H. induction l as [|x l IH]; [reflexivity|].
  cbn [map sumQ fold_right]. fold (sumQ (map f l)). fold (sumQ (map g l)).
  rewrite IH, (H x). reflexivity.
Qed.

Lemma sumQ_map_plus {A} (f g : A -> Q) (l : list A) :
  sumQ (map (fun x => f x + g x) l) == sumQ (map f l) + sumQ (map g l).
Proof.
  induction l as [|x l IH]; [reflexivity|].
  cbn [map sumQ fold_right].
  fold (sumQ (map f l)). fold (sumQ (map g l)). fold (sumQ (map (fun x => f x + g x) l)).
  rewrite IH. ring.
Qed.

(** Over a duplicate-free list, a sum that picks one key has one term. *)
Lemma sumQ_single (c : string -> bool) (k : string) (x : Q) (f : string -> Q) syms :
  (forall s, c s = true <-> s = k) -> NoDup syms ->
  sumQ (map (fun s => (if c s then x else 0) * f s) syms)
  == if in_dec string_dec k syms then x * f k else 0.
Proof.
  intros Hc Hnd. induction Hnd as [|s syms Hnot Hnd IH]; [reflexivity|].
  cbn [map sumQ fold_right].
  fold (sumQ (map (fun s => (if c s then x else 0) * f s) syms)). rewrite IH.
  destruct (c s) eqn:E.
  - apply Hc in E. subst s.
    destruct (in_dec string_dec k syms) as [Hin|_]; [contradiction|].
    destruct (in_dec string_dec k (k :: syms)) as [_|Hout]; [ring|].
    exfalso. apply Hout. left. reflexivity.
  - assert (Hne : s <> k).
    { intros E'. apply Hc in E'. congruence. }
    destruct (in_dec string_dec k syms) as [Hin|Hout];
      destruct (in_dec string_dec k (s :: syms)) as [Hin'|Hout']; try ring.
    + exfalso. apply Hout'. right. exact Hin.
    + exfalso. destruct Hin' as [E'|Hin']; [exact (Hne E') | exact (Hout Hin')].
Qed.

Lemma countsAs_iff s b :
  countsAs s b = true
  <-> s = (if String.eqb (Balance.symbol b) "USDbC" then "USDC" else Balance.symbol b).
Proof.
  unfold countsAs. destruct (String.eqb (Balance.symbol b) "USDbC").
  - apply String.eqb_eq.
  - rewrite String.eqb_eq. split; intros H; symmetry; exact H.
Qed.

(** The value of the holdings, symbol by symbol: over any duplicate-free
    list of symbols that has every held symbol, the amounts held times the
    prices add up to the value of the balances. *)
Lemma value_by_symbol p bs syms :
  NoDup syms ->
  (forall s, isHeld bs s -> In s syms) ->
  sumQ (map (fun s => amountHeld bs s * valueOr0 (prices p) s) syms)
  == holdingsValue p bs.
Proof.
  intros Hnd. induction bs as [|b bs IH]; intros Hall.
  - unfold holdingsValue. cbn [map sumQ fold_right].
    rewrite (sumQ_map_ext _ (fun _ => 0)).
    + clear. induction syms as [|s syms IH]; [reflexivity|].
      cbn [map sumQ fold_right]. fold (sumQ (map (fun _ : string => 0) syms)).
      rewrite IH. ring.
    + intros s. unfold amountHeld. cbn [filter map sumQ fold_right]. ring.
  - rewrite (sumQ_map_ext _
               (fun s => (if countsAs s b then Balance.amount b else 0)
                         * valueOr0 (prices p) s
                         + amountHeld bs s * valueOr0 (prices p) s)).
    2:{ intros s. rewrite amountHeld_cons. ring. }
    rewrite sumQ_map_plus, IH.
    2:{ intros s [b' [Hb' Hc]]. apply Hall. exists b'. split; [right; exact Hb' | exact Hc]. }
    rewrite (sumQ_single (fun s => countsAs s b) _ (Balance.amount b)
               (valueOr0 (prices p)) syms (fun s => countsAs_iff s b) Hnd).
    destruct (in_dec string_dec _ syms) as [_|Hout].
    + unfold holdingsValue. cbn [map sumQ fold_right]. reflexivity.
    + exfalso. apply Hout. apply Hall. exists b. split; [left; reflexivity|].
      apply countsAs_iff. reflexivity.
Qed.

(** C3.  When the analyzer decides to rebalance, every held symbol (a
    balance in USDbC counting under USDC) with target weight 0 and USD
    value at least [minTradeValueUSD] has a sell entry in the plan for the
    full amount held, with priority 50; the plan consists of the entries
    pushed by the loop over target symbols, which carry priority
    [drift[symbol] * 100], and of those liquidation entries; and the plan
    is sorted by descending priority. *)
Theorem analyzer_liquidation_priority_order pf p cfg a :
  analyzeAllocation pf p cfg = Ok a ->
  needsRebalancing a = true ->
  (forall s,
     isHeld (balances pf) s ->
     valueOr0 (targetAllocation cfg) s == 0 ->
     minTradeValueUSD cfg <= amountHeld (balances pf) s * valueOr0 (prices p) s ->
     exists t, In t (rebalancingPlan a) /\
       action t = sell /\ symbol t = s /\
       currentAmount t == amountHeld (balances pf) s /\ targetAmount t = 0 /\
       differenceAmount t == amountHeld (balances pf) s /\
       differenceValueUSD t == amountHeld (balances pf) s * valueOr0 (prices p) s /\
       priority t = 50) /\
  (exists fromTargets,
     targetLoop p cfg (groupBySymbol (balances pf)) (allocationDrift a)
       (totalValueUSD a) (analyzerChainFor cfg) = Ok fromTargets /\
     Permutation
       (fromTargets
        ++ liquidationLoop p cfg (fun _ => true) (groupBySymbol (balances pf)))
       (rebalancingPlan a) /\
     forall t, In t fromTargets ->
       In (symbol t) (keys (targetAllocation cfg)) /\
       In (symbol t) (keys (allocationDrift a)) /\
       priority t = driftOf (allocationDrift a) (symbol t) * 100) /\
  (forall t, In t (rebalancingPlan a) ->
     priority t = driftOf (allocationDrift a) (symbol t) * 100 \/ priority t = 50) /\
  descending priority (rebalancingPlan a).
Proof.
  intros Ha Hn.
  destruct (analyzeAllocation_Ok _ _ _ _ Ha) as (_ & _ & Hdrift & _ & _ & Hyes).
  destruct (Hyes Hn) as [ft [Hft Hplan]].
  split; [|split; [|split]].
  - intros s Hheld Hw Hv.
    destruct (isHeld_entry _ _ Hheld) as [amount [Hin Hamount]].
    rewrite <- Hamount in Hv.
    eexists. split.
    + rewrite Hplan. apply sortDesc_In. apply in_or_app. right.
      unfold liquidationLoop. apply in_flat_map. exists (s, amount).
      split; [exact Hin|].
      rewrite (liquidationEntry_pushed p cfg (fun _ => true) (s, amount) Hw Hv eq_refl).
      left. reflexivity.
    + cbn [action symbol currentAmount targetAmount differenceAmount
             differenceValueUSD priority fst snd].
      rewrite priceOf_valueOr0, Hamount. repeat split; reflexivity.
  - exists ft. split; [exact Hft|]. split.
    + rewrite Hplan. apply sortDesc_perm.
    + intros t Hin.
      destruct (targetLoop_entries _ _ _ _ _ _ _ _ Hft Hin) as [Hk Hp].
      split; [exact Hk|]. split; [|exact Hp].
      rewrite Hdrift. apply driftOf_defined. exact Hk.
  - intros t Hin. rewrite Hplan in Hin. apply sortDesc_In in Hin.
    apply in_app_or in Hin. destruct Hin as [Hin|Hin].
    + left. exact (proj2 (targetLoop_entries _ _ _ _ _ _ _ _ Hft Hin)).
    + right. unfold liquidationLoop in Hin. apply in_flat_map in Hin.
      destruct Hin as [e [_ Hin]]. apply liquidationEntry_in in Hin.
      destruct Hin as [-> _]. reflexivity.
  - rewrite Hplan. apply sortDesc_sorted.
Qed.

(** At a portfolio of 600 USDC, 400 USDbC, 1 WETH and 5 LINK against the
    default target (all in USDT): the plan has a sale of the 1000 USDC held
    in the two variants, with priority 50, and is sorted. *)
Lemma analyzer_liquidation_priority_order_witness :
  exists a t,
    analyzeAllocation bridgedPortfolio samplePrices sampleConfig = Ok a /\
    needsRebalancing a = true /\
    In t (rebalancingPlan a) /\
    action t = sell /\ symbol t = "USDC" /\
    currentAmount t == 1000 /\ differenceAmount t == 1000 /\
    differenceValueUSD t == 1000 /\ priority t = 50 /\
    descending priority (rebalancingPlan a).
Proof.
  assert (Hrun : exists a,
             analyzeAllocation bridgedPortfolio samplePrices sampleConfig = Ok a /\
             needsRebalancing a = true).
  { eexists. split; [vm_compute; reflexivity | reflexivity]. }
  destruct Hrun as (a & Ha & Hn).
  destruct (analyzer_liquidation_priority_order
              bridgedPortfolio samplePrices sampleConfig a Ha Hn)
    as (Hsale & _ & _ & Hsorted).
  assert (Hheld : isHeld (balances bridgedPortfolio) "USDC").
  { eexists. split; [right; left; reflexivity | reflexivity]. }
  assert (Hamount : amountHeld (balances bridgedPortfolio) "USDC" == 1000)
    by reflexivity.
  destruct (Hsale "USDC" Hheld) as (t & Hin & Hact & Hsym & Hcur & _ & Hdiff & Hval & Hprio).
  - reflexivity.
  - vm_compute. discriminate.
  - exists a, t. rewrite Hamount in Hcur, Hdiff, Hval.
    split; [exact Ha|]. split; [exact Hn|]. split; [exact Hin|].
    split; [exact Hact|]. split; [exact Hsym|]. split; [exact Hcur|].
    split; [exact Hdiff|]. split; [rewrite Hval; reflexivity|].
    split; [exact Hprio | exact Hsorted].
Defined.

Lemma priceOf_unpriced p s : dget s (prices p) = None -> priceOf p s = 0.
Proof. intros H. unfold priceOf. rewrite H. reflexivity. Qed.

Lemma Qabs_mult_zero x : Qabs (x * 0) == 0.
Proof. assert (E : x * 0 == 0) by ring. rewrite E. reflexivity. Qed.

(** C5.  The analyzer's total is the value of everything held, a balance in
    USDbC valued as USDC and a missing price counting as 0: balance by
    balance, and symbol by symbol over any duplicate-free list of symbols
    that has every held one, target symbol or not.  A held symbol without a
    price contributes 0 and, the minimum trade value being positive (as in
    every configuration the price-fetching step builds), has no entry in
    the plan.  No division by zero occurs: fractions are 0 when nothing of
    value is held and target amounts are 0 where the price is not
    positive. *)
Theorem analyzer_total_value_and_unpriced pf p cfg :
  analyzeAllocation pf p cfg <> Err DivisionByZero /\
  forall a, analyzeAllocation pf p cfg = Ok a ->
    totalValueUSD a == holdingsValue p (balances pf) /\
    (forall syms, NoDup syms ->
       (forall s, isHeld (balances pf) s -> In s syms) ->
       totalValueUSD a
       == sumQ (map (fun s => amountHeld (balances pf) s * valueOr0 (prices p) s) syms)) /\
    (totalValueUSD a <= 0 -> forall s v, In (s, v) (currentAllocation a) -> v = 0) /\
    (forall t, In t (rebalancingPlan a) ->
       valueOr0 (prices p) (symbol t) <= 0 -> targetAmount t = 0) /\
    (forall s, dget s (prices p) = None ->
       amountHeld (balances pf) s * valueOr0 (prices p) s == 0 /\
       (0 < minTradeValueUSD cfg ->
          forall t, In t (rebalancingPlan a) -> symbol t <> s)) /\
    (forall env numberToString i tr pr tr',
       fetchPricesStep env numberToString i tr = (Ok (pr, cfg), tr') ->
       0 < minTradeValueUSD cfg).
Proof.
  split.
  { intros H. apply analyzeAllocation_Err in H. destruct H as [s Hs].
    apply analyzerChainFor_Err in Hs. destruct Hs as [Hs _]. discriminate. }
  intros a Ha.
  assert (Hwf : forall env numberToString i tr pr tr',
             fetchPricesStep env numberToString i tr = (Ok (pr, cfg), tr') ->
             0 < minTradeValueUSD cfg).
  { intros env numberToString i tr pr tr' H.
    exact (proj1 (proj2 (fetchPricesStep_config _ _ _ _ _ _ _ H))). }
  revert Hwf. match goal with |- ?W -> ?A /\ ?B /\ ?C /\ ?D /\ ?E /\ _ =>
    intros Hwf; cut (A /\ B /\ C /\ D /\ E); [tauto|] end.
  destruct (analyzeAllocation_Ok _ _ _ _ Ha) as (Htot & Hpct & _).
  assert (Hval : totalValueUSD a == holdingsValue p (balances pf)).
  { rewrite Htot, valueLoop_total, groupBySymbol_value, <- holdingsValue_balancesValue.
    reflexivity. }
  split; [exact Hval|].
  split; [intros syms Hnd Hall; rewrite Hval; symmetry; apply value_by_symbol; assumption|].
  split; [intros Hle; eapply percentLoop_zero; eassumption|].
  split.
  - intros t Hin Hprice.
    destruct (plan_entry_origin _ _ _ _ _ Ha Hin)
      as [(e & out & He & Hout & Ht)|(e & He & Ht)].
    + apply targetEntry_out in Hout.
      destruct Hout as [[-> _]|(c & _ & _ & ->)]; [destruct Ht|].
      destruct Ht as [<-|[]]. simpl in *. unfold plannedTargetAmount.
      assert (G : JS.gtb (priceOf p (fst e)) 0 = false).
      { apply JSFacts.gtb_le. rewrite priceOf_valueOr0. exact Hprice. }
      rewrite G. reflexivity.
    + apply liquidationEntry_in in Ht. destruct Ht as [-> _]. reflexivity.
  - intros s Hs. split.
    + unfold valueOr0. rewrite Hs. ring.
    + intros Hmin t Hin Hsym.
      destruct (plan_entry_origin _ _ _ _ _ Ha Hin)
        as [(e & out & He & Hout & Ht)|(e & He & Ht)].
      * apply targetEntry_out in Hout.
        destruct Hout as [[-> _]|(c & _ & Hge & ->)]; [destruct Ht|].
        destruct Ht as [<-|[]]. simpl in Hsym. subst s.
        rewrite (priceOf_unpriced _ _ Hs), Qabs_mult_zero in Hge. lra.
      * apply liquidationEntry_in in Ht. destruct Ht as (-> & _ & Hge & _).
        simpl in Hsym. subst s.
        rewrite (priceOf_unpriced _ _ Hs) in Hge.
        assert (E : snd e * 0 == 0) by ring. rewrite E in Hge. lra.
Qed.

(** At a portfolio of 600 USDC, 400 USDbC, 1 WETH and 5 LINK, LINK having
    no price: the total is 3000 USD, the USDbC counted at the price of
    USDC, and no entry of the plan is for LINK. *)
Lemma analyzer_total_value_and_unpriced_witness :
  exists a,
    analyzeAllocation bridgedPortfolio samplePrices sampleConfig = Ok a /\
    dget "LINK" (prices samplePrices) = None /\
    0 < minTradeValueUSD sampleConfig /\
    totalValueUSD a == 600 * 1 + 400 * 1 + 1 * 2000 + 5 * 0 /\
    totalValueUSD a == (600 + 400) * 1 + 1 * 2000 + 5 * 0 /\
    forall t, In t (rebalancingPlan a) -> symbol t <> "LINK".
Proof.
  assert (Hrun : exists a,
             analyzeAllocation bridgedPortfolio samplePrices sampleConfig = Ok a).
  { eexists. vm_compute. reflexivity. }
  destruct Hrun as [a Ha]. exists a.
  destruct (proj2 (analyzer_total_value_and_unpriced
                     bridgedPortfolio samplePrices sampleConfig) _ Ha)
    as (Hval & Hsyms & _ & _ & Hunpriced & _).
  destruct (Hunpriced "LINK" eq_refl) as [_ Hnone].
  split; [exact Ha|]. split; [reflexivity|]. split; [reflexivity|].
  split; [rewrite Hval; reflexivity|].
  split; [|apply Hnone; reflexivity].
  rewrite (Hsyms ["USDC"; "WETH"; "LINK"]).
  - reflexivity.
  - repeat constructor; cbn [In]; intuition discriminate.
  - intros s [b [Hb Hc]]. apply countsAs_iff in Hc. subst s.
    cbn [In balances bridgedPortfolio] in Hb.
    destruct Hb as [<-|[<-|[<-|[<-|[]]]]]; cbn; auto.
Defined.




(** ** The trading tools *)

Lemma toolCatch_returns e tr : exists r, toolCatch e tr = (Ok r, tr) /\ ToolResult.success r = false.
Proof.
  unfold toolCatch, ret. eexists. split; [reflexivity|].
  repeat match goal with
         | |- context [match ?x with _ => _ end] => destruct x
         end; reflexivity.
Qed.

(** What a call of [executeTrade] does to the history: nothing, one read of
    the balances, or that read followed by one exchange call with the
    resolved tokens.  It always returns a result. *)
Lemma executeTrade_trace env context tr :
  exists r tr',
    executeTrade env context tr = (Ok r, tr') /\
    (tr' = tr \/
     tr' = tr ++ [HttpGetBalances] \/
     exists fromTokenInfo toTokenInfo,
       (String.eqb (SymbolTrade.fromSymbol context) (SymbolTrade.toSymbol context)
        && JS.optStringEqb (SymbolTrade.fromSpecificChain context)
                           (SymbolTrade.toSpecificChain context) = false) /\
       getTokenInfo (SymbolTrade.fromSymbol context)
                    (SymbolTrade.fromSpecificChain context) = Ok fromTokenInfo /\
       getTokenInfo (SymbolTrade.toSymbol context)
                    (SymbolTrade.toSpecificChain context) = Ok toTokenInfo /\
       tr' = tr ++ [HttpGetBalances]
                ++ [HttpPostTrade (symbolPayload context fromTokenInfo toTokenInfo)]).
Proof.
  unfold executeTrade, tryCatch.
  destruct (String.eqb _ _ && JS.optStringEqb _ _) eqn:Hcheck.
  { do 2 eexists. split; [reflexivity|]. auto. }
  unfold bind, liftR.
  destruct (getTokenInfo (SymbolTrade.fromSymbol context) _) as [fi|e1] eqn:Hf.
  2:{ destruct (toolCatch_returns e1 tr) as [r [Hr _]]. rewrite Hr. do 2 eexists. split; [reflexivity|]. auto. }
  destruct (getTokenInfo (SymbolTrade.toSymbol context) _) as [ti|e2] eqn:Ht.
  2:{ destruct (toolCatch_returns e2 tr) as [r [Hr _]]. rewrite Hr. do 2 eexists. split; [reflexivity|]. auto. }
  unfold httpGetBalances.
  destruct (balancesReply env tr) as [bs|st].
  2:{ destruct (toolCatch_returns (HttpError st) (tr ++ [HttpGetBalances])) as [r [Hr _]].
      rewrite Hr. do 2 eexists. split; [reflexivity|]. auto. }
  destruct (negb (JS.geb _ (SymbolTrade.amount context))).
  { unfold ret. do 2 eexists. split; [reflexivity|]. auto. }
  unfold httpPostTrade.
  match goal with |- context [tradeReply env ?t ?pl] =>
    destruct (tradeReply env t pl) as [d|st] end.
  - unfold ret. do 2 eexists. split; [reflexivity|].
    right. right. exists fi, ti. rewrite <- app_assoc. auto.
  - match goal with |- context [toolCatch ?e ?t] =>
      destruct (toolCatch_returns e t) as [r [Hr _]] end.
    rewrite Hr. do 2 eexists. split; [reflexivity|].
    right. right. exists fi, ti. rewrite <- app_assoc. auto.
Qed.

Lemma executeTradeByAddress_trace env context tr :
  exists r tr',
    executeTradeByAddress env context tr = (Ok r, tr') /\
    (tr' = tr \/
     tr' = tr ++ [HttpGetBalances] \/
     ((String.eqb (JS.toLowerCase (AddressTrade.fromTokenAddress context))
                  (JS.toLowerCase (AddressTrade.toTokenAddress context))
       && String.eqb (AddressTrade.fromSpecificChain context)
                     (AddressTrade.toSpecificChain context) = false) /\
      tr' = tr ++ [HttpGetBalances] ++ [HttpPostTrade (addressPayload context)])).
Proof.
  unfold executeTradeByAddress, tryCatch.
  destruct (String.eqb _ _ && String.eqb _ _) eqn:Hcheck.
  { do 2 eexists. split; [reflexivity|]. auto. }
  unfold bind, httpGetBalances.
  destruct (balancesReply env tr) as [bs|st].
  2:{ destruct (toolCatch_returns (HttpError st) (tr ++ [HttpGetBalances])) as [r [Hr _]].
      rewrite Hr. do 2 eexists. split; [reflexivity|]. auto. }
  destruct (negb (JS.geb _ (AddressTrade.amount context))).
  { unfold ret. do 2 eexists. split; [reflexivity|]. auto. }
  unfold httpPostTrade.
  match goal with |- context [tradeReply env ?t ?pl] =>
    destruct (tradeReply env t pl) as [d|st] end.
  - unfold ret. do 2 eexists. split; [reflexivity|].
    right. right. rewrite <- app_assoc. auto.
  - match goal with |- context [toolCatch ?e ?t] =>
      destruct (toolCatch_returns e t) as [r [Hr _]] end.
    rewrite Hr. do 2 eexists. split; [reflexivity|].
    right. right. rewrite <- app_assoc. auto.
Qed.

(** ** The token registry *)

Lemma dget_cases {V} (k : string) (d : Dict V) : dget k d = None \/ In k (keys d).
Proof.
  destruct (dget k d) eqn:E; [right|left; reflexivity].
  apply dget_In in E. unfold keys. apply in_map_iff. exists (k, v). auto.
Qed.

Lemma includes_In l s : JS.includes l s = true <-> In s l.
Proof.
  unfold JS.includes. rewrite existsb_exists. split.
  - intros [x [Hin Hx]]. apply String.eqb_eq in Hx. subst. exact Hin.
  - intros H. exists s. split; [exact H | apply String.eqb_refl].
Qed.

(** A token resolved on an explicitly given chain is on that chain. *)
Lemma getTokenInfo_chain s c r info :
  getTokenInfo s (Some (String c r)) = Ok info ->
  TokenInfo.specificChain info = String c r.
Proof.
  unfold getTokenInfo.
  destruct (String.eqb s "SOL").
  - intros H. inversion H. reflexivity.
  - change (JS.orString (Some (String c r))
              (JS.orString (dget s DEFAULT_CHAIN_FOR_SYMBOL) "eth")) with (String c r).
    destruct (dget (String c r) SPESIFIC_CHAIN_TOKENS) as [chainTokens|]; [|discriminate].
    match goal with |- rbind ?x _ = _ -> _ => destruct x as [[[|c' r']|]|] end;
      cbn [rbind]; try discriminate.
    intros H. inversion H. reflexivity.
Qed.

Lemma getTokenInfo_unknown_chain s c r :
  String.eqb s "SOL" = false ->
  dget (String c r) SPESIFIC_CHAIN_TOKENS = None ->
  getTokenInfo s (Some (String c r)) = Err (ThrownError "Chain not supported").
Proof.
  intros Hs Hc. unfold getTokenInfo. rewrite Hs.
  change (JS.orString (Some (String c r))
            (JS.orString (dget s DEFAULT_CHAIN_FOR_SYMBOL) "eth")) with (String c r).
  rewrite Hc. reflexivity.
Qed.

(** On one chain, two different supported symbols resolve to different
    contract addresses. *)
Lemma getTokenInfo_distinct s1 s2 ch i1 i2 :
  In s1 SUPPORTED_TOKENS -> In s2 SUPPORTED_TOKENS -> s1 <> s2 ->
  getTokenInfo s1 (Some ch) = Ok i1 ->
  getTokenInfo s2 (Some ch) = Ok i2 ->
  TokenInfo.address i1 <> TokenInfo.address i2.
Proof.
  intros H1 H2 Hne Hi1 Hi2.
  destruct ch as [|c r].
  - simpl in H1, H2.
    destruct H1 as [<-|[<-|[<-|[<-|[]]]]]; destruct H2 as [<-|[<-|[<-|[<-|[]]]]];
      try congruence;
      vm_compute in Hi1; vm_compute in Hi2; inversion Hi1; inversion Hi2; discriminate.
  - destruct (dget_cases (String c r) SPESIFIC_CHAIN_TOKENS) as [Hnone|Hin].
    + assert (Hsol : forall s i, In s SUPPORTED_TOKENS ->
                getTokenInfo s (Some (String c r)) = Ok i -> s = "SOL").
      { intros s i Hs Hi. destruct (String.eqb_spec s "SOL") as [E|E]; [exact E|].
        rewrite getTokenInfo_unknown_chain in Hi; [discriminate| |exact Hnone].
        apply String.eqb_neq. exact E. }
      rewrite (Hsol _ _ H1 Hi1), (Hsol _ _ H2 Hi2) in Hne. congruence.
    + simpl in Hin, H1, H2.
      destruct Hin as [Hc|[Hc|[Hc|[Hc|[Hc|[Hc|[]]]]]]]; rewrite <- Hc in Hi1, Hi2;
        destruct H1 as [<-|[<-|[<-|[<-|[]]]]]; destruct H2 as [<-|[<-|[<-|[<-|[]]]]];
        try congruence;
        vm_compute in Hi1; vm_compute in Hi2;
        try discriminate; inversion Hi1; inversion Hi2; discriminate.
Qed.

(** ** No exchange call trades a token for itself *)

Lemma noSelfTradeSince_refl tr : noSelfTradeSince tr tr.
Proof. intros payload H. left. exact H. Qed.

Lemma noSelfTradeSince_read tr : noSelfTradeSince tr (tr ++ [HttpGetBalances]).
Proof.
  intros payload H. apply in_app_or in H. destruct H as [H|[H|[]]]; [left; exact H|].
  discriminate.
Qed.

Lemma noSelfTradeSince_post tr payload :
  ~ selfTrade payload ->
  noSelfTradeSince tr (tr ++ [HttpGetBalances] ++ [HttpPostTrade payload]).
Proof.
  intros Hp q H. apply in_app_or in H. destruct H as [H|[H|[H|[]]]].
  - left. exact H.
  - discriminate.
  - inversion H. subst. right. exact Hp.
Qed.

Lemma truthyString_cases o :
  JS.truthyString o = true -> exists c r, o = Some (String c r).
Proof.
  destruct o as [[|c r]|]; simpl; try discriminate. eauto.
Qed.

Lemma executeTrade_no_self_trade env context tr r tr' :
  In (SymbolTrade.fromSymbol context) SUPPORTED_TOKENS ->
  In (SymbolTrade.toSymbol context) SUPPORTED_TOKENS ->
  JS.truthyString (SymbolTrade.fromSpecificChain context) = true ->
  JS.truthyString (SymbolTrade.toSpecificChain context) = true ->
  executeTrade env context tr = (r, tr') ->
  noSelfTradeSince tr tr'.
Proof.
  intros Hfs Hts Hfc Htc Hrun.
  destruct (executeTrade_trace env context tr) as (r0 & tr0 & Hrun0 & Hcases).
  rewrite Hrun in Hrun0. inversion Hrun0; subst r tr0; clear Hrun0.
  destruct Hcases as [->|[->|(fi & ti & Hcheck & Hfi & Hti & ->)]].
  - apply noSelfTradeSince_refl.
  - apply noSelfTradeSince_read.
  - apply noSelfTradeSince_post. intros [Haddr Hchain]. simpl in Haddr, Hchain.
    destruct (truthyString_cases _ Hfc) as (c1 & r1 & E1).
    destruct (truthyString_cases _ Htc) as (c2 & r2 & E2).
    rewrite E1 in Hfi, Hcheck. rewrite E2 in Hti, Hcheck.
    rewrite (getTokenInfo_chain _ _ _ _ Hfi), (getTokenInfo_chain _ _ _ _ Hti) in Hchain.
    rewrite <- Hchain in Hti, Hcheck.
    unfold JS.optStringEqb in Hcheck. rewrite String.eqb_refl, andb_true_r in Hcheck.
    apply String.eqb_neq in Hcheck.
    exact (getTokenInfo_distinct _ _ _ _ _ Hfs Hts Hcheck Hfi Hti Haddr).
Qed.

Lemma executeTradeByAddress_no_self_trade env context tr r tr' :
  executeTradeByAddress env context tr = (r, tr') ->
  noSelfTradeSince tr tr'.
Proof.
  intros Hrun.
  destruct (executeTradeByAddress_trace env context tr) as (r0 & tr0 & Hrun0 & Hcases).
  rewrite Hrun in Hrun0. inversion Hrun0; subst r tr0; clear Hrun0.
  destruct Hcases as [->|[->|(Hcheck & ->)]].
  - apply noSelfTradeSince_refl.
  - apply noSelfTradeSince_read.
  - apply noSelfTradeSince_post. intros [Haddr Hchain]. simpl in Haddr, Hchain.
    rewrite Haddr, Hchain, !String.eqb_refl in Hcheck. discriminate.
Qed.

(** ** Executing one sub-trade *)

Lemma fold_left_picks {A} (f : A -> A -> A) (l : list A) (a : A) :
  (forall x y, f x y = x \/ f x y = y) -> In (fold_left f l a) (a :: l).
Proof.
  intros Hf. revert a. induction l as [|b l IH]; intros a.
  - left. reflexivity.
  - cbn [fold_left]. destruct (IH (f a b)) as [H|H].
    + rewrite <- H. destruct (Hf a b) as [E|E]; rewrite E.
      * left. reflexivity.
      * right. left. reflexivity.
    + right. right. exact H.
Qed.

Lemma largest_in first others : In (JS.reduce1 largerAmount first others) (first :: others).
Proof.
  apply fold_left_picks. intros x y. unfold largerAmount.
  destruct (JS.gtb _ _); auto.
Qed.

(** The primary target token has positive weight, and no target weight
    exceeds it. *)
Lemma primaryTargetToken_spec target p0 :
  primaryTargetToken target = Some p0 ->
  In p0 target /\ 0 < snd p0 /\ forall q, In q target -> snd q <= snd p0.
Proof.
  unfold primaryTargetToken. intros H.
  set (pos := filter (fun e : string * Q => JS.gtb (snd e) 0) target) in *.
  pose proof (sortDesc_sorted snd pos) as Hs.
  pose proof (fun x => sortDesc_In snd x pos) as Hin.
  destruct (sortDesc snd pos) as [|h t] eqn:E; [discriminate|].
  inversion H; subst h; clear H.
  assert (Hp : In p0 pos) by (apply Hin; left; reflexivity).
  apply filter_In in Hp. destruct Hp as [Hp1 Hp2]. apply JSFacts.gtb_gt in Hp2.
  split; [exact Hp1|]. split; [exact Hp2|].
  intros q Hq. destruct (JS.gtb (snd q) 0) eqn:G.
  - assert (Hq' : In q (p0 :: t)) by (apply Hin, filter_In; auto).
    destruct Hq' as [<-|Hq']; [apply Qle_refl|].
    inversion Hs as [|? ? _ Hall]; subst. rewrite Forall_forall in Hall.
    apply Hall. exact Hq'.
  - apply JSFacts.gtb_le in G. lra.
Qed.

Lemma executeTrade_returns env context tr :
  exists r tr', executeTrade env context tr = (Ok r, tr').
Proof.
  destruct (executeTrade_trace env context tr) as (r & tr' & H & _). eauto.
Qed.

(** A sale either makes no call at all (nothing to sell from, or the
    skipped USDC-to-USDC case) or is one call of [executeTrade]. *)
Lemma sellSingleTrade_run env trade pf cfg tr :
  let destination :=
    sellDestination (primaryTargetToken (targetAllocation cfg)) (symbol (base trade)) in
  ((sellTokenBalances trade pf = [] \/ destination = None) /\
   sellSingleTrade env trade pf cfg tr = (Ok notExecuted, tr)) \/
  (exists bestBalance toSymbol r tr',
     In bestBalance (sellTokenBalances trade pf) /\
     destination = Some toSymbol /\
     executeTrade env (sellContext trade cfg bestBalance toSymbol) tr = (Ok r, tr') /\
     sellSingleTrade env trade pf cfg tr = (Ok (executed r), tr')).
Proof.
  intros destination. unfold sellSingleTrade. fold (sellTokenBalances trade pf).
  destruct (sellTokenBalances trade pf) as [|first others] eqn:Eb.
  { left. split; [left; reflexivity | reflexivity]. }
  fold destination.
  destruct destination as [toSymbol|] eqn:Ed.
  2:{ left. split; [right; reflexivity | reflexivity]. }
  right.
  match goal with |- context [Balance.specificChain ?b] => set (bestBalance := b) in * end.
  assert (Hbest : In bestBalance (first :: others)).
  { subst bestBalance. destruct (consolidateToChain cfg) as [[|c r]|];
      try apply largest_in.
    destruct (find _ (first :: others)) as [b|] eqn:Ef; [|apply largest_in].
    apply find_some in Ef. exact (proj1 Ef). }
  destruct (executeTrade_returns env (sellContext trade cfg bestBalance toSymbol) tr)
    as (r & tr' & Hrun).
  exists bestBalance, toSymbol, r, tr'.
  split; [exact Hbest|]. split; [reflexivity|]. split; [exact Hrun|].
  unfold bind. fold (sellContext trade cfg bestBalance toSymbol). rewrite Hrun. reflexivity.
Qed.

Lemma executeSingleTrade_sell env trade pf cfg an pr tr :
  executeSingleTrade env trade sell pf cfg an pr tr = sellSingleTrade env trade pf cfg tr.
Proof.
  unfold executeSingleTrade, tryCatch.
  destruct (sellSingleTrade_run env trade pf cfg tr)
    as [[_ H]|(b & s & r & tr' & _ & _ & _ & H)]; rewrite H; reflexivity.
Qed.

(** C4, as stated, fails: WETH has target weight 0 in the default
    allocation, whose highest-weighted symbol is USDT, yet selling WETH posts
    a trade into USDC on Ethereum and not into USDT. *)
Lemma sell_of_zero_weight_symbol_goes_to_bridge :
  valueOr0 (targetAllocation sampleConfig) "WETH" == 0 /\
  primaryTargetToken (targetAllocation sampleConfig) = Some ("USDT", 1) /\
  exists r payload,
    executeSingleTrade sampleEnv wethSale sell samplePortfolio sampleConfig
      sampleAnalysis (Some samplePrices) []
    = (Ok r, [HttpGetBalances; HttpPostTrade payload]) /\
    Some (toToken payload) = addressOf "USDC" (Some "eth") /\
    Some (toToken payload) <> addressOf "USDT" (Some "eth").
Proof.
  split; [reflexivity|]. split; [reflexivity|].
  do 2 eexists. split; [vm_compute; reflexivity|].
  split; [reflexivity | discriminate].
Qed.

(** C4, amended.  For a sub-trade whose symbol the portfolio holds: selling
    any symbol other than USDC is one [executeTrade] call into USDC; selling
    USDC while another symbol is the highest-weighted positive target is one
    [executeTrade] call into that symbol; selling USDC when no target has
    positive weight is skipped, with no call and no event at all. *)
Theorem sell_routing env trade pf cfg an pr tr :
  sellTokenBalances trade pf <> [] ->
  let sym := symbol (base trade) in
  let primary := primaryTargetToken (targetAllocation cfg) in
  (sym <> "USDC" ->
     exists bestBalance r tr',
       In bestBalance (sellTokenBalances trade pf) /\
       executeTrade env (sellContext trade cfg bestBalance "USDC") tr = (Ok r, tr') /\
       executeSingleTrade env trade sell pf cfg an pr tr = (Ok (executed r), tr')) /\
  (sym = "USDC" -> forall p0, primary = Some p0 -> fst p0 <> "USDC" ->
     (In p0 (targetAllocation cfg) /\ 0 < snd p0 /\
      forall q, In q (targetAllocation cfg) -> snd q <= snd p0) /\
     exists bestBalance r tr',
       In bestBalance (sellTokenBalances trade pf) /\
       executeTrade env (sellContext trade cfg bestBalance (fst p0)) tr = (Ok r, tr') /\
       executeSingleTrade env trade sell pf cfg an pr tr = (Ok (executed r), tr')) /\
  (sym = "USDC" -> primary = None ->
     executeSingleTrade env trade sell pf cfg an pr tr = (Ok notExecuted, tr)).
Proof.
  intros Hheld sym primary. rewrite executeSingleTrade_sell.
  pose proof (sellSingleTrade_run env trade pf cfg tr) as Hrun.
  cbv zeta in Hrun. fold sym primary in Hrun.
  split; [|split].
  - intros Hsym.
    assert (Hd : sellDestination primary sym = Some "USDC").
    { unfold sellDestination. apply String.eqb_neq in Hsym. rewrite Hsym.
      destruct primary; reflexivity. }
    rewrite Hd in Hrun.
    destruct Hrun as [[[H|H] _]|(b & s & r & tr' & Hb & Hs & Hr & Hrun)];
      [contradiction | discriminate |].
    inversion Hs; subst s. exists b, r, tr'. auto.
  - intros Hsym p0 Hp Hne. split; [apply primaryTargetToken_spec; exact Hp|].
    assert (Hd : sellDestination primary sym = Some (fst p0)).
    { unfold sellDestination. rewrite Hp, Hsym. reflexivity. }
    rewrite Hd in Hrun.
    destruct Hrun as [[[H|H] _]|(b & s & r & tr' & Hb & Hs & Hr & Hrun)];
      [contradiction | discriminate |].
    inversion Hs; subst s. exists b, r, tr'. auto.
  - intros Hsym Hp.
    assert (Hd : sellDestination primary sym = None).
    { unfold sellDestination. rewrite Hp, Hsym. reflexivity. }
    rewrite Hd in Hrun.
    destruct Hrun as [[_ Hrun]|(b & s & r & tr' & Hb & Hs & Hr & Hrun)];
      [exact Hrun | discriminate].
Qed.

(** The sample sale of WETH is routed into USDC. *)
Lemma sell_routing_witness :
  sellTokenBalances wethSale samplePortfolio <> [] /\
  exists bestBalance r tr',
    In bestBalance (sellTokenBalances wethSale samplePortfolio) /\
    executeTrade sampleEnv (sellContext wethSale sampleConfig bestBalance "USDC") []
      = (Ok r, tr') /\
    executeSingleTrade sampleEnv wethSale sell samplePortfolio sampleConfig
      sampleAnalysis (Some samplePrices) [] = (Ok (executed r), tr').
Proof.
  assert (Hheld : sellTokenBalances wethSale samplePortfolio <> [])
    by (vm_compute; discriminate).
  split; [exact Hheld|].
  apply (sell_routing sampleEnv wethSale samplePortfolio sampleConfig sampleAnalysis
           (Some samplePrices) [] Hheld).
  vm_compute. discriminate.
Defined.

Lemma truthyString_nonempty s : s <> EmptyString -> JS.truthyString (Some s) = true.
Proof. destruct s; [congruence|reflexivity]. Qed.


Lemma sellSingleTrade_no_self_trade env trade pf cfg tr r tr' :
  In (symbol (base trade)) SUPPORTED_TOKENS ->
  (forall k, In k (keys (targetAllocation cfg)) -> In k SUPPORTED_TOKENS) ->
  (forall b, In b (balances pf) -> Balance.specificChain b <> EmptyString) ->
  preferredChain (base trade) <> EmptyString ->
  sellSingleTrade env trade pf cfg tr = (r, tr') ->
  noSelfTradeSince tr tr'.
Proof.
  intros Hsym Htarget Hchains Hpref Hrun.
  destruct (sellSingleTrade_run env trade pf cfg tr)
    as [[_ H]|(b & s & r0 & tr0 & Hb & Hs & Hr & H)];
    rewrite H in Hrun; inversion Hrun; subst; clear Hrun.
  - apply noSelfTradeSince_refl.
  - eapply executeTrade_no_self_trade; [| | | |exact Hr]; simpl.
    + exact Hsym.
    + unfold sellDestination in Hs.
      destruct (primaryTargetToken (targetAllocation cfg)) as [p0|] eqn:Hp.
      * destruct (String.eqb (symbol (base trade)) "USDC").
        -- inversion Hs. apply Htarget. unfold keys. apply in_map.
           exact (proj1 (primaryTargetToken_spec _ _ Hp)).
        -- simpl in Hs. inversion Hs. simpl. auto.
      * destruct (String.eqb (symbol (base trade)) "USDC"); simpl in Hs;
          [discriminate|]. inversion Hs. simpl. auto.
    + apply truthyString_nonempty. apply Hchains.
      unfold sellTokenBalances in Hb. apply filter_In in Hb. exact (proj1 Hb).
    + apply truthyString_nonempty. exact Hpref.
Qed.

Lemma buySingleTrade_no_self_trade env trade pf cfg pr tr r tr' :
  In (symbol (base trade)) SUPPORTED_TOKENS ->
  (forall b, In b (balances pf) -> Balance.specificChain b <> EmptyString) ->
  preferredChain (base trade) <> EmptyString ->
  buySingleTrade env trade pf cfg pr tr = (r, tr') ->
  noSelfTradeSince tr tr'.
Proof.
  intros Hsym Hchains Hpref. unfold buySingleTrade.
  set (stable := filter _ (balances pf)).
  pose proof (fun x => sortDesc_In (stableValue pr) x stable) as Hsorted.
  destruct (sortDesc (stableValue pr) stable) as [|largest others].
  { intros H. inversion H. apply noSelfTradeSince_refl. }
  match goal with |- context [Balance.tokenAddress ?b] => set (best := b) in * end.
  assert (Hbest : In best (balances pf)).
  { assert (H : In best (largest :: others)).
    { subst best. destruct (find _ (largest :: others)) as [b|] eqn:Ef.
      - apply find_some in Ef. exact (proj1 Ef).
      - left. reflexivity. }
    apply Hsorted in H. unfold stable in H. apply filter_In in H. exact (proj1 H). }
  unfold bind, liftR.
  destruct (getTokenInfo (symbol (base trade)) _) as [targetTokenInfo|e].
  2:{ intros H. inversion H. apply noSelfTradeSince_refl. }
  destruct (JS.includes _ (Balance.symbol best) && _) eqn:Hstd.
  - match goal with |- context [executeTrade env ?c tr] =>
      destruct (executeTrade env c tr) as [[r0|e0] tr0] eqn:Hrun end;
      intros H; inversion H; subst; clear H;
      (eapply executeTrade_no_self_trade; [| | | |exact Hrun];
       cbn [SymbolTrade.fromSymbol SymbolTrade.toSymbol SymbolTrade.fromSpecificChain
            SymbolTrade.toSpecificChain];
       [ apply andb_true_iff in Hstd; apply includes_In; exact (proj1 Hstd)
       | exact Hsym
       | apply truthyString_nonempty, Hchains; exact Hbest
       | apply truthyString_nonempty; exact Hpref ]).
  - match goal with |- context [executeTradeByAddress env ?c tr] =>
      destruct (executeTradeByAddress env c tr) as [[r0|e0] tr0] eqn:Hrun end;
      intros H; inversion H; subst; clear H;
      eapply executeTradeByAddress_no_self_trade; exact Hrun.
Qed.

Lemma executeSingleTrade_no_self_trade env trade tradeType pf cfg an pr tr r tr' :
  In (symbol (base trade)) SUPPORTED_TOKENS ->
  (forall k, In k (keys (targetAllocation cfg)) -> In k SUPPORTED_TOKENS) ->
  (forall b, In b (balances pf) -> Balance.specificChain b <> EmptyString) ->
  preferredChain (base trade) <> EmptyString ->
  executeSingleTrade env trade tradeType pf cfg an pr tr = (r, tr') ->
  noSelfTradeSince tr tr'.
Proof.
  intros Hsym Htarget Hchains Hpref. unfold executeSingleTrade, tryCatch.
  destruct tradeType.
  - destruct (buySingleTrade env trade pf cfg pr tr) as [[r0|e0] tr0] eqn:Hrun;
      unfold ret; intros H; inversion H; subst; clear H;
      eapply buySingleTrade_no_self_trade; eauto.
  - destruct (sellSingleTrade env trade pf cfg tr) as [[r0|e0] tr0] eqn:Hrun;
      unfold ret; intros H; inversion H; subst; clear H;
      eapply sellSingleTrade_no_self_trade; eauto.
Qed.

(** ** The rebalancing loop *)

Lemma moreValuable_picks p x y : moreValuable p x y = x \/ moreValuable p x y = y.
Proof. unfold moreValuable. destruct (JS.gtb _ _); auto. Qed.

Lemma moreValuable_value p x y :
  holdingValue p x <= holdingValue p (moreValuable p x y) /\
  holdingValue p y <= holdingValue p (moreValuable p x y).
Proof.
  unfold moreValuable. fold (holdingValue p x) (holdingValue p y).
  destruct (JS.gtb (holdingValue p x) (holdingValue p y)) eqn:G; js_props; lra.
Qed.

(** The holding the bootstrap guard sells is worth at least as much as any
    other candidate. *)
Lemma mostValuable_spec p first others :
  let chosen := JS.reduce1 (moreValuable p) first others in
  In chosen (first :: others) /\
  forall b, In b (first :: others) -> holdingValue p b <= holdingValue p chosen.
Proof.
  cbv zeta. split; [apply fold_left_picks, moreValuable_picks|].
  unfold JS.reduce1. revert first.
  induction others as [|y others IH]; intros first b Hb.
  - destruct Hb as [<-|[]]. apply Qle_refl.
  - cbn [fold_left].
    pose proof (moreValuable_value p first y) as [Hx Hy].
    pose proof (IH (moreValuable p first y)) as Hrest.
    assert (Hm : holdingValue p (moreValuable p first y)
                 <= holdingValue p (fold_left (moreValuable p) others (moreValuable p first y)))
      by (apply Hrest; left; reflexivity).
    destruct Hb as [<-|[<-|Hb]].
    + eapply Qle_trans; eassumption.
    + eapply Qle_trans; eassumption.
    + apply Hrest. right. exact Hb.
Qed.

Lemma bootstrapSell_run env p st tokenToSell tr :
  exists sellResult tr',
    executeTrade env (bootstrapContext (config st) tokenToSell) tr = (Ok sellResult, tr') /\
    bootstrapSell env p st tokenToSell tr
      = (Ok (Continue, afterBootstrap p st tokenToSell sellResult), tr' ++ [Delay 3000]).
Proof.
  destruct (executeTrade_returns env (bootstrapContext (config st) tokenToSell) tr)
    as (r & tr' & Hrun).
  exists r, tr'. split; [exact Hrun|].
  unfold bootstrapSell, bind. fold (bootstrapContext (config st) tokenToSell).
  rewrite Hrun. reflexivity.
Qed.

Lemma all_buys_filters plan :
  plan <> [] -> (forall t, In t plan -> action t = buy) ->
  Nat.ltb 0 (List.length (filter isBuy plan))
  && Nat.eqb (List.length (filter isSell plan)) 0 = true.
Proof.
  intros Hne Hall.
  assert (Hb : filter isBuy plan = plan).
  { induction plan as [|t plan IH]; [reflexivity|]. simpl.
    unfold isBuy at 1. rewrite (Hall t (or_introl eq_refl)). simpl.
    destruct plan as [|t' plan']; [reflexivity|].
    rewrite IH; [reflexivity | discriminate |].
    intros x Hx. apply Hall. right. exact Hx. }
  assert (Hs : filter isSell plan = []).
  { clear Hb Hne. induction plan as [|t plan IH]; [reflexivity|]. simpl.
    unfold isSell at 1. rewrite (Hall t (or_introl eq_refl)). simpl.
    apply IH. intros x Hx. apply Hall. right. exact Hx. }
  rewrite Hb, Hs. destruct plan; [congruence|reflexivity].
Qed.

(** One pass of the loop: the counter is advanced, the portfolio refreshed,
    and the rest of the body run. *)
Lemma rebalancingLoop_pass env p an fuel st0 tr0 pf tr c st' tr' :
  (iterationsCompleted st0 < REBALANCING_CONFIG.maxIterations)%Z ->
  getPortfolio env tr0 = (Ok pf, tr) ->
  iterationAfterRefresh env p an (countIteration st0) pf tr = (Ok (c, st'), tr') ->
  rebalancingLoop env p an (S fuel) st0 tr0 =
    match c with
    | Break => (Ok st', tr')
    | Continue | EndOfBody => rebalancingLoop env p an fuel st' tr'
    end.
Proof.
  intros Hlt Hpf Hbody. cbn [rebalancingLoop].
  apply Z.ltb_lt in Hlt. rewrite Hlt.
  unfold bind at 1. unfold iterationBody, bind at 1. rewrite Hpf, Hbody.
  cbn [fst snd]. destruct c; reflexivity.
Qed.

(** C6, as stated, fails on two counts.  With a portfolio of dust and an
    exchange that rejects every trade, all ten passes of a run are bootstrap
    passes: ten sales are attempted, no full trade pass is made, the loop
    stops because the iteration cap is reached, and none of the ten failed
    results is in the execution results. *)
Lemma bootstrap_passes_reach_the_cap :
  exists st tr,
    rebalancingLoop rejectingEnv samplePrices sampleAnalysis 10
      (initialState sampleConfig) [] = (Ok st, tr) /\
    iterationsCompleted st = REBALANCING_CONFIG.maxIterations /\
    countEvents isPost tr = 10%nat /\
    countEvents (isDelay 2000) tr = 0%nat /\
    allRebalancingResults st = [].
Proof.
  do 2 eexists. split; [vm_compute; reflexivity|].
  repeat split; reflexivity.
Qed.

(** C6, amended.  In an iteration that is not stopped by convergence, whose
    plan holds only buys while the refreshed portfolio has no stablecoin
    balance and some non-target, non-stablecoin holding: the guard picks the
    candidate of largest USD value, sells it whole into USDC on its own
    chain by one [executeTrade] call, appends the result to the execution
    results if the sale succeeded (a failed sale leaves the state as it
    was), waits 3000 ms and restarts the loop.  The pass is counted: the
    loop goes on with the iteration counter advanced by one. *)
Theorem bootstrap_guard env p an st0 pf tr d plan first others :
  let st := countIteration st0 in
  let cfg := config st in
  maxDriftOf p cfg pf = Ok d ->
  forceRebalance cfg = true \/ REBALANCING_CONFIG.convergenceThreshold < d ->
  planOf p cfg pf = Ok plan ->
  plan <> [] ->
  (forall t, In t plan -> action t = buy) ->
  currentStablecoins pf = [] ->
  nonTargetTokens cfg pf = first :: others ->
  let tokenToSell := JS.reduce1 (moreValuable p) first others in
  In tokenToSell (nonTargetTokens cfg pf) /\
  (forall b, In b (nonTargetTokens cfg pf) ->
     holdingValue p b <= holdingValue p tokenToSell) /\
  exists sellResult tr',
    executeTrade env (bootstrapContext cfg tokenToSell) tr = (Ok sellResult, tr') /\
    let st' := afterBootstrap p st tokenToSell sellResult in
    iterationAfterRefresh env p an st pf tr = (Ok (Continue, st'), tr' ++ [Delay 3000]) /\
    (ToolResult.success sellResult = true ->
       allRebalancingResults st' = allRebalancingResults st0 ++ [sellResult]) /\
    (ToolResult.success sellResult = false -> st' = st) /\
    iterationsCompleted st' = (iterationsCompleted st0 + 1)%Z /\
    (forall fuel tr0,
       (iterationsCompleted st0 < REBALANCING_CONFIG.maxIterations)%Z ->
       getPortfolio env tr0 = (Ok pf, tr) ->
       rebalancingLoop env p an (S fuel) st0 tr0
         = rebalancingLoop env p an fuel st' (tr' ++ [Delay 3000])).
Proof.
  intros st cfg Hd Hgo Hplan Hne Hbuys Hstable Hnon tokenToSell.
  destruct (mostValuable_spec p first others) as [Hin Hmax]. fold tokenToSell in Hin, Hmax.
  rewrite Hnon. split; [exact Hin|]. split; [exact Hmax|].
  destruct (bootstrapSell_run env p st tokenToSell tr) as (r & tr' & Hrun & Hsell).
  exists r, tr'. split; [exact Hrun|]. cbv zeta.
  assert (Hbody : iterationAfterRefresh env p an st pf tr
                  = (Ok (Continue, afterBootstrap p st tokenToSell r), tr' ++ [Delay 3000])).
  { unfold iterationAfterRefresh. fold cfg.
    unfold maxDriftOf in Hd. unfold planOf in Hplan.
    destruct (percentLoop p (targetAllocation cfg) (groupBySymbol (balances pf))
                (totalLoop p (groupBySymbol (balances pf)))) as [pct|e];
      cbn [rbind] in Hd, Hplan; [|discriminate].
    inversion Hd; subst d; clear Hd.
    unfold bind at 1. unfold liftR at 1.
    assert (Hconv : negb (forceRebalance cfg)
                    && JS.leb (snd (driftLoop (targetAllocation cfg) pct))
                              REBALANCING_CONFIG.convergenceThreshold = false).
    { destruct Hgo as [Hf|Hgt]; [rewrite Hf; reflexivity|].
      apply JSFacts.leb_gt in Hgt. rewrite Hgt. apply andb_false_r. }
    rewrite Hconv. unfold bind at 1. unfold liftR at 1. rewrite Hplan.
    destruct plan as [|t plan']; [congruence|].
    rewrite (all_buys_filters (t :: plan') Hne Hbuys), Hstable, Hnon.
    exact Hsell. }
  split; [exact Hbody|].
  unfold afterBootstrap.
  split; [intros Hs; rewrite Hs; reflexivity|].
  split; [intros Hs; rewrite Hs; reflexivity|].
  split; [destruct (ToolResult.success r); reflexivity|].
  intros fuel tr0 Hlt Hpf.
  rewrite (rebalancingLoop_pass env p an fuel st0 tr0 pf tr Continue _ _ Hlt Hpf Hbody).
  reflexivity.
Qed.

(** The guard applies to the portfolio of dust: SOL, the more valuable of
    the two holdings, is sold. *)
Lemma bootstrap_guard_witness :
  exists sellResult tr',
    iterationAfterRefresh dustEnv samplePrices sampleAnalysis
      (countIteration (initialState sampleConfig))
      {| portfolioSuccess := true; balances := dustPortfolio |} []
    = (Ok (Continue,
           afterBootstrap samplePrices (countIteration (initialState sampleConfig))
             (JS.reduce1 (moreValuable samplePrices)
                (sampleBalance "WETH" (4 # 1000000) "eth"
                   "0xC02aaA39b223FE8D0A0e5C4F27eAD9083C756Cc2")
                [{| Balance.tokenAddress := SOL_ADDRESS;
                    Balance.amount := 9 # 100000;
                    Balance.specificChain := "svm";
                    Balance.symbol := "SOL";
                    Balance.chain := "svm" |}])
             sellResult),
       tr' ++ [Delay 3000]).
Proof.
  assert (Hd : exists d,
             maxDriftOf samplePrices sampleConfig
               {| portfolioSuccess := true; balances := dustPortfolio |} = Ok d /\
             REBALANCING_CONFIG.convergenceThreshold < d)
    by (eexists; split; [vm_compute; reflexivity | reflexivity]).
  destruct Hd as (d & Hd & Hgt).
  assert (Hp : exists plan,
             planOf samplePrices sampleConfig
               {| portfolioSuccess := true; balances := dustPortfolio |} = Ok plan /\
             plan <> [] /\ forall t, In t plan -> action t = buy)
    by (eexists; split; [vm_compute; reflexivity|];
        split; [discriminate | intros t [<-|[]]; reflexivity]).
  destruct Hp as (plan & Hp & Hne & Hbuys).
  destruct (bootstrap_guard dustEnv samplePrices sampleAnalysis (initialState sampleConfig)
              {| portfolioSuccess := true; balances := dustPortfolio |} []
              d plan
              (sampleBalance "WETH" (4 # 1000000) "eth"
                 "0xC02aaA39b223FE8D0A0e5C4F27eAD9083C756Cc2")
              [{| Balance.tokenAddress := SOL_ADDRESS;
                  Balance.amount := 9 # 100000;
                  Balance.specificChain := "svm";
                  Balance.symbol := "SOL";
                  Balance.chain := "svm" |}]
              Hd (or_intror Hgt) Hp Hne Hbuys eq_refl eq_refl)
    as (_ & _ & r & tr' & _ & Hbody & _).
  exists r, tr'. exact Hbody.
Defined.

(** With the flag cleared, an iteration that finds the drift within the
    convergence threshold stops the loop at once. *)
Lemma converged_iteration_stops env p an st pf tr d :
  forceRebalance (config st) = false ->
  maxDriftOf p (config st) pf = Ok d ->
  d <= REBALANCING_CONFIG.convergenceThreshold ->
  iterationAfterRefresh env p an st pf tr = (Ok (Break, st), tr).
Proof.
  intros Hf Hd Hle. unfold iterationAfterRefresh, maxDriftOf in *.
  destruct (percentLoop p (targetAllocation (config st)) (groupBySymbol (balances pf))
              (totalLoop p (groupBySymbol (balances pf)))) as [pct|e];
    cbn [rbind] in Hd; [|discriminate].
  inversion Hd; subst d; clear Hd.
  unfold bind, liftR. rewrite Hf.
  apply JSFacts.leb_le in Hle. rewrite Hle. reflexivity.
Qed.

Lemma foldM_inv {A B} (f : A -> B -> M A) (P : A -> Prop) (l : list B) :
  (forall a b tr r tr', f a b tr = (Ok r, tr') -> P a -> P r) ->
  forall a tr r tr', P a -> foldM f l a tr = (Ok r, tr') -> P r.
Proof.
  intros Hstep. induction l as [|b l IH]; intros a tr r tr' Ha; simpl.
  - unfold ret. intros H. inversion H. subst. exact Ha.
  - unfold bind. destruct (f a b tr) as [[a'|e] tr1] eqn:Hf; [|discriminate].
    apply IH. eapply Hstep; eassumption.
Qed.

Lemma recordResult_keeps st trade r :
  config (recordResult st trade r) = config st /\
  iterationsCompleted (recordResult st trade r) = iterationsCompleted st.
Proof. unfold recordResult. destruct (TradeExecutionResult.result r); auto. Qed.

(** A full trade pass reaches the end of the loop body with the flag
    cleared and the iteration counter untouched. *)
Lemma tradePass_clears_flag env p an pf total plan st tr c st' tr' :
  tradePass env p an pf total plan st tr = (Ok (c, st'), tr') ->
  c = EndOfBody /\
  forceRebalance (config st') = false /\
  iterationsCompleted st' = iterationsCompleted st.
Proof.
  unfold tradePass.
  set (P := fun s : LoopState => iterationsCompleted s = iterationsCompleted st).
  unfold bind at 1. destruct (liftR _ tr) as [[sells|e] tr1]; [|discriminate].
  unfold bind at 1. destruct (liftR _ tr1) as [[buys|e] tr2]; [|discriminate].
  unfold bind at 1.
  match goal with |- context [foldM ?f sells st tr2] =>
    destruct (foldM f sells st tr2) as [[st1|e] tr3] eqn:H1; [|discriminate];
    assert (P1 : P st1)
  end.
  { eapply foldM_inv; [| |exact H1]; [|reflexivity].
    intros a b t r t' Hf Ha. unfold bind in Hf.
    destruct (executeSingleTrade _ _ _ _ _ _ _ t) as [[x|e] t1]; [|discriminate].
    unfold createTradeDelay, emit, ret in Hf. inversion Hf. unfold P.
    rewrite (proj2 (recordResult_keeps a b x)). exact Ha. }
  unfold bind at 1.
  match goal with |- context [foldM ?f buys st1 tr3] =>
    destruct (foldM f buys st1 tr3) as [[st2|e] tr4] eqn:H2; [|discriminate];
    assert (P2 : P st2)
  end.
  { eapply foldM_inv; [| |exact H2]; [|exact P1].
    intros a b t r t' Hf Ha. unfold bind in Hf.
    destruct (getPortfolio env t) as [[pf'|e] t0]; [|discriminate].
    destruct (executeSingleTrade _ _ _ _ _ _ _ t0) as [[x|e] t1]; [|discriminate].
    unfold createTradeDelay, emit, ret in Hf. inversion Hf. unfold P.
    rewrite (proj2 (recordResult_keeps a b x)). exact Ha. }
  unfold bind, createTradeDelay, emit, ret. intros H. inversion H. subst.
  repeat split. exact P2.
Qed.

(** C7, the code at the failing input.  The run is forced and starts on
    the portfolio of dust, so its first iteration is a bootstrap pass; the
    pass ends by [continue] and the flag is still set.  The second iteration
    finds the drift within the convergence threshold and yet runs a full
    trade pass, with two more exchange calls. *)
Theorem force_flag_survives_bootstrap_pass :
  exists st1 tr1 tr1' st2 tr2 d,
    iterationBody depositEnv samplePrices sampleAnalysis
      (countIteration (initialState forcedConfig)) [] = (Ok (Continue, st1), tr1) /\
    forceRebalance (config st1) = true /\
    getPortfolio depositEnv tr1
      = (Ok {| portfolioSuccess := true; balances := nearTargetPortfolio |}, tr1') /\
    maxDriftOf samplePrices (config st1)
      {| portfolioSuccess := true; balances := nearTargetPortfolio |} = Ok d /\
    d <= REBALANCING_CONFIG.convergenceThreshold /\
    iterationBody depositEnv samplePrices sampleAnalysis (countIteration st1) tr1
      = (Ok (EndOfBody, st2), tr2) /\
    countEvents isPost tr1 = 1%nat /\
    countEvents isPost tr2 = 3%nat.
Proof.
  do 6 eexists.
  split; [vm_compute; reflexivity|].
  split; [reflexivity|].
  split; [vm_compute; reflexivity|].
  split; [vm_compute; reflexivity|].
  split; [discriminate|].
  split; [vm_compute; reflexivity|].
  split; reflexivity.
Qed.

(** ** No self-trade along a whole rebalancing step *)

Lemma noSelfTradeSince_trans a b c :
  noSelfTradeSince a b -> noSelfTradeSince b c -> noSelfTradeSince a c.
Proof.
  intros Hab Hbc payload H. destruct (Hbc payload H) as [H'|H']; [|right; exact H'].
  apply Hab. exact H'.
Qed.

Lemma noSelfTradeSince_quiet tr l :
  (forall e, In e l -> isPost e = false) -> noSelfTradeSince tr (tr ++ l).
Proof.
  intros Hq payload H. apply in_app_or in H. destruct H as [H|H]; [left; exact H|].
  apply Hq in H. discriminate.
Qed.

Lemma safe_ret {A} (a : A) (post : A -> Prop) : post a -> safeM (ret a) post.
Proof.
  intros Ha tr r tr' H. unfold ret in H. inversion H.
  split; [apply noSelfTradeSince_refl|]. intros a0 E. inversion E. subst. exact Ha.
Qed.

Lemma safe_liftR {A} (x : Result A) (post : A -> Prop) :
  (forall a, x = Ok a -> post a) -> safeM (liftR x) post.
Proof.
  intros Hx tr r tr' H. unfold liftR in H. inversion H. subst.
  split; [apply noSelfTradeSince_refl | exact Hx].
Qed.

Lemma safe_bind {A B} (m : M A) (k : A -> M B) (mid : A -> Prop) (post : B -> Prop) :
  safeM m mid -> (forall a, mid a -> safeM (k a) post) -> safeM (bind m k) post.
Proof.
  intros Hm Hk tr r tr' H. unfold bind in H.
  destruct (m tr) as [[a|e] tr1] eqn:Em.
  - destruct (Hm _ _ _ Em) as [H1 Ha].
    destruct (Hk a (Ha a eq_refl) _ _ _ H) as [H2 Hb].
    split; [eapply noSelfTradeSince_trans; eassumption | exact Hb].
  - inversion H; subst. destruct (Hm _ _ _ Em) as [H1 _].
    split; [exact H1 | discriminate].
Qed.

Lemma safe_tryCatch {A} (m : M A) (h : Failure -> M A) (post : A -> Prop) :
  safeM m post -> (forall e, safeM (h e) post) -> safeM (tryCatch m h) post.
Proof.
  intros Hm Hh tr r tr' H. unfold tryCatch in H.
  destruct (m tr) as [[a|e] tr1] eqn:Em.
  - inversion H; subst. exact (Hm _ _ _ Em).
  - destruct (Hm _ _ _ Em) as [H1 _]. destruct (Hh e _ _ _ H) as [H2 Hp].
    split; [eapply noSelfTradeSince_trans; eassumption | exact Hp].
Qed.

Lemma safe_weaken {A} (m : M A) (post post' : A -> Prop) :
  safeM m post -> (forall a, post a -> post' a) -> safeM m post'.
Proof.
  intros Hm Hw tr r tr' H. destruct (Hm _ _ _ H) as [H1 H2].
  split; [exact H1|]. intros a E. apply Hw, H2, E.
Qed.

Lemma safe_delay ms : safeM (createTradeDelay ms) (fun _ => True).
Proof.
  intros tr r tr' H. unfold createTradeDelay, emit in H. inversion H.
  split; [|auto]. apply noSelfTradeSince_quiet. intros e [<-|[]]. reflexivity.
Qed.

Lemma safe_foldM {A B} (f : A -> B -> M A) (inv : A -> Prop) (l : list B) :
  (forall a b, inv a -> In b l -> safeM (f a b) inv) ->
  forall a, inv a -> safeM (foldM f l a) inv.
Proof.
  induction l as [|b l IH]; intros Hf a Ha; simpl.
  - apply safe_ret. exact Ha.
  - eapply safe_bind; [apply Hf; [exact Ha | left; reflexivity]|].
    intros a' Ha'. apply IH; [|exact Ha'].
    intros a0 b0 Ha0 Hb0. apply Hf; [exact Ha0 | right; exact Hb0].
Qed.

Lemma forEach_emit {A} (g : A -> Event) (l : list A) tr :
  forEach (fun a => emit (g a)) l tr = (Ok tt, tr ++ map g l).
Proof.
  revert tr. induction l as [|a l IH]; intros tr; simpl.
  - unfold ret. rewrite app_nil_r. reflexivity.
  - unfold bind, emit. rewrite IH, <- app_assoc. reflexivity.
Qed.

(** Refreshing the portfolio makes no exchange call and returns balances
    the account reported. *)
Lemma safe_getPortfolio env :
  supportedAccount env ->
  safeM (getPortfolio env) (fun pf => supportedHoldings (balances pf)).
Proof.
  intros Henv tr r tr' H. unfold getPortfolio, tryCatch, bind, httpGetBalances in H.
  destruct (balancesReply env tr) as [bs|st] eqn:Eb.
  - rewrite forEach_emit in H. unfold ret in H. inversion H; subst; clear H. split.
    + rewrite <- app_assoc. apply noSelfTradeSince_quiet.
      intros e He. apply in_app_or in He. destruct He as [[<-|[]]|He]; [reflexivity|].
      apply in_map_iff in He. destruct He as [b [<- _]]. reflexivity.
    + intros a E. inversion E; subst; clear E. cbn [balances].
      intros b Hb. apply filter_In in Hb. apply (Henv tr bs Eb b (proj1 Hb)).
  - unfold ret in H. inversion H; subst; clear H. split.
    + apply noSelfTradeSince_read.
    + intros a E. inversion E; subst. intros b [].
Qed.

Lemma safe_executeSingleTrade env trade tradeType pf cfg an pr :
  In (symbol (base trade)) SUPPORTED_TOKENS ->
  supportedTargets cfg ->
  supportedHoldings (balances pf) ->
  preferredChain (base trade) <> EmptyString ->
  safeM (executeSingleTrade env trade tradeType pf cfg an pr) (fun _ => True).
Proof.
  intros Hs Ht Hh Hp tr r tr' H. split; [|auto].
  eapply executeSingleTrade_no_self_trade; [exact Hs | exact Ht | | exact Hp | exact H].
  intros b Hb. exact (proj2 (Hh b Hb)).
Qed.

Lemma safe_throw {A} (e : Failure) (post : A -> Prop) : safeM (throw e) post.
Proof.
  intros tr r tr' H. unfold throw in H. inversion H; subst.
  split; [apply noSelfTradeSince_refl | discriminate].
Qed.

Lemma orString_nonempty o d : d <> EmptyString -> JS.orString o d <> EmptyString.
Proof.
  intros Hd. destruct o as [[|c r]|]; simpl; [exact Hd | discriminate | exact Hd].
Qed.

(** Every entry of an iteration's plan names a target symbol or a held
    symbol, and a chain. *)
Lemma iterationPlan_entries p cfg symbolTotals drift total plan t :
  iterationPlan p cfg symbolTotals drift total = Ok plan -> In t plan ->
  (In (symbol t) (keys (targetAllocation cfg)) \/ In (symbol t) (keys symbolTotals)) /\
  preferredChain t <> EmptyString.
Proof.
  unfold iterationPlan.
  destruct (targetLoop p cfg symbolTotals drift total
              (fun _ => Ok (JS.orString (consolidateToChain cfg) "eth")))
    as [ft|e] eqn:Hl; cbn [rbind]; [|discriminate].
  intros H Hin. inversion H; subst; clear H. apply in_app_or in Hin.
  destruct Hin as [Hin|Hin].
  - split; [left; exact (proj1 (targetLoop_entries _ _ _ _ _ _ _ _ Hl Hin))|].
    apply targetLoop_pushes in Hl. destruct Hl as [pushed [HF ->]].
    destruct (@Forall2_pushed_in _ _ _ _ _ t HF Hin) as (e & out & H1 & H2 & H3).
    apply targetEntry_out in H2. destruct H2 as [[-> _]|(c & Hc & _ & ->)]; [destruct H3|].
    destruct H3 as [<-|[]]. inversion Hc; subst c. cbn [preferredChain].
    apply orString_nonempty. discriminate.
  - unfold liquidationLoop in Hin. apply in_flat_map in Hin.
    destruct Hin as [e [He Hin]]. apply liquidationEntry_in in Hin.
    destruct Hin as [-> _]. cbn [symbol preferredChain]. split.
    + right. unfold keys. apply in_map. exact He.
    + apply orString_nonempty. discriminate.
Qed.

(** Splitting keeps the symbol and the chain of the trade. *)
Lemma splitTradeIntoSubTrades_base t total frac subs s :
  splitTradeIntoSubTrades t total frac = Ok subs -> In s subs ->
  symbol (base s) = symbol t /\ preferredChain (base s) = preferredChain t.
Proof.
  intros H Hin. destruct (split_cases t total frac) as [Hc|(Ht & Hf & Hv)].
  - rewrite (split_single _ _ _ Hc) in H. inversion H; subst.
    destruct Hin as [<-|[]]. auto.
  - destruct (split_many t total frac Ht Hf Hv) as [_ E]. rewrite E in H.
    inversion H; subst. apply subTradesLoop_in in Hin. rewrite Hin. auto.
Qed.

Lemma splitAll_base trades total subs s :
  splitAll trades total = Ok subs -> In s subs ->
  exists t, In t trades /\
    symbol (base s) = symbol t /\ preferredChain (base s) = preferredChain t.
Proof.
  unfold splitAll. intros H Hin.
  apply rfold_pushes
    with (g := fun t => splitTradeIntoSubTrades t total MAX_TRADE_SIZE_PERCENT) in H.
  destruct H as [pushed [HF E]]. subst subs. simpl in Hin.
  destruct (@Forall2_pushed_in _ _ _ _ _ s HF Hin) as (t & out & H1 & H2 & H3).
  exists t. split; [exact H1|]. eapply splitTradeIntoSubTrades_base; eassumption.
Qed.

Lemma executed_in_plan (f : TradeParams -> bool) n plan t :
  In t (filter f (firstn n (sortDesc priority plan))) -> In t plan.
Proof.
  intros H. apply filter_In in H. destruct H as [H _].
  apply (proj1 (sortDesc_In priority t plan)).
  rewrite <- (firstn_skipn n (sortDesc priority plan)).
  apply in_or_app. left. exact H.
Qed.

Lemma safe_tradePass env p an pf total plan st :
  supportedAccount env ->
  supportedHoldings (balances pf) ->
  supportedTargets (config st) ->
  (forall t, In t plan ->
     In (symbol t) SUPPORTED_TOKENS /\ preferredChain t <> EmptyString) ->
  safeM (tradePass env p an pf total plan st)
        (fun r => supportedTargets (config (snd r))).
Proof.
  intros Henv Hpf Hcfg Hplan. unfold tradePass.
  set (good := fun subs : list SubTradeParams =>
         forall s, In s subs ->
           In (symbol (base s)) SUPPORTED_TOKENS /\ preferredChain (base s) <> EmptyString).
  assert (Hsplit : forall f,
            safeM (liftR (splitAll
                     (filter f (firstn REBALANCING_CONFIG.maxTradesPerIteration
                                  (sortDesc priority plan))) total)) good).
  { intros f. apply safe_liftR. intros subs E s Hs.
    destruct (splitAll_base _ _ _ _ E Hs) as (t & Ht & -> & ->).
    apply Hplan. eapply executed_in_plan. exact Ht. }
  eapply safe_bind; [apply Hsplit|]. intros sells Hsells.
  eapply safe_bind; [apply Hsplit|]. intros buys Hbuys.
  eapply safe_bind with (mid := fun s => supportedTargets (config s)).
  { apply safe_foldM; [|exact Hcfg]. intros s trade Hs Hin.
    destruct (Hsells trade Hin) as [Hsym Hch].
    eapply safe_bind; [apply safe_executeSingleTrade; eassumption|]. intros r _.
    eapply safe_bind; [apply safe_delay|]. intros _ _.
    apply safe_ret. rewrite (proj1 (recordResult_keeps s trade r)). exact Hs. }
  intros st1 Hst1.
  eapply safe_bind with (mid := fun s => supportedTargets (config s)).
  { apply safe_foldM; [|exact Hst1]. intros s trade Hs Hin.
    destruct (Hbuys trade Hin) as [Hsym Hch].
    eapply safe_bind; [apply safe_getPortfolio; exact Henv|]. intros pf' Hpf'.
    eapply safe_bind; [apply safe_executeSingleTrade; eassumption|]. intros r _.
    eapply safe_bind; [apply safe_delay|]. intros _ _.
    apply safe_ret. rewrite (proj1 (recordResult_keeps s trade r)). exact Hs. }
  intros st2 Hst2.
  eapply safe_bind; [apply safe_delay|]. intros _ _.
  apply safe_ret. exact Hst2.
Qed.

Lemma nonTargetTokens_supported cfg pf b :
  supportedHoldings (balances pf) -> In b (nonTargetTokens cfg pf) ->
  In (Balance.symbol b) SUPPORTED_TOKENS /\ Balance.specificChain b <> EmptyString.
Proof.
  intros Hpf Hin. unfold nonTargetTokens in Hin. apply filter_In in Hin.
  destruct Hin as [Hb Hf]. destruct (Hpf b Hb) as [Hs Hc]. split; [|exact Hc].
  apply andb_true_iff in Hf. destruct Hf as [_ Hst].
  unfold normalizeSymbol in Hs.
  destruct (String.eqb (Balance.symbol b) "USDbC") eqn:E; [|exact Hs].
  apply String.eqb_eq in E. rewrite E in Hst. discriminate.
Qed.

Lemma safe_bootstrapSell env p st pf tokenToSell :
  supportedHoldings (balances pf) ->
  In tokenToSell (nonTargetTokens (config st) pf) ->
  supportedTargets (config st) ->
  safeM (bootstrapSell env p st tokenToSell)
        (fun r => supportedTargets (config (snd r))).
Proof.
  intros Hpf Hin Hcfg. unfold bootstrapSell.
  destruct (nonTargetTokens_supported _ _ _ Hpf Hin) as [Hs Hc].
  eapply safe_bind with (mid := fun _ => True).
  { intros tr r tr' H. split; [|auto].
    eapply executeTrade_no_self_trade; [| | | | exact H]; cbn.
    - exact Hs.
    - auto.
    - apply truthyString_nonempty. exact Hc.
    - apply truthyString_nonempty. exact Hc. }
  intros sellResult _.
  eapply safe_bind; [apply safe_delay|]. intros _ _.
  apply safe_ret. cbn [snd]. destruct (ToolResult.success sellResult); exact Hcfg.
Qed.

Lemma safe_iterationAfterRefresh env p an st pf :
  supportedAccount env ->
  supportedHoldings (balances pf) ->
  supportedTargets (config st) ->
  safeM (iterationAfterRefresh env p an st pf)
        (fun r => supportedTargets (config (snd r))).
Proof.
  intros Henv Hpf Hcfg. unfold iterationAfterRefresh.
  eapply safe_bind with (mid := fun _ => True); [apply safe_liftR; auto|].
  intros pct _.
  destruct (negb (forceRebalance (config st)) && JS.leb _ _);
    [apply safe_ret; exact Hcfg|].
  eapply safe_bind
    with (mid := fun plan : list TradeParams =>
            forall t, In t plan ->
              In (symbol t) SUPPORTED_TOKENS /\ preferredChain t <> EmptyString).
  { apply safe_liftR. intros plan E t Ht.
    destruct (iterationPlan_entries _ _ _ _ _ _ _ E Ht) as [[Hk|Hk] Hc];
      (split; [|exact Hc]).
    - apply Hcfg. exact Hk.
    - apply groupBySymbol_keys in Hk. destruct Hk as (b & Hb & <-).
      exact (proj1 (Hpf b Hb)). }
  intros plan Hplan.
  destruct plan as [|t0 plan0]; [apply safe_ret; exact Hcfg|].
  assert (Hpass : safeM (tradePass env p an pf
                           (totalLoop p (groupBySymbol (balances pf))) (t0 :: plan0) st)
                        (fun r => supportedTargets (config (snd r))))
    by (apply safe_tradePass; assumption).
  destruct (Nat.ltb 0 _ && Nat.eqb _ 0); [|exact Hpass].
  destruct (currentStablecoins pf); [|exact Hpass].
  destruct (nonTargetTokens (config st) pf) as [|first others] eqn:En; [exact Hpass|].
  eapply safe_bootstrapSell; [exact Hpf | | exact Hcfg].
  rewrite En. exact (proj1 (mostValuable_spec p first others)).
Qed.

Lemma safe_rebalancingLoop env p an fuel :
  supportedAccount env ->
  forall st, supportedTargets (config st) ->
  safeM (rebalancingLoop env p an fuel st) (fun st' => supportedTargets (config st')).
Proof.
  intros Henv. induction fuel as [|fuel IH]; intros st Hcfg; simpl;
    destruct (iterationsCompleted st <? REBALANCING_CONFIG.maxIterations)%Z;
    try (apply safe_ret; exact Hcfg).
  - apply safe_throw.
  - eapply safe_bind with (mid := fun r => supportedTargets (config (snd r))).
    + unfold iterationBody.
      eapply safe_bind; [apply safe_getPortfolio; exact Henv|]. intros pf Hpf.
      apply safe_iterationAfterRefresh; assumption.
    + intros [c st'] Hst'. cbn [fst snd] in *.
      destruct c; [apply safe_ret; exact Hst' | apply IH; exact Hst' ..].
Qed.

(** A whole rebalancing step, over an account of supported tokens and a
    target of supported symbols, sends the exchange no self-trade. *)
Lemma executeRebalancingStep_no_self_trade env an p cfg tr r tr' :
  supportedAccount env -> supportedTargets cfg ->
  executeRebalancingStep env an p cfg tr = (r, tr') ->
  noSelfTradeSince tr tr'.
Proof.
  intros Henv Hcfg H.
  cut (safeM (executeRebalancingStep env an p cfg) (fun _ => True));
    [intros Hs; exact (proj1 (Hs _ _ _ H))|].
  unfold executeRebalancingStep.
  destruct (negb (needsRebalancing an)); [apply safe_ret; exact I|].
  eapply safe_bind; [apply safe_rebalancingLoop; [exact Henv | exact Hcfg]|].
  intros st _.
  eapply safe_bind; [apply safe_getPortfolio; exact Henv|]. intros pf _.
  eapply safe_bind with (mid := fun _ => True); [apply safe_liftR; auto|].
  intros final _. apply safe_ret. exact I.
Qed.

(** ** The rebalancing step always returns *)

Lemma total_ret {A} (a : A) (post : A -> Prop) : post a -> totalM (ret a) post.
Proof. intros Ha tr. exists a, tr. split; [reflexivity | exact Ha]. Qed.

Lemma total_liftR {A} (x : Result A) (post : A -> Prop) :
  (exists a, x = Ok a /\ post a) -> totalM (liftR x) post.
Proof.
  intros (a & -> & Ha) tr. exists a, tr. split; [reflexivity | exact Ha].
Qed.

Lemma total_bind {A B} (m : M A) (k : A -> M B) (mid : A -> Prop) (post : B -> Prop) :
  totalM m mid -> (forall a, mid a -> totalM (k a) post) -> totalM (bind m k) post.
Proof.
  intros Hm Hk tr. destruct (Hm tr) as (a & tr1 & Em & Ha).
  destruct (Hk a Ha tr1) as (b & tr2 & Ek & Hb).
  exists b, tr2. unfold bind. rewrite Em. split; [exact Ek | exact Hb].
Qed.

Lemma total_foldM {A B} (f : A -> B -> M A) (inv : A -> Prop) (l : list B) :
  (forall a b, inv a -> totalM (f a b) inv) ->
  forall a, inv a -> totalM (foldM f l a) inv.
Proof.
  intros Hf. induction l as [|b l IH]; intros a Ha; simpl.
  - apply total_ret. exact Ha.
  - eapply total_bind; [apply Hf; exact Ha|]. exact IH.
Qed.

Lemma total_delay ms : totalM (createTradeDelay ms) (fun _ => True).
Proof. intros tr. do 2 eexists. split; [reflexivity | exact I]. Qed.

Lemma total_getPortfolio env : totalM (getPortfolio env) (fun _ => True).
Proof.
  intros tr. unfold getPortfolio, tryCatch, bind, httpGetBalances.
  destruct (balancesReply env tr) as [bs|st].
  - rewrite forEach_emit. do 2 eexists. split; [reflexivity | exact I].
  - do 2 eexists. split; [reflexivity | exact I].
Qed.

Lemma total_executeSingleTrade env trade tradeType pf cfg an pr :
  totalM (executeSingleTrade env trade tradeType pf cfg an pr) (fun _ => True).
Proof.
  intros tr. unfold executeSingleTrade, tryCatch.
  match goal with |- context [match ?m tr with _ => _ end] =>
    destruct (m tr) as [[r|e] tr1]
  end; do 2 eexists; (split; [reflexivity | exact I]).
Qed.

Lemma splitAll_returns trades total : exists subs, splitAll trades total = Ok subs.
Proof.
  unfold splitAll.
  match goal with |- exists subs, rfold ?f ?l ?a = Ok subs =>
    pose proof (@rfold_inv _ _ f (fun _ => True) (fun _ => False) l a I) as H
  end.
  match type of H with ?P -> _ => assert (Hstep : P) end.
  { intros a t _ _. destruct (split_cases t total MAX_TRADE_SIZE_PERCENT)
      as [Hc|(Ht & Hf & Hv)].
    - rewrite (split_single _ _ _ Hc). exact I.
    - rewrite (proj2 (split_many t total MAX_TRADE_SIZE_PERCENT Ht Hf Hv)). exact I. }
  specialize (H Hstep).
  match type of H with match ?r with _ => _ end => destruct r as [subs|e] end;
    [exists subs; reflexivity | contradiction].
Qed.

Lemma iterationPlan_returns p cfg symbolTotals drift total :
  exists plan, iterationPlan p cfg symbolTotals drift total = Ok plan.
Proof.
  unfold iterationPlan.
  destruct (targetLoop_returns p cfg symbolTotals drift total
              (fun _ => Ok (JS.orString (consolidateToChain cfg) "eth")))
    as [ft Hft]; [eauto|].
  rewrite Hft. cbn [rbind]. eauto.
Qed.

(** A trade pass, a bootstrap sale and a stop all leave the iteration
    counter as the top of the loop body set it. *)
Lemma total_tradePass env p an pf total plan st :
  totalM (tradePass env p an pf total plan st)
         (fun r => iterationsCompleted (snd r) = iterationsCompleted st).
Proof.
  unfold tradePass.
  set (same := fun s : LoopState => iterationsCompleted s = iterationsCompleted st).
  eapply total_bind with (mid := fun _ => True).
  { apply total_liftR. destruct (splitAll_returns
      (filter isSell (firstn REBALANCING_CONFIG.maxTradesPerIteration
                        (sortDesc priority plan))) total) as [subs E]. eauto. }
  intros sells _.
  eapply total_bind with (mid := fun _ => True).
  { apply total_liftR. destruct (splitAll_returns
      (filter isBuy (firstn REBALANCING_CONFIG.maxTradesPerIteration
                       (sortDesc priority plan))) total) as [subs E]. eauto. }
  intros buys _.
  eapply total_bind with (mid := same).
  { apply total_foldM; [|reflexivity]. intros s trade Hs.
    eapply total_bind; [apply total_executeSingleTrade|]. intros r _.
    eapply total_bind; [apply total_delay|]. intros _ _.
    apply total_ret. unfold same.
    rewrite (proj2 (recordResult_keeps s trade r)). exact Hs. }
  intros st1 Hst1.
  eapply total_bind with (mid := same).
  { apply total_foldM; [|exact Hst1]. intros s trade Hs.
    eapply total_bind; [apply total_getPortfolio|]. intros pf' _.
    eapply total_bind; [apply total_executeSingleTrade|]. intros r _.
    eapply total_bind; [apply total_delay|]. intros _ _.
    apply total_ret. unfold same.
    rewrite (proj2 (recordResult_keeps s trade r)). exact Hs. }
  intros st2 Hst2.
  eapply total_bind; [apply total_delay|]. intros _ _.
  apply total_ret. exact Hst2.
Qed.

Lemma total_iterationAfterRefresh env p an st pf :
  totalM (iterationAfterRefresh env p an st pf)
         (fun r => iterationsCompleted (snd r) = iterationsCompleted st).
Proof.
  unfold iterationAfterRefresh.
  eapply total_bind with (mid := fun _ => True).
  { apply total_liftR.
    destruct (percentLoop_returns p (targetAllocation (config st))
                (groupBySymbol (balances pf))
                (totalLoop p (groupBySymbol (balances pf)))) as [pct E]. eauto. }
  intros pct _.
  destruct (negb (forceRebalance (config st)) && JS.leb _ _);
    [apply total_ret; reflexivity|].
  eapply total_bind with (mid := fun _ => True).
  { apply total_liftR.
    match goal with |- exists a, iterationPlan ?p ?c ?s ?d ?t = _ /\ _ =>
      destruct (iterationPlan_returns p c s d t) as [plan E]
    end. eauto. }
  intros plan _.
  destruct plan as [|t0 plan0]; [apply total_ret; reflexivity|].
  pose proof (total_tradePass env p an pf
                (totalLoop p (groupBySymbol (balances pf))) (t0 :: plan0) st) as Hpass.
  destruct (Nat.ltb 0 _ && Nat.eqb _ 0); [|exact Hpass].
  destruct (currentStablecoins pf); [|exact Hpass].
  destruct (nonTargetTokens (config st) pf) as [|first others]; [exact Hpass|].
  intros tr.
  destruct (bootstrapSell_run env p st (JS.reduce1 (moreValuable p) first others) tr)
    as (r & tr' & _ & Hrun).
  do 2 eexists. split; [exact Hrun|].
  cbn [snd]. unfold afterBootstrap. destruct (ToolResult.success r); reflexivity.
Qed.

(** With fuel for the iterations left under the cap the loop returns, and
    the counter ends within the cap. *)
Lemma total_rebalancingLoop env p an fuel :
  forall st,
    (REBALANCING_CONFIG.maxIterations - iterationsCompleted st <= Z.of_nat fuel)%Z ->
    totalM (rebalancingLoop env p an fuel st)
           (fun st' => (iterationsCompleted st <= iterationsCompleted st'
                        <= Z.max (iterationsCompleted st)
                                 REBALANCING_CONFIG.maxIterations)%Z).
Proof.
  induction fuel as [|fuel IH]; intros st Hfuel; cbn [rebalancingLoop];
    destruct (iterationsCompleted st <? REBALANCING_CONFIG.maxIterations)%Z eqn:Hlt;
    try (apply total_ret; lia).
  - apply Z.ltb_lt in Hlt. lia.
  - apply Z.ltb_lt in Hlt.
    eapply total_bind
      with (mid := fun r => iterationsCompleted (snd r) = (iterationsCompleted st + 1)%Z).
    + unfold iterationBody.
      eapply total_bind; [apply total_getPortfolio|]. intros pf _.
      apply total_iterationAfterRefresh.
    + intros [c st'] Hst'. cbn [fst snd] in *.
      destruct c.
      * apply total_ret. lia.
      * intros tr. destruct (IH st' ltac:(lia) tr) as (s & tr' & E & Hs).
        exists s, tr'. split; [exact E | lia].
      * intros tr. destruct (IH st' ltac:(lia) tr) as (s & tr' & E & Hs).
        exists s, tr'. split; [exact E | lia].
Qed.

(** The rebalancing step never fails: from any history it returns its
    output, after at most [maxIterations] passes of the loop. *)
Lemma executeRebalancingStep_returns env an p cfg :
  totalM (executeRebalancingStep env an p cfg)
         (fun out => (0 <= outputIterationsCompleted out
                      <= REBALANCING_CONFIG.maxIterations)%Z).
Proof.
  unfold executeRebalancingStep.
  destruct (negb (needsRebalancing an)).
  { apply total_ret. cbn. unfold REBALANCING_CONFIG.maxIterations. lia. }
  eapply total_bind.
  { apply total_rebalancingLoop. cbn [iterationsCompleted]. lia. }
  cbn beta. intros st Hst. cbn [iterationsCompleted] in Hst.
  eapply total_bind; [apply total_getPortfolio|]. intros pf _.
  eapply total_bind with (mid := fun _ => True).
  { apply total_liftR. unfold finalAllocationOf.
    match goal with |- exists a, percentLoop ?p ?t ?s ?v = _ /\ _ =>
      destruct (percentLoop_returns p t s v) as [pct E]
    end. eauto. }
  intros final _. apply total_ret. cbn [outputIterationsCompleted].
  unfold REBALANCING_CONFIG.maxIterations in *. lia.
Qed.

(** * Part III: properties of the rest of the workflow *)

(** ** The consolidation chain *)

Lemma findIndex_some {A} (f : A -> bool) (l : list A) i :
  findIndex f l = Some i ->
  exists a, nth_error l i = Some a /\ f a = true /\
            forall j b, (j < i)%nat -> nth_error l j = Some b -> f b = false.
Proof.
  revert i. induction l as [|a l IH]; intros i; simpl; [discriminate|].
  destruct (f a) eqn:Fa.
  - intros H. inversion H; subst. exists a. repeat split; auto. intros j b Hj. lia.
  - destruct (findIndex f l) as [k|] eqn:E; simpl; [|discriminate].
    intros H. inversion H; subst. destruct (IH k eq_refl) as (x & Hx & Fx & Hfirst).
    exists x. repeat split; auto.
    intros [|j] b Hj Hb; simpl in Hb.
    + inversion Hb; subst. exact Fa.
    + eapply Hfirst; [|exact Hb]. lia.
Qed.

Lemma findIndex_none {A} (f : A -> bool) (l : list A) :
  findIndex f l = None -> forall a, In a l -> f a = false.
Proof.
  induction l as [|a l IH]; simpl; [tauto|].
  destruct (f a) eqn:Fa; [discriminate|].
  destruct (findIndex f l); simpl; [discriminate|].
  intros _ x [<-|Hx]; auto.
Qed.

(** The score of a chain is defined and is at least the chain's value. *)
Lemma chainScore_returns targetTokens (e : string * Q) :
  exists score, chainScore targetTokens e = Ok score /\ snd e <= score.
Proof.
  unfold chainScore.
  match goal with |- exists s, rfold ?f ?l ?a = Ok s /\ _ =>
    pose proof (@rfold_inv _ _ f (fun s => snd e <= s) (fun _ => False) l a
                  (Qle_refl _)) as H
  end.
  match type of H with ?P -> _ => assert (Hstep : P) end.
  { intros score token _ Hs.
    destruct (preferencesOf token) as [preferences|]; [|exact Hs].
    destruct (findIndex _ preferences) as [chainIndex|]; [|exact Hs].
    assert (Hpos : 0 < inject_Z (Z.of_nat chainIndex + 1)).
    { change 0 with (inject_Z 0). rewrite <- Zlt_Qlt. lia. }
    rewrite jsdiv_ok by (intros E; rewrite E in Hpos; exact (Qlt_irrefl _ Hpos)).
    cbn [rbind].
    assert (0 <= 1000 / inject_Z (Z.of_nat chainIndex + 1)).
    { apply Qle_shift_div_l; [exact Hpos|]. rewrite Qmult_0_l. discriminate. }
    lra. }
  specialize (H Hstep).
  match type of H with match ?r with _ => _ end => destruct r as [score|err] end;
    [exists score; auto | contradiction].
Qed.

Lemma bestChainLoop_spec targetTokens (l : Dict Q) (start : string * Q) :
  exists best,
    bestChainLoop targetTokens l start = Ok best /\
    (best = start \/
     exists e, In e l /\ fst best = fst e /\ chainScore targetTokens e = Ok (snd best)) /\
    snd start <= snd best /\
    forall e score, In e l -> chainScore targetTokens e = Ok score -> score <= snd best.
Proof.
  unfold bestChainLoop. revert start.
  induction l as [|e l IH]; intros start; cbn [rfold].
  - exists start. split; [reflexivity|]. split; [left; reflexivity|].
    split; [apply Qle_refl|]. intros e score [].
  - destruct (chainScore_returns targetTokens e) as (s & Hs & _). rewrite Hs. cbn [rbind].
    destruct (JS.gtb s (snd start)) eqn:G.
    + apply JSFacts.gtb_gt in G.
      destruct (IH (fst e, s)) as (best & Hrun & Horigin & Hge & Hmax).
      exists best. split; [exact Hrun|]. cbn [fst snd] in *. split; [|split].
      * right. destruct Horigin as [->|(e' & He' & Hf & Hsc)].
        -- exists e. cbn [fst snd]. split; [left; reflexivity|]. split; [reflexivity|exact Hs].
        -- exists e'. split; [right; exact He'|]. split; [exact Hf|exact Hsc].
      * lra.
      * intros e' score [<-|Hin] Hsc; [|eapply Hmax; eassumption].
        rewrite Hs in Hsc. inversion Hsc; subst. exact Hge.
    + apply JSFacts.gtb_le in G.
      destruct (IH start) as (best & Hrun & Horigin & Hge & Hmax).
      exists best. split; [exact Hrun|]. split; [|split].
      * destruct Horigin as [->|(e' & He' & Hf & Hsc)]; [left; reflexivity|].
        right. exists e'. split; [right; exact He'|]. split; [exact Hf|exact Hsc].
      * exact Hge.
      * intros e' score [<-|Hin] Hsc; [|eapply Hmax; eassumption].
        rewrite Hs in Hsc. inversion Hsc; subst. lra.
Qed.

(** Counting the chains of positive value through their keys or through
    their entries is the same in a dictionary. *)
Lemma positive_chains_by_key (chainValues : Dict Q) :
  NoDup (keys chainValues) ->
  filter (fun chain =>
            match dget chain chainValues with
            | Some value => JS.gtb value 0
            | None => false
            end)
         (keys chainValues)
  = keys (filter (fun e => JS.gtb (snd e) 0) chainValues).
Proof.
  intros Hnd. unfold keys. rewrite filter_map_swap. f_equal.
  apply filter_ext_in. intros [k v] Hin. cbn [fst snd].
  rewrite (In_dget_NoDup k v chainValues Hnd Hin). reflexivity.
Qed.

Lemma determineOptimalConsolidationChain_spec chainValues tokenDistribution target :
  NoDup (keys chainValues) ->
  let targetTokens := map fst (filter (fun e => JS.gtb (snd e) 0) target) in
  exists choice,
    determineOptimalConsolidationChain chainValues tokenDistribution target = Ok choice /\
    (choice = None <->
     (List.length (filter (fun e => JS.gtb (snd e) 0) chainValues) <= 1)%nat) /\
    (forall chain, choice = Some chain ->
       exists value score,
         In (chain, value) chainValues /\ 0 < value /\
         chainScore targetTokens (chain, value) = Ok score /\
         forall chain' value' score',
           In (chain', value') chainValues -> 0 < value' ->
           chainScore targetTokens (chain', value') = Ok score' ->
           score' <= score).
Proof.
  intros Hnd targetTokens. unfold determineOptimalConsolidationChain.
  rewrite (positive_chains_by_key chainValues Hnd). unfold keys at 1. rewrite length_map.
  fold targetTokens.
  set (positive := filter (fun e : string * Q => JS.gtb (snd e) 0) chainValues).
  destruct (Nat.leb (List.length positive) 1) eqn:Hcount.
  { apply Nat.leb_le in Hcount. exists None. split; [reflexivity|].
    split; [tauto|]. discriminate. }
  apply Nat.leb_gt in Hcount.
  pose proof (sortDesc_perm snd positive) as Hperm.
  destruct (sortDesc snd positive) as [|[highestValueChain highestValue] rest] eqn:Hsorted.
  { apply Permutation_length in Hperm. simpl in Hperm. lia. }
  destruct (bestChainLoop_spec targetTokens
              ((highestValueChain, highestValue) :: rest) (highestValueChain, 0))
    as (best & Hrun & Horigin & Hge & Hmax).
  rewrite Hrun. cbn [rbind]. exists (Some (fst best)).
  split; [reflexivity|]. split; [split; [discriminate | lia]|].
  intros chain Hc. inversion Hc; subst chain; clear Hc.
  assert (Hpos : forall e, In e ((highestValueChain, highestValue) :: rest) ->
                   In e chainValues /\ 0 < snd e).
  { intros e He. apply (Permutation_in _ (Permutation_sym Hperm)) in He.
    apply filter_In in He. destruct He as [He Hg]. apply JSFacts.gtb_gt in Hg. auto. }
  assert (Hbest : exists e, In e ((highestValueChain, highestValue) :: rest) /\
                            fst best = fst e /\
                            chainScore targetTokens e = Ok (snd best)).
  { destruct Horigin as [Hstart|H]; [|exact H]. exfalso.
    destruct (chainScore_returns targetTokens (highestValueChain, highestValue))
      as (s & Hs & Hle).
    pose proof (Hmax _ _ (or_introl eq_refl) Hs) as Hm.
    destruct (Hpos _ (or_introl eq_refl)) as [_ Hv].
    rewrite Hstart in Hm. cbn [snd] in *. lra. }
  destruct Hbest as ([c v] & He & Hf & Hsc). cbn [fst snd] in *.
  destruct (Hpos _ He) as [Hin Hv]. cbn [snd] in Hv.
  exists v, (snd best). rewrite Hf. repeat split; auto.
  intros chain' value' score' Hin' Hv' Hsc'.
  eapply Hmax; [|exact Hsc'].
  apply (Permutation_in _ Hperm). apply filter_In. split; [exact Hin'|].
  apply JSFacts.gtb_gt. exact Hv'.
Qed.

(** X1.  [determineOptimalConsolidationChain] never fails.  It names no
    chain exactly when at most one chain holds a positive value; otherwise
    it names a chain that holds a positive value and whose score (its value
    plus 1000 / (rank + 1) for every positively weighted target token that
    lists the chain among its preferences) is the greatest among the chains
    of positive value. *)
Theorem consolidation_chain_is_best_scored chainValues tokenDistribution target :
  NoDup (keys chainValues) ->
  let targetTokens := map fst (filter (fun e => JS.gtb (snd e) 0) target) in
  exists choice,
    determineOptimalConsolidationChain chainValues tokenDistribution target = Ok choice /\
    (choice = None <->
     (List.length (filter (fun e => JS.gtb (snd e) 0) chainValues) <= 1)%nat) /\
    (forall chain, choice = Some chain ->
       exists value score,
         In (chain, value) chainValues /\ 0 < value /\
         chainScore targetTokens (chain, value) = Ok score /\
         forall chain' value' score',
           In (chain', value') chainValues -> 0 < value' ->
           chainScore targetTokens (chain', value') = Ok score' ->
           score' <= score).
Proof. exact (determineOptimalConsolidationChain_spec chainValues tokenDistribution target). Qed.

(** ** The chain tables *)

Lemma sumQ_snd_dset (d : Dict Q) (k : string) (v : Q) :
  sumQ (map snd (dset k v d)) == sumQ (map snd d) + v - valueOr0 d k.
Proof.
  unfold sumQ. induction d as [|[k' v'] d IH]; simpl.
  - rewrite valueOr0_nil. ring.
  - destruct (String.eqb_spec k' k) as [->|Hne]; simpl.
    + rewrite valueOr0_cons_same. ring.
    + rewrite IH, valueOr0_cons_other by exact Hne. ring.
Qed.

Lemma totalChainValue_sum (d : Dict Q) : totalChainValue d == sumQ (map snd d).
Proof.
  unfold totalChainValue.
  assert (H : forall a, fold_left (fun sum (e : string * Q) => sum + snd e) d a
                        == a + sumQ (map snd d)).
  { induction d as [|e d IH]; intros a; simpl.
    - unfold sumQ. simpl. ring.
    - rewrite IH. unfold sumQ. simpl. ring. }
  rewrite H. ring.
Qed.

Lemma keys_dset_present {V} (k : string) (v : V) (d : Dict V) :
  In k (keys d) -> keys (dset k v d) = keys d.
Proof.
  intros Hin. rewrite keys_dset. destruct (dget k d) eqn:E; [reflexivity|].
  apply dget_None in E. contradiction.
Qed.

Lemma distributionAt_update (td : Dict (Dict Q)) sym chain amount sym' chain' :
  let distribution : Dict Q := match dget sym td with Some d => d | None => [] end in
  distributionAt
    (dset sym (dset chain (JS.orElse (dget chain distribution) 0 + amount) distribution) td)
    sym' chain'
  == distributionAt td sym' chain'
     + (if String.eqb sym sym' && String.eqb chain chain' then amount else 0).
Proof.
  intros distribution. unfold distributionAt.
  destruct (String.eqb_spec sym sym') as [E|Hs]; cbn [andb].
  - subst sym'. rewrite dget_dset_same. unfold distribution. clear distribution.
    destruct (dget sym td) as [d|];
      (destruct (String.eqb_spec chain chain') as [E|Hc];
       [ subst chain'; rewrite valueOr0_dset_same, valueOr0_orElse; try reflexivity
       | rewrite valueOr0_dset_other by congruence; try ring ]).
    rewrite valueOr0_nil. ring.
  - rewrite dget_dset_other by congruence. ring.
Qed.

(** One pass over a balance on a known chain adds its value to the entry
    of its chain and its amount to the entry of its symbol and chain. *)
Lemma tableStep_known p tables (b : Enhanced.t) :
  tablesWellKeyed tables ->
  In (Balance.specificChain (Enhanced.balance b)) SUPPORTED_CHAINS ->
  exists tables',
    tableStep p tables b = Ok tables' /\
    tablesWellKeyed tables' /\
    (forall chain,
       valueOr0 (tableChainValues tables') chain
       == valueOr0 (tableChainValues tables) chain
          + (if onChain chain b then analysisValue p b else 0)) /\
    sumQ (map snd (tableChainValues tables'))
    == sumQ (map snd (tableChainValues tables)) + analysisValue p b /\
    (forall sym chain,
       distributionAt (tableTokenDistribution tables') sym chain
       == distributionAt (tableTokenDistribution tables) sym chain
          + (if String.eqb (normalizeSymbol (Balance.symbol (Enhanced.balance b))) sym
                && onChain chain b
             then Balance.amount (Enhanced.balance b) else 0)).
Proof.
  intros [Ha Hv] Hin. unfold tableStep.
  set (c := Balance.specificChain (Enhanced.balance b)) in *.
  destruct (dget c (tableAvailableTokens tables)) as [tokens|] eqn:Ed.
  2:{ apply dget_None in Ed. rewrite Ha in Ed. contradiction. }
  eexists. split; [reflexivity|]. unfold tablesWellKeyed.
  cbn [tableAvailableTokens tableChainValues tableTokenDistribution].
  assert (Hca : In c (keys (tableAvailableTokens tables))) by (rewrite Ha; exact Hin).
  assert (Hcv : In c (keys (tableChainValues tables))) by (rewrite Hv; exact Hin).
  split; [|split; [|split]].
  - split.
    + destruct (negb (JS.includes tokens _)); [|exact Ha].
      rewrite keys_dset_present by exact Hca. exact Ha.
    + rewrite keys_dset_present by exact Hcv. exact Hv.
  - intros chain. unfold onChain. fold c.
    destruct (String.eqb_spec c chain) as [<-|Hne].
    + rewrite valueOr0_dset_same, valueOr0_orElse. reflexivity.
    + rewrite valueOr0_dset_other by congruence. ring.
  - rewrite sumQ_snd_dset, valueOr0_orElse. unfold analysisValue, analysisPrice.
    fold c. ring.
  - intros sym chain. unfold onChain. fold c. apply distributionAt_update.
Qed.

Lemma tableStep_unknown p tables (b : Enhanced.t) :
  tablesWellKeyed tables ->
  ~ In (Balance.specificChain (Enhanced.balance b)) SUPPORTED_CHAINS ->
  tableStep p tables b = Err (TypeError "Cannot read properties of undefined").
Proof.
  intros [Ha _] Hnot. unfold tableStep.
  destruct (dget _ (tableAvailableTokens tables)) eqn:Ed; [|reflexivity].
  exfalso. apply Hnot. rewrite <- Ha. unfold keys.
  apply dget_In in Ed. apply (in_map fst) in Ed. exact Ed.
Qed.

Lemma chain_known_dec (c : string) : {In c SUPPORTED_CHAINS} + {~ In c SUPPORTED_CHAINS}.
Proof. apply in_dec. apply string_dec. Qed.

Lemma tables_from p (bs : list Enhanced.t) tables :
  tablesWellKeyed tables ->
  match rfold (tableStep p) bs tables with
  | Ok tables' =>
      (forall b, In b bs -> In (Balance.specificChain (Enhanced.balance b)) SUPPORTED_CHAINS) /\
      tablesWellKeyed tables' /\
      (forall chain,
         valueOr0 (tableChainValues tables') chain
         == valueOr0 (tableChainValues tables) chain
            + sumQ (map (analysisValue p) (filter (onChain chain) bs))) /\
      sumQ (map snd (tableChainValues tables'))
      == sumQ (map snd (tableChainValues tables)) + sumQ (map (analysisValue p) bs) /\
      (forall sym chain,
         distributionAt (tableTokenDistribution tables') sym chain
         == distributionAt (tableTokenDistribution tables) sym chain
            + heldOnChain bs sym chain)
  | Err e =>
      e = TypeError "Cannot read properties of undefined" /\
      exists b, In b bs /\
                ~ In (Balance.specificChain (Enhanced.balance b)) SUPPORTED_CHAINS
  end.
Proof.
  revert tables. induction bs as [|b bs IH]; intros tables Hk; cbn [rfold].
  - split; [intros b []|]. split; [exact Hk|].
    unfold heldOnChain, sumQ. simpl.
    split; [intros; ring|]. split; [ring|]. intros; ring.
  - destruct (chain_known_dec (Balance.specificChain (Enhanced.balance b))) as [Hin|Hnot].
    + destruct (tableStep_known p tables b Hk Hin) as (t1 & Hstep & Hk1 & Hv1 & Hs1 & Hd1).
      rewrite Hstep. cbn [rbind]. specialize (IH t1 Hk1).
      destruct (rfold (tableStep p) bs t1) as [t2|e].
      * destruct IH as (Hall & Hk2 & Hv2 & Hs2 & Hd2).
        split; [intros b' [<-|Hb']; auto|]. split; [exact Hk2|].
        split; [|split].
        -- intros chain. rewrite Hv2, Hv1. cbn [filter].
           destruct (onChain chain b); unfold sumQ; simpl; ring.
        -- rewrite Hs2, Hs1. unfold sumQ. simpl. ring.
        -- intros sym chain. rewrite Hd2, Hd1. unfold heldOnChain. cbn [filter].
           destruct (String.eqb _ sym && onChain chain b); unfold sumQ; simpl; ring.
      * destruct IH as (He & b' & Hb' & Hn). split; [exact He|].
        exists b'. split; [right; exact Hb' | exact Hn].
    + rewrite (tableStep_unknown p tables b Hk Hnot). cbn [rbind].
      split; [reflexivity|]. exists b. split; [left; reflexivity | exact Hnot].
Qed.

Lemma valueOr0_zeros (chains : list string) (chain : string) :
  valueOr0 (map (fun c => (c, 0)) chains) chain == 0.
Proof.
  induction chains as [|c chains IH]; cbn [map]; [reflexivity|].
  destruct (String.eqb_spec c chain) as [->|Hne].
  - rewrite valueOr0_cons_same. reflexivity.
  - rewrite valueOr0_cons_other by exact Hne. exact IH.
Qed.

Lemma initialTables_wellKeyed : tablesWellKeyed initialTables.
Proof. split; reflexivity. Qed.

Lemma chainTables_spec p (bs : list Enhanced.t) :
  match chainTables p bs with
  | Ok tables =>
      (forall b, In b bs -> In (Balance.specificChain (Enhanced.balance b)) SUPPORTED_CHAINS) /\
      keys (tableChainValues tables) = SUPPORTED_CHAINS /\
      (forall chain,
         valueOr0 (tableChainValues tables) chain
         == sumQ (map (analysisValue p) (filter (onChain chain) bs))) /\
      totalChainValue (tableChainValues tables) == sumQ (map (analysisValue p) bs) /\
      (forall sym chain,
         distributionAt (tableTokenDistribution tables) sym chain
         == heldOnChain bs sym chain)
  | Err e =>
      e = TypeError "Cannot read properties of undefined" /\
      exists b, In b bs /\
                ~ In (Balance.specificChain (Enhanced.balance b)) SUPPORTED_CHAINS
  end.
Proof.
  unfold chainTables.
  pose proof (tables_from p bs initialTables initialTables_wellKeyed) as H.
  destruct (rfold (tableStep p) bs initialTables) as [tables|e]; [|exact H].
  destruct H as (Hall & [_ Hk] & Hv & Hs & Hd).
  split; [exact Hall|]. split; [exact Hk|]. split; [|split].
  - intros chain. rewrite Hv.
    assert (E : valueOr0 (tableChainValues initialTables) chain == 0)
      by apply valueOr0_zeros.
    rewrite E. ring.
  - rewrite totalChainValue_sum, Hs. unfold sumQ at 1. simpl. ring.
  - intros sym chain. rewrite Hd. unfold distributionAt. simpl. ring.
Qed.

(** X2.  The chain analysis fails, with the error of reading a property of
    [undefined], exactly when some balance is on a chain outside the six it
    knows.  Otherwise the value table has the six chains as keys, the value
    of a chain is the sum of the values of the balances on it (each at its
    discovered price, else the price of the snapshot, else 0), the values of
    the chains add up to the value of all balances, and the distribution
    table holds, per symbol and chain, the amount held there. *)
Theorem chain_tables_account_for_every_balance p (bs : list Enhanced.t) :
  match chainTables p bs with
  | Ok tables =>
      (forall b, In b bs -> In (Balance.specificChain (Enhanced.balance b)) SUPPORTED_CHAINS) /\
      keys (tableChainValues tables) = SUPPORTED_CHAINS /\
      (forall chain,
         valueOr0 (tableChainValues tables) chain
         == sumQ (map (analysisValue p) (filter (onChain chain) bs))) /\
      totalChainValue (tableChainValues tables) == sumQ (map (analysisValue p) bs) /\
      (forall sym chain,
         distributionAt (tableTokenDistribution tables) sym chain
         == heldOnChain bs sym chain)
  | Err e =>
      e = TypeError "Cannot read properties of undefined" /\
      exists b, In b bs /\
                ~ In (Balance.specificChain (Enhanced.balance b)) SUPPORTED_CHAINS
  end.
Proof. exact (chainTables_spec p bs). Qed.

(** ** The consolidation plan *)

Lemma movesOf_In p cfg target (e : string * Dict Q) (m : Move.t) :
  In m (movesOf p cfg target e) <->
  exists chain amount,
    In (chain, amount) (snd e) /\ chain <> target /\ 0 < amount /\
    minTradeValueUSD cfg <= amount * priceOf p (fst e) /\
    m = {| Move.fromChain := chain;
           Move.toChain := target;
           Move.token := fst e;
           Move.amount := amount;
           Move.valueUSD := amount * priceOf p (fst e) |}.
Proof.
  unfold movesOf. rewrite in_flat_map. split.
  - intros ([chain amount] & Hin & Hm). cbn [fst snd] in Hm.
    destruct (negb (String.eqb chain target) && JS.gtb amount 0) eqn:G; [|destruct Hm].
    destruct (JS.geb (amount * priceOf p (fst e)) (minTradeValueUSD cfg)) eqn:Gm;
      [|destruct Hm].
    destruct Hm as [<-|[]]. js_props.
    exists chain, amount. repeat split; auto.
    apply String.eqb_neq. assumption.
  - intros (chain & amount & Hin & Hne & Hpos & Hmin & ->).
    exists (chain, amount). split; [exact Hin|]. cbn [fst snd].
    apply String.eqb_neq in Hne. rewrite Hne. cbn [negb andb].
    apply JSFacts.gtb_gt in Hpos. rewrite Hpos.
    apply JSFacts.geb_ge in Hmin. rewrite Hmin. left. reflexivity.
Qed.

Lemma planConsolidation_Some p cfg chain (td : Dict (Dict Q)) plan :
  planConsolidation p cfg chain td = Some plan ->
  skipConsolidation cfg = false /\
  exists target,
    chain = Some target /\ target <> EmptyString /\
    plan = sortDesc Move.valueUSD (flat_map (movesOf p cfg target) td).
Proof.
  unfold planConsolidation.
  destruct chain as [[|c r]|]; try discriminate.
  destruct (skipConsolidation cfg); cbn [negb]; [discriminate|].
  destruct (sortDesc Move.valueUSD (flat_map (movesOf p cfg (String c r)) td)) eqn:E;
    [discriminate|].
  intros H. inversion H; subst. split; [reflexivity|].
  exists (String c r). split; [reflexivity|]. split; [discriminate | symmetry; exact E].
Qed.

(** The distribution table is a dictionary of dictionaries: no key is
    repeated at either level. *)
Lemma tableStep_NoDup p tables (b : Enhanced.t) tables' :
  tableStep p tables b = Ok tables' ->
  NoDup (keys (tableTokenDistribution tables)) /\
  (forall k d, In (k, d) (tableTokenDistribution tables) -> NoDup (keys d)) ->
  NoDup (keys (tableTokenDistribution tables')) /\
  (forall k d, In (k, d) (tableTokenDistribution tables') -> NoDup (keys d)).
Proof.
  unfold tableStep.
  destruct (dget _ (tableAvailableTokens tables)) as [tokens|]; [|discriminate].
  intros H [Hnd Hin]. inversion H; subst; clear H. cbn [tableTokenDistribution].
  split; [apply NoDup_keys_dset; exact Hnd|].
  intros k d Hd. apply In_dset in Hd. destruct Hd as [[-> ->]|Hd]; [|eapply Hin; exact Hd].
  apply NoDup_keys_dset.
  destruct (dget _ (tableTokenDistribution tables)) as [d0|] eqn:E; [|constructor].
  apply dget_In in E. eapply Hin. exact E.
Qed.

Lemma chainTables_NoDup p (bs : list Enhanced.t) tables :
  chainTables p bs = Ok tables ->
  NoDup (keys (tableTokenDistribution tables)) /\
  (forall k d, In (k, d) (tableTokenDistribution tables) -> NoDup (keys d)).
Proof.
  unfold chainTables. intros H.
  pose proof (@rfold_inv _ _ (tableStep p)
                (fun t => NoDup (keys (tableTokenDistribution t)) /\
                          (forall k d, In (k, d) (tableTokenDistribution t) ->
                                       NoDup (keys d)))
                (fun _ => True) bs initialTables) as Hinv.
  rewrite H in Hinv. apply Hinv.
  - split; [constructor | intros k d []].
  - intros t b _ Ht. destruct (tableStep p t b) as [t'|e] eqn:E; [|exact I].
    eapply tableStep_NoDup; eassumption.
Qed.

Lemma analyzeDistribution_Ok p cfg (bs : list Enhanced.t) analysis cfg' :
  analyzeDistribution p cfg bs = Ok (analysis, cfg') ->
  exists tables,
    chainTables p bs = Ok tables /\
    availableTokens analysis = tableAvailableTokens tables /\
    tokenDistribution analysis = tableTokenDistribution tables /\
    chainValues analysis = tableChainValues tables /\
    consolidationPlan analysis
    = planConsolidation p cfg (consolidateToChain cfg') (tableTokenDistribution tables) /\
    cfg' = withConsolidateToChain cfg (consolidateToChain cfg') /\
    (if negb (skipConsolidation cfg) && negb (JS.truthyString (consolidateToChain cfg))
     then determineOptimalConsolidationChain (tableChainValues tables)
            (tableTokenDistribution tables) (targetAllocation cfg)
     else Ok (consolidateToChain cfg)) = Ok (consolidateToChain cfg').
Proof.
  unfold analyzeDistribution.
  destruct (chainTables p bs) as [tables|e]; cbn [rbind]; [|discriminate].
  match goal with |- rbind ?c _ = _ -> _ => destruct c as [chain|e] eqn:Ec end;
    cbn [rbind]; [|discriminate].
  intros H. inversion H; subst; clear H. exists tables.
  cbn [availableTokens tokenDistribution chainValues consolidationPlan
       withConsolidateToChain consolidateToChain].
  repeat split; try reflexivity. exact Ec.
Qed.

Lemma planned_moves_spec p cfg (bs : list Enhanced.t) analysis cfg' plan :
  analyzeDistribution p cfg bs = Ok (analysis, cfg') ->
  consolidationPlan analysis = Some plan ->
  skipConsolidation cfg = false /\
  exists target,
    consolidateToChain cfg' = Some target /\
    descending Move.valueUSD plan /\
    (forall m, In m plan ->
       Move.toChain m = target /\ Move.fromChain m <> target /\
       0 < Move.amount m /\
       Move.amount m == heldOnChain bs (Move.token m) (Move.fromChain m) /\
       Move.valueUSD m = Move.amount m * priceOf p (Move.token m) /\
       minTradeValueUSD cfg <= Move.valueUSD m) /\
    (forall sym chain,
       chain <> target ->
       0 < heldOnChain bs sym chain ->
       minTradeValueUSD cfg <= heldOnChain bs sym chain * priceOf p sym ->
       exists m, In m plan /\ Move.token m = sym /\ Move.fromChain m = chain).
Proof.
  intros Ha Hplan.
  destruct (analyzeDistribution_Ok _ _ _ _ _ Ha) as (tables & Ht & _ & _ & _ & Hp & _ & _).
  rewrite Hp in Hplan. apply planConsolidation_Some in Hplan.
  destruct Hplan as (Hskip & target & Hc & _ & ->).
  split; [exact Hskip|]. exists target. split; [exact Hc|].
  split; [apply sortDesc_sorted|].
  pose proof (chainTables_spec p bs) as Hacc.
  rewrite Ht in Hacc. destruct Hacc as (_ & _ & _ & _ & Hdist).
  destruct (chainTables_NoDup _ _ _ Ht) as [Hnd Hinner].
  split.
  - intros m Hm. apply sortDesc_In in Hm. apply in_flat_map in Hm.
    destruct Hm as ([sym d] & Hsym & Hm). apply movesOf_In in Hm. cbn [fst snd] in Hm.
    destruct Hm as (chain & amount & Hin & Hne & Hpos & Hmin & ->).
    cbn [Move.toChain Move.fromChain Move.amount Move.token Move.valueUSD].
    repeat split; auto.
    rewrite <- Hdist. unfold distributionAt.
    rewrite (In_dget_NoDup _ _ _ Hnd Hsym). unfold valueOr0.
    rewrite (In_dget_NoDup _ _ _ (Hinner _ _ Hsym) Hin). reflexivity.
  - intros sym chain Hne Hpos Hmin.
    rewrite <- (Hdist sym chain) in Hpos, Hmin. unfold distributionAt in Hpos, Hmin.
    destruct (dget sym (tableTokenDistribution tables)) as [d|] eqn:Ed;
      [|exfalso; exact (Qlt_irrefl _ Hpos)].
    unfold valueOr0 in Hpos, Hmin.
    destruct (dget chain d) as [amount|] eqn:Ea; [|exfalso; exact (Qlt_irrefl _ Hpos)].
    apply dget_In in Ed. apply dget_In in Ea.
    eexists. split.
    + apply sortDesc_In. apply in_flat_map. exists (sym, d). split; [exact Ed|].
      apply movesOf_In. exists chain, amount. cbn [fst snd].
      repeat split; eauto.
    + split; reflexivity.
Qed.

(** X3.  When the chain analysis plans a consolidation, consolidation is
    not disabled and a target chain is set in the configuration handed on.
    The plan is sorted by descending value; every move takes, from a chain
    other than the target, the whole positive amount of a token held there,
    is worth (at the price of the snapshot) at least the minimum trade
    value, and goes to the target chain; and every holding of that kind has
    its move. *)
Theorem consolidation_plan_moves p cfg (bs : list Enhanced.t) analysis cfg' plan :
  analyzeDistribution p cfg bs = Ok (analysis, cfg') ->
  consolidationPlan analysis = Some plan ->
  skipConsolidation cfg = false /\
  exists target,
    consolidateToChain cfg' = Some target /\
    descending Move.valueUSD plan /\
    (forall m, In m plan ->
       Move.toChain m = target /\ Move.fromChain m <> target /\
       0 < Move.amount m /\
       Move.amount m == heldOnChain bs (Move.token m) (Move.fromChain m) /\
       Move.valueUSD m = Move.amount m * priceOf p (Move.token m) /\
       minTradeValueUSD cfg <= Move.valueUSD m) /\
    (forall sym chain,
       chain <> target ->
       0 < heldOnChain bs sym chain ->
       minTradeValueUSD cfg <= heldOnChain bs sym chain * priceOf p sym ->
       exists m, In m plan /\ Move.token m = sym /\ Move.fromChain m = chain).
Proof. exact (planned_moves_spec p cfg bs analysis cfg' plan). Qed.

(** ** The sub-trades of a consolidation move *)

Lemma sumQ_app (l1 l2 : list Q) : sumQ (l1 ++ l2) == sumQ l1 + sumQ l2.
Proof.
  unfold sumQ. induction l1 as [|x l1 IH]; simpl; [ring|]. rewrite IH. ring.
Qed.

Lemma Forall2_map_Ok {A B} (g : A -> Result B) (f : A -> B) (l : list A) :
  (forall a, In a l -> g a = Ok (f a)) ->
  Forall2 (fun a b => g a = Ok b) l (map f l).
Proof.
  induction l as [|a l IH]; intros H; simpl; constructor.
  - apply H. left. reflexivity.
  - apply IH. intros x Hx. apply H. right. exact Hx.
Qed.

Lemma tradesToExecuteOf_spec chainValues (move : Move.t) :
  0 < Move.valueUSD move ->
  0 < totalChainValue chainValues ->
  exists n amounts,
    tradesToExecuteOf chainValues move = Ok n /\
    (5 <= n)%Z /\
    Move.valueUSD move / inject_Z n <= Move.valueUSD move * (2 # 10) /\
    Move.valueUSD move / inject_Z n <= totalChainValue chainValues * (25 # 100) /\
    Forall2 (fun i a => consolidationAmount move n i = Ok a)
            (seq 0 (Z.to_nat n)) amounts /\
    sumQ amounts == Move.amount move.
Proof.
  intros Hv Ht. unfold tradesToExecuteOf.
  set (v := Move.valueUSD move) in *. set (T := totalChainValue chainValues) in *.
  set (eff := Qmin (Qmin (v * (2 # 10)) (T * (25 # 100))) v).
  assert (H1 : eff <= v * (2 # 10)).
  { unfold eff. eapply Qle_trans; [apply Q.le_min_l | apply Q.le_min_l]. }
  assert (H2 : eff <= T * (25 # 100)).
  { unfold eff. eapply Qle_trans; [apply Q.le_min_l | apply Q.le_min_r]. }
  assert (Hpos : 0 < eff).
  { unfold eff. apply Q.min_glb_lt; [apply Q.min_glb_lt|]; lra. }
  rewrite jsdiv_ok by (intros E; rewrite E in Hpos; exact (Qlt_irrefl _ Hpos)).
  cbn [rbind]. set (n := Qceiling (v / eff)).
  assert (Hratio : 5 <= v / eff).
  { apply Qle_shift_div_l; [exact Hpos | lra]. }
  assert (Hceil : v / eff <= inject_Z n) by apply Qle_ceiling.
  assert (Hn : (5 <= n)%Z).
  { assert (Hc : inject_Z 5 <= inject_Z n) by (eapply Qle_trans; eassumption).
    rewrite <- Zle_Qle in Hc. exact Hc. }
  assert (Hnpos : 0 < inject_Z n).
  { change 0 with (inject_Z 0). rewrite <- Zlt_Qlt. lia. }
  assert (Hnz : ~ inject_Z n == 0) by (apply inject_Z_pos_neq; lia).
  assert (Hsub : v / inject_Z n <= eff).
  { apply Qle_shift_div_r; [exact Hnpos|].
    assert (E : v == v / eff * eff)
      by (field; intros E; rewrite E in Hpos; exact (Qlt_irrefl _ Hpos)).
    rewrite E at 1. rewrite (Qmult_comm eff).
    apply Qmult_le_compat_r; [exact Hceil | apply Qlt_le_weak; exact Hpos]. }
  set (amount := Move.amount move).
  set (f := fun i : nat =>
              if Z.eqb (Z.of_nat i) (n - 1)
              then amount - inject_Z (Z.of_nat i) * amount / inject_Z n
              else amount / inject_Z n).
  exists n, (map f (seq 0 (Z.to_nat n))).
  split; [reflexivity|]. split; [exact Hn|].
  split; [eapply Qle_trans; eassumption|]. split; [eapply Qle_trans; eassumption|].
  split.
  - apply Forall2_map_Ok. intros i _. unfold consolidationAmount, f. fold amount.
    destruct (Z.eqb (Z.of_nat i) (n - 1)).
    + rewrite jsdiv_ok by exact Hnz. reflexivity.
    + rewrite jsdiv_ok by exact Hnz. reflexivity.
  - assert (HN : Z.to_nat n = S (Z.to_nat (n - 1))) by lia.
    rewrite HN, seq_S, map_app, sumQ_app. cbn [plus map].
    rewrite (sumQ_const f (amount / inject_Z n)).
    + rewrite length_seq. unfold f at 1.
      assert (E : Z.of_nat (Z.to_nat (n - 1)) = (n - 1)%Z) by lia.
      rewrite E, Z.eqb_refl. unfold sumQ. simpl. field. exact Hnz.
    + intros i Hi. apply in_seq in Hi. unfold f.
      destruct (Z.eqb_spec (Z.of_nat i) (n - 1)) as [E|_]; [lia | reflexivity].
Qed.

(** X4.  A consolidation move of positive value, in a portfolio of
    positive value, is sold in at least five sub-trades, none worth more
    than 20% of the position or 25% of the portfolio; no division by zero
    occurs, and the amounts of the sub-trades add up to the amount of the
    move, the last sub-trade taking what remains. *)
Theorem consolidation_subtrades chainValues (move : Move.t) :
  0 < Move.valueUSD move ->
  0 < totalChainValue chainValues ->
  exists n amounts,
    tradesToExecuteOf chainValues move = Ok n /\
    (5 <= n)%Z /\
    Move.valueUSD move / inject_Z n <= Move.valueUSD move * (2 # 10) /\
    Move.valueUSD move / inject_Z n <= totalChainValue chainValues * (25 # 100) /\
    Forall2 (fun i a => consolidationAmount move n i = Ok a)
            (seq 0 (Z.to_nat n)) amounts /\
    sumQ amounts == Move.amount move.
Proof. apply tradesToExecuteOf_spec. Qed.

(** ** What a computation adds to the history *)

Lemma adds_ret ok {A} (a : A) (post : A -> Prop) : post a -> addsOnly ok (ret a) post.
Proof.
  intros Ha tr r tr' H. unfold ret in H. inversion H; subst. split.
  - exists []. rewrite app_nil_r. split; [reflexivity | constructor].
  - intros a0 E. inversion E; subst. exact Ha.
Qed.

Lemma adds_liftR ok {A} (x : Result A) (post : A -> Prop) :
  (forall a, x = Ok a -> post a) -> addsOnly ok (liftR x) post.
Proof.
  intros Hx tr r tr' H. unfold liftR in H. inversion H; subst. split; [|exact Hx].
  exists []. rewrite app_nil_r. split; [reflexivity | constructor].
Qed.

Lemma adds_throw ok {A} (e : Failure) (post : A -> Prop) : addsOnly ok (throw e) post.
Proof.
  intros tr r tr' H. unfold throw in H. inversion H; subst. split; [|discriminate].
  exists []. rewrite app_nil_r. split; [reflexivity | constructor].
Qed.

Lemma adds_emit ok (e : Event) : ok e -> addsOnly ok (emit e) (fun _ => True).
Proof.
  intros He tr r tr' H. unfold emit in H. inversion H; subst. split; [|auto].
  exists [e]. split; [reflexivity | constructor; [exact He | constructor]].
Qed.

Lemma adds_bind ok {A B} (m : M A) (k : A -> M B) (mid : A -> Prop) (post : B -> Prop) :
  addsOnly ok m mid -> (forall a, mid a -> addsOnly ok (k a) post) ->
  addsOnly ok (bind m k) post.
Proof.
  intros Hm Hk tr r tr' H. unfold bind in H.
  destruct (m tr) as [[a|e] tr1] eqn:Em.
  - destruct (Hm _ _ _ Em) as [(l1 & -> & Hl1) Ha].
    destruct (Hk a (Ha a eq_refl) _ _ _ H) as [(l2 & -> & Hl2) Hb].
    split; [|exact Hb]. exists (l1 ++ l2). rewrite app_assoc.
    split; [reflexivity | apply Forall_app; auto].
  - inversion H; subst. destruct (Hm _ _ _ Em) as [Hl _]. split; [exact Hl | discriminate].
Qed.

Lemma adds_tryCatch ok {A} (m : M A) (h : Failure -> M A) (post : A -> Prop) :
  addsOnly ok m post -> (forall e, addsOnly ok (h e) post) ->
  addsOnly ok (tryCatch m h) post.
Proof.
  intros Hm Hh tr r tr' H. unfold tryCatch in H.
  destruct (m tr) as [[a|e] tr1] eqn:Em.
  - inversion H; subst. exact (Hm _ _ _ Em).
  - destruct (Hm _ _ _ Em) as [(l1 & -> & Hl1) _].
    destruct (Hh e _ _ _ H) as [(l2 & -> & Hl2) Hp].
    split; [|exact Hp]. exists (l1 ++ l2). rewrite app_assoc.
    split; [reflexivity | apply Forall_app; auto].
Qed.

Lemma adds_weaken ok {A} (m : M A) (post post' : A -> Prop) :
  addsOnly ok m post -> (forall a, post a -> post' a) -> addsOnly ok m post'.
Proof.
  intros Hm Hw tr r tr' H. destruct (Hm _ _ _ H) as [H1 H2].
  split; [exact H1|]. intros a E. apply Hw, H2, E.
Qed.

Lemma adds_foldM ok {A B} (f : A -> B -> M A) (inv : A -> Prop) (l : list B) :
  (forall a b, inv a -> In b l -> addsOnly ok (f a b) inv) ->
  forall a, inv a -> addsOnly ok (foldM f l a) inv.
Proof.
  induction l as [|b l IH]; intros Hf a Ha; simpl.
  - apply adds_ret. exact Ha.
  - eapply adds_bind; [apply Hf; [exact Ha | left; reflexivity]|].
    intros a' Ha'. apply IH; [|exact Ha'].
    intros a0 b0 Ha0 Hb0. apply Hf; [exact Ha0 | right; exact Hb0].
Qed.

Lemma adds_getPortfolio ok env :
  ok HttpGetBalances ->
  (forall token chain specificChain, ok (HttpGetTokenInfo token chain specificChain)) ->
  addsOnly ok (getPortfolio env) (fun _ => True).
Proof.
  intros Hg Ht tr r tr' H. split; [|auto].
  unfold getPortfolio, tryCatch, bind, httpGetBalances in H.
  destruct (balancesReply env tr) as [bs|st].
  - rewrite forEach_emit in H. unfold ret in H. inversion H; subst; clear H.
    eexists. rewrite <- app_assoc. split; [reflexivity|].
    apply Forall_app. split; [constructor; [exact Hg | constructor]|].
    apply Forall_forall. intros e He. apply in_map_iff in He.
    destruct He as (b & <- & _). apply Ht.
  - unfold ret in H. inversion H; subst; clear H.
    exists [HttpGetBalances]. split; [reflexivity | constructor; [exact Hg | constructor]].
Qed.

Lemma countEvents_app f (l1 l2 : Trace) :
  countEvents f (l1 ++ l2) = (countEvents f l1 + countEvents f l2)%nat.
Proof. unfold countEvents. rewrite filter_app, length_app. reflexivity. Qed.

(** A computation that appends no exchange call leaves their number as it
    was. *)
Lemma adds_noPost_count {A} (m : M A) (post : A -> Prop) tr r tr' :
  addsOnly noPost m post -> m tr = (r, tr') ->
  countEvents isPost tr' = countEvents isPost tr.
Proof.
  intros Hm H. destruct (Hm _ _ _ H) as [(l & -> & Hl) _]. clear H.
  rewrite countEvents_app.
  assert (E : countEvents isPost l = 0%nat).
  { unfold countEvents. induction Hl as [|e l He _ IH]; [reflexivity|].
    simpl. unfold noPost in He. rewrite He. exact IH. }
  rewrite E. lia.
Qed.

Lemma countEvents_delays ms k : countEvents isPost (repeat (Delay ms) k) = 0%nat.
Proof. unfold countEvents. induction k as [|k IH]; [reflexivity | exact IH]. Qed.

(** ** The consolidation step *)

(** A move of USDC is recorded as a successful transfer without any call. *)
Lemma consolidationMove_usdc env menv cfg chainAnalysis results (move : Move.t) tr :
  Move.token move = "USDC" ->
  consolidationMove env menv cfg chainAnalysis results move tr
  = (Ok (results ++ [simulatedBridgeTransfer (now menv tr)]), tr ++ [Delay 2000]).
Proof.
  intros Hu. unfold consolidationMove, tryCatch, bind. rewrite Hu. reflexivity.
Qed.

Lemma consolidation_usdc_only env menv cfg chainAnalysis (plan : list Move.t) :
  (forall m, In m plan -> Move.token m = "USDC") ->
  forall results tr,
  exists pushed,
    foldM (consolidationMove env menv cfg chainAnalysis) plan results tr
    = (Ok (results ++ pushed), tr ++ repeat (Delay 2000) (List.length plan)) /\
    List.length pushed = List.length plan /\
    forall r, In r pushed ->
      ToolResult.success r = true /\ ToolResult.status r = "simulated_bridge_transfer".
Proof.
  induction plan as [|m plan IH]; intros Hall results tr; cbn [foldM].
  - exists []. rewrite !app_nil_r. split; [reflexivity|]. split; [reflexivity|]. intros r [].
  - unfold bind at 1.
    rewrite (consolidationMove_usdc env menv cfg chainAnalysis results m tr)
      by (apply Hall; left; reflexivity).
    destruct (IH (fun x Hx => Hall x (or_intror Hx))
                 (results ++ [simulatedBridgeTransfer (now menv tr)])
                 (tr ++ [Delay 2000])) as (pushed & Hrun & Hlen & Hok).
    exists (simulatedBridgeTransfer (now menv tr) :: pushed).
    rewrite Hrun. rewrite <- !app_assoc. cbn [app List.length repeat].
    split; [reflexivity|]. split; [rewrite Hlen; reflexivity|].
    intros r [<-|Hr]; [split; reflexivity | apply Hok; exact Hr].
Qed.

(** X5.  A consolidation plan that moves only USDC is carried out without
    any exchange call: each move is recorded as a successful simulated
    bridge transfer, and the step ends by reading the portfolio again. *)
Theorem usdc_consolidation_is_simulated env menv portfolio chainAnalysis p cfg plan tr :
  consolidationPlan chainAnalysis = Some plan ->
  skipConsolidation cfg = false ->
  (forall m, In m plan -> Move.token m = "USDC") ->
  exists out tr0 tr',
    executeConsolidationStep env menv portfolio chainAnalysis p cfg tr = (Ok out, tr') /\
    countEvents isPost tr' = countEvents isPost tr /\
    List.length (consolidationResults out) = List.length plan /\
    (forall r, In r (consolidationResults out) ->
       ToolResult.success r = true /\
       ToolResult.status r = "simulated_bridge_transfer") /\
    getPortfolio env tr0 = (Ok (updatedPortfolio out), tr').
Proof.
  intros Hplan Hskip Hall. unfold executeConsolidationStep. rewrite Hplan, Hskip.
  destruct (consolidation_usdc_only env menv cfg chainAnalysis plan Hall [] tr)
    as (pushed & Hrun & Hlen & Hok).
  unfold bind at 1. rewrite Hrun. cbn [app].
  set (tr0 := tr ++ repeat (Delay 2000) (List.length plan)).
  destruct (total_getPortfolio env tr0) as (pf & tr' & Hpf & _).
  unfold bind. fold tr0. rewrite Hpf. eexists. exists tr0, tr'. split; [reflexivity|].
  cbn [consolidationResults updatedPortfolio].
  split; [|split; [exact Hlen | split; [exact Hok | exact Hpf]]].
  rewrite (adds_noPost_count (getPortfolio env) (fun _ => True) tr0 (Ok pf) tr'
             (adds_getPortfolio noPost env eq_refl (fun _ _ _ => eq_refl)) Hpf).
  unfold tr0. rewrite countEvents_app.
  rewrite countEvents_delays. lia.
Qed.

Lemma adds_noPost_safe {A} (m : M A) (post : A -> Prop) :
  addsOnly noPost m post -> safeM m post.
Proof.
  intros Hm tr r tr' H. destruct (Hm _ _ _ H) as [(l & -> & Hl) Hp].
  split; [|exact Hp]. apply noSelfTradeSince_quiet.
  intros e He. rewrite Forall_forall in Hl. exact (Hl e He).
Qed.

Lemma total_tryCatch {A} (m : M A) (h : Failure -> M A) (post : A -> Prop) :
  totalM m post -> totalM (tryCatch m h) post.
Proof.
  intros Hm tr. destruct (Hm tr) as (a & tr' & E & Ha).
  exists a, tr'. unfold tryCatch. rewrite E. split; [reflexivity | exact Ha].
Qed.

Lemma total_executeTrade env context : totalM (executeTrade env context) (fun _ => True).
Proof.
  intros tr. destruct (executeTrade_returns env context tr) as (r & tr' & H).
  exists r, tr'. split; [exact H | exact I].
Qed.

(** A loop that pushes a known number of results in every pass. *)
Lemma total_foldM_count {A B} (f : list A -> B -> M (list A)) (count : B -> nat)
    (l : list B) :
  (forall acc b, In b l ->
     totalM (f acc b) (fun acc' => List.length acc' = (List.length acc + count b)%nat)) ->
  forall acc,
    totalM (foldM f l acc)
           (fun acc' => List.length acc' = (List.length acc + list_sum (map count l))%nat).
Proof.
  induction l as [|b l IH]; intros Hf acc; cbn [foldM map].
  - apply total_ret. simpl. lia.
  - eapply total_bind; [apply Hf; left; reflexivity|].
    intros acc1 H1 tr.
    destruct (IH (fun a x Hx => Hf a x (or_intror Hx)) acc1 tr) as (acc2 & tr' & E & H2).
    exists acc2, tr'. split; [exact E|]. cbn beta in *. simpl. lia.
Qed.

Lemma total_consolidationSell env cfg (move : Move.t) n results i :
  (1 <= n)%Z ->
  totalM (consolidationSell env cfg move n results i)
         (fun pushed => List.length pushed = (List.length results + 1)%nat).
Proof.
  intros Hn. unfold consolidationSell.
  assert (Hnz : ~ inject_Z n == 0) by (apply inject_Z_pos_neq; exact Hn).
  eapply total_bind with (mid := fun _ => True).
  { apply total_liftR. unfold consolidationAmount.
    destruct (Z.eqb (Z.of_nat i) (n - 1)); rewrite jsdiv_ok by exact Hnz;
      cbn [rbind]; eauto. }
  intros tradeAmount _.
  eapply total_bind; [apply total_executeTrade|]. intros sellResult _.
  destruct (ToolResult.success sellResult).
  - eapply total_bind; [apply total_delay|]. intros _ _.
    apply total_ret. rewrite length_app. reflexivity.
  - apply total_ret. rewrite length_app. reflexivity.
Qed.

Lemma total_consolidationMove env menv cfg chainAnalysis results (move : Move.t) :
  (Move.token move <> "USDC" ->
   exists n, tradesToExecuteOf (chainValues chainAnalysis) move = Ok n) ->
  totalM (consolidationMove env menv cfg chainAnalysis results move)
         (fun pushed =>
            List.length pushed
            = (List.length results
               + moveResultCount (chainValues chainAnalysis) move)%nat).
Proof.
  intros Hn. unfold consolidationMove, moveResultCount. apply total_tryCatch.
  destruct (String.eqb_spec (Move.token move) "USDC") as [Hu|Hu].
  - eapply total_bind
      with (mid := fun pushed => List.length pushed = (List.length results + 1)%nat).
    + eapply total_bind with (mid := fun _ => True).
      * intros tr. exists (now menv tr), tr. split; [reflexivity | exact I].
      * intros stamp _. apply total_ret. rewrite length_app. reflexivity.
    + intros pushed Hp. eapply total_bind; [apply total_delay|]. intros _ _.
      apply total_ret. exact Hp.
  - destruct (Hn Hu) as [n En]. rewrite En.
    eapply total_bind
      with (mid := fun pushed =>
                     List.length pushed = (List.length results + Z.to_nat n)%nat).
    + eapply total_bind with (mid := fun t => t = n).
      { apply total_liftR. eauto. }
      intros t ->. intros tr.
      destruct (total_foldM_count (consolidationSell env cfg move n) (fun _ => 1%nat)
                  (seq 0 (Z.to_nat n))) with (acc := results) (tr := tr)
        as (pushed & tr' & E & Hlen).
      * intros acc i Hi. apply total_consolidationSell.
        apply in_seq in Hi. lia.
      * exists pushed, tr'. split; [exact E|]. rewrite Hlen.
        assert (Hs : forall k s, list_sum (map (fun _ : nat => 1%nat) (seq s k)) = k).
        { induction k as [|k IH]; intros s; simpl; [reflexivity|]. rewrite IH. reflexivity. }
        rewrite Hs. reflexivity.
    + intros pushed Hp. eapply total_bind; [apply total_delay|]. intros _ _.
      apply total_ret. exact Hp.
Qed.

Lemma safe_dateNow menv : safeM (dateNow menv) (fun _ => True).
Proof.
  intros tr r tr' H. unfold dateNow in H. inversion H; subst.
  split; [apply noSelfTradeSince_refl | auto].
Qed.

Lemma safe_consolidationMove env menv cfg chainAnalysis results (move : Move.t) :
  In (Move.token move) SUPPORTED_TOKENS ->
  Move.fromChain move <> EmptyString ->
  safeM (consolidationMove env menv cfg chainAnalysis results move) (fun _ => True).
Proof.
  intros Hs Hc. unfold consolidationMove. apply safe_tryCatch.
  - eapply safe_bind with (mid := fun _ => True).
    + destruct (String.eqb (Move.token move) "USDC").
      * eapply safe_bind; [apply safe_dateNow|]. intros stamp _. apply safe_ret. exact I.
      * eapply safe_bind with (mid := fun _ => True); [apply safe_liftR; auto|].
        intros n _. apply safe_foldM; [|exact I].
        intros acc i _ _. unfold consolidationSell.
        eapply safe_bind with (mid := fun _ => True); [apply safe_liftR; auto|].
        intros tradeAmount _.
        eapply safe_bind with (mid := fun _ => True).
        { intros tr r tr' H. split; [|auto].
          eapply executeTrade_no_self_trade; [| | | | exact H]; cbn.
          - exact Hs.
          - auto.
          - apply truthyString_nonempty. exact Hc.
          - apply truthyString_nonempty. exact Hc. }
        intros sellResult _. destruct (ToolResult.success sellResult).
        -- eapply safe_bind; [apply safe_delay|]. intros _ _. apply safe_ret. exact I.
        -- apply safe_ret. exact I.
    + intros pushed _. eapply safe_bind; [apply safe_delay|]. intros _ _.
      apply safe_ret. exact I.
  - intros e. destruct e; try (apply safe_ret; exact I). apply safe_throw.
Qed.

Lemma safe_getPortfolio_any env : safeM (getPortfolio env) (fun _ => True).
Proof.
  apply adds_noPost_safe. apply adds_getPortfolio; [reflexivity|]. intros; reflexivity.
Qed.

Lemma safe_executeConsolidationStep env menv portfolio chainAnalysis p cfg :
  (forall plan m, consolidationPlan chainAnalysis = Some plan -> In m plan ->
     In (Move.token m) SUPPORTED_TOKENS /\ Move.fromChain m <> EmptyString) ->
  safeM (executeConsolidationStep env menv portfolio chainAnalysis p cfg) (fun _ => True).
Proof.
  intros Hplan. unfold executeConsolidationStep.
  destruct (consolidationPlan chainAnalysis) as [plan|]; [|apply safe_ret; exact I].
  destruct (skipConsolidation cfg); [apply safe_ret; exact I|].
  eapply safe_bind with (mid := fun _ => True).
  - apply safe_foldM; [|exact I]. intros acc m _ Hm.
    destruct (Hplan plan m eq_refl Hm) as [Hs Hc].
    apply safe_consolidationMove; assumption.
  - intros results _. eapply safe_bind; [apply safe_getPortfolio_any|].
    intros pf _. apply safe_ret. exact I.
Qed.

Lemma total_executeConsolidationStep env menv portfolio chainAnalysis p cfg plan :
  consolidationPlan chainAnalysis = Some plan ->
  skipConsolidation cfg = false ->
  (forall m, In m plan -> Move.token m <> "USDC" ->
     exists n, tradesToExecuteOf (chainValues chainAnalysis) m = Ok n) ->
  totalM (executeConsolidationStep env menv portfolio chainAnalysis p cfg)
         (fun out =>
            List.length (consolidationResults out)
            = list_sum (map (moveResultCount (chainValues chainAnalysis)) plan)).
Proof.
  intros Hplan Hskip Hn. unfold executeConsolidationStep. rewrite Hplan, Hskip.
  eapply total_bind.
  - apply (total_foldM_count (consolidationMove env menv cfg chainAnalysis)
             (moveResultCount (chainValues chainAnalysis)) plan).
    intros acc m Hm. apply total_consolidationMove. apply Hn. exact Hm.
  - cbn beta. intros results Hlen.
    eapply total_bind; [apply total_getPortfolio|]. intros pf _.
    apply total_ret. cbn [consolidationResults]. rewrite Hlen. reflexivity.
Qed.

(** X6.  The consolidation step carries out a plan whose moves of tokens
    other than USDC have positive value, in a portfolio of positive value,
    without failing: it records one result per move of USDC and one per
    sub-trade of every other move, at least five for each, whether the
    sales succeed or not; and when the tokens moved are supported tokens
    on named chains, no exchange call of the step trades a token for
    itself. *)
Theorem consolidation_step_records_every_subtrade
    env menv portfolio chainAnalysis p cfg plan tr :
  consolidationPlan chainAnalysis = Some plan ->
  skipConsolidation cfg = false ->
  (forall m, In m plan -> Move.token m <> "USDC" ->
     0 < Move.valueUSD m /\ 0 < totalChainValue (chainValues chainAnalysis)) ->
  exists out tr',
    executeConsolidationStep env menv portfolio chainAnalysis p cfg tr = (Ok out, tr') /\
    List.length (consolidationResults out)
    = list_sum (map (moveResultCount (chainValues chainAnalysis)) plan) /\
    (forall m, In m plan -> Move.token m <> "USDC" ->
       (5 <= moveResultCount (chainValues chainAnalysis) m)%nat) /\
    ((forall m, In m plan ->
        In (Move.token m) SUPPORTED_TOKENS /\ Move.fromChain m <> EmptyString) ->
     noSelfTradeSince tr tr').
Proof.
  intros Hplan Hskip Hpos.
  assert (Hn : forall m, In m plan -> Move.token m <> "USDC" ->
                 exists n, tradesToExecuteOf (chainValues chainAnalysis) m = Ok n /\
                           (5 <= n)%Z).
  { intros m Hm Hu. destruct (Hpos m Hm Hu) as [Hv Ht].
    destruct (tradesToExecuteOf_spec (chainValues chainAnalysis) m Hv Ht)
      as (n & _ & En & H5 & _). eauto. }
  destruct (total_executeConsolidationStep env menv portfolio chainAnalysis p cfg plan
              Hplan Hskip) with (tr := tr) as (out & tr' & Hrun & Hlen).
  { intros m Hm Hu. destruct (Hn m Hm Hu) as (n & En & _). eauto. }
  exists out, tr'. split; [exact Hrun|]. split; [exact Hlen|]. split.
  - intros m Hm Hu. destruct (Hn m Hm Hu) as (n & En & H5).
    unfold moveResultCount. apply String.eqb_neq in Hu. rewrite Hu, En. lia.
  - intros Hsup.
    eapply (safe_executeConsolidationStep env menv portfolio chainAnalysis p cfg);
      [|exact Hrun].
    intros plan' m Hp Hm. rewrite Hplan in Hp. inversion Hp; subst. apply Hsup. exact Hm.
Qed.

(** ** Drift *)

(** The drift loop, which the analyzer, the rebalancing loop and the
    report each have a copy of: the greatest drift is not negative, bounds
    the drift of every target symbol, and is 0 or the drift of one. *)
Lemma driftLoop_max (target current : Dict Q) :
  let drift := fun e : string * Q => Qabs (valueOr0 current (fst e) - snd e) in
  0 <= snd (driftLoop target current) /\
  (forall e, In e target -> drift e <= snd (driftLoop target current)) /\
  (snd (driftLoop target current) == 0 \/
   exists e, In e target /\ snd (driftLoop target current) == drift e).
Proof.
  intros drift. unfold driftLoop.
  set (step := fun (acc : Dict Q * Q) (e : string * Q) =>
                 (dset (fst e) (Qabs (JS.orElse (dget (fst e) current) 0 - snd e)) (fst acc),
                  Qmax (snd acc) (Qabs (JS.orElse (dget (fst e) current) 0 - snd e)))).
  assert (Hd : forall e, Qabs (JS.orElse (dget (fst e) current) 0 - snd e) == drift e).
  { intros e. unfold drift. apply Qabs_wd. rewrite valueOr0_orElse. reflexivity. }
  assert (H : forall d m,
             m <= snd (fold_left step target (d, m)) /\
             (forall e, In e target -> drift e <= snd (fold_left step target (d, m))) /\
             (snd (fold_left step target (d, m)) == m \/
              exists e, In e target /\ snd (fold_left step target (d, m)) == drift e)).
  { induction target as [|e target IH]; intros d m; cbn [fold_left].
    - split; [apply Qle_refl|]. split; [intros e []|]. left. reflexivity.
    - set (x := Qabs (JS.orElse (dget (fst e) current) 0 - snd e)).
      change (step (d, m) e) with (dset (fst e) x d, Qmax m x).
      assert (Hx : x == drift e) by apply Hd.
      destruct (IH (dset (fst e) x d) (Qmax m x)) as (Hge & Hall & Hatt).
      set (res := snd (fold_left step target (dset (fst e) x d, Qmax m x))) in *.
      split; [eapply Qle_trans; [apply Q.le_max_l | exact Hge]|]. split.
      + intros e' [<-|Hin]; [|apply Hall; exact Hin].
        rewrite <- Hx. eapply Qle_trans; [apply Q.le_max_r | exact Hge].
      + destruct Hatt as [Hm|(e' & Hin & He')].
        * destruct (Q.max_spec m x) as [[_ E]|[_ E]].
          -- right. exists e. split; [left; reflexivity|].
             eapply Qeq_trans; [exact Hm|]. eapply Qeq_trans; [exact E | exact Hx].
          -- left. eapply Qeq_trans; [exact Hm | exact E].
        * right. exists e'. split; [right; exact Hin | exact He']. }
  destruct (H [] 0) as (Hge & Hall & Hatt). split; [exact Hge|]. split; [exact Hall|].
  exact Hatt.
Qed.

(** X7.  In the report, the greatest final drift is not negative, bounds
    the distance between final and target weight of every target symbol (a
    symbol without a final weight counting as 0), and is 0 exactly when the
    final allocation meets the target on every target symbol.  The list of
    recommendations is never empty: it ends with the verdict, "still
    drifting" when the greatest final drift exceeds 1% and "close to
    target" otherwise.  "No trades executed" is listed exactly when the
    analysis asked for rebalancing and no rebalancing result succeeded. *)
Theorem report_drift_and_verdict analysis rebalancing consolidation final iterations volume :
  let report := generateReport analysis rebalancing consolidation final iterations volume in
  let target := analysisTargetAllocation analysis in
  let after := maxDriftAfter (summary report) in
  0 <= after /\
  (forall sym weight, In (sym, weight) target ->
     Qabs (valueOr0 final sym - weight) <= after) /\
  (after == 0 <->
   forall sym weight, In (sym, weight) target -> valueOr0 final sym == weight) /\
  (exists earlier,
     recommendations (summary report)
     = earlier ++ [if JS.gtb after (1 # 100) then StillDrifting after else CloseToTarget]) /\
  (In NoTradesExecuted (recommendations (summary report)) <->
   needsRebalancing analysis = true /\
   forall r, In r rebalancing -> ToolResult.success r = false).
Proof.
  intros report target after.
  assert (Ea : after = snd (driftLoop target final)) by reflexivity.
  destruct (driftLoop_max target final) as (Hge & Hall & Hatt). rewrite <- Ea in *.
  split; [exact Hge|]. split; [intros sym weight Hin; exact (Hall (sym, weight) Hin)|].
  split; [|split].
  - split.
    + intros H0 sym weight Hin. specialize (Hall (sym, weight) Hin). cbn [fst snd] in Hall.
      assert (Hz : Qabs (valueOr0 final sym - weight) <= 0) by (rewrite <- H0; exact Hall).
      apply Qabs_Qle_condition in Hz. lra.
    + intros Hm. destruct Hatt as [H0|([sym weight] & Hin & He)]; [exact H0|].
      rewrite He. cbn [fst snd]. rewrite (Hm sym weight Hin).
      setoid_replace (weight - weight) with 0 by ring. reflexivity.
  - unfold report, generateReport. cbn [summary recommendations].
    fold target. change (snd (finalDriftLoop target final)) with after.
    eexists. rewrite !app_assoc. f_equal. destruct (JS.gtb after (1 # 100)); reflexivity.
  - unfold report, generateReport. cbn [summary recommendations].
    set (n := List.length (filter ToolResult.success rebalancing)).
    assert (Hn : n = 0%nat <-> forall r, In r rebalancing -> ToolResult.success r = false).
    { unfold n. split.
      - intros E r Hr. destruct (ToolResult.success r) eqn:S; [|reflexivity].
        assert (Hin : In r (filter ToolResult.success rebalancing))
          by (apply filter_In; auto).
        destruct (filter ToolResult.success rebalancing); [destruct Hin | discriminate].
      - intros Hall'. destruct (filter ToolResult.success rebalancing) as [|r l] eqn:E;
          [reflexivity|].
        assert (Hin : In r (filter ToolResult.success rebalancing))
          by (rewrite E; left; reflexivity).
        apply filter_In in Hin. destruct Hin as [Hr Hs].
        rewrite (Hall' r Hr) in Hs. discriminate. }
    rewrite !in_app_iff. split.
    + intros [H|[H|[H|H]]].
      * destruct (Nat.ltb 0 _); [destruct H as [H|[]]; discriminate | destruct H].
      * destruct (needsRebalancing analysis) eqn:Hneed; cbn [andb] in H; [|destruct H].
        destruct (Nat.eqb n 0) eqn:En; [|destruct H].
        apply Nat.eqb_eq in En. split; [reflexivity | apply Hn; exact En].
      * destruct (Nat.ltb 0 n); [destruct H as [H|[]]; discriminate | destruct H].
      * destruct (JS.gtb _ _); destruct H as [H|[]]; discriminate.
    + intros [Hneed Hnone]. right. left. rewrite Hneed.
      apply Hn in Hnone. rewrite Hnone. left. reflexivity.
Qed.

(** ** The price tool *)

Lemma priceOfSymbol_run menv specificChain st sym tr :
  exists st' tr',
    priceOfSymbol menv specificChain st sym tr = (Ok st', tr') /\
    countEvents isPost tr' = countEvents isPost tr /\
    ((statePrices st' = dset sym (valueOr0 (statePrices st') sym) (statePrices st) /\
      stateErrors st' = stateErrors st) \/
     (statePrices st' = statePrices st /\
      exists e, (e = InvalidPriceData sym \/ e = FailedToFetchPrice sym) /\
                stateErrors st' = stateErrors st ++ [e])).
Proof.
  unfold priceOfSymbol, tryCatch, bind, liftR.
  destruct (getTokenInfo sym specificChain) as [info|err].
  - unfold httpGetTokenInfo.
    destruct (tokenInfoReply menv tr _ _ _) as [data|status].
    + destruct (TokenInfoResponse.success data).
      * do 2 eexists. split; [reflexivity|]. split.
        -- rewrite countEvents_app. unfold countEvents. simpl. lia.
        -- left. cbn [recordPrice statePrices stateErrors].
           rewrite valueOr0_dset_same. auto.
      * do 2 eexists. split; [reflexivity|]. split.
        -- rewrite countEvents_app. unfold countEvents. simpl. lia.
        -- right. cbn [recordError statePrices stateErrors]. eauto.
    + do 2 eexists. split; [reflexivity|]. split.
      * rewrite countEvents_app. unfold countEvents. simpl. lia.
      * right. cbn [recordError statePrices stateErrors]. eauto.
  - do 2 eexists. split; [reflexivity|]. split; [reflexivity|].
    right. cbn [recordError statePrices stateErrors]. eauto.
Qed.

Lemma pricesOfSymbols_run menv specificChain (symbols : list string) :
  forall st tr,
  exists st' tr',
    foldM (priceOfSymbol menv specificChain) symbols st tr = (Ok st', tr') /\
    countEvents isPost tr' = countEvents isPost tr /\
    (forall k, In k (keys (statePrices st')) ->
       In k (keys (statePrices st)) \/ In k symbols) /\
    (forall k, In k (keys (statePrices st)) -> In k (keys (statePrices st'))) /\
    (exists added,
       stateErrors st' = stateErrors st ++ added /\
       forall e, In e added ->
         exists s, In s symbols /\ (e = InvalidPriceData s \/ e = FailedToFetchPrice s)) /\
    (forall s, In s symbols ->
       In s (keys (statePrices st')) \/
       In (InvalidPriceData s) (stateErrors st') \/
       In (FailedToFetchPrice s) (stateErrors st')).
Proof.
  induction symbols as [|sym symbols IH]; intros st tr; cbn [foldM].
  - exists st, tr. split; [reflexivity|]. split; [reflexivity|].
    split; [auto|]. split; [auto|]. split.
    + exists []. rewrite app_nil_r. split; [reflexivity | intros e []].
    + intros s [].
  - destruct (priceOfSymbol_run menv specificChain st sym tr)
      as (st1 & tr1 & Hrun1 & Hc1 & Hcase).
    destruct (IH st1 tr1) as (st2 & tr2 & Hrun2 & Hc2 & Hnew & Hkeep & Herr & Hevery).
    exists st2, tr2. unfold bind. rewrite Hrun1.
    split; [exact Hrun2|]. split; [congruence|].
    destruct Herr as (added & Eadded & Hadded).
    assert (Hkeys1 : forall k, In k (keys (statePrices st1)) ->
                       In k (keys (statePrices st)) \/ k = sym).
    { intros k Hk. destruct Hcase as [[Ep _]|[Ep _]]; rewrite Ep in Hk; [|auto].
      apply In_keys_dset in Hk. tauto. }
    assert (Hkeep1 : forall k, In k (keys (statePrices st)) ->
                       In k (keys (statePrices st1))).
    { intros k Hk. destruct Hcase as [[Ep _]|[Ep _]]; rewrite Ep; [|exact Hk].
      apply In_keys_dset. auto. }
    split; [|split; [|split]].
    + intros k Hk. destruct (Hnew k Hk) as [H|H]; [|right; right; exact H].
      destruct (Hkeys1 k H) as [H' | ->]; [left; exact H' | right; left; reflexivity].
    + intros k Hk. apply Hkeep, Hkeep1, Hk.
    + destruct Hcase as [[_ Ee]|[_ (e & He & Ee)]].
      * exists added. rewrite Eadded, Ee. split; [reflexivity|].
        intros e He. destruct (Hadded e He) as (s & Hs & Hes). exists s.
        split; [right; exact Hs | exact Hes].
      * exists (e :: added). rewrite Eadded, Ee, <- app_assoc. split; [reflexivity|].
        intros e' [<-|He']; [exists sym; split; [left; reflexivity | exact He]|].
        destruct (Hadded e' He') as (s & Hs & Hes). exists s.
        split; [right; exact Hs | exact Hes].
    + intros s [<-|Hs]; [|apply Hevery; exact Hs].
      destruct Hcase as [[Ep _]|[_ (e & He & Ee)]].
      * left. apply Hkeep. rewrite Ep. apply In_keys_dset. auto.
      * right. rewrite Eadded, Ee.
        destruct He as [->| ->]; [left | right]; apply in_or_app; left;
          apply in_or_app; right; left; reflexivity.
Qed.

(** X8.  [getPrice], asked for symbols only, never fails and makes no
    exchange call.  A symbol that cannot be resolved or priced costs one
    entry in the list of errors and does not keep the other symbols from
    being priced: every requested symbol ends up with a price or with an
    error, only requested symbols are priced, and the result reports
    success exactly when there is no error, in which case every requested
    symbol has a price. *)
Theorem getPrice_degrades_per_symbol menv (symbols : list string) specificChain tr :
  exists result tr',
    getPrice menv symbols specificChain None tr = (Ok result, tr') /\
    countEvents isPost tr' = countEvents isPost tr /\
    (forall k, In k (keys (priceToolPrices result)) -> In k symbols) /\
    (forall s, In s symbols ->
       In s (keys (priceToolPrices result)) \/
       exists errors,
         priceToolErrors result = Some errors /\
         (In (InvalidPriceData s) errors \/ In (FailedToFetchPrice s) errors)) /\
    (priceToolSuccess result = true <-> priceToolErrors result = None) /\
    (priceToolSuccess result = true ->
     forall s, In s symbols -> In s (keys (priceToolPrices result))).
Proof.
  destruct (pricesOfSymbols_run menv specificChain symbols
              {| statePrices := []; stateTokenInfo := []; stateErrors := [] |} tr)
    as (st & tr' & Hrun & Hc & Hnew & _ & _ & Hevery).
  unfold getPrice, tryCatch, bind. rewrite Hrun. unfold ret.
  eexists. exists tr'. split; [reflexivity|].
  cbn [priceToolPrices priceToolErrors priceToolSuccess].
  split; [exact Hc|]. split.
  { intros k Hk. destruct (Hnew k Hk) as [[]|H]. exact H. }
  assert (Hsome : forall x, In x (stateErrors st) ->
            (if Nat.ltb 0 (List.length (stateErrors st))
             then Some (stateErrors st) else None) = Some (stateErrors st)).
  { intros x Hx. destruct (stateErrors st); [destruct Hx | reflexivity]. }
  split; [|split].
  - intros s Hs. destruct (Hevery s Hs) as [H|[H|H]]; [left; exact H | right | right].
    + exists (stateErrors st). split; [eapply Hsome; exact H | left; exact H].
    + exists (stateErrors st). split; [eapply Hsome; exact H | right; exact H].
  - destruct (stateErrors st); simpl; split; intros H; try reflexivity; discriminate.
  - intros Hok s Hs. destruct (Hevery s Hs) as [H|[H|H]]; [exact H | |];
      destruct (stateErrors st); try destruct H; discriminate.
Qed.

(** ** The token registry *)

Lemma known_chain_supported ch (chainTokens : Dict string) :
  dget ch SPESIFIC_CHAIN_TOKENS = Some chainTokens -> In ch SUPPORTED_CHAINS.
Proof.
  intros H. apply dget_In in H. apply (in_map fst) in H. cbn [fst] in H.
  simpl in H. simpl. tauto.
Qed.

Lemma supported_chain_known ch :
  In ch SUPPORTED_CHAINS -> exists chainTokens, dget ch SPESIFIC_CHAIN_TOKENS = Some chainTokens.
Proof.
  intros H. simpl in H.
  destruct H as [<-|[<-|[<-|[<-|[<-|[<-|[]]]]]]]; eexists; reflexivity.
Qed.

(** X9.  [getTokenInfo] with a chain given.  SOL resolves to the Solana
    address with chain type svm whatever the chain is called.  Any other
    symbol on a chain outside the six fails with "Chain not supported", and
    when it resolves, the descriptor is on the requested chain, carries the
    requested symbol, the chain type of the chain and the non-empty address
    the registry lists on that chain under the symbol's key (the symbol in
    lower case without its first "w").  A supported symbol on a supported
    chain resolves except for WETH on svm.  Leaving the chain out is the
    same as giving the symbol's default chain. *)
Theorem getTokenInfo_resolution s c r :
  let ch := String c r in
  getTokenInfo "SOL" (Some ch)
  = Ok {| TokenInfo.address := SOL_ADDRESS;
          TokenInfo.chain := Some "svm";
          TokenInfo.specificChain := ch;
          TokenInfo.symbol := "SOL" |} /\
  (s <> "SOL" -> ~ In ch SUPPORTED_CHAINS ->
   getTokenInfo s (Some ch) = Err (ThrownError "Chain not supported")) /\
  (forall info, getTokenInfo s (Some ch) = Ok info -> s <> "SOL" ->
     In ch SUPPORTED_CHAINS /\
     TokenInfo.specificChain info = ch /\
     TokenInfo.symbol info = s /\
     TokenInfo.chain info = dget ch CHAIN_TYPE_MAP /\
     TokenInfo.address info <> EmptyString /\
     exists chainTokens,
       dget ch SPESIFIC_CHAIN_TOKENS = Some chainTokens /\
       dget (JS.removeFirst "w"%char (JS.toLowerCase s)) chainTokens
       = Some (TokenInfo.address info)) /\
  (In s SUPPORTED_TOKENS -> In ch SUPPORTED_CHAINS ->
   ((exists info, getTokenInfo s (Some ch) = Ok info) <-> ~ (s = "WETH" /\ ch = "svm"))) /\
  getTokenInfo s None
  = getTokenInfo s (Some (if String.eqb s "SOL" then "svm"
                          else JS.orString (dget s DEFAULT_CHAIN_FOR_SYMBOL) "eth")).
Proof.
  intros ch. split; [reflexivity|]. split; [|split; [|split]].
  - intros Hs Hch. apply getTokenInfo_unknown_chain; [apply String.eqb_neq; exact Hs|].
    destruct (dget ch SPESIFIC_CHAIN_TOKENS) eqn:E; [|exact E].
    exfalso. apply Hch. eapply known_chain_supported. exact E.
  - intros info H Hs. unfold getTokenInfo in H.
    apply String.eqb_neq in Hs. rewrite Hs in H.
    change (JS.orString (Some ch) (JS.orString (dget s DEFAULT_CHAIN_FOR_SYMBOL) "eth"))
      with ch in H.
    destruct (dget ch SPESIFIC_CHAIN_TOKENS) as [chainTokens|] eqn:Ec; [|discriminate].
    split; [eapply known_chain_supported; exact Ec|].
    match type of H with rbind ?x _ = _ => destruct x as [address|] eqn:Ea end;
      cbn [rbind] in H; [|discriminate].
    destruct address as [[|c' r']|]; try discriminate.
    inversion H; subst; clear H.
    cbn [TokenInfo.specificChain TokenInfo.symbol TokenInfo.chain TokenInfo.address].
    repeat split; try reflexivity; try discriminate.
    exists chainTokens. split; [reflexivity|].
    destruct (String.eqb ch "svm");
      match type of Ea with (if ?b then _ else _) = _ => destruct b end;
      inversion Ea; reflexivity.
  - intros Hs Hch. simpl in Hs, Hch.
    destruct Hs as [<-|[<-|[<-|[<-|[]]]]];
      destruct Hch as [E|[E|[E|[E|[E|[E|[]]]]]]]; rewrite <- E;
      (split; [intros _ [H1 H2]; discriminate | intros _; eexists; reflexivity])
      || (split; [intros [info H]; discriminate | intros H; exfalso; apply H; auto]).
  - unfold getTokenInfo. destruct (String.eqb s "SOL"); [reflexivity|].
    assert (E : forall d, JS.orString (Some d) d = d) by (intros [|a b]; reflexivity).
    cbv zeta. set (d := JS.orString (dget s DEFAULT_CHAIN_FOR_SYMBOL) "eth").
    rewrite (E d). reflexivity.
Qed.

(** X10.  On one chain, two supported symbols that resolve to the same
    address, compared without regard to case as the tools compare
    addresses, are the same symbol. *)
Theorem registry_addresses_distinct s1 s2 ch info1 info2 :
  In s1 SUPPORTED_TOKENS -> In s2 SUPPORTED_TOKENS ->
  getTokenInfo s1 (Some ch) = Ok info1 ->
  getTokenInfo s2 (Some ch) = Ok info2 ->
  JS.toLowerCase (TokenInfo.address info1) = JS.toLowerCase (TokenInfo.address info2) ->
  s1 = s2.
Proof.
  intros H1 H2 Hi1 Hi2 Heq.
  destruct ch as [|c r].
  - simpl in H1, H2.
    destruct H1 as [<-|[<-|[<-|[<-|[]]]]]; destruct H2 as [<-|[<-|[<-|[<-|[]]]]];
      try reflexivity;
      vm_compute in Hi1; vm_compute in Hi2; inversion Hi1; inversion Hi2; subst;
      vm_compute in Heq; discriminate.
  - destruct (dget_cases (String c r) SPESIFIC_CHAIN_TOKENS) as [Hnone|Hin].
    + assert (Hsol : forall s i, In s SUPPORTED_TOKENS ->
                getTokenInfo s (Some (String c r)) = Ok i -> s = "SOL").
      { intros s i Hs Hi. destruct (String.eqb_spec s "SOL") as [E|E]; [exact E|].
        rewrite getTokenInfo_unknown_chain in Hi; [discriminate| |exact Hnone].
        apply String.eqb_neq. exact E. }
      rewrite (Hsol _ _ H1 Hi1), (Hsol _ _ H2 Hi2). reflexivity.
    + simpl in Hin, H1, H2.
      destruct Hin as [Hc|[Hc|[Hc|[Hc|[Hc|[Hc|[]]]]]]]; rewrite <- Hc in Hi1, Hi2;
        destruct H1 as [<-|[<-|[<-|[<-|[]]]]]; destruct H2 as [<-|[<-|[<-|[<-|[]]]]];
        try reflexivity;
        vm_compute in Hi1; vm_compute in Hi2;
        try discriminate; inversion Hi1; inversion Hi2; subst;
        vm_compute in Heq; discriminate.
Qed.

(** ** Finding the balance of a token *)

(** X11.  [findBalanceForToken] returns a balance of the list that is on
    the token's chain; it is the first balance there with the token's
    address (compared without regard to case) when there is one, and
    otherwise the first balance there whose symbol stands for the token's
    symbol in [SYMBOL_VARIANTS].  It returns nothing exactly when no
    balance on the chain matches either way. *)
Theorem findBalanceForToken_spec (bs : list Balance.t) (tokenInfo : TokenInfo.t) :
  let onTokenChain := fun b =>
    Balance.specificChain b = TokenInfo.specificChain tokenInfo in
  let sameAddress := fun b =>
    JS.toLowerCase (Balance.tokenAddress b)
    = JS.toLowerCase (TokenInfo.address tokenInfo) in
  let sameSymbol := fun b =>
    JS.orString (dget (Balance.symbol b) SYMBOL_VARIANTS) (Balance.symbol b)
    = TokenInfo.symbol tokenInfo in
  match findBalanceForToken bs tokenInfo with
  | Some b =>
      exists before after,
        bs = before ++ b :: after /\ onTokenChain b /\
        ((sameAddress b /\
          forall x, In x before -> ~ (sameAddress x /\ onTokenChain x)) \/
         (sameSymbol b /\
          (forall x, In x bs -> ~ (sameAddress x /\ onTokenChain x)) /\
          forall x, In x before -> ~ (sameSymbol x /\ onTokenChain x)))
  | None =>
      forall x, In x bs -> onTokenChain x -> ~ sameAddress x /\ ~ sameSymbol x
  end.
Proof.
  intros onTokenChain sameAddress sameSymbol. unfold findBalanceForToken.
  assert (Hfirst : forall (f : Balance.t -> bool) l b,
            find f l = Some b ->
            exists before after, l = before ++ b :: after /\ f b = true /\
                                 forall x, In x before -> f x = false).
  { intros f l. induction l as [|a l IH]; intros b; simpl; [discriminate|].
    destruct (f a) eqn:Fa.
    - intros H. inversion H; subst. exists [], l. repeat split; auto. intros x [].
    - intros H. destruct (IH b H) as (before & after & -> & Fb & Hbefore).
      exists (a :: before), after. repeat split; auto.
      intros x [<-|Hx]; auto. }
  set (exact := fun b =>
         String.eqb (JS.toLowerCase (Balance.tokenAddress b))
                    (JS.toLowerCase (TokenInfo.address tokenInfo))
         && String.eqb (Balance.specificChain b) (TokenInfo.specificChain tokenInfo)).
  set (variant := fun b =>
         String.eqb (JS.orString (dget (Balance.symbol b) SYMBOL_VARIANTS)
                                 (Balance.symbol b))
                    (TokenInfo.symbol tokenInfo)
         && String.eqb (Balance.specificChain b) (TokenInfo.specificChain tokenInfo)).
  assert (Hexact : forall b, exact b = true <-> sameAddress b /\ onTokenChain b).
  { intros b. unfold exact. rewrite andb_true_iff, !String.eqb_eq. reflexivity. }
  assert (Hvariant : forall b, variant b = true <-> sameSymbol b /\ onTokenChain b).
  { intros b. unfold variant. rewrite andb_true_iff, !String.eqb_eq. reflexivity. }
  assert (Hnot : forall (f : Balance.t -> bool) (P : Balance.t -> Prop),
            (forall b, f b = true <-> P b) -> forall b, f b = false -> ~ P b).
  { intros f P HfP b Hf HP. apply HfP in HP. congruence. }
  destruct (find exact bs) as [b|] eqn:E1.
  - destruct (Hfirst _ _ _ E1) as (before & after & -> & Fb & Hbefore).
    apply Hexact in Fb. destruct Fb as [Fa Fc].
    exists before, after. split; [reflexivity|]. split; [exact Fc|]. left.
    split; [exact Fa|]. intros x Hx.
    exact (Hnot exact (fun y => sameAddress y /\ onTokenChain y) Hexact x (Hbefore x Hx)).
  - pose proof (find_none _ _ E1) as Hno1.
    destruct (find variant bs) as [b|] eqn:E2.
    + destruct (Hfirst _ _ _ E2) as (before & after & Ebs & Fb & Hbefore).
      apply Hvariant in Fb. destruct Fb as [Fs Fc].
      exists before, after. split; [exact Ebs|]. split; [exact Fc|]. right.
      split; [exact Fs|]. split.
      * intros x Hx.
        exact (Hnot exact (fun y => sameAddress y /\ onTokenChain y) Hexact x (Hno1 x Hx)).
      * intros x Hx.
        exact (Hnot variant (fun y => sameSymbol y /\ onTokenChain y) Hvariant x
                 (Hbefore x Hx)).
    + pose proof (find_none _ _ E2) as Hno2.
      intros x Hx Hc. split.
      * intros Ha.
        apply (Hnot exact (fun y => sameAddress y /\ onTokenChain y) Hexact x (Hno1 x Hx)).
        split; assumption.
      * intros Hs.
        apply (Hnot variant (fun y => sameSymbol y /\ onTokenChain y) Hvariant x
                 (Hno2 x Hx)).
        split; assumption.
Qed.

(** ** The trading tools *)

Lemma toolCatch_status e tr :
  exists r,
    toolCatch e tr = (Ok r, tr) /\ ToolResult.success r = false /\
    ToolResult.txHash r = None /\
    ToolResult.status r
    = match e with
      | HttpError (Some 400%Z) => "bad_request"
      | HttpError (Some 429%Z) => "rate_limited"
      | HttpError (Some 401%Z) => "unauthorized"
      | _ => "execution_error"
      end.
Proof.
  unfold toolCatch, ret. eexists. split; [reflexivity|].
  repeat match goal with
         | |- context [match ?x with _ => _ end] => destruct x
         end; repeat split; reflexivity.
Qed.

Lemma getTokenInfo_throws s c e :
  getTokenInfo s c = Err e -> exists msg, e = ThrownError msg.
Proof.
  unfold getTokenInfo. intros Hf.
  destruct (String.eqb s "SOL"); [discriminate|].
  destruct (dget _ SPESIFIC_CHAIN_TOKENS); [|inversion Hf; eauto].
  match type of Hf with rbind ?x _ = _ => destruct x as [[[|]|]|e'] eqn:E end;
    cbn [rbind] in Hf; inversion Hf; subst; eauto.
  repeat match type of E with (if ?b then _ else _) = _ => destruct b end;
    inversion E; eauto.
Qed.

(** X12.  [executeTrade] always returns a result.  It posts at most one
    trade, after one read of the balances, and only when both tokens
    resolve and the balance found for the source token covers the amount
    asked for; the trade posted carries the resolved addresses and chains.
    A result reporting success comes from a trade the exchange answered.
    A trade the exchange refuses is reported, with success false, as
    bad_request (400), rate_limited (429), unauthorized (401) or
    execution_error; a source token that does not resolve gives
    execution_error without any request, unless the request is refused
    first for naming the same symbol and chain on both sides. *)
Theorem executeTrade_outcomes env context tr :
  exists r tr',
    executeTrade env context tr = (Ok r, tr') /\
    (tr' = tr \/
     tr' = tr ++ [HttpGetBalances] \/
     exists fromTokenInfo toTokenInfo bs,
       getTokenInfo (SymbolTrade.fromSymbol context)
                    (SymbolTrade.fromSpecificChain context) = Ok fromTokenInfo /\
       getTokenInfo (SymbolTrade.toSymbol context)
                    (SymbolTrade.toSpecificChain context) = Ok toTokenInfo /\
       balancesReply env tr = Replied bs /\
       SymbolTrade.amount context
       <= match findBalanceForToken bs fromTokenInfo with
          | Some b => Balance.amount b
          | None => 0
          end /\
       let payload := symbolPayload context fromTokenInfo toTokenInfo in
       tr' = tr ++ [HttpGetBalances; HttpPostTrade payload] /\
       match tradeReply env (tr ++ [HttpGetBalances]) payload with
       | Replied d => r = executedResponse d
       | Failed st =>
           ToolResult.success r = false /\
           ToolResult.status r
           = match st with
             | Some 400%Z => "bad_request"
             | Some 429%Z => "rate_limited"
             | Some 401%Z => "unauthorized"
             | _ => "execution_error"
             end
       end) /\
    (ToolResult.success r = true ->
     exists payload d,
       tr' = tr ++ [HttpGetBalances; HttpPostTrade payload] /\
       tradeReply env (tr ++ [HttpGetBalances]) payload = Replied d) /\
    (String.eqb (SymbolTrade.fromSymbol context) (SymbolTrade.toSymbol context)
     && JS.optStringEqb (SymbolTrade.fromSpecificChain context)
                        (SymbolTrade.toSpecificChain context) = false ->
     (forall info, getTokenInfo (SymbolTrade.fromSymbol context)
                                (SymbolTrade.fromSpecificChain context) <> Ok info) ->
     tr' = tr /\ r = createErrorResponse "execution_error").
Proof.
  unfold executeTrade, tryCatch.
  destruct (String.eqb _ _ && JS.optStringEqb _ _) eqn:Hcheck.
  { do 2 eexists. split; [reflexivity|]. split; [auto|].
    split; [discriminate|]. discriminate. }
  unfold bind, liftR.
  destruct (getTokenInfo (SymbolTrade.fromSymbol context) _) as [fi|e1] eqn:Hf.
  2:{ destruct (getTokenInfo_throws _ _ _ Hf) as [msg ->].
      do 2 eexists. split; [reflexivity|]. split; [auto|].
      split; [discriminate|]. intros _ _. split; reflexivity. }
  destruct (getTokenInfo (SymbolTrade.toSymbol context) _) as [ti|e2] eqn:Ht.
  2:{ destruct (toolCatch_status e2 tr) as (r & Hr & Hs & _).
      rewrite Hr. do 2 eexists. split; [reflexivity|]. split; [auto|].
      split; [congruence|]. intros _ Hno. exfalso. exact (Hno fi eq_refl). }
  unfold httpGetBalances.
  destruct (balancesReply env tr) as [bs|st] eqn:Hb.
  2:{ destruct (toolCatch_status (HttpError st) (tr ++ [HttpGetBalances]))
        as (r & Hr & Hs & _).
      rewrite Hr. do 2 eexists. split; [reflexivity|]. split; [auto|].
      split; [congruence|]. intros _ Hno. exfalso. exact (Hno fi eq_refl). }
  destruct (JS.geb _ (SymbolTrade.amount context)) eqn:Hgeb; cbn [negb].
  2:{ unfold ret. do 2 eexists. split; [reflexivity|]. split; [auto|].
      split; [discriminate|]. intros _ Hno. exfalso. exact (Hno fi eq_refl). }
  apply JSFacts.geb_ge in Hgeb.
  unfold httpPostTrade. fold (symbolPayload context fi ti).
  destruct (tradeReply env (tr ++ [HttpGetBalances]) (symbolPayload context fi ti))
    as [d|st] eqn:Hp.
  - unfold ret. do 2 eexists. split; [reflexivity|]. rewrite <- app_assoc. cbn [app].
    split; [|split].
    + right. right. exists fi, ti, bs. cbv zeta. rewrite Hp. repeat split; auto.
    + intros _. exists (symbolPayload context fi ti), d. auto.
    + intros _ Hno. exfalso. exact (Hno fi eq_refl).
  - destruct (toolCatch_status (HttpError st)
                ((tr ++ [HttpGetBalances]) ++ [HttpPostTrade (symbolPayload context fi ti)]))
      as (r & Hr & Hs & _ & Hstatus).
    rewrite Hr. do 2 eexists. split; [reflexivity|]. rewrite <- app_assoc. cbn [app].
    split; [|split].
    + right. right. exists fi, ti, bs. cbv zeta. rewrite Hp. repeat split; auto.
    + congruence.
    + intros _ Hno. exfalso. exact (Hno fi eq_refl).
Qed.

(** ** One sub-trade *)

Lemma reduce1_largest first others b :
  In b (first :: others) ->
  Balance.amount b <= Balance.amount (JS.reduce1 largerAmount first others).
Proof.
  unfold JS.reduce1. revert first b.
  induction others as [|x others IH]; intros first b Hb.
  - destruct Hb as [<-|[]]. apply Qle_refl.
  - cbn [fold_left].
    assert (Hstep : Balance.amount first <= Balance.amount (largerAmount first x) /\
                    Balance.amount x <= Balance.amount (largerAmount first x)).
    { unfold largerAmount. destruct (JS.gtb _ _) eqn:G.
      - apply JSFacts.gtb_gt in G. split; lra.
      - apply JSFacts.gtb_le in G. split; lra. }
    destruct Hb as [<-|[<-|Hb]].
    + eapply Qle_trans; [exact (proj1 Hstep)|]. apply IH. left. reflexivity.
    + eapply Qle_trans; [exact (proj2 Hstep)|]. apply IH. left. reflexivity.
    + apply IH. right. exact Hb.
Qed.

(** X13.  A sale that is not skipped, of a symbol the portfolio holds,
    draws on one position of that symbol: one on the configured
    consolidation chain when there is one, otherwise one with the largest
    amount.  The amount asked for is
    the smaller of the sub-trade's difference and what that position holds,
    and the result is that of the one [executeTrade] call made. *)
Theorem sell_draws_on_one_position env trade pf cfg an pr tr toSymbol :
  sellTokenBalances trade pf <> [] ->
  sellDestination (primaryTargetToken (targetAllocation cfg)) (symbol (base trade))
  = Some toSymbol ->
  exists best r tr',
    In best (sellTokenBalances trade pf) /\
    ((exists b, In b (sellTokenBalances trade pf) /\ onConsolidationChain cfg b) ->
     onConsolidationChain cfg best) /\
    ((forall b, In b (sellTokenBalances trade pf) -> ~ onConsolidationChain cfg b) ->
     forall b, In b (sellTokenBalances trade pf) ->
               Balance.amount b <= Balance.amount best) /\
    SymbolTrade.amount (sellContext trade cfg best toSymbol) <= Balance.amount best /\
    SymbolTrade.amount (sellContext trade cfg best toSymbol)
    <= differenceAmount (base trade) /\
    executeTrade env (sellContext trade cfg best toSymbol) tr = (Ok r, tr') /\
    executeSingleTrade env trade sell pf cfg an pr tr = (Ok (executed r), tr').
Proof.
  intros Hheld Hdest. rewrite executeSingleTrade_sell.
  unfold sellSingleTrade. fold (sellTokenBalances trade pf).
  destruct (sellTokenBalances trade pf) as [|first others] eqn:Eb; [contradiction|].
  rewrite Hdest.
  match goal with |- context [Balance.specificChain ?b] => set (best := b) in * end.
  fold (sellContext trade cfg best toSymbol).
  destruct (executeTrade_returns env (sellContext trade cfg best toSymbol) tr)
    as (r & tr' & Hrun).
  exists best, r, tr'.
  assert (Hin : In best (first :: others)).
  { subst best. destruct (consolidateToChain cfg) as [[|c s]|];
      try apply largest_in.
    destruct (find _ (first :: others)) as [b|] eqn:Ef; [|apply largest_in].
    apply find_some in Ef. exact (proj1 Ef). }
  split; [exact Hin|]. split; [|split; [|split; [|split; [|split]]]].
  - intros (b & Hb & Hon). unfold onConsolidationChain in *. subst best.
    destruct (consolidateToChain cfg) as [[|c s]|]; [destruct Hon; congruence| |contradiction].
    destruct Hon as [_ Hon].
    destruct (find _ (first :: others)) as [b'|] eqn:Ef.
    + apply find_some in Ef. split; [discriminate|]. apply String.eqb_eq, Ef.
    + exfalso. pose proof (find_none _ _ Ef b Hb) as Hn. cbv beta in Hn.
      rewrite Hon, String.eqb_refl in Hn. discriminate.
  - intros Hnone b Hb. subst best. unfold onConsolidationChain in Hnone.
    destruct (consolidateToChain cfg) as [[|c s]|];
      try (apply reduce1_largest; exact Hb).
    destruct (find _ (first :: others)) as [b'|] eqn:Ef;
      [|apply reduce1_largest; exact Hb].
    apply find_some in Ef. exfalso. apply (Hnone b' (proj1 Ef)).
    split; [discriminate|]. apply String.eqb_eq, Ef.
  - cbn [sellContext SymbolTrade.amount]. apply Q.le_min_r.
  - cbn [sellContext SymbolTrade.amount]. apply Q.le_min_l.
  - exact Hrun.
  - unfold bind. rewrite Hrun. reflexivity.
Qed.

Lemma sortDesc_head {A} (key : A -> Q) (l : list A) h t :
  sortDesc key l = h :: t ->
  In h l /\ forall x, In x l -> key x <= key h.
Proof.
  intros E.
  pose proof (sortDesc_sorted key l) as Hs.
  pose proof (fun x => sortDesc_In key x l) as Hin.
  rewrite E in Hs, Hin.
  split; [apply Hin; left; reflexivity|].
  intros x Hx. apply Hin in Hx. destruct Hx as [<-|Hx]; [apply Qle_refl|].
  inversion Hs as [|? ? _ Hall]; subst. rewrite Forall_forall in Hall.
  apply Hall. exact Hx.
Qed.

Lemma stable_symbol_routes b :
  JS.includes STABLECOINS (Balance.symbol b) = true ->
  JS.includes ["USDC"; "WETH"; "USDT"; "SOL"] (Balance.symbol b)
  && negb (String.eqb (Balance.symbol b) "USDbC")
  = String.eqb (Balance.symbol b) "USDC" || String.eqb (Balance.symbol b) "USDT".
Proof.
  intros H. apply includes_In in H.
  destruct H as [<-|[<-|[<-|[<-|[]]]]]; reflexivity.
Qed.

(** X14.  A purchase is funded from one stablecoin position (USDC, USDbC,
    DAI or USDT with a positive amount), always one of greatest value, and
    asks for the smaller of the sub-trade's USD difference and that value.
    A USDC or USDT position is traded through [executeTrade], a USDbC or DAI
    position through [executeTradeByAddress].  With no stablecoin position,
    or a target symbol that does not resolve on the preferred chain, no
    request is made and nothing is executed. *)
Theorem buy_is_funded_by_most_valuable_stablecoin env trade pf cfg an pr tr :
  let target := getTokenInfo (symbol (base trade)) (Some (preferredChain (base trade))) in
  match buyStablecoins pf, target with
  | [], _ | _, Err _ =>
      executeSingleTrade env trade buy pf cfg an pr tr = (Ok notExecuted, tr)
  | _ :: _, Ok targetTokenInfo =>
      exists best r tr',
        In best (buyStablecoins pf) /\
        (forall b, In b (buyStablecoins pf) -> stableValue pr b <= stableValue pr best) /\
        (if String.eqb (Balance.symbol best) "USDC"
            || String.eqb (Balance.symbol best) "USDT"
         then executeTrade env (buyContext trade cfg pr best) tr
         else executeTradeByAddress env
                (buyAddressContext trade cfg pr best targetTokenInfo) tr)
        = (Ok r, tr') /\
        executeSingleTrade env trade buy pf cfg an pr tr = (Ok (executed r), tr')
  end.
Proof.
  intros target. unfold executeSingleTrade, tryCatch, buySingleTrade.
  fold (buyStablecoins pf). fold target.
  destruct (sortDesc (stableValue pr) (buyStablecoins pf)) as [|largest others] eqn:Es.
  { assert (E : buyStablecoins pf = []).
    { destruct (buyStablecoins pf) as [|b l] eqn:Eb; [reflexivity|].
      assert (H : In b (sortDesc (stableValue pr) (b :: l)))
        by (apply sortDesc_In; left; reflexivity).
      rewrite Es in H. destruct H. }
    rewrite E. reflexivity. }
  destruct (sortDesc_head _ _ _ _ Es) as [Hin Hmax].
  assert (Hbest :
    match find (fun b => JS.geb (stableValue pr b) (differenceValueUSD (base trade)))
               (largest :: others) with
    | Some b => b
    | None => largest
    end = largest).
  { cbn [find]. destruct (JS.geb (stableValue pr largest) _) eqn:G; [reflexivity|].
    destruct (find _ others) as [b|] eqn:Ef; [|reflexivity].
    apply find_some in Ef. destruct Ef as [Hb Hcov].
    apply JSFacts.geb_ge in Hcov. apply JSFacts.geb_lt in G.
    assert (Hle : stableValue pr b <= stableValue pr largest).
    { apply Hmax. apply (proj1 (sortDesc_In (stableValue pr) b (buyStablecoins pf))).
      rewrite Es. right. exact Hb. }
    lra. }
  rewrite Hbest.
  destruct (buyStablecoins pf) as [|b0 l0] eqn:Eb; [destruct Hin|].
  unfold bind, liftR.
  destruct target as [targetTokenInfo|e] eqn:Et; [|reflexivity].
  assert (Hstable : JS.includes STABLECOINS (Balance.symbol largest) = true).
  { rewrite <- Eb in Hin. unfold buyStablecoins in Hin. apply filter_In in Hin.
    destruct Hin as [_ Hin]. apply andb_true_iff in Hin. tauto. }
  rewrite (stable_symbol_routes largest Hstable).
  fold (buyReason trade). fold (buyContext trade cfg pr largest).
  fold (buyAddressContext trade cfg pr largest targetTokenInfo).
  destruct (String.eqb (Balance.symbol largest) "USDC"
            || String.eqb (Balance.symbol largest) "USDT") eqn:Hroute.
  - destruct (executeTrade_returns env (buyContext trade cfg pr largest) tr)
      as (r & tr' & Hrun).
    exists largest, r, tr'. rewrite Hroute, Hrun.
    split; [exact Hin|]. split; [exact Hmax|]. split; reflexivity.
  - destruct (executeTradeByAddress_trace env
                (buyAddressContext trade cfg pr largest targetTokenInfo) tr)
      as (r & tr' & Hrun & _).
    exists largest, r, tr'. rewrite Hroute, Hrun.
    split; [exact Hin|]. split; [exact Hmax|]. split; reflexivity.
Qed.

(** X15.  [executeTradeByAddress] always returns a result.  Two equal
    addresses (letter case apart) on the same chain are refused as
    invalid_trade before any request.  Otherwise the balances are read once,
    and a trade is posted only when the position with the source address
    (letter case apart) on the source chain holds at least the amount asked
    for; the trade carries the addresses and chains it was given.  A trade
    the exchange refuses is reported, with success false, as bad_request
    (400), rate_limited (429), unauthorized (401) or execution_error. *)
Theorem executeTradeByAddress_outcomes env context tr :
  let sameToken :=
    String.eqb (JS.toLowerCase (AddressTrade.fromTokenAddress context))
               (JS.toLowerCase (AddressTrade.toTokenAddress context))
    && String.eqb (AddressTrade.fromSpecificChain context)
                  (AddressTrade.toSpecificChain context) in
  let held bs :=
    match find (fun b =>
                  String.eqb (JS.toLowerCase (Balance.tokenAddress b))
                             (JS.toLowerCase (AddressTrade.fromTokenAddress context))
                  && String.eqb (Balance.specificChain b)
                                (AddressTrade.fromSpecificChain context)) bs with
    | Some b => Balance.amount b
    | None => 0
    end in
  exists r tr',
    executeTradeByAddress env context tr = (Ok r, tr') /\
    (if sameToken
     then tr' = tr /\ r = createErrorResponse "invalid_trade"
     else
       match balancesReply env tr with
       | Failed _ => tr' = tr ++ [HttpGetBalances] /\ ToolResult.success r = false
       | Replied bs =>
           if JS.geb (held bs) (AddressTrade.amount context)
           then
             AddressTrade.amount context <= held bs /\
             tr' = tr ++ [HttpGetBalances; HttpPostTrade (addressPayload context)] /\
             match tradeReply env (tr ++ [HttpGetBalances]) (addressPayload context) with
             | Replied d => r = executedResponse d
             | Failed st =>
                 ToolResult.success r = false /\
                 ToolResult.status r
                 = match st with
                   | Some 400%Z => "bad_request"
                   | Some 429%Z => "rate_limited"
                   | Some 401%Z => "unauthorized"
                   | _ => "execution_error"
                   end
             end
           else tr' = tr ++ [HttpGetBalances] /\ r = insufficientBalance
       end).
Proof.
  intros sameToken held. unfold executeTradeByAddress, tryCatch. fold sameToken.
  destruct sameToken.
  { do 2 eexists. split; [reflexivity|]. split; reflexivity. }
  unfold bind, httpGetBalances.
  destruct (balancesReply env tr) as [bs|st].
  2:{ destruct (toolCatch_status (HttpError st) (tr ++ [HttpGetBalances]))
        as (r & Hr & Hs & _).
      rewrite Hr. do 2 eexists. split; [reflexivity|]. split; [reflexivity | exact Hs]. }
  fold (held bs).
  destruct (JS.geb (held bs) (AddressTrade.amount context)) eqn:Hgeb; cbn [negb].
  2:{ unfold ret. do 2 eexists. split; [reflexivity|]. split; reflexivity. }
  apply JSFacts.geb_ge in Hgeb.
  unfold httpPostTrade. fold (addressPayload context).
  destruct (tradeReply env (tr ++ [HttpGetBalances]) (addressPayload context))
    as [d|st] eqn:Hp.
  - unfold ret. do 2 eexists. split; [reflexivity|]. rewrite <- app_assoc.
    split; [exact Hgeb|]. split; reflexivity.
  - destruct (toolCatch_status (HttpError st)
                ((tr ++ [HttpGetBalances]) ++ [HttpPostTrade (addressPayload context)]))
      as (r & Hr & Hs & _ & Hstatus).
    rewrite Hr. do 2 eexists. split; [reflexivity|]. rewrite <- app_assoc.
    split; [exact Hgeb|]. split; [reflexivity|]. split; [exact Hs | exact Hstatus].
Qed.

(** A tool reports success only for a trade it posted. *)
Lemma executeTrade_success_posted env context tr :
  exists r tr',
    executeTrade env context tr = (Ok r, tr') /\
    atMostOneTrade tr tr' /\
    (ToolResult.success r = true ->
     exists payload, tr' = tr ++ [HttpGetBalances; HttpPostTrade payload]).
Proof.
  unfold executeTrade, tryCatch, atMostOneTrade.
  destruct (String.eqb _ _ && JS.optStringEqb _ _).
  { do 2 eexists. split; [reflexivity|]. split; [auto | discriminate]. }
  unfold bind, liftR.
  destruct (getTokenInfo (SymbolTrade.fromSymbol context) _) as [fi|e1].
  2:{ destruct (toolCatch_status e1 tr) as (r & Hr & Hs & _). rewrite Hr.
      do 2 eexists. split; [reflexivity|]. split; [auto | congruence]. }
  destruct (getTokenInfo (SymbolTrade.toSymbol context) _) as [ti|e2].
  2:{ destruct (toolCatch_status e2 tr) as (r & Hr & Hs & _). rewrite Hr.
      do 2 eexists. split; [reflexivity|]. split; [auto | congruence]. }
  unfold httpGetBalances.
  destruct (balancesReply env tr) as [bs|st].
  2:{ destruct (toolCatch_status (HttpError st) (tr ++ [HttpGetBalances]))
        as (r & Hr & Hs & _). rewrite Hr.
      do 2 eexists. split; [reflexivity|]. split; [auto | congruence]. }
  destruct (negb (JS.geb _ (SymbolTrade.amount context))).
  { unfold ret. do 2 eexists. split; [reflexivity|]. split; [auto | discriminate]. }
  unfold httpPostTrade.
  match goal with |- context [tradeReply env ?t ?pl] =>
    destruct (tradeReply env t pl) as [d|st] end.
  - unfold ret. do 2 eexists. split; [reflexivity|]. rewrite <- app_assoc.
    split; [right; right|intros _]; eexists; reflexivity.
  - match goal with |- context [toolCatch ?e ?t] =>
      destruct (toolCatch_status e t) as (r & Hr & Hs & _) end.
    rewrite Hr. do 2 eexists. split; [reflexivity|]. rewrite <- app_assoc.
    split; [right; right; eexists; reflexivity | congruence].
Qed.

Lemma executeTradeByAddress_success_posted env context tr :
  exists r tr',
    executeTradeByAddress env context tr = (Ok r, tr') /\
    atMostOneTrade tr tr' /\
    (ToolResult.success r = true ->
     exists payload, tr' = tr ++ [HttpGetBalances; HttpPostTrade payload]).
Proof.
  unfold executeTradeByAddress, tryCatch, atMostOneTrade.
  destruct (String.eqb _ _ && String.eqb _ _).
  { do 2 eexists. split; [reflexivity|]. split; [auto | discriminate]. }
  unfold bind, httpGetBalances.
  destruct (balancesReply env tr) as [bs|st].
  2:{ destruct (toolCatch_status (HttpError st) (tr ++ [HttpGetBalances]))
        as (r & Hr & Hs & _). rewrite Hr.
      do 2 eexists. split; [reflexivity|]. split; [auto | congruence]. }
  destruct (negb (JS.geb _ (AddressTrade.amount context))).
  { unfold ret. do 2 eexists. split; [reflexivity|]. split; [auto | discriminate]. }
  unfold httpPostTrade.
  match goal with |- context [tradeReply env ?t ?pl] =>
    destruct (tradeReply env t pl) as [d|st] end.
  - unfold ret. do 2 eexists. split; [reflexivity|]. rewrite <- app_assoc.
    split; [right; right|intros _]; eexists; reflexivity.
  - match goal with |- context [toolCatch ?e ?t] =>
      destruct (toolCatch_status e t) as (r & Hr & Hs & _) end.
    rewrite Hr. do 2 eexists. split; [reflexivity|]. rewrite <- app_assoc.
    split; [right; right; eexists; reflexivity | congruence].
Qed.

(** X16.  Executing one sub-trade never fails: it returns a result after at
    most one read of the balances and at most one posted trade.  It reports
    success only when a trade was posted, and a result without a tool
    answer means that no request was made at all. *)
Theorem executeSingleTrade_requests env trade tradeType pf cfg an pr tr :
  exists r tr',
    executeSingleTrade env trade tradeType pf cfg an pr tr = (Ok r, tr') /\
    atMostOneTrade tr tr' /\
    (TradeExecutionResult.success r = true ->
     exists payload, tr' = tr ++ [HttpGetBalances; HttpPostTrade payload]) /\
    (TradeExecutionResult.result r = None -> tr' = tr).
Proof.
  unfold executeSingleTrade, tryCatch.
  assert (Hquiet : exists r tr',
             (Ok notExecuted, tr) = (Ok r, tr') /\ atMostOneTrade tr tr' /\
             (TradeExecutionResult.success r = true ->
              exists payload, tr' = tr ++ [HttpGetBalances; HttpPostTrade payload]) /\
             (TradeExecutionResult.result r = None -> tr' = tr)).
  { exists notExecuted, tr. split; [reflexivity|]. split; [left; reflexivity|].
    split; [discriminate | reflexivity]. }
  destruct tradeType.
  - unfold buySingleTrade.
    destruct (sortDesc (stableValue pr) _) as [|largest others]; [exact Hquiet|].
    unfold bind, liftR.
    destruct (getTokenInfo (symbol (base trade)) _) as [targetTokenInfo|e];
      [|exact Hquiet].
    destruct (JS.includes _ _ && _).
    + match goal with |- context [executeTrade env ?c tr] =>
        destruct (executeTrade_success_posted env c tr) as (r & tr' & Hrun & Hone & Hs) end.
      rewrite Hrun. exists (executed r), tr'. split; [reflexivity|].
      split; [exact Hone|]. split; [exact Hs | discriminate].
    + match goal with |- context [executeTradeByAddress env ?c tr] =>
        destruct (executeTradeByAddress_success_posted env c tr)
          as (r & tr' & Hrun & Hone & Hs) end.
      rewrite Hrun. exists (executed r), tr'. split; [reflexivity|].
      split; [exact Hone|]. split; [exact Hs | discriminate].
  - unfold sellSingleTrade.
    destruct (filter _ (balances pf)) as [|first others]; [exact Hquiet|].
    destruct (sellDestination _ _) as [toSymbol|]; [|exact Hquiet].
    unfold bind.
    match goal with |- context [executeTrade env ?c tr] =>
      destruct (executeTrade_success_posted env c tr) as (r & tr' & Hrun & Hone & Hs) end.
    rewrite Hrun. exists (executed r), tr'. split; [reflexivity|].
    split; [exact Hone|]. split; [exact Hs | discriminate].
Qed.

(** ** The target allocation *)

Lemma addPercent_counted key x d :
  addPercent key x d
  = match x with
    | Some v => if JS.gtb v 0 then dset key v d else d
    | None => d
    end.
Proof.
  unfold addPercent. destruct x as [v|]; [|reflexivity].
  destruct (JS.gtb v 0) eqn:G; [|rewrite andb_false_r; reflexivity].
  apply JSFacts.gtb_gt in G.
  assert (F : JS.falsy v = false) by (apply JSFacts.falsy_neq; lra).
  rewrite F. reflexivity.
Qed.

Ltac percent_cases i :=
  unfold rawAllocationOf, countedTotal, countedPercentOf, countedPercent;
  rewrite !addPercent_counted;
  destruct (usdcPercent i) as [v1|]; [destruct (JS.gtb v1 0) eqn:G1|];
  (destruct (wethPercent i) as [v2|]; [destruct (JS.gtb v2 0) eqn:G2|]);
  (destruct (usdtPercent i) as [v3|]; [destruct (JS.gtb v3 0) eqn:G3|]);
  (destruct (solPercent i) as [v4|]; [destruct (JS.gtb v4 0) eqn:G4|]);
  cbn [dset String.eqb Ascii.eqb Bool.eqb];
  repeat match goal with
         | H : JS.gtb _ 0 = true |- _ => apply JSFacts.gtb_gt in H
         | H : JS.gtb _ 0 = false |- _ => clear H
         end.

(** X17.  When at least one input percentage is positive, the target
    allocation holds exactly the symbols given a positive percentage, each
    once, weighted by its percentage divided by the sum of the positive
    percentages; the weights add up to 1.  Absent, zero and negative
    percentages are left out. *)
Theorem target_allocation_is_normalized i :
  0 < countedTotal i ->
  exists target,
    normalizeAllocation i = Ok target /\
    NoDup (keys target) /\
    (forall k, In k (keys target) <-> 0 < countedPercentOf i k) /\
    (forall k, valueOr0 target k == countedPercentOf i k / countedTotal i) /\
    sumQ (map snd target) == 1.
Proof.
  unfold normalizeAllocation. percent_cases i.
  all: intros Hpos; try (exfalso; lra).
  all: cbn [totalPercentOf fold_left snd fst].
  all: match goal with
       | |- context [JS.leb ?t 0] =>
           assert (Ht : 0 < t) by lra;
           assert (Hl : JS.leb t 0 = false) by (apply JSFacts.leb_gt; exact Ht);
           rewrite Hl; clear Hl
       end.
  all: cbn [rfold rbind fst snd].
  all: repeat (rewrite jsdiv_ok by lra; cbn [rbind dset String.eqb Ascii.eqb Bool.eqb]).
  all: eexists; split; [reflexivity|].
  all: cbn [keys map fst snd sumQ fold_right].
  all: split; [repeat constructor; cbn [In]; intuition discriminate|].
  all: split; [|split].
  all: try (field; lra).
  all: intros k; unfold valueOr0; cbn [dget In];
    repeat match goal with
           | |- context [String.eqb ?a ?b] => destruct (String.eqb_spec a b); subst
           end;
    try discriminate; try congruence.
  all: try (split; [intros H; intuition (try congruence; try lra) | intros H; intuition (try lra)]).
  all: try (field; lra).
  all: try (exfalso; lra).
Qed.

(** ** The analyzer's percentages, drifts and plan *)

Lemma fold_dset_lookup (g : string * Q -> Q) (target : Dict Q) (acc : Dict Q) :
  NoDup (keys target) ->
  let out := fold_left (fun d (e : string * Q) => dset (fst e) (g e) d) target acc in
  (forall e, In e target -> dget (fst e) out = Some (g e)) /\
  (forall s, ~ In s (keys target) -> dget s out = dget s acc).
Proof.
  revert acc. induction target as [|[k w] target IH]; intros acc Hnd; cbn [fold_left].
  - split; [intros e []|]. reflexivity.
  - cbn [keys map fst] in Hnd. inversion Hnd as [|? ? Hk Hnd']; subst.
    destruct (IH (dset k (g (k, w)) acc) Hnd') as [H1 H2]. cbn [fst]. split.
    + intros e [<-|He]; [|apply H1; exact He].
      cbn [fst]. rewrite (H2 k Hk). apply dget_dset_same.
    + intros s Hs. cbn [keys map fst In] in Hs.
      rewrite H2 by tauto. apply dget_dset_other. intros E. apply Hs. left. symmetry. exact E.
Qed.

Lemma percentLoop_fold p target amounts total :
  percentLoop p target amounts total
  = Ok (fold_left
          (fun d (e : string * Q) =>
             dset (fst e)
                  (if JS.gtb total 0
                   then JS.orElse (dget (fst e) amounts) 0 * priceOf p (fst e) / total
                   else 0) d)
          target []).
Proof.
  unfold percentLoop. generalize (@nil (string * Q)) as acc.
  induction target as [|e target IH]; intros acc; cbn [rfold fold_left]; [reflexivity|].
  destruct (JS.gtb total 0) eqn:G.
  - apply JSFacts.gtb_gt in G. rewrite jsdiv_ok by lra. cbn [rbind]. apply IH.
  - cbn [rbind]. apply IH.
Qed.

Lemma held_valueOr0 bs s : valueOr0 (groupBySymbol bs) s == heldAmount bs s.
Proof.
  assert (Hv : valueOr0 (groupBySymbol bs) s == valueOr0 [] s + heldAmount bs s)
    by apply group_value.
  rewrite Hv. unfold valueOr0. cbn [dget]. ring.
Qed.

Lemma analysis_share pf p cfg a e :
  NoDup (keys (targetAllocation cfg)) ->
  analyzeAllocation pf p cfg = Ok a ->
  In e (targetAllocation cfg) ->
  valueOr0 (currentAllocation a) (fst e)
  == valueShare p (balances pf) (totalValueUSD a) (fst e).
Proof.
  intros Hnd Ha He.
  destruct (analyzeAllocation_Ok _ _ _ _ Ha) as (_ & Hp & _).
  cbv zeta in Hp. rewrite percentLoop_fold in Hp. injection Hp as Hc.
  match type of Hc with fold_left (fun d e => dset (fst e) (@?g e) d) _ _ = _ =>
    destruct (fold_dset_lookup g (targetAllocation cfg) [] Hnd) as [H1 _] end.
  cbv zeta in H1. rewrite Hc in H1. unfold valueOr0 at 1. rewrite (H1 e He).
  unfold valueShare. destruct (JS.gtb (totalValueUSD a) 0) eqn:G; [|reflexivity].
  apply JSFacts.gtb_gt in G.
  rewrite valueOr0_orElse, held_valueOr0, priceOf_valueOr0, amountHeld_heldAmount.
  reflexivity.
Qed.

Lemma analysis_drift pf p cfg a e :
  NoDup (keys (targetAllocation cfg)) ->
  analyzeAllocation pf p cfg = Ok a ->
  In e (targetAllocation cfg) ->
  valueOr0 (allocationDrift a) (fst e)
  == Qabs (valueOr0 (currentAllocation a) (fst e) - snd e).
Proof.
  intros Hnd Ha He.
  destruct (analyzeAllocation_Ok _ _ _ _ Ha) as (_ & _ & Hd & _).
  unfold driftLoop in Hd.
  assert (E : forall l acc,
             fst (fold_left
                    (fun (acc : Dict Q * Q) (e : string * Q) =>
                       let currentPercent :=
                         JS.orElse (dget (fst e) (currentAllocation a)) 0 in
                       let drift := Qabs (currentPercent - snd e) in
                       (dset (fst e) drift (fst acc), Qmax (snd acc) drift)) l acc)
             = fold_left
                 (fun d (e : string * Q) =>
                    dset (fst e)
                         (Qabs (JS.orElse (dget (fst e) (currentAllocation a)) 0 - snd e)) d)
                 l (fst acc)).
  { induction l as [|x l IH]; intros acc; cbn [fold_left]; [reflexivity|].
    rewrite IH. reflexivity. }
  rewrite E in Hd. cbn [fst] in Hd.
  match type of Hd with _ = fold_left (fun d e => dset (fst e) (@?g e) d) _ _ =>
    destruct (fold_dset_lookup g (targetAllocation cfg) [] Hnd) as [H1 _] end.
  cbv zeta in H1. rewrite <- Hd in H1. unfold valueOr0 at 1. rewrite (H1 e He).
  apply Qabs_wd. rewrite valueOr0_orElse. reflexivity.
Qed.

(** X18.  For every target symbol the analyzer reports as current share
    the value held in the symbol (USDbC counted as USDC) divided by the
    portfolio total, or 0 when the total is not positive, and as drift the
    distance between that share and the target weight.  With a non-negative
    threshold, rebalancing is needed exactly when it is forced or some
    target symbol drifts by more than the threshold; when it is not needed
    the plan is empty. *)
Theorem analysis_shares_drifts_and_decision pf p cfg a :
  NoDup (keys (targetAllocation cfg)) ->
  0 <= rebalanceThreshold cfg ->
  analyzeAllocation pf p cfg = Ok a ->
  let share := valueShare p (balances pf) (totalValueUSD a) in
  (forall s w, In (s, w) (targetAllocation cfg) ->
     valueOr0 (currentAllocation a) s == share s /\
     valueOr0 (allocationDrift a) s == Qabs (share s - w)) /\
  (needsRebalancing a = true <->
     forceRebalance cfg = true \/
     exists s w, In (s, w) (targetAllocation cfg) /\
                 rebalanceThreshold cfg < Qabs (share s - w)) /\
  (needsRebalancing a = false -> rebalancingPlan a = []).
Proof.
  intros Hnd Hth Ha share.
  assert (Hshare : forall s w, In (s, w) (targetAllocation cfg) ->
            valueOr0 (currentAllocation a) s == share s).
  { intros s w He. exact (analysis_share pf p cfg a (s, w) Hnd Ha He). }
  assert (Hdrift : forall s w, In (s, w) (targetAllocation cfg) ->
            Qabs (valueOr0 (currentAllocation a) s - w) == Qabs (share s - w)).
  { intros s w He. apply Qabs_wd. rewrite (Hshare s w He). reflexivity. }
  split; [|split].
  - intros s w He. split; [exact (Hshare s w He)|].
    rewrite (analysis_drift pf p cfg a (s, w) Hnd Ha He). cbn [fst snd].
    exact (Hdrift s w He).
  - destruct (analyzeAllocation_Ok _ _ _ _ Ha) as (_ & _ & _ & Hn & _).
    rewrite Hn.
    destruct (driftLoop_max (targetAllocation cfg) (currentAllocation a))
      as (_ & Hub & Hmax). cbv zeta in Hub, Hmax.
    rewrite orb_true_iff. split.
    + intros [Hf|Hg]; [left; exact Hf|]. right. apply JSFacts.gtb_gt in Hg.
      destruct Hmax as [E|([s w] & He & E)]; [rewrite E in Hg; lra|].
      exists s, w. split; [exact He|]. cbn [fst snd] in E.
      rewrite <- (Hdrift s w He), <- E. exact Hg.
    + intros [Hf|(s & w & He & Hgt)]; [left; exact Hf|]. right.
      apply JSFacts.gtb_gt. pose proof (Hub (s, w) He) as Hle. cbn [fst snd] in Hle.
      rewrite (Hdrift s w He) in Hle. lra.
  - destruct (analyzeAllocation_Ok _ _ _ _ Ha) as (_ & _ & _ & _ & Hno & _).
    exact Hno.
Qed.

(** X19.  Every trade the analyzer plans is worth at least the minimum
    trade value.  Its amount is the distance between the amount held and
    the target amount, or, for the sale of a holding without target
    weight, the whole holding.  A purchase is planned only for a target
    symbol held below its target amount. *)
Theorem planned_trades_reach_the_minimum pf p cfg a t :
  analyzeAllocation pf p cfg = Ok a ->
  In t (rebalancingPlan a) ->
  minTradeValueUSD cfg <= differenceValueUSD t /\
  (differenceAmount t == Qabs (targetAmount t - currentAmount t) \/
   differenceAmount t == currentAmount t - targetAmount t) /\
  (action t = buy ->
     In (symbol t) (keys (targetAllocation cfg)) /\ currentAmount t < targetAmount t).
Proof.
  intros Ha Hin.
  destruct (plan_entry_origin _ _ _ _ _ Ha Hin)
    as [(e & out & He & Hout & Ht)|(e & He & Ht)].
  - apply targetEntry_out in Hout. cbv zeta in Hout.
    destruct Hout as [[-> _]|(c & _ & Hmin & ->)]; [destruct Ht|].
    destruct Ht as [<-|[]].
    cbn [differenceValueUSD differenceAmount targetAmount currentAmount action symbol].
    unfold plannedDifference.
    split; [exact Hmin|]. split; [left; reflexivity|].
    destruct (JS.gtb _ 0) eqn:G; [|discriminate]. intros _.
    apply JSFacts.gtb_gt in G. unfold plannedDifference in G.
    split; [unfold keys; apply in_map; exact He | lra].
  - apply liquidationEntry_in in Ht. destruct Ht as (-> & _ & Hmin & _).
    cbn [differenceValueUSD differenceAmount targetAmount currentAmount action symbol].
    split; [exact Hmin|]. split; [right; ring|]. discriminate.
Qed.

(** ** The books of the rebalancing step *)

Lemma prod_ret {A} (a : A) (post : A -> Trace -> Prop) :
  post a [] -> producesM (ret a) post.
Proof.
  intros Ha tr. exists a, []. rewrite app_nil_r. split; [reflexivity | exact Ha].
Qed.

Lemma prod_liftR {A} (x : Result A) (post : A -> Trace -> Prop) :
  (exists a, x = Ok a /\ post a []) -> producesM (liftR x) post.
Proof.
  intros (a & -> & Ha) tr. exists a, []. rewrite app_nil_r.
  split; [reflexivity | exact Ha].
Qed.

Lemma prod_bind {A B} (m : M A) (k : A -> M B) (mid : A -> Trace -> Prop)
    (post : B -> Trace -> Prop) :
  producesM m mid ->
  (forall a add1, mid a add1 -> producesM (k a) (fun b add2 => post b (add1 ++ add2))) ->
  producesM (bind m k) post.
Proof.
  intros Hm Hk tr. destruct (Hm tr) as (a & add1 & Em & Ha).
  destruct (Hk a add1 Ha (tr ++ add1)) as (b & add2 & Ek & Hb).
  exists b, (add1 ++ add2). unfold bind. rewrite Em, Ek, app_assoc.
  split; [reflexivity | exact Hb].
Qed.

Lemma prod_weaken {A} (m : M A) (post post' : A -> Trace -> Prop) :
  producesM m post -> (forall a added, post a added -> post' a added) ->
  producesM m post'.
Proof.
  intros Hm Hw tr. destruct (Hm tr) as (a & added & E & Ha).
  exists a, added. split; [exact E | apply Hw; exact Ha].
Qed.

Lemma prod_foldM {A B} (f : A -> B -> M A) (inv : A -> Trace -> Prop) (l : list B) :
  (forall a b add0, inv a add0 -> producesM (f a b) (fun a' add => inv a' (add0 ++ add))) ->
  forall a add0, inv a add0 ->
    producesM (foldM f l a) (fun a' add => inv a' (add0 ++ add)).
Proof.
  intros Hf. induction l as [|b l IH]; intros a add0 Ha; cbn [foldM].
  - apply prod_ret. rewrite app_nil_r. exact Ha.
  - eapply prod_bind; [apply Hf; exact Ha|].
    cbn beta. intros a' add1 Ha'.
    eapply prod_weaken; [apply (IH a' (add0 ++ add1) Ha')|].
    cbn beta. intros a2 add2 H. rewrite app_assoc. exact H.
Qed.

Lemma prod_delay ms :
  producesM (createTradeDelay ms) (fun _ added => countEvents isPost added = 0%nat).
Proof. intros tr. exists tt, [Delay ms]. split; reflexivity. Qed.

Lemma countEvents_reads {A} (g : A -> Event) (l : list A) :
  (forall a, isPost (g a) = false) -> countEvents isPost (map g l) = 0%nat.
Proof.
  intros Hg. unfold countEvents. induction l as [|a l IH]; [reflexivity|].
  cbn [map filter]. rewrite Hg. exact IH.
Qed.

Lemma prod_getPortfolio env :
  producesM (getPortfolio env) (fun _ added => countEvents isPost added = 0%nat).
Proof.
  intros tr. unfold getPortfolio, tryCatch, bind, httpGetBalances.
  destruct (balancesReply env tr) as [bs|st].
  - rewrite forEach_emit. unfold ret. rewrite <- app_assoc.
    do 2 eexists. split; [reflexivity|].
    rewrite countEvents_app. cbn [countEvents filter isPost List.length Nat.add].
    apply countEvents_reads. reflexivity.
  - do 2 eexists. split; [reflexivity|]. reflexivity.
Qed.

Lemma prod_tool (m : M ToolResult.t) :
  (forall tr, exists r tr',
      m tr = (Ok r, tr') /\ atMostOneTrade tr tr' /\
      (ToolResult.success r = true ->
       exists payload, tr' = tr ++ [HttpGetBalances; HttpPostTrade payload])) ->
  producesM m (fun r added =>
                 (countEvents isPost added <= 1)%nat /\
                 (ToolResult.success r = true -> countEvents isPost added = 1%nat)).
Proof.
  intros H tr. destruct (H tr) as (r & tr' & E & Hone & Hs).
  destruct Hone as [->|[->|[payload ->]]].
  - exists r, []. rewrite app_nil_r. split; [exact E|]. split; [cbn; lia|].
    intros Hok. destruct (Hs Hok) as [payload Hp].
    rewrite <- (app_nil_r tr) in Hp at 1. apply app_inv_head in Hp. discriminate.
  - exists r, [HttpGetBalances]. split; [exact E|]. split; [cbn; lia|].
    intros Hok. destruct (Hs Hok) as [payload Hp].
    apply app_inv_head in Hp. discriminate.
  - exists r, [HttpGetBalances; HttpPostTrade payload]. split; [exact E|].
    split; [cbn; lia | reflexivity].
Qed.

Lemma prod_executeSingleTrade env trade tradeType pf cfg an pr :
  producesM (executeSingleTrade env trade tradeType pf cfg an pr)
    (fun r added =>
       (countEvents isPost added <= 1)%nat /\
       forall res, TradeExecutionResult.result r = Some res ->
                   ToolResult.success res = true ->
                   countEvents isPost added = 1%nat).
Proof.
  assert (Hquiet : forall tr, exists r added,
             (Ok notExecuted, tr) = (Ok r, tr ++ added) /\
             (countEvents isPost added <= 1)%nat /\
             forall res, TradeExecutionResult.result r = Some res ->
                         ToolResult.success res = true ->
                         countEvents isPost added = 1%nat).
  { intros tr. exists notExecuted, []. rewrite app_nil_r. split; [reflexivity|].
    split; [cbn; lia | discriminate]. }
  assert (Htool : forall (m : M ToolResult.t) tr,
             producesM m (fun r added =>
                 (countEvents isPost added <= 1)%nat /\
                 (ToolResult.success r = true -> countEvents isPost added = 1%nat)) ->
             exists r added,
               match m tr with
               | (Ok a, tr1) => (Ok (executed a), tr1)
               | (Err e, tr1) => (Ok notExecuted, tr1)
               end = (Ok r, tr ++ added) /\
               (countEvents isPost added <= 1)%nat /\
               forall res, TradeExecutionResult.result r = Some res ->
                           ToolResult.success res = true ->
                           countEvents isPost added = 1%nat).
  { intros m tr Hm. destruct (Hm tr) as (r & added & E & Hle & Hs). rewrite E.
    exists (executed r), added. split; [reflexivity|]. split; [exact Hle|].
    intros res Hres. injection Hres as <-. exact Hs. }
  intros tr. unfold executeSingleTrade, tryCatch. destruct tradeType.
  - unfold buySingleTrade.
    destruct (sortDesc (stableValue pr) _) as [|largest others]; [apply Hquiet|].
    unfold bind, liftR.
    destruct (getTokenInfo (symbol (base trade)) _) as [targetTokenInfo|e];
      [|apply Hquiet].
    destruct (JS.includes _ _ && _).
    + match goal with |- context [executeTrade env ?c tr] =>
        destruct (Htool (executeTrade env c) tr) as (r & added & E & H)
      end; [apply prod_tool; intros tr0; apply executeTrade_success_posted|].
      unfold ret in *.
      match goal with |- context [executeTrade env ?c tr] =>
        destruct (executeTrade env c tr) as [[a|e] tr1] end;
        exists r, added; split; assumption.
    + match goal with |- context [executeTradeByAddress env ?c tr] =>
        destruct (Htool (executeTradeByAddress env c) tr) as (r & added & E & H)
      end; [apply prod_tool; intros tr0; apply executeTradeByAddress_success_posted|].
      unfold ret in *.
      match goal with |- context [executeTradeByAddress env ?c tr] =>
        destruct (executeTradeByAddress env c tr) as [[a|e] tr1] end;
        exists r, added; split; assumption.
  - unfold sellSingleTrade.
    destruct (filter _ (balances pf)) as [|first others]; [apply Hquiet|].
    destruct (sellDestination _ _) as [toSymbol|]; [|apply Hquiet].
    unfold bind.
    match goal with |- context [executeTrade env ?c tr] =>
      destruct (Htool (executeTrade env c) tr) as (r & added & E & H)
    end; [apply prod_tool; intros tr0; apply executeTrade_success_posted|].
    unfold ret in *.
    match goal with |- context [executeTrade env ?c tr] =>
      destruct (executeTrade env c tr) as [[a|e] tr1] end;
      exists r, added; split; assumption.
Qed.

Lemma accounted_refl st : accounted st st [].
Proof. unfold accounted. cbn. repeat split; try lia. Qed.

Lemma accounted_trans st1 st2 st3 add1 add2 :
  accounted st1 st2 add1 -> accounted st2 st3 add2 -> accounted st1 st3 (add1 ++ add2).
Proof.
  unfold accounted. intros ((H1 & H2) & H3) ((H4 & H5) & H6).
  rewrite countEvents_app. split; [lia|].
  intros E. rewrite H6 by lia. apply H3. lia.
Qed.

Lemma accounted_quiet st st' add1 add2 :
  accounted st st' add1 -> countEvents isPost add2 = 0%nat ->
  accounted st st' (add1 ++ add2).
Proof.
  unfold accounted. intros H H0. rewrite countEvents_app, H0, Nat.add_0_r. exact H.
Qed.

Lemma successes_app rs r :
  successes (rs ++ [r])
  = (successes rs + if ToolResult.success r then 1 else 0)%nat.
Proof.
  unfold successes. rewrite filter_app, length_app. cbn [filter].
  destruct (ToolResult.success r); reflexivity.
Qed.

Lemma accounted_recordResult st trade r added :
  (forall res, TradeExecutionResult.result r = Some res ->
               ToolResult.success res = true -> countEvents isPost added = 1%nat) ->
  accounted st (recordResult st trade r) added.
Proof.
  intros Hs. unfold recordResult, accounted.
  destruct (TradeExecutionResult.result r) as [res|]; [|repeat split; lia].
  cbn [withResults allRebalancingResults totalVolumeUSD]. rewrite successes_app.
  destruct (ToolResult.success res) eqn:Hok.
  - rewrite (Hs res eq_refl Hok). split; [lia|]. intros E. lia.
  - split; [lia|]. reflexivity.
Qed.

Lemma accounted_config st c added :
  accounted st (withConfig st c) added.
Proof.
  unfold accounted. cbn [withConfig allRebalancingResults totalVolumeUSD].
  split; [lia | reflexivity].
Qed.

Lemma prod_tradePass env p an pf total plan st :
  producesM (tradePass env p an pf total plan st)
    (fun r added => accounted st (snd r) added /\
                    iterationsCompleted (snd r) = iterationsCompleted st).
Proof.
  unfold tradePass.
  set (inv := fun (s : LoopState) (added : Trace) =>
                accounted st s added /\ iterationsCompleted s = iterationsCompleted st).
  eapply prod_bind with (mid := fun _ added => added = []).
  { apply prod_liftR. destruct (splitAll_returns
      (filter isSell (firstn REBALANCING_CONFIG.maxTradesPerIteration
                        (sortDesc priority plan))) total) as [subs E]. eauto. }
  intros sells ? ->. cbn [app].
  eapply prod_bind with (mid := fun _ added => added = []).
  { apply prod_liftR. destruct (splitAll_returns
      (filter isBuy (firstn REBALANCING_CONFIG.maxTradesPerIteration
                       (sortDesc priority plan))) total) as [subs E]. eauto. }
  intros buys ? ->. cbn [app].
  assert (Hstep : forall (s : LoopState) trade add0 r add1 add2,
            inv s add0 ->
            (forall res, TradeExecutionResult.result r = Some res ->
                         ToolResult.success res = true ->
                         countEvents isPost add1 = 1%nat) ->
            countEvents isPost add2 = 0%nat ->
            inv (recordResult s trade r) (add0 ++ add1 ++ add2)).
  { intros s trade add0 r add1 add2 [Hacc Hit] Hr H0. split.
    - eapply accounted_trans; [exact Hacc|].
      apply accounted_quiet; [|exact H0]. apply accounted_recordResult. exact Hr.
    - rewrite (proj2 (recordResult_keeps s trade r)). exact Hit. }
  eapply prod_bind with (mid := inv).
  { apply (prod_foldM _ inv sells) with (add0 := []);
      [|split; [apply accounted_refl | reflexivity]].
    intros s trade add0 Hinv.
    eapply prod_bind; [apply prod_executeSingleTrade|].
    cbn beta. intros r add1 [_ Hr].
    eapply prod_bind; [apply prod_delay|].
    cbn beta. intros _ add2 H0.
    apply prod_ret. rewrite app_nil_r. apply Hstep; assumption. }
  intros st1 add1 Hst1.
  eapply prod_bind with (mid := fun s added => inv s (add1 ++ added)).
  { apply (prod_foldM _ inv buys); [|exact Hst1].
    intros s trade add0 Hinv.
    eapply prod_bind; [apply prod_getPortfolio|].
    cbn beta. intros pf' addp Hp.
    eapply prod_bind; [apply prod_executeSingleTrade|].
    cbn beta. intros r add2 [_ Hr].
    eapply prod_bind; [apply prod_delay|].
    cbn beta. intros _ add3 H0.
    apply prod_ret. rewrite app_nil_r.
    destruct Hinv as [Hacc Hit].
    destruct (Hstep s trade (add0 ++ addp) r add2 add3) as [Hacc' Hit'];
      [split; [apply accounted_quiet; assumption | exact Hit] | exact Hr | exact H0 |].
    split; [|exact Hit']. rewrite <- ?app_assoc in Hacc'. rewrite <- ?app_assoc.
    exact Hacc'. }
  cbn beta. intros st2 add2 [Hacc Hit].
  eapply prod_bind; [apply prod_delay|].
  cbn beta. intros _ add3 H0.
  apply prod_ret. rewrite app_nil_r. cbn [snd]. split; [|exact Hit].
  rewrite app_assoc. apply accounted_quiet; [|exact H0].
  rewrite <- (app_nil_r (add1 ++ add2)).
  eapply accounted_trans; [exact Hacc | apply accounted_config].
Qed.

Lemma prod_bootstrapSell env p st tokenToSell :
  producesM (bootstrapSell env p st tokenToSell)
    (fun r added => accounted st (snd r) added /\
                    iterationsCompleted (snd r) = iterationsCompleted st).
Proof.
  unfold bootstrapSell.
  eapply prod_bind;
    [apply prod_tool; intros tr0; apply executeTrade_success_posted|].
  cbn beta. intros sellResult add1 [_ Hs].
  eapply prod_bind; [apply prod_delay|].
  cbn beta. intros _ add2 H0.
  apply prod_ret. rewrite app_nil_r. cbn [snd].
  destruct (ToolResult.success sellResult) eqn:Hok.
  - split; [|reflexivity]. apply accounted_quiet; [|exact H0].
    unfold accounted. cbn [withResults allRebalancingResults totalVolumeUSD].
    rewrite successes_app, Hok, (Hs eq_refl). split; [lia|]. intros E. lia.
  - split; [|reflexivity]. apply accounted_quiet; [|exact H0].
    rewrite <- (app_nil_r add1). eapply accounted_trans; [|apply accounted_refl].
    unfold accounted. split; [lia | reflexivity].
Qed.

Lemma prod_iterationAfterRefresh env p an st pf :
  producesM (iterationAfterRefresh env p an st pf)
    (fun r added => accounted st (snd r) added /\
                    iterationsCompleted (snd r) = iterationsCompleted st).
Proof.
  unfold iterationAfterRefresh.
  assert (Hstop : producesM (ret (Break, st))
            (fun (r : Control * LoopState) added =>
               accounted st (snd r) added /\
               iterationsCompleted (snd r) = iterationsCompleted st)).
  { apply prod_ret. split; [apply accounted_refl | reflexivity]. }
  eapply prod_bind with (mid := fun _ added => added = []).
  { apply prod_liftR.
    destruct (percentLoop_returns p (targetAllocation (config st))
                (groupBySymbol (balances pf))
                (totalLoop p (groupBySymbol (balances pf)))) as [pct E]. eauto. }
  intros pct ? ->. cbn [app].
  destruct (negb (forceRebalance (config st)) && JS.leb _ _); [exact Hstop|].
  eapply prod_bind with (mid := fun _ added => added = []).
  { apply prod_liftR.
    match goal with |- exists a, iterationPlan ?p ?c ?s ?d ?t = _ /\ _ =>
      destruct (iterationPlan_returns p c s d t) as [plan E]
    end. eauto. }
  intros plan ? ->. cbn [app].
  destruct plan as [|t0 plan0]; [exact Hstop|].
  pose proof (prod_tradePass env p an pf
                (totalLoop p (groupBySymbol (balances pf))) (t0 :: plan0) st) as Hpass.
  destruct (Nat.ltb 0 _ && Nat.eqb _ 0); [|exact Hpass].
  destruct (currentStablecoins pf); [|exact Hpass].
  destruct (nonTargetTokens (config st) pf) as [|first others]; [exact Hpass|].
  apply prod_bootstrapSell.
Qed.

Lemma prod_rebalancingLoop env p an fuel :
  forall st,
    (REBALANCING_CONFIG.maxIterations - iterationsCompleted st <= Z.of_nat fuel)%Z ->
    producesM (rebalancingLoop env p an fuel st)
      (fun st' added =>
         accounted st st' added /\
         (iterationsCompleted st <= iterationsCompleted st'
          <= Z.max (iterationsCompleted st) REBALANCING_CONFIG.maxIterations)%Z /\
         ((iterationsCompleted st < REBALANCING_CONFIG.maxIterations)%Z ->
          (iterationsCompleted st < iterationsCompleted st')%Z)).
Proof.
  induction fuel as [|fuel IH]; intros st Hfuel; cbn [rebalancingLoop];
    destruct (iterationsCompleted st <? REBALANCING_CONFIG.maxIterations)%Z eqn:Hlt;
    try (apply Z.ltb_ge in Hlt; apply prod_ret;
         split; [apply accounted_refl | lia]).
  - apply Z.ltb_lt in Hlt. lia.
  - apply Z.ltb_lt in Hlt.
    eapply prod_bind
      with (mid := fun r added =>
                     accounted st (snd r) added /\
                     iterationsCompleted (snd r) = (iterationsCompleted st + 1)%Z).
    + unfold iterationBody.
      eapply prod_bind; [apply prod_getPortfolio|].
      cbn beta. intros pf add1 H1.
      eapply prod_weaken; [apply prod_iterationAfterRefresh|].
      cbn beta. intros r add2 [Hacc Hit]. split; [|exact Hit].
      rewrite <- (app_nil_l (add1 ++ add2)).
      eapply accounted_trans; [apply accounted_refl|].
      unfold accounted in *. rewrite countEvents_app, H1. exact Hacc.
    + intros [c st'] add1 [Hacc Hst']. cbn [fst snd] in *.
      assert (Hnext : producesM (rebalancingLoop env p an fuel st')
                (fun st2 add2 =>
                   accounted st st2 (add1 ++ add2) /\
                   (iterationsCompleted st <= iterationsCompleted st2
                    <= Z.max (iterationsCompleted st)
                             REBALANCING_CONFIG.maxIterations)%Z /\
                   ((iterationsCompleted st < REBALANCING_CONFIG.maxIterations)%Z ->
                    (iterationsCompleted st < iterationsCompleted st2)%Z))).
      { eapply prod_weaken; [apply (IH st'); lia|].
        cbn beta. intros st2 add2 (Hacc2 & Hit2 & _).
        split; [eapply accounted_trans; eassumption | lia]. }
      destruct c; [|exact Hnext|exact Hnext].
      apply prod_ret. rewrite app_nil_r. split; [exact Hacc | lia].
Qed.

(** X20.  The rebalancing step always returns.  It never reports more
    successful trades than it posted trades, and without a successful trade
    its reported volume is 0.  When the analysis asks for rebalancing it
    runs at least one and at most [maxIterations] iterations; otherwise it
    makes no request, reports no result and no iteration, and passes on the
    allocation of the analysis. *)
Theorem rebalancing_step_books env an p cfg tr :
  exists out added,
    executeRebalancingStep env an p cfg tr = (Ok out, tr ++ added) /\
    (totalRebalancingTrades out <= countEvents isPost added)%nat /\
    (totalRebalancingTrades out = 0%nat -> totalRebalancingVolumeUSD out == 0) /\
    (if needsRebalancing an
     then (1 <= outputIterationsCompleted out <= REBALANCING_CONFIG.maxIterations)%Z
     else added = [] /\ rebalancingResults out = [] /\
          outputIterationsCompleted out = 0%Z /\
          finalAllocation out = currentAllocation an).
Proof.
  revert tr.
  change (producesM (executeRebalancingStep env an p cfg)
            (fun out added =>
               (totalRebalancingTrades out <= countEvents isPost added)%nat /\
               (totalRebalancingTrades out = 0%nat -> totalRebalancingVolumeUSD out == 0) /\
               (if needsRebalancing an
                then (1 <= outputIterationsCompleted out
                      <= REBALANCING_CONFIG.maxIterations)%Z
                else added = [] /\ rebalancingResults out = [] /\
                     outputIterationsCompleted out = 0%Z /\
                     finalAllocation out = currentAllocation an))).
  unfold executeRebalancingStep.
  destruct (needsRebalancing an); cbn [negb].
  2:{ apply prod_ret. cbn. split; [lia|]. split; [reflexivity|]. auto. }
  eapply prod_bind.
  { apply prod_rebalancingLoop. cbn [iterationsCompleted]. lia. }
  cbn beta. intros st add1 (Hacc & Hit & Hmore).
  cbn [iterationsCompleted] in Hit, Hmore.
  eapply prod_bind; [apply prod_getPortfolio|].
  cbn beta. intros pf add2 H2.
  eapply prod_bind with (mid := fun _ added => added = []).
  { apply prod_liftR. unfold finalAllocationOf.
    match goal with |- exists a, percentLoop ?p ?t ?s ?v = _ /\ _ =>
      destruct (percentLoop_returns p t s v) as [pct E]
    end. eauto. }
  intros final ? ->. apply prod_ret.
  cbn [totalRebalancingTrades totalRebalancingVolumeUSD outputIterationsCompleted].
  rewrite !app_nil_r, countEvents_app, H2, Nat.add_0_r.
  unfold accounted in Hacc. cbn [allRebalancingResults totalVolumeUSD] in Hacc.
  fold (successes (allRebalancingResults st)).
  destruct Hacc as ((_ & Hle) & Hvol).
  split; [exact Hle|]. split.
  - intros E. rewrite (Hvol E). reflexivity.
  - unfold REBALANCING_CONFIG.maxIterations in *. lia.
Qed.

(** ** The workflow as a whole *)

Lemma held_on_chain_position (bs : list Enhanced.t) sym chain :
  0 < heldOnChain bs sym chain ->
  exists b, In b bs /\
            normalizeSymbol (Balance.symbol (Enhanced.balance b)) = sym /\
            Balance.specificChain (Enhanced.balance b) = chain.
Proof.
  unfold heldOnChain. intros Hpos.
  destruct (filter _ bs) as [|b l] eqn:Ef.
  { cbn in Hpos. exfalso. exact (Qlt_irrefl _ Hpos). }
  assert (Hb : In b (b :: l)) by (left; reflexivity).
  rewrite <- Ef in Hb. apply filter_In in Hb. destruct Hb as [Hin Hb].
  apply andb_true_iff in Hb. destruct Hb as [Hs Hc].
  exists b. split; [exact Hin|]. split; [apply String.eqb_eq, Hs|].
  apply String.eqb_eq. exact Hc.
Qed.

Lemma planned_moves_supported p cfg (bs : list Enhanced.t) analysis cfg' :
  (forall b, In b bs ->
             In (normalizeSymbol (Balance.symbol (Enhanced.balance b))) SUPPORTED_TOKENS /\
             Balance.specificChain (Enhanced.balance b) <> EmptyString) ->
  analyzeDistribution p cfg bs = Ok (analysis, cfg') ->
  targetAllocation cfg' = targetAllocation cfg /\
  forall plan m, consolidationPlan analysis = Some plan -> In m plan ->
    In (Move.token m) SUPPORTED_TOKENS /\ Move.fromChain m <> EmptyString.
Proof.
  intros Hbs Ha. split.
  - destruct (analyzeDistribution_Ok _ _ _ _ _ Ha) as (_ & _ & _ & _ & _ & _ & -> & _).
    reflexivity.
  - intros plan m Hplan Hm.
    destruct (planned_moves_spec _ _ _ _ _ _ Ha Hplan) as (_ & target & _ & _ & Hmoves & _).
    destruct (Hmoves m Hm) as (_ & _ & Hpos & Hheld & _).
    rewrite Hheld in Hpos.
    destruct (held_on_chain_position bs _ _ Hpos) as (b & Hb & Hs & Hc).
    destruct (Hbs b Hb) as [H1 H2].
    rewrite <- Hs, <- Hc. split; assumption.
Qed.

Lemma adds_getTokenInfoByAddress menv tokenAddress chain specificChain :
  addsOnly noPost (getTokenInfoByAddress menv tokenAddress chain specificChain)
           (fun _ => True).
Proof.
  unfold getTokenInfoByAddress.
  apply adds_tryCatch; [|intros e; apply adds_ret; exact I].
  eapply adds_bind with (mid := fun _ => True).
  - intros tr r tr' H. unfold httpGetTokenInfo in H. split; [|auto].
    destruct (tokenInfoReply menv tr tokenAddress chain specificChain);
      inversion H; subst; eexists; (split; [reflexivity|]);
      repeat constructor.
  - intros data _. destruct (negb _); apply adds_ret; exact I.
Qed.

Lemma adds_discoverToken menv discoveredTokens balance :
  addsOnly noPost (discoverToken menv discoveredTokens balance) (fun _ => True).
Proof.
  unfold discoverToken.
  apply adds_tryCatch; [|intros e; apply adds_ret; exact I].
  eapply adds_bind; [apply adds_getTokenInfoByAddress|].
  intros tokenInfo _. destruct (_ && _); apply adds_ret; exact I.
Qed.

Lemma safe_fetchPricesStep env numberToString i :
  safeM (fetchPricesStep env numberToString i)
        (fun fetched => supportedTargets (snd fetched)).
Proof.
  intros tr r tr' H. split.
  - unfold fetchPricesStep, bind, liftR in H.
    destruct (normalizeAllocation i); inversion H; subst;
      [|apply noSelfTradeSince_refl].
    apply noSelfTradeSince_quiet. intros e [<-|[]]. reflexivity.
  - intros [pr cfg] ->. cbn [snd].
    exact (proj2 (proj2 (fetchPricesStep_config _ _ _ _ _ _ _ H))).
Qed.

Lemma safe_analyzeChainDistributionStep env menv p cfg :
  supportedAccount env ->
  safeM (analyzeChainDistributionStep env menv p cfg)
        (fun out =>
           targetAllocation (distributionConfig out) = targetAllocation cfg /\
           forall plan m,
             consolidationPlan (distributionChainAnalysis out) = Some plan ->
             In m plan ->
             In (Move.token m) SUPPORTED_TOKENS /\ Move.fromChain m <> EmptyString).
Proof.
  intros Henv. unfold analyzeChainDistributionStep.
  eapply safe_bind; [apply safe_getPortfolio; exact Henv|].
  cbn beta. intros portfolio Hheld.
  eapply safe_bind with (mid := fun _ => True).
  { apply adds_noPost_safe. apply adds_foldM; [|exact I].
    intros d b _ _. apply adds_discoverToken. }
  intros discoveredTokens _.
  cbn [enhancedBalances].
  eapply safe_bind
    with (mid := fun analysis =>
                   targetAllocation (snd analysis) = targetAllocation cfg /\
                   forall plan m,
                     consolidationPlan (fst analysis) = Some plan -> In m plan ->
                     In (Move.token m) SUPPORTED_TOKENS /\
                     Move.fromChain m <> EmptyString).
  { apply safe_liftR. intros [analysis cfg'] Ha. cbn [fst snd].
    eapply planned_moves_supported; [|exact Ha].
    intros b Hb. apply in_map_iff in Hb. destruct Hb as (b0 & <- & Hb0).
    cbn [enhance Enhanced.balance]. apply Hheld. exact Hb0. }
  intros analysis Han. apply safe_ret.
  cbn [distributionConfig distributionChainAnalysis]. exact Han.
Qed.

Lemma executeConsolidationStep_config env menv portfolio chainAnalysis p cfg tr out tr' :
  executeConsolidationStep env menv portfolio chainAnalysis p cfg tr = (Ok out, tr') ->
  consolidationConfig out = cfg /\ consolidationPrices out = p.
Proof.
  unfold executeConsolidationStep.
  destruct (consolidationPlan chainAnalysis) as [plan|];
    [|intros H; inversion H; subst; split; reflexivity].
  destruct (skipConsolidation cfg); [intros H; inversion H; subst; split; reflexivity|].
  unfold bind.
  destruct (foldM _ plan [] tr) as [[results|e] tr1]; [|discriminate].
  destruct (getPortfolio env tr1) as [[pf|e] tr2]; [|discriminate].
  intros H. inversion H; subst. split; reflexivity.
Qed.

Lemma safe_workflow env menv numberToString i :
  supportedAccount env ->
  safeM (recallTradingWorkflow env menv numberToString i) (fun _ => True).
Proof.
  intros Henv. unfold recallTradingWorkflow.
  eapply safe_bind; [apply safe_fetchPricesStep|].
  cbn beta. intros fetched Htargets.
  eapply safe_bind; [apply safe_analyzeChainDistributionStep; exact Henv|].
  cbn beta. intros distribution [Hcfg Hplan].
  eapply safe_bind
    with (mid := fun consolidated =>
                   consolidationConfig consolidated = distributionConfig distribution).
  { intros tr r tr' H. split.
    - refine (proj1 (safe_executeConsolidationStep env menv _ _ _ _ Hplan _ _ _ H)).
    - intros out ->. exact (proj1 (executeConsolidationStep_config _ _ _ _ _ _ _ _ _ H)). }
  intros consolidated Hsame.
  eapply safe_bind with (mid := fun _ => True); [apply safe_liftR; auto|].
  intros analysis _.
  eapply safe_bind with (mid := fun _ => True); [|intros; apply safe_ret; exact I].
  intros tr r tr' H. split; [|auto].
  eapply executeRebalancingStep_no_self_trade; [exact Henv | | exact H].
  unfold supportedTargets. rewrite Hsame, Hcfg. exact Htargets.
Qed.

(** X21.  Over an account that holds only supported tokens, each on a named
    chain, a whole run of the workflow (price fetch, chain analysis,
    consolidation, allocation analysis, rebalancing, report) sends the
    exchange no trade of a token for itself on the same chain, whatever the
    input and whatever the exchange and the price service answer, and
    whether the run ends in a report or fails. *)
Theorem workflow_makes_no_self_trade env menv numberToString i tr r tr' :
  supportedAccount env ->
  recallTradingWorkflow env menv numberToString i tr = (r, tr') ->
  noSelfTradeSince tr tr'.
Proof.
  intros Henv H. exact (proj1 (safe_workflow env menv numberToString i Henv _ _ _ H)).
Qed.

(** ** No self-trade, from the tools to the workflow *)





(** ** Token information by address *)

Lemma getTokenInfoByAddress_run menv tokenAddress chain specificChain tr :
  exists info,
    getTokenInfoByAddress menv tokenAddress chain specificChain tr
    = (Ok info, tr ++ [HttpGetTokenInfo tokenAddress chain specificChain]).
Proof.
  unfold getTokenInfoByAddress, tryCatch, bind, httpGetTokenInfo.
  destruct (tokenInfoReply menv tr tokenAddress chain specificChain) as [data|st];
    [destruct (negb (TokenInfoResponse.success data))|]; unfold ret; eauto.
Qed.

(** X22.  [getTokenInfoByAddress] never fails and makes exactly one request
    to the price service.  It returns what the service answered when the
    answer reports success; when the request fails or the answer reports no
    success it returns the placeholder of an unknown token, with success
    false, price 0 and symbol UNKNOWN. *)
Theorem getTokenInfoByAddress_never_fails menv tokenAddress chain specificChain tr :
  exists info,
    getTokenInfoByAddress menv tokenAddress chain specificChain tr
    = (Ok info, tr ++ [HttpGetTokenInfo tokenAddress chain specificChain]) /\
    match tokenInfoReply menv tr tokenAddress chain specificChain with
    | Replied data =>
        if TokenInfoResponse.success data then info = data
        else info = unknownToken tokenAddress
    | Failed _ => info = unknownToken tokenAddress
    end /\
    (TokenInfoResponse.success info = false ->
     TokenInfoResponse.price info = 0 /\ TokenInfoResponse.symbol info = "UNKNOWN" /\
     TokenInfoResponse.token info = tokenAddress).
Proof.
  unfold getTokenInfoByAddress, tryCatch, bind, httpGetTokenInfo.
  destruct (tokenInfoReply menv tr tokenAddress chain specificChain) as [data|st].
  - destruct (TokenInfoResponse.success data) eqn:Hs; cbn [negb]; unfold ret.
    + exists data. split; [reflexivity|]. split; [reflexivity|]. congruence.
    + exists (unknownToken tokenAddress). split; [reflexivity|].
      split; [reflexivity|]. intros _. repeat split; reflexivity.
  - unfold ret. exists (unknownToken tokenAddress). split; [reflexivity|].
    split; [reflexivity|]. intros _. repeat split; reflexivity.
Qed.

(** ** The chain analysis step *)

Lemma prod_getPortfolio_positive env :
  producesM (getPortfolio env)
    (fun pf added => countEvents isPost added = 0%nat /\
                     forall b, In b (balances pf) -> 0 < Balance.amount b).
Proof.
  intros tr. unfold getPortfolio, tryCatch, bind, httpGetBalances.
  destruct (balancesReply env tr) as [bs|st].
  - rewrite forEach_emit. unfold ret. rewrite <- app_assoc.
    do 2 eexists. split; [reflexivity|]. split.
    + rewrite countEvents_app. cbn [countEvents filter isPost List.length Nat.add].
      apply countEvents_reads. reflexivity.
    + cbn [balances]. intros b Hb. apply filter_In in Hb.
      apply JSFacts.gtb_gt. exact (proj2 Hb).
  - do 2 eexists. split; [reflexivity|]. split; [reflexivity|]. intros b [].
Qed.

Lemma prod_discoverToken menv discoveredTokens balance :
  (forall addr d, dget addr discoveredTokens = Some d -> 0 < Discovered.price d) ->
  producesM (discoverToken menv discoveredTokens balance)
    (fun discovered added =>
       countEvents isPost added = 0%nat /\
       forall addr d, dget addr discovered = Some d -> 0 < Discovered.price d).
Proof.
  intros Hinv tr. unfold discoverToken, tryCatch, bind.
  destruct (getTokenInfoByAddress_run menv (Balance.tokenAddress balance)
              (Balance.chain balance) (Balance.specificChain balance) tr)
    as (info & E). rewrite E.
  destruct (TokenInfoResponse.success info && JS.gtb (TokenInfoResponse.price info) 0)
    eqn:G; unfold ret.
  - do 2 eexists. split; [reflexivity|]. split; [reflexivity|].
    intros addr d Hd.
    destruct (String.eqb_spec addr (Balance.tokenAddress balance)) as [->|Hne].
    + rewrite dget_dset_same in Hd. injection Hd as <-. cbn [Discovered.price].
      apply andb_true_iff in G. apply JSFacts.gtb_gt. exact (proj2 G).
    + rewrite dget_dset_other in Hd by exact Hne. exact (Hinv addr d Hd).
  - do 2 eexists. split; [reflexivity|]. split; [reflexivity | exact Hinv].
Qed.

Lemma determineOptimalConsolidationChain_returns chainValues tokenDistribution target :
  exists choice,
    determineOptimalConsolidationChain chainValues tokenDistribution target = Ok choice.
Proof.
  unfold determineOptimalConsolidationChain.
  destruct (Nat.leb _ 1); [eauto|].
  destruct (sortDesc snd _) as [|[highestValueChain v] rest]; [eauto|].
  match goal with |- context [bestChainLoop ?t ?l ?s] =>
    destruct (bestChainLoop_spec t l s) as (best & E & _) end.
  rewrite E. cbn [rbind]. eauto.
Qed.

Lemma analyzeDistribution_Err p cfg (bs : list Enhanced.t) e :
  analyzeDistribution p cfg bs = Err e ->
  e = TypeError "Cannot read properties of undefined".
Proof.
  unfold analyzeDistribution. pose proof (chainTables_spec p bs) as Ht.
  destruct (chainTables p bs) as [tables|e0]; cbn [rbind].
  - destruct (negb (skipConsolidation cfg) && _).
    + destruct (determineOptimalConsolidationChain_returns (tableChainValues tables)
                  (tableTokenDistribution tables) (targetAllocation cfg)) as [c Ec].
      rewrite Ec. cbn [rbind]. discriminate.
    + cbn [rbind]. discriminate.
  - intros H. injection H as <-. exact (proj1 Ht).
Qed.

(** X23.  The chain analysis step posts no trade.  It fails only with the
    error of reading a property of [undefined], the failure of the chain
    tables.  Otherwise it hands on the prices and the target allocation
    unchanged, and the portfolio it hands on lists balances of positive
    amount, each on a known chain and with a price that is not negative. *)
Theorem chain_analysis_step_outcomes env menv p cfg tr r tr' :
  analyzeChainDistributionStep env menv p cfg tr = (r, tr') ->
  countEvents isPost tr' = countEvents isPost tr /\
  match r with
  | Ok out =>
      distributionPrices out = p /\
      targetAllocation (distributionConfig out) = targetAllocation cfg /\
      forall e, In e (enhancedBalances (distributionPortfolio out)) ->
        0 < Balance.amount (Enhanced.balance e) /\
        In (Balance.specificChain (Enhanced.balance e)) SUPPORTED_CHAINS /\
        0 <= Enhanced.price e
  | Err e => e = TypeError "Cannot read properties of undefined"
  end.
Proof.
  unfold analyzeChainDistributionStep, bind.
  destruct (prod_getPortfolio_positive env tr) as (pf & add1 & E1 & H1 & Hpos).
  rewrite E1.
  destruct (prod_foldM (discoverToken menv)
              (fun d added =>
                 countEvents isPost added = 0%nat /\
                 forall addr x, dget addr d = Some x -> 0 < Discovered.price x)
              (balances pf)) with (a := @nil (string * Discovered.t)) (add0 := @nil Event)
              (tr := tr ++ add1)
    as (discovered & add2 & E2 & H2 & Hinv).
  { intros d b add0 [Hq Hd].
    eapply prod_weaken; [apply prod_discoverToken; exact Hd|].
    cbn beta. intros d' added [Hq' Hd']. split; [|exact Hd'].
    rewrite countEvents_app, Hq, Hq'. reflexivity. }
  { split; [reflexivity|]. intros addr x Hx. discriminate. }
  cbn [app] in H2. rewrite E2. cbn [enhancedBalances]. unfold liftR.
  assert (Hquiet : countEvents isPost ((tr ++ add1) ++ add2) = countEvents isPost tr).
  { rewrite !countEvents_app, H1, H2. lia. }
  destruct (analyzeDistribution p cfg (map (enhance discovered) (balances pf)))
    as [[analysis cfg']|e] eqn:Ha.
  - unfold ret. intros H. inversion H; subst; clear H. split; [exact Hquiet|].
    cbn [distributionPrices distributionConfig distributionPortfolio enhancedBalances].
    split; [reflexivity|].
    destruct (analyzeDistribution_Ok _ _ _ _ _ Ha) as (tables & Ht & _ & _ & _ & _ & Hc & _).
    split; [rewrite Hc; reflexivity|].
    intros e He.
    pose proof (chainTables_spec p (map (enhance discovered) (balances pf))) as Hspec.
    rewrite Ht in Hspec. destruct Hspec as (Hchains & _).
    split; [|split; [exact (Hchains e He)|]].
    + apply in_map_iff in He. destruct He as (b & <- & Hb). exact (Hpos b Hb).
    + apply in_map_iff in He. destruct He as (b & <- & Hb).
      cbn [enhance Enhanced.price].
      destruct (dget (Balance.tokenAddress b) discovered) as [d|] eqn:Ed;
        cbn [option_map]; [|discriminate].
      rewrite JSFacts.orElse_zero. apply Qlt_le_weak. exact (Hinv _ _ Ed).
  - intros H. inversion H; subst; clear H. split; [exact Hquiet|].
    exact (analyzeDistribution_Err _ _ _ _ Ha).
Qed.

(** ** The final allocation *)

Lemma fold_dset_map (g : string * Q -> Q) (target : Dict Q) (acc : Dict Q) :
  NoDup (keys acc ++ keys target) ->
  fold_left (fun d (e : string * Q) => dset (fst e) (g e) d) target acc
  = acc ++ map (fun e => (fst e, g e)) target.
Proof.
  revert acc. induction target as [|[k w] target IH]; intros acc Hnd; cbn [fold_left map].
  - rewrite app_nil_r. reflexivity.
  - cbn [keys map fst] in Hnd.
    assert (Hfresh : ~ In k (keys acc)).
    { apply NoDup_remove_2 in Hnd. intros Hin. apply Hnd. apply in_or_app. left. exact Hin. }
    cbn [fst]. rewrite (dset_fresh k (g (k, w)) acc Hfresh). rewrite IH.
    + rewrite <- app_assoc. reflexivity.
    + unfold keys. rewrite map_app. cbn [map fst]. rewrite <- app_assoc. exact Hnd.
Qed.

Lemma fold_sum (f : string * Q -> Q) (l : Dict Q) (acc : Q) :
  fold_left (fun a e => a + f e) l acc == acc + sumQ (map f l).
Proof.
  revert acc. induction l as [|e l IH]; intros acc; cbn [fold_left map].
  - unfold sumQ. simpl. ring.
  - rewrite IH. unfold sumQ. simpl. ring.
Qed.

Lemma sumQ_scaled (f : string * Q -> Q) (l : Dict Q) (t : Q) :
  ~ t == 0 -> sumQ (map (fun e => f e / t) l) == sumQ (map f l) / t.
Proof.
  intros Ht. induction l as [|e l IH]; unfold sumQ in *; simpl.
  - field. exact Ht.
  - rewrite IH. field. exact Ht.
Qed.

(** X24.  The final allocation of the rebalancing step has the target
    symbols as keys, in their order.  The weight of a symbol is the value
    held in it divided by the value held in all target symbols together, so
    that the weights add up to 1 when that value is positive; when it is
    not, every weight is 0.  Holdings of other symbols do not count. *)
Theorem final_allocation_is_over_targets p target finalSymbolTotals :
  NoDup (keys target) ->
  let total := sumQ (map (targetValue p finalSymbolTotals) target) in
  exists final,
    finalAllocationOf p target finalSymbolTotals = Ok final /\
    keys final = keys target /\
    (forall e, In e target ->
       valueOr0 final (fst e)
       == if JS.gtb total 0 then targetValue p finalSymbolTotals e / total else 0) /\
    (0 < total -> sumQ (map snd final) == 1) /\
    (total <= 0 -> forall k, valueOr0 final k == 0).
Proof.
  intros Hnd total. unfold finalAllocationOf.
  set (t := fold_left _ target 0).
  assert (Et : t == total).
  { unfold t, total.
    rewrite (fold_sum (targetValue p finalSymbolTotals) target 0). ring. }
  rewrite percentLoop_fold.
  set (g := fun e : string * Q =>
              if JS.gtb t 0
              then JS.orElse (dget (fst e) finalSymbolTotals) 0 * priceOf p (fst e) / t
              else 0).
  change (exists final,
    Ok (fold_left (fun d (e : string * Q) => dset (fst e) (g e) d) target []) = Ok final /\
    keys final = keys target /\
    (forall e, In e target ->
       valueOr0 final (fst e)
       == if JS.gtb total 0 then targetValue p finalSymbolTotals e / total else 0) /\
    (0 < total -> sumQ (map snd final) == 1) /\
    (total <= 0 -> forall k, valueOr0 final k == 0)).
  rewrite (fold_dset_map g target []) by exact Hnd. cbn [app].
  eexists. split; [reflexivity|].
  assert (Hg : forall e, g e == if JS.gtb total 0
                                then targetValue p finalSymbolTotals e / total else 0).
  { intros e. unfold g, targetValue.
    destruct (JS.gtb t 0) eqn:G1; destruct (JS.gtb total 0) eqn:G2; js_props;
      try (exfalso; lra); [|reflexivity].
    rewrite Et. reflexivity. }
  split; [|split; [|split]].
  - unfold keys. rewrite map_map. reflexivity.
  - intros e He. rewrite <- Hg.
    destruct (fold_dset_lookup g target [] Hnd) as [H1 _]. cbv zeta in H1.
    rewrite (fold_dset_map g target []) in H1 by exact Hnd. cbn [app] in H1.
    unfold valueOr0. rewrite (H1 e He). reflexivity.
  - intros Hpos. rewrite map_map. cbn [snd].
    assert (G : JS.gtb t 0 = true) by (apply JSFacts.gtb_gt; lra).
    unfold g. rewrite G.
    rewrite (sumQ_scaled (targetValue p finalSymbolTotals) target t) by lra.
    fold total. rewrite Et. field. lra.
  - intros Hle k.
    assert (G : JS.gtb t 0 = false) by (apply JSFacts.gtb_le; lra).
    unfold valueOr0.
    destruct (dget k (map (fun e => (fst e, g e)) target)) as [v|] eqn:Ek; [|reflexivity].
    apply dget_In in Ek. apply in_map_iff in Ek. destruct Ek as (e & He & _).
    injection He as _ <-. unfold g. rewrite G. reflexivity.
Qed.

(** * The theorems at the sample data *)

Lemma consolidation_chain_is_best_scored_witness :
  NoDup (keys sampleChainValues) /\
  exists chain value,
    determineOptimalConsolidationChain sampleChainValues [] DEFAULT_TARGET_ALLOCATION
    = Ok (Some chain) /\
    In (chain, value) sampleChainValues /\ 0 < value.
Proof.
  assert (Hnd : NoDup (keys sampleChainValues)).
  { repeat constructor; cbn [In]; intuition discriminate. }
  split; [exact Hnd|].
  destruct (consolidation_chain_is_best_scored sampleChainValues []
              DEFAULT_TARGET_ALLOCATION Hnd) as (choice & E & Hnone & Hsome).
  destruct choice as [chain|].
  - destruct (Hsome chain eq_refl) as (value & score & Hin & Hpos & _).
    exists chain, value. auto.
  - exfalso. assert (H := proj1 Hnone eq_refl). vm_compute in H. lia.
Defined.

Lemma consolidation_plan_moves_witness :
  exists analysis cfg' plan target,
    analyzeDistribution samplePrices sampleConfig sampleEnhanced = Ok (analysis, cfg') /\
    consolidationPlan analysis = Some plan /\
    consolidateToChain cfg' = Some target /\
    descending Move.valueUSD plan.
Proof.
  assert (Hrun : exists analysis cfg' plan,
             analyzeDistribution samplePrices sampleConfig sampleEnhanced
             = Ok (analysis, cfg') /\
             consolidationPlan analysis = Some plan).
  { do 3 eexists. split; [vm_compute; reflexivity | reflexivity]. }
  destruct Hrun as (analysis & cfg' & plan & Ha & Hplan).
  destruct (consolidation_plan_moves samplePrices sampleConfig sampleEnhanced
              analysis cfg' plan Ha Hplan) as (_ & target & Hc & Hsorted & _).
  exists analysis, cfg', plan, target. auto.
Defined.

Lemma consolidation_subtrades_witness :
  exists n, tradesToExecuteOf sampleChainValues usdtMove = Ok n /\ (5 <= n)%Z.
Proof.
  destruct (consolidation_subtrades sampleChainValues usdtMove)
    as (n & amounts & E & H5 & _); [reflexivity | reflexivity |].
  exists n. auto.
Defined.

Lemma usdc_consolidation_is_simulated_witness :
  exists out tr',
    executeConsolidationStep sampleEnv silentMarket sampleEnhancedPortfolio
      (planOnly [usdcMove]) samplePrices sampleConfig [] = (Ok out, tr') /\
    countEvents isPost tr' = 0%nat /\
    List.length (consolidationResults out) = 1%nat.
Proof.
  destruct (usdc_consolidation_is_simulated sampleEnv silentMarket sampleEnhancedPortfolio
              (planOnly [usdcMove]) samplePrices sampleConfig [usdcMove] [])
    as (out & tr0 & tr' & Hrun & Hposts & Hlen & _);
    [reflexivity | reflexivity | intros m [<-|[]]; reflexivity |].
  exists out, tr'. auto.
Defined.

Lemma consolidation_step_records_every_subtrade_witness :
  exists out tr',
    executeConsolidationStep sampleEnv silentMarket sampleEnhancedPortfolio
      (planOnly [usdtMove]) samplePrices sampleConfig [] = (Ok out, tr') /\
    (5 <= List.length (consolidationResults out))%nat /\
    noSelfTradeSince [] tr'.
Proof.
  destruct (consolidation_step_records_every_subtrade sampleEnv silentMarket
              sampleEnhancedPortfolio (planOnly [usdtMove]) samplePrices sampleConfig
              [usdtMove] [])
    as (out & tr' & Hrun & Hlen & H5 & Hsafe);
    [reflexivity | reflexivity | intros m [<-|[]] _; split; reflexivity |].
  exists out, tr'. split; [exact Hrun|]. split.
  - rewrite Hlen. cbn [map list_sum fold_right].
    assert (H := H5 usdtMove (or_introl eq_refl) ltac:(discriminate)). lia.
  - apply Hsafe. intros m [<-|[]]. split; [cbn; auto | discriminate].
Defined.

Lemma registry_addresses_distinct_witness :
  exists info1 info2,
    getTokenInfo "USDC" (Some "base") = Ok info1 /\
    getTokenInfo "USDC" (Some "base") = Ok info2 /\
    "USDC" = "USDC".
Proof.
  do 2 eexists. split; [reflexivity|]. split; [reflexivity|].
  eapply (registry_addresses_distinct "USDC" "USDC" "base");
    [cbn; auto | cbn; auto | reflexivity | reflexivity | reflexivity].
Defined.

Lemma sell_draws_on_one_position_witness :
  exists best r tr',
    In best (sellTokenBalances wethSale samplePortfolio) /\
    SymbolTrade.amount (sellContext wethSale sampleConfig best "USDC")
    <= Balance.amount best /\
    executeSingleTrade sampleEnv wethSale sell samplePortfolio sampleConfig
      sampleAnalysis (Some samplePrices) [] = (Ok (executed r), tr').
Proof.
  destruct (sell_draws_on_one_position sampleEnv wethSale samplePortfolio sampleConfig
              sampleAnalysis (Some samplePrices) [] "USDC")
    as (best & r & tr' & Hin & _ & _ & Hle & _ & _ & Hrun);
    [vm_compute; discriminate | vm_compute; reflexivity |].
  exists best, r, tr'. auto.
Defined.

Lemma target_allocation_is_normalized_witness :
  0 < countedTotal mixedPercentInput /\
  exists target,
    normalizeAllocation mixedPercentInput = Ok target /\
    valueOr0 target "USDC" == 6 # 10 /\
    valueOr0 target "WETH" == 4 # 10 /\
    sumQ (map snd target) == 1.
Proof.
  assert (Hpos : 0 < countedTotal mixedPercentInput) by reflexivity.
  split; [exact Hpos|].
  destruct (target_allocation_is_normalized mixedPercentInput Hpos)
    as (target & E & _ & _ & Hw & Hsum).
  exists target. split; [exact E|].
  split; [rewrite Hw; reflexivity|]. split; [rewrite Hw; reflexivity | exact Hsum].
Defined.

Lemma analysis_shares_drifts_and_decision_witness :
  exists a,
    analyzeAllocation bridgedPortfolio samplePrices sampleConfig = Ok a /\
    valueOr0 (currentAllocation a) "USDC" == 1 # 3 /\
    valueOr0 (allocationDrift a) "USDC" == 1 # 3 /\
    valueOr0 (currentAllocation a) "USDT" == 0 /\
    valueOr0 (allocationDrift a) "USDT" == 1 /\
    needsRebalancing a = true.
Proof.
  assert (Hrun : exists a,
             analyzeAllocation bridgedPortfolio samplePrices sampleConfig = Ok a /\
             totalValueUSD a == 3000).
  { eexists. split; [vm_compute; reflexivity | reflexivity]. }
  destruct Hrun as (a & Ha & Htotal). exists a. split; [exact Ha|].
  assert (Hnd : NoDup (keys (targetAllocation sampleConfig))).
  { repeat constructor; cbn [In]; intuition discriminate. }
  assert (Hth : 0 <= rebalanceThreshold sampleConfig) by discriminate.
  destruct (analysis_shares_drifts_and_decision bridgedPortfolio samplePrices sampleConfig a
              Hnd Hth Ha) as (Hshares & Hneeds & _).
  assert (Hpos : JS.gtb (totalValueUSD a) 0 = true).
  { apply JSFacts.gtb_gt. rewrite Htotal. reflexivity. }
  assert (Husdc : valueShare samplePrices (balances bridgedPortfolio) (totalValueUSD a) "USDC"
                  == 1 # 3).
  { unfold valueShare. rewrite Hpos, Htotal. reflexivity. }
  assert (Husdt : valueShare samplePrices (balances bridgedPortfolio) (totalValueUSD a) "USDT"
                  == 0).
  { unfold valueShare. rewrite Hpos, Htotal. reflexivity. }
  destruct (Hshares "USDC" 0) as [Hc Hd]; [cbn; auto|].
  destruct (Hshares "USDT" 1) as [Hc' Hd']; [cbn; auto|].
  split; [rewrite Hc; exact Husdc|].
  split; [rewrite Hd, Husdc; reflexivity|].
  split; [rewrite Hc'; exact Husdt|].
  split; [rewrite Hd', Husdt; reflexivity|].
  apply Hneeds. right. exists "USDT", 1. split; [cbn; auto|].
  rewrite Husdt. reflexivity.
Defined.

Lemma planned_trades_reach_the_minimum_witness :
  exists a t,
    analyzeAllocation samplePortfolio samplePrices sampleConfig = Ok a /\
    In t (rebalancingPlan a) /\
    minTradeValueUSD sampleConfig <= differenceValueUSD t.
Proof.
  assert (Hrun : exists a t,
             analyzeAllocation samplePortfolio samplePrices sampleConfig = Ok a /\
             In t (rebalancingPlan a)).
  { do 2 eexists. split; [vm_compute; reflexivity|]. left. reflexivity. }
  destruct Hrun as (a & t & Ha & Ht). exists a, t.
  split; [exact Ha|]. split; [exact Ht|].
  exact (proj1 (planned_trades_reach_the_minimum samplePortfolio samplePrices sampleConfig
                  a t Ha Ht)).
Defined.

Lemma workflow_makes_no_self_trade_witness :
  exists r tr',
    recallTradingWorkflow sampleEnv silentMarket sampleNumberToString noPercentInput []
    = (r, tr') /\
    (0 < countEvents isPost tr')%nat /\
    noSelfTradeSince [] tr'.
Proof.
  do 2 eexists. split; [vm_compute; reflexivity|].
  split; [vm_compute; lia|].
  eapply (workflow_makes_no_self_trade sampleEnv silentMarket sampleNumberToString
            noPercentInput []).
  - intros tr bs E. inversion E; subst; clear E.
    intros b Hb. simpl in Hb. destruct Hb as [<-|[<-|[]]];
      (split; [simpl; auto | discriminate]).
  - vm_compute. reflexivity.
Defined.

Lemma chain_analysis_step_outcomes_witness :
  exists out tr',
    analyzeChainDistributionStep sampleEnv silentMarket samplePrices sampleConfig []
    = (Ok out, tr') /\
    countEvents isPost tr' = 0%nat /\
    distributionPrices out = samplePrices.
Proof.
  assert (Hrun : exists out tr',
             analyzeChainDistributionStep sampleEnv silentMarket samplePrices sampleConfig []
             = (Ok out, tr')).
  { do 2 eexists. vm_compute. reflexivity. }
  destruct Hrun as (out & tr' & Hrun). exists out, tr'. split; [exact Hrun|].
  destruct (chain_analysis_step_outcomes sampleEnv silentMarket samplePrices sampleConfig
              [] (Ok out) tr' Hrun) as (Hposts & Hprices & _).
  split; [exact Hposts | exact Hprices].
Defined.

Lemma final_allocation_is_over_targets_witness :
  NoDup (keys DEFAULT_TARGET_ALLOCATION) /\
  exists final,
    finalAllocationOf samplePrices DEFAULT_TARGET_ALLOCATION [("USDT", 500); ("DAI", 30)]
    = Ok final /\
    sumQ (map snd final) == 1.
Proof.
  assert (Hnd : NoDup (keys DEFAULT_TARGET_ALLOCATION)).
  { repeat constructor; cbn [In]; intuition discriminate. }
  split; [exact Hnd|].
  destruct (final_allocation_is_over_targets samplePrices DEFAULT_TARGET_ALLOCATION
              [("USDT", 500); ("DAI", 30)] Hnd) as (final & E & _ & _ & Hsum & _).
  exists final. split; [exact E|]. apply Hsum. reflexivity.
Defined.
